(* ===== verification/_CoqProject ===== *)
-Q . S2P
Prelude.v
World.v
External.v
Examples.v
AtomicFile.v
Nodes.v
Frames.v
Handles.v
Config.v
Messages.v
VaultFormat.v
Capability.v
LeaseMeta.v
VaultStore.v
Transaction.v
Paths.v
OpModel.v
OpJournal.v
OpRecovery.v
Coordinator.v
CommitProtocol.v
AuditLog.v
AuditChain.v
Protocol.v
Group.v
Handlers.v
Confirm.v
Chunks.v
Delivery.v
AuditSinkImpl.v
Monitor.v
App.v
Removal.v
AppInvariant.v
Identity.v
Consent.v
Restore.v
HostLoop.v
Webauthn.v
Tpm.v
LocalSecretTpm.v
KekTpm.v
AuthorizerTpm.v
PinPrototype.v
LinuxBackends.v
HelloAuthorizer.v
WindowsKeys.v
WindowsFiles.v
ProcessObserver.v
Update.v
EntryPoint.v
LinuxHost.v
TpmProbe.v
ProbeSafety.v
WebauthnProbe.v
