(* ===== verification/Prelude.v ===== *)
(** * FURSOY Vault native host: verification library

    FURSOY Vault keeps the session cookies of a browser in an encrypted vault while
    they are not in use. The browser extension (src/extension) decides when; the
    native host (src/native-host, Rust) owns the vault, the keys, the journal, the
    audit log and the right to open a vault. This library models the host. Source
    paths below are relative to src/native-host/src/.

    ** How the host works, and where it is modelled

    The browser starts the program (bin/fursoy-vault-host.rs: EntryPoint), which
    exchanges length-prefixed JSON envelopes with the extension over its standard
    streams (protocol/: Messages, Protocol; host_loop.rs and instance_lock.rs:
    HostLoop). The application (dispatcher.rs, [NativeHostApp]: App) keeps one
    runtime per account group ([GroupRuntime]: Group for its state, Handlers for
    every message). A group moves through lease states (lease/metadata.rs:
    LeaseMeta). To evict, the extension sends a snapshot of the cookies in chunks;
    the host seals it (vault/format.rs, payload.rs, crypto/aead.rs: VaultFormat),
    prepares the write (transaction.rs, vault/store.rs: Transaction, VaultStore),
    records it in the journal (operation/: OpModel, OpJournal, OpRecovery), commits
    it through the coordinator (operation/coordinator.rs: Coordinator), and only
    then tells the browser that the cookies may be removed. To inject, the host
    spends a capability that the platform signed after it verified the user
    (crypto/capability.rs, lease/state_machine.rs, lease/store.rs: Capability).
    Every step is recorded in a chained, authenticated log (audit.rs: AuditLog).
    Files are written by one routine (atomic_file.rs: AtomicFile) to the places
    that paths.rs names (Paths); the groups come from config.rs (Config). The text
    that paths.rs, atomic_file.rs and instance_lock.rs have for Windows alone is in
    WindowsFiles.

    What the platform provides is behind interfaces with one backend per system.
    On Linux a TPM holds the keys: Tpm has the sessions, LocalSecretTpm
    (local_secret/linux.rs), KekTpm (crypto/platform_kek/linux.rs) and
    AuthorizerTpm (crypto/authorizer/linux.rs) their three users; Handles says what it
    means that a computation gives back the handles it acquires. On Windows it is
    Hello (crypto/authorizer/windows.rs and crypto/webauthn_codec.rs:
    HelloAuthorizer, Webauthn), NCrypt and DPAPI (crypto/platform_kek/windows.rs,
    local_secret/windows.rs: WindowsKeys). Two more parts exist in the Windows
    build only: the observer of remotely debugged browsers (monitor/process.rs:
    ProcessObserver, beside the queue of monitor/mod.rs: Monitor) and the update of
    the installation (update.rs: Update).

    Three programs of src/poc are the experiments that the backends grew from, in
    Rust as well: PinPrototype (linux-authorizer), TpmProbe with ProbeSafety
    (tpm-probe), and WebauthnProbe (webauthn-probe).

    ** Interfaces

    A type class states what one component promises another; the clients are proved
    against the class and the implementations discharge its laws:
    - [AuditSink] (Group), by [AuditLogger] in AuditSinkImpl;
    - [PlatformAuthorizer] and [UserVerification] (Capability), by AuthorizerTpm and
      HelloAuthorizer;
    - [KekBackend] (External), by KekTpm and WindowsKeys, and [KekKeeps], that an
      unwrapped key is the wrapped one, by KekTpm;
    - [LocalSecret] (External), by LocalSecretTpm and WindowsKeys;
    - [CapabilityLedgerStore] (Capability), by the file of lease/store.rs.
    LinuxBackends collects the Linux side, [EntryPoint.linux_main] is the program with
    those backends chosen, and LinuxHost has the theorems about its application.
    Code outside the repository is a class without an implementation: SHA-256,
    AES-GCM, serde per type (with [JsonF64] for the one field that it may change), UUID text and the public suffix list (External,
    Config), the TPM ([Tss]), programs ([Commands]), P-256 ([EcdsaP256]), WebAuthn,
    BCrypt, NCrypt, DPAPI, WMI and COM, Authenticode ([TrustHost]), Velopack and the
    start of processes, [flock]. Their laws are
    documented behaviour, named where they are used, and Examples and the ends of
    the files have concrete services that satisfy them. The experiments have theirs:
    [ProbeSystem], [WebAuthnPlatform], [ProtoEnv], [RegistryJson].

    ** The model of effects

    World has the state and error monad [M S A]: a computation may change an object
    [S] (the [&mut self]) and the world, and may return, fail, panic, or end with
    the process. The world is the file system - a map from paths, lists of
    components, to files and directories - and an environment that decides the fate
    of every I/O step: success, an error (a write may leave any prefix), or death of
    the process. The environment also answers for the clock and for random bytes.
    Theorems quantify over it, so they hold for every schedule of faults. Renaming a
    file is atomic; the loss of written but unflushed data is not modelled beyond
    the errors of the flushes. [Path::exists] and [is_file] answer false when the
    metadata call fails, as in Rust ([seen_file], [metadata_answers]); several findings
    come from this. [new_v4]
    cannot fail. Symbolic links do not exist, and a path that exists is its own
    canonical form, except where ProcessObserver asks the system.

    [later w w'] says that [w'] comes after [w] in one run; the contracts of all
    services include it, so that a theorem can say when something happened.
    [wp m Q E C s w] says that a run does not panic and what holds when it returns
    ([Q]), fails ([E]) or dies ([C]); [returns] allows a panic. Frames ([calm],
    [framed]), Nodes ([kept]), Handles ([balanced]), AppInvariant ([preserves]),
    Consent ([keeping]) and AuditSinkImpl ([stays]) are predicates with a rule per
    construct and a tactic that follows the text of a program.

    ** What is proved

    - Durability: AtomicFile replaces a file as a whole or not at all, and reports
      which. CommitProtocol composes journal, vault and coordinator: a commit that
      reports success is on disk, and a restart after any failure or death
      classifies the interrupted operation by the file and settles it. Delivery and
      Confirm carry this to the messages: the browser is told to remove cookies only
      when the vault holds them.
    - Removal: adding, removing and recovering groups keeps vault and configuration
      together across crashes (VaultStore, Removal). Every message keeps the host
      able to start again and to serve each of its groups (AppInvariant), with a
      runtime whose vault, capabilities, lease and journal are that group's own
      (Identity).
    - Authority: a capability is used once, for what was reserved, over the whole life
      of the ledger's file, through failures, deaths and restarts (Capability);
      injection needs it (Transaction); a signature needs the PIN, or the user's
      presence at Hello, given in that very call, and a refusal never leads to a new
      credential (AuthorizerTpm, HelloAuthorizer). Consent carries this through the
      application for any authorizer, and LinuxHost states it for the Linux program:
      of all messages, only an injection lets cookies out and only a recovery hands
      over a profile, each after the user was verified for exactly this; its example
      runs both, from the sealed vault to the answer, on a small TPM.
    - The whole way: the cookies that the host confirmed to the browser, after which
      the browser removes them, are exactly the cookies that a later injection sends
      back, in this process or in another, as long as the vault's file and the key's
      file stay as they were (Restore; LinuxHost for the TPM, with a run of the
      eviction, the removal and the injection). The one thing that may change is an
      expiration date, an [f64] that JSON need not give back to the last bit:
      [reread_cookies] (VaultFormat) says what it becomes.
    - Refinement: OpJournal and Capability refine abstract transition systems;
      AuditSinkImpl, LinuxBackends and WindowsKeys implement the interfaces.
    - Integrity: what the verification of the audit log accepts and what recording
      adds (AuditChain); the exact meaning of the validations (Config, OpModel); the
      fingerprints, tags and signed bytes determine what they are made of.
    - Round trips: vault records, sealed vaults, frames, TPM and DPAPI secrets,
      wrapped keys, signatures.
    - The connection: it ends, and all it writes is one numbered stream of frames
      (HostLoop); the standard output carries nothing else (EntryPoint).
    - Resources: every TPM session gives its handles back in order (LinuxBackends),
      and so do the lock and the flush of Windows (WindowsFiles); the monitor's queue
      is bounded, also while the observer's thread and the host's interleave (Monitor,
      ProcessObserver).
    - Windows: an alert about remote debugging is about a trusted Chrome process
      (ProcessObserver); an update waits until no profile has exposed cookies or an
      operation in progress (Update).
    - The experiments: what the prototype of the PIN-gated key promises for each of
      its commands (PinPrototype); that the probe of the key providers does not panic
      and frees or deletes whatever it opened (ProbeSafety); that the cleanup deletes
      only the credentials of the other probe (WebauthnProbe).
    Where the code has a flaw the model has it too; the theorems named after a flaw
    exhibit it.

    ** Bounds and fuel

    Loops over data that shrinks are structural. [connection_loop] gets one unit of
    fuel more than there are input bytes, and [connection_terminates] shows that it
    is never spent; the walk over a profile's directory ([visit], App) gets one unit
    more than there are nodes; the parser of COSE maps ([read_fields], Webauthn) one
    more than there are bytes; [hex_digits] eight, for 32 bits. The observer's loops
    have no bound in the code: their fuel is a parameter, and the theorems hold for
    every amount. The probe of the key providers takes the number of its measurements
    from the command line; its theorem asks for at most 2^57 ([modest]), so that the
    percentile's multiplication by 100 stays in 64 bits. Machine integers are natural
    numbers with their checks and truncations written out ([checked_add],
    [saturating_add], [N.modulo]).

    ** Not modelled

    The extension, the website and the two experiments in TypeScript
    (src/extension, src/website, src/poc/cookie-probe, src/poc/session-probe), which
    are other programs in another language; the tests. Of the Rust programs: the
    wiping of buffers from memory; the [Mutex] of the audit log, of which there is
    one user; the start and the join of the observer's thread, and its COM
    apartment; the texts of the errors. The application is modelled with the Unix
    text of paths.rs, instance_lock.rs and atomic_file.rs; the Windows text stands
    beside it in WindowsFiles. The order of a directory listing is that of the map
    of the file system, which the theorems do not use.

    ** Where this goes next

    The eviction theorems of Delivery and Confirm take what the coordinator and the
    audit log know at the start of a message as a hypothesis; as an invariant of the
    application, like the one of Identity, it would hold from the start of the
    program. On Windows, [KekKeeps] for NCrypt would give the statement of Restore
    for that host too. *)

From Stdlib Require Export Strings.Byte String NArith Lia.
From stdpp Require Export base numbers gmap strings fin_maps pretty list.

Global Open Scope list_scope.
Global Open Scope N_scope.
#[export] Set Default Goal Selector "!".
#[export] Set Warnings "-clear-no-such-hyp,-register-all".

(** ** Bytes and machine integers

    A [Vec<u8>] or [&[u8]] is a list of [Init.Byte.byte]; an unsigned machine
    integer is an [N] whose width is written at each operation that can leave
    it ([checked_add]). *)

Abbreviation byte := Byte.byte.
Abbreviation bytes := (list Byte.byte).

#[export] Instance byte_eq_dec : EqDecision byte := Byte.byte_eq_dec.

#[export] Program Instance byte_countable : Countable byte :=
  inj_countable Byte.to_N Byte.of_N _.
Next Obligation. intros x. apply Byte.of_to_N. Qed.

Definition u8_of_N (n : N) : byte := default Byte.x00 (Byte.of_N (n mod 256)).

Definition u16_max : N := 2 ^ 16 - 1.
Definition u32_max : N := 2 ^ 32 - 1.
Definition u64_max : N := 2 ^ 64 - 1.
Definition i64_max : N := 2 ^ 63 - 1.

(** [uN::checked_add]. *)
Definition checked_add (max a b : N) : option N :=
  if a + b <=? max then Some (a + b) else None.

(** [uN::saturating_add], [uN::saturating_sub]. *)
Definition saturating_add (max a b : N) : N := N.min max (a + b).
Definition saturating_sub (a b : N) : N := a - b.

(** The byte length of a buffer as a [usize]. *)
Definition len {A} (l : list A) : N := N.of_nat (length l).

(** [str::as_bytes] of a literal or of a value. *)
Definition str_bytes (s : string) : bytes := list_byte_of_string s.

(** [uN::to_le_bytes] / [uN::from_le_bytes], [to_be_bytes] / [from_be_bytes]. *)
Fixpoint le_bytes (n : nat) (v : N) : bytes :=
  match n with
  | O => []
  | S n' => u8_of_N v :: le_bytes n' (v / 256)
  end.

Fixpoint le_value (bs : bytes) : N :=
  match bs with
  | [] => 0
  | b :: bs' => Byte.to_N b + 256 * le_value bs'
  end.

Definition be_bytes (n : nat) (v : N) : bytes := rev (le_bytes n v).
Definition be_value (bs : bytes) : N := le_value (rev bs).

Lemma byte_to_N_lt (b : byte) : Byte.to_N b < 256.
Proof. destruct b; reflexivity. Qed.

Lemma to_N_u8_of_N (n : N) : Byte.to_N (u8_of_N n) = n mod 256.
Proof.
  unfold u8_of_N. destruct (Byte.of_N (n mod 256)) as [b|] eqn:E; simpl.
  - by apply Byte.to_of_N_iff.
  - apply Byte.of_N_None_iff in E.
    pose proof (N.mod_upper_bound n 256). lia.
Qed.

Lemma u8_of_N_to_N (b : byte) : u8_of_N (Byte.to_N b) = b.
Proof. destruct b; reflexivity. Qed.

Lemma length_le_bytes (n : nat) (v : N) : length (le_bytes n v) = n.
Proof. revert v; induction n; intros; simpl; auto. Qed.

Lemma length_be_bytes (n : nat) (v : N) : length (be_bytes n v) = n.
Proof. unfold be_bytes. by rewrite length_rev, length_le_bytes. Qed.

Lemma le_value_le_bytes (n : nat) (v : N) : v < 256 ^ N.of_nat n -> le_value (le_bytes n v) = v.
Proof.
  revert v; induction n as [|n IH]; intros v Hv; simpl.
  - rewrite N.pow_0_r in Hv. lia.
  - rewrite to_N_u8_of_N, IH.
    + rewrite (N.div_mod v 256) at 3; lia.
    + rewrite Nat2N.inj_succ, N.pow_succ_r' in Hv.
      apply N.Div0.div_lt_upper_bound; lia.
Qed.

Lemma le_value_bound (bs : bytes) : le_value bs < 256 ^ len bs.
Proof.
  unfold len. induction bs as [|b bs IH]; [reflexivity|].
  cbn [le_value length]. rewrite Nat2N.inj_succ, N.pow_succ_r'.
  pose proof (byte_to_N_lt b). nia.
Qed.

Lemma le_bytes_le_value (bs : bytes) : le_bytes (length bs) (le_value bs) = bs.
Proof.
  induction bs as [|b bs IH]; [done|]. cbn [length le_bytes le_value].
  pose proof (byte_to_N_lt b).
  assert (Hm : u8_of_N (Byte.to_N b + 256 * le_value bs) = b).
  { rewrite <- (u8_of_N_to_N b) at 2. unfold u8_of_N.
    f_equal. f_equal.
    rewrite (N.add_comm (Byte.to_N b)), N.mul_comm, N.add_comm, N.Div0.mod_add. done. }
  rewrite Hm. f_equal.
  replace ((Byte.to_N b + 256 * le_value bs) / 256) with (le_value bs); [done|].
  rewrite N.mul_comm, N.div_add by lia. rewrite N.div_small by lia. lia.
Qed.

Lemma be_value_be_bytes (n : nat) (v : N) : v < 256 ^ N.of_nat n -> be_value (be_bytes n v) = v.
Proof. intros. unfold be_value, be_bytes. rewrite rev_involutive. by apply le_value_le_bytes. Qed.

Lemma be_bytes_be_value (bs : bytes) : be_bytes (length bs) (be_value bs) = bs.
Proof.
  unfold be_value, be_bytes. rewrite <- (length_rev bs), le_bytes_le_value.
  apply rev_involutive.
Qed.

(** ** Errors and results *)

(** [std::io::ErrorKind], the kinds the host distinguishes or produces. *)
Inductive IoErrorKind :=
  | NotFound
  | AlreadyExists
  | UnexpectedEof
  | InvalidData
  | OtherIo.

(** native-host/src/error.rs.  [Windows] exists in a Windows build and [Tpm] in
    a Unix build; the model carries both so that one type serves both. The
    payload of a provider error is a number, that of a JSON error is dropped:
    the host never reads them, but for the [HRESULT] of a Windows error. *)
Inductive FcpError :=
  | Io (kind : IoErrorKind)
  | Json
  | Windows (code : N)
  | Tpm (code : N)
  | Crypto (message : string)
  | Format (message : string)
  | Protocol (message : string)
  | Capability (message : string)
  | UserActionable (code : string)
  | UserVerificationNotConfigured.

#[export] Instance io_error_kind_eq_dec : EqDecision IoErrorKind.
Proof. solve_decision. Defined.
#[export] Instance fcp_error_eq_dec : EqDecision FcpError.
Proof. solve_decision. Defined.

(** [Result<T, E>] (the error type comes first, so that [Result E] is a monad), and [FcpResult<T>]. *)
Inductive Result (E A : Type) :=
  | Ok (a : A)
  | Err (e : E).
Arguments Ok {E A} a.
Arguments Err {E A} e.

Abbreviation FcpResult A := (Result FcpError A).

#[export] Instance result_eq_dec {A E} `{EqDecision A, EqDecision E} : EqDecision (Result E A).
Proof. solve_decision. Defined.

Section ResultMonad.
Context {E : Type}.
#[global] Instance result_ret : MRet (Result E) := fun _ a => Ok a.
#[global] Instance result_bind : MBind (Result E) := fun _ _ f r =>
  match r with Ok a => f a | Err e => Err e end.
End ResultMonad.

Definition is_ok {A E} (r : Result E A) : bool := match r with Ok _ => true | Err _ => false end.

(** [Option::ok_or] and [if condition { return Err(e) }]. *)
Definition ok_or {A E} (o : option A) (e : E) : Result E A :=
  match o with Some a => Ok a | None => Err e end.

Definition guard_err {E} (bad : bool) (e : E) : Result E unit :=
  if bad then Err e else Ok tt.

Definition map_err {A E F} (f : E -> F) (r : Result E A) : Result F A :=
  match r with Ok a => Ok a | Err e => Err (f e) end.

(** [iter().map(f).collect::<Result<Vec<_>, _>>()]: stops at the first error. *)
Fixpoint collect_results {A B E} (f : A -> Result E B) (l : list A) : Result E (list B) :=
  match l with
  | [] => Ok []
  | x :: l' =>
      match f x with
      | Err e => Err e
      | Ok y => match collect_results f l' with Err e => Err e | Ok ys => Ok (y :: ys) end
      end
  end.

(** ** Strings *)

(** [str::starts_with], [str::ends_with], [str::strip_suffix], [str::contains]. *)
Definition starts_with (p s : string) : bool := String.prefix p s.

Definition ends_with (suffix s : string) : bool :=
  (String.length suffix <=? String.length s)%nat &&
  String.eqb (String.substring (String.length s - String.length suffix) (String.length suffix) s) suffix.

Definition strip_prefix (p s : string) : option string :=
  if String.prefix p s
  then Some (String.substring (String.length p) (String.length s - String.length p) s)
  else None.

Definition strip_suffix (suffix s : string) : option string :=
  if ends_with suffix s
  then Some (String.substring 0 (String.length s - String.length suffix) s)
  else None.

Definition str_contains (needle s : string) : bool :=
  match String.index 0 needle s with Some _ => true | None => false end.

Fixpoint str_forallb (f : Ascii.ascii -> bool) (s : string) : bool :=
  match s with
  | EmptyString => true
  | String c s' => f c && str_forallb f s'
  end.

Definition str_len (s : string) : N := N.of_nat (String.length s).

Definition is_ascii_lowercase (c : Ascii.ascii) : bool :=
  let n := Ascii.N_of_ascii c in (97 <=? n) && (n <=? 122).
Definition is_ascii_uppercase (c : Ascii.ascii) : bool :=
  let n := Ascii.N_of_ascii c in (65 <=? n) && (n <=? 90).
Definition is_ascii_digit (c : Ascii.ascii) : bool :=
  let n := Ascii.N_of_ascii c in (48 <=? n) && (n <=? 57).

Definition ascii_lower (c : Ascii.ascii) : Ascii.ascii :=
  if is_ascii_uppercase c then Ascii.ascii_of_N (Ascii.N_of_ascii c + 32) else c.

Fixpoint to_ascii_lowercase (s : string) : string :=
  match s with
  | EmptyString => EmptyString
  | String c s' => String (ascii_lower c) (to_ascii_lowercase s')
  end.

(** [str::from_utf8] accepts the bytes. *)
Definition utf8_continuation (x : N) : bool := (128 <=? x) && (x <=? 191).

Fixpoint utf8_valid (fuel : nat) (b : list N) : bool :=
  match fuel, b with
  | _, [] => true
  | O, _ => false
  | S fuel', x :: rest =>
      if x <? 128 then utf8_valid fuel' rest
      else match rest with
      | [] => false
      | y :: rest2 =>
          if (194 <=? x) && (x <=? 223) then utf8_continuation y && utf8_valid fuel' rest2
          else match rest2 with
          | [] => false
          | z :: rest3 =>
              if (224 <=? x) && (x <=? 239) then
                (if x =? 224 then (160 <=? y) && (y <=? 191)
                 else if x =? 237 then (128 <=? y) && (y <=? 159)
                 else utf8_continuation y)
                && utf8_continuation z && utf8_valid fuel' rest3
              else match rest3 with
              | [] => false
              | u :: rest4 =>
                  (if x =? 240 then (144 <=? y) && (y <=? 191)
                   else if x =? 244 then (128 <=? y) && (y <=? 143)
                   else (241 <=? x) && (x <=? 243) && utf8_continuation y)
                  && utf8_continuation z && utf8_continuation u && utf8_valid fuel' rest4
              end
          end
      end
  end.

Definition is_utf8 (b : bytes) : bool := utf8_valid (length b) (Byte.to_N <$> b).

(** ** Shared lemmas on lists and options *)

Lemma checked_add_Some (max a b c : N) :
  checked_add max a b = Some c -> c = a + b /\ a + b <= max.
Proof. unfold checked_add. destruct (N.leb_spec (a + b) max); naive_solver. Qed.

Lemma checked_add_None (max a b : N) : checked_add max a b = None -> max < a + b.
Proof. unfold checked_add. destruct (N.leb_spec (a + b) max); naive_solver. Qed.

Lemma len_app {A} (l1 l2 : list A) : len (l1 ++ l2) = len l1 + len l2.
Proof. unfold len. rewrite length_app. lia. Qed.

Lemma take_length_app {A} (l1 l2 : list A) : take (length l1) (l1 ++ l2) = l1.
Proof. by rewrite take_app_length. Qed.

Lemma drop_length_app {A} (l1 l2 : list A) : drop (length l1) (l1 ++ l2) = l2.
Proof. by rewrite drop_app_length. Qed.

Lemma find_app_l {A} (f : A -> bool) (l1 l2 : list A) x :
  List.find f l1 = Some x -> List.find f (l1 ++ l2) = Some x.
Proof. induction l1 as [|a l1 IH]; simpl; [done|]. by destruct (f a). Qed.

Lemma find_app_r {A} (f : A -> bool) (l1 l2 : list A) :
  List.find f l1 = None -> List.find f (l1 ++ l2) = List.find f l2.
Proof. induction l1 as [|a l1 IH]; simpl; [done|]. by destruct (f a). Qed.

Lemma string_app_length (s t : string) :
  String.length (s +:+ t) = (String.length s + String.length t)%nat.
Proof. induction s as [|c s IH]; [done|]. simpl. by f_equal. Qed.

Lemma string_app_nonempty_ne (s t : string) : t <> EmptyString -> s +:+ t <> s.
Proof.
  intros Ht Heq. apply Ht. apply (f_equal String.length) in Heq.
  rewrite string_app_length in Heq. destruct t; [done|]. simpl in Heq. lia.
Qed.

Lemma string_app_cons (c : Ascii.ascii) (s t : string) : String c s +:+ t = String c (s +:+ t).
Proof. done. Qed.

Lemma string_app_nil_r (s : string) : s +:+ EmptyString = s.
Proof. induction s as [|c s IH]; [done|]. by rewrite string_app_cons, IH. Qed.

Lemma string_app_assoc (s t u : string) : (s +:+ t) +:+ u = s +:+ (t +:+ u).
Proof. induction s as [|c s IH]; [done|]. by rewrite !string_app_cons, IH. Qed.

Lemma string_app_inj_l (s t u : string) : s +:+ t = s +:+ u -> t = u.
Proof. induction s as [|c s IH]; [done|]. rewrite !string_app_cons. intros [= H]. by apply IH. Qed.

Lemma substring_full (s : string) : String.substring 0 (String.length s) s = s.
Proof. induction s as [|c s IH]; [done|]. simpl. by rewrite IH. Qed.

Lemma substring_app_r (p s : string) :
  String.substring (String.length p) (String.length s) (p +:+ s) = s.
Proof. induction p as [|c p IH]; [apply substring_full|exact IH]. Qed.

Lemma substring_split (n : nat) (s : string) :
  (n <= String.length s)%nat ->
  s = String.substring 0 n s +:+ String.substring n (String.length s - n) s.
Proof.
  revert n; induction s as [|c s IH]; intros [|n] Hn; simpl in Hn; [done|lia| |].
  - rewrite Nat.sub_0_r, substring_full. done.
  - simpl. rewrite string_app_cons, <- IH by lia. done.
Qed.

Lemma ends_with_spec (suffix s : string) :
  ends_with suffix s = true <-> exists p, s = p +:+ suffix.
Proof.
  unfold ends_with. rewrite andb_true_iff, Nat.leb_le, String.eqb_eq. split.
  - intros [Hle Heq].
    exists (String.substring 0 (String.length s - String.length suffix) s).
    pose proof (substring_split (String.length s - String.length suffix) s) as Hs.
    replace (String.length s - (String.length s - String.length suffix))%nat
      with (String.length suffix) in Hs by lia.
    rewrite Heq in Hs. apply Hs. lia.
  - intros [p ->]. rewrite string_app_length. split; [lia|].
    replace (String.length p + String.length suffix - String.length suffix)%nat with (String.length p) by lia.
    apply substring_app_r.
Qed.

(** Two suffixes of one string: the shorter is a suffix of the longer. *)
Lemma string_suffix_split (p1 s1 p2 s2 : string) :
  p1 +:+ s1 = p2 +:+ s2 ->
  (exists q, s1 = q +:+ s2) \/ (exists q, s2 = q +:+ s1).
Proof.
  revert p2; induction p1 as [|c p1 IH]; intros p2 Heq.
  - left. by exists p2.
  - destruct p2 as [|d p2].
    + right. by exists (String c p1).
    + rewrite !string_app_cons in Heq. injection Heq as _ Heq. by eapply IH.
Qed.

Lemma substring_app_l (p s : string) : String.substring 0 (String.length p) (p +:+ s) = p.
Proof. induction p as [|c p IH]; [by destruct s|]. rewrite string_app_cons. cbn. by rewrite IH. Qed.

Lemma strip_suffix_app (p suffix : string) : strip_suffix suffix (p +:+ suffix) = Some p.
Proof.
  unfold strip_suffix. assert (ends_with suffix (p +:+ suffix) = true) as -> by (apply ends_with_spec; by exists p).
  rewrite string_app_length.
  replace (String.length p + String.length suffix - String.length suffix)%nat with (String.length p) by lia.
  f_equal. apply substring_app_l.
Qed.

Lemma length_list_byte_of_string (s : string) : length (list_byte_of_string s) = String.length s.
Proof.
  unfold list_byte_of_string. rewrite length_map. induction s as [|c s IH]; [done|]. cbn. by f_equal.
Qed.

(** ** Automation *)

Create HintDb vault discriminated.

(** [simp] normalises monadic results and closes contradictory branches. *)
Ltac simp :=
  repeat match goal with
    | H : Ok _ = Ok _ |- _ => injection H as H
    | H : Err _ = Err _ |- _ => injection H as H
    | H : Ok _ = Err _ |- _ => discriminate H
    | H : Err _ = Ok _ |- _ => discriminate H
    | H : Some _ = Some _ |- _ => injection H as H
    | H : Some _ = None |- _ => discriminate H
    | H : None = Some _ |- _ => discriminate H
    | H : exists _, _ |- _ => destruct H
    | H : _ /\ _ |- _ => destruct H
    end; subst.

Lemma bind_Ok {E A B} (r : Result E A) (f : A -> Result E B) b :
  (r ≫= f) = Ok b <-> exists a, r = Ok a /\ f a = Ok b.
Proof. unfold mbind, result_bind. split; [|by intros (a & -> & Hf)].
  destruct r as [a|e]; [by exists a|done].
Qed.

Lemma guard_err_ok {E} (b : bool) (e : E) u : guard_err b e = Ok u <-> b = false.
Proof. destruct b, u; cbn; split; congruence. Qed.

Lemma map_err_Ok {A E F} (f : E -> F) (r : Result E A) a : map_err f r = Ok a <-> r = Ok a.
Proof. destruct r; cbn; split; congruence. Qed.

Lemma ok_or_Ok {A E} (o : option A) (e : E) a : ok_or o e = Ok a <-> o = Some a.
Proof. destruct o; cbn; split; congruence. Qed.

(** [res_inv H] takes apart the binds of [H : _ = Ok _], turning the guards
    that passed into boolean equations. *)
Ltac res_inv H :=
  repeat match type of H with
  | (_ ≫= _) = Ok _ =>
      let a := fresh "r" in
      let Ha := fresh "Hr" in
      apply bind_Ok in H as (a & Ha & H);
      try (apply guard_err_ok in Ha); try (apply ok_or_Ok in Ha); try (apply map_err_Ok in Ha)
  end;
  try (apply guard_err_ok in H); try (apply ok_or_Ok in H); try (apply map_err_Ok in H).

(** Case analysis on the scrutinee of a match in a hypothesis. *)
Ltac case_hyp H :=
  repeat match type of H with
    | context [match ?x with _ => _ end] => let E := fresh "E" in destruct x eqn:E; try discriminate H
    end.

Ltac bool_to_prop :=
  repeat match goal with
    | H : (_ || _)%bool = true |- _ => apply orb_true_iff in H
    | H : (_ || _)%bool = false |- _ => apply orb_false_iff in H; destruct H
    | H : (_ && _)%bool = true |- _ => apply andb_true_iff in H; destruct H
    | H : (_ && _)%bool = false |- _ => apply andb_false_iff in H
    | H : negb _ = true |- _ => apply negb_true_iff in H
    | H : negb _ = false |- _ => apply negb_false_iff in H
    | H : (_ <=? _) = true |- _ => apply N.leb_le in H
    | H : (_ <=? _) = false |- _ => apply N.leb_gt in H
    | H : (_ <? _) = true |- _ => apply N.ltb_lt in H
    | H : (_ <? _) = false |- _ => apply N.ltb_ge in H
    | H : (_ =? _) = true |- _ => apply N.eqb_eq in H
    | H : (_ =? _) = false |- _ => apply N.eqb_neq in H
    | H : bool_decide _ = true |- _ => apply bool_decide_eq_true in H
    | H : bool_decide _ = false |- _ => apply bool_decide_eq_false in H
    end.
