(* ===== verification/World.v ===== *)
(** * The effects of the host: files, faults, clock and randomness

    The host is single-threaded, synchronous code over the standard library's
    [fs].  Its effects are modelled by a state and error monad over an explicit
    [World]: the file system, and an environment that decides, for each I/O
    step, whether the step succeeds, fails with an I/O error (possibly after a
    partial write), or whether the process dies there ([Killed]).  Theorems
    quantify over the environment, so they hold for every schedule of faults.

    [M S A] is a computation of type [FcpResult<A>] that may update a local
    object of type [S] (the [&mut self] of the method) and the world.  Errors
    keep the updates made before them, as in Rust; a crash keeps only the
    world. *)

From S2P Require Import Prelude.

(** ** Paths and file system *)

(** A path is the list of its components. *)
Abbreviation Path := (list string).

Inductive FsNode :=
  | File (content : bytes)
  | Dir.

(** [Path::join], [Path::parent], [Path::file_name], [Path::with_file_name]. *)
Definition path_join (p : Path) (name : string) : Path := p ++ [name].
Definition path_parent (p : Path) : option Path :=
  match p with [] => None | _ => Some (removelast p) end.
Definition path_file_name (p : Path) : option string := list.last p.
Definition with_file_name (p : Path) (name : string) : Path := removelast p ++ [name].

(** [Path::extension] is ["json"], for a file name. *)
Definition has_json_extension (name : string) : bool :=
  ends_with ".json" name && negb (String.eqb name ".json").

Inductive Fault :=
  | NoFault
  | IoFault (written : nat)
  | Killed (written : nat).

(** The environment: the fate of I/O step [n], and what the random source and
    the clock answer at step [n]. *)
Record Env := mkEnv {
  env_fault : nat -> Fault;
  env_random : nat -> N;
  env_clock_ms : nat -> N;
}.

Record World := mkWorld {
  w_fs : gmap Path FsNode;
  w_step : nat;
  w_env : Env;
}.

(** The content of a regular file. *)
Definition file_at (w : World) (p : Path) : option bytes :=
  match w_fs w !! p with Some (File b) => Some b | _ => None end.

Definition set_fs (fs : gmap Path FsNode) (w : World) : World :=
  mkWorld fs (w_step w) (w_env w).

(** ** The monad *)

Inductive Outcome (S A : Type) :=
  | Done (a : A) (s : S) (w : World)
  | Failed (e : FcpError) (s : S) (w : World)
  | Panicked (w : World)
  | Crashed (w : World).
Arguments Done {S A} a s w.
Arguments Failed {S A} e s w.
Arguments Panicked {S A} w.
Arguments Crashed {S A} w.

Definition M (S A : Type) : Type := S -> World -> Outcome S A.
Abbreviation IO A := (M unit A).

#[export] Instance M_ret {S} : MRet (M S) := fun _ a s w => Done a s w.
#[export] Instance M_bind {S} : MBind (M S) := fun _ _ f m s w =>
  match m s w with
  | Done a s' w' => f a s' w'
  | Failed e s' w' => Failed e s' w'
  | Panicked w' => Panicked w'
  | Crashed w' => Crashed w'
  end.

Section Combinators.
Context {S : Type}.

(** [return Err(e)]. *)
Definition throw {A} (e : FcpError) : M S A := fun s w => Failed e s w.
(** A pure [FcpResult] followed by [?]. *)
Definition lift {A} (r : FcpResult A) : M S A :=
  match r with Ok a => mret a | Err e => throw e end.
(** [if bad { return Err(e) }]. *)
Definition guard_not (bad : bool) (e : FcpError) : M S unit :=
  if bad then throw e else mret tt.
(** [Option::ok_or_else(..)?] and [Option::unwrap] / [expect]. *)
Definition ok_or_throw {A} (o : option A) (e : FcpError) : M S A := lift (ok_or o e).
Definition unwrap {A} (o : option A) : M S A :=
  match o with Some a => mret a | None => fun _ w => Panicked w end.

Definition get : M S S := fun s w => Done s s w.
Definition put (s' : S) : M S unit := fun _ w => Done tt s' w.
Definition modify (f : S -> S) : M S unit := fun s w => Done tt (f s) w.

(** Runs [m] and hands its result over as a value: [match m { Ok => .., Err => .. }]. *)
Definition try_ {A} (m : M S A) : M S (FcpResult A) := fun s w =>
  match m s w with
  | Done a s' w' => Done (Ok a) s' w'
  | Failed e s' w' => Done (Err e) s' w'
  | Panicked w' => Panicked w'
  | Crashed w' => Crashed w'
  end.

(** A computation that does not see the local object. *)
Definition io {A} (m : IO A) : M S A := fun s w =>
  match m tt w with
  | Done a _ w' => Done a s w'
  | Failed e _ w' => Failed e s w'
  | Panicked w' => Panicked w'
  | Crashed w' => Crashed w'
  end.

(** A method call on a field of the local object. *)
Definition zoom {T A} (get_ : S -> T) (set_ : T -> S -> S) (m : M T A) : M S A := fun s w =>
  match m (get_ s) w with
  | Done a t w' => Done a (set_ t s) w'
  | Failed e t w' => Failed e (set_ t s) w'
  | Panicked w' => Panicked w'
  | Crashed w' => Crashed w'
  end.

(** A block with a mutable local variable of type [T] that it returns. *)
Definition with_local {T A} (t0 : T) (m : M T A) : M S (FcpResult A * T) := fun s w =>
  match m t0 w with
  | Done a t w' => Done (Ok a, t) s w'
  | Failed e t w' => Done (Err e, t) s w'
  | Panicked w' => Panicked w'
  | Crashed w' => Crashed w'
  end.

(** [for x in l { body }]. *)
Fixpoint for_each {X} (l : list X) (body : X -> M S unit) : M S unit :=
  match l with
  | [] => mret tt
  | x :: l' => _ ← body x; for_each l' body
  end.
End Combinators.

(** ** Environment primitives *)

Definition tick (w : World) : World := mkWorld (w_fs w) (Datatypes.S (w_step w)) (w_env w).

(** One I/O step: the environment decides its fate. An injected fault is of a
    kind the host does not interpret; [NotFound] and [AlreadyExists] are only
    answered truthfully. *)
Definition io_step : IO bool := fun s w =>
  match env_fault (w_env w) (w_step w) with
  | NoFault => Done false s (tick w)
  | IoFault _ => Done true s (tick w)
  | Killed _ => Crashed w
  end.

Definition with_fault {A} (body : IO A) : IO A :=
  faulty ← io_step;
  if (faulty : bool) then throw (Io OtherIo) else body.

Definition get_fs : IO (gmap Path FsNode) := fun s w => Done (w_fs w) s w.
Definition put_fs (fs : gmap Path FsNode) : IO unit := fun s w => Done tt s (set_fs fs w).

(** [crate::audit::unix_ms]: the clock, which can fail. *)
Definition unix_ms : IO N := fun s w =>
  match env_fault (w_env w) (w_step w) with
  | NoFault => Done (env_clock_ms (w_env w) (w_step w) `mod` 2 ^ 64) s (tick w)
  | IoFault _ => Failed (Io InvalidData) s (tick w)
  | Killed _ => Crashed w
  end.

(** [crate::crypto::fill_random] on a buffer of [n] bytes. *)
Definition fill_random (n : nat) : IO bytes := fun s w =>
  match env_fault (w_env w) (w_step w) with
  | NoFault => Done (le_bytes n (env_random (w_env w) (w_step w))) s (tick w)
  | IoFault _ => Failed (Io OtherIo) s (tick w)
  | Killed _ => Crashed w
  end.

(** [Uuid::new_v4()]: infallible; the environment chooses the identifier. *)
Definition new_v4 : IO N := fun s w =>
  Done (env_random (w_env w) (w_step w) `mod` 2 ^ 128) s (tick w).

(** ** [std::fs] *)

(** Every prefix of a path, the path included. *)
Fixpoint path_prefixes (p : Path) : list Path :=
  match p with
  | [] => [[]]
  | c :: p' => [] :: ((fun q => c :: q) <$> path_prefixes p')
  end.

Definition make_dir (fs : gmap Path FsNode) (p : Path) : gmap Path FsNode :=
  match fs !! p with None => <[p := Dir]> fs | Some _ => fs end.

Definition is_file (n : option FsNode) : bool :=
  match n with Some (File _) => true | _ => false end.

Definition fs_create_dir_all (p : Path) : IO unit :=
  with_fault (
    fs ← get_fs;
    if existsb (fun q => is_file (fs !! q)) (path_prefixes p)
    then throw (Io OtherIo)
    else put_fs (foldl make_dir fs (path_prefixes p))).

(** [Path::exists]: an error while reading the metadata counts as absence. *)
Definition fs_exists (p : Path) : IO bool :=
  faulty ← io_step;
  if (faulty : bool) then mret false
  else fs ← get_fs; mret (bool_decide (is_Some (fs !! p))).

Definition fs_read (p : Path) : IO bytes :=
  with_fault (
    fs ← get_fs;
    match fs !! p with
    | Some (File b) => mret b
    | Some Dir => throw (Io OtherIo)
    | None => throw (Io NotFound)
    end).

(** [OpenOptions::new().create_new(true).write(true).open(p)]. *)
Definition fs_create_new (p : Path) : IO unit :=
  with_fault (
    fs ← get_fs;
    match fs !! p with
    | Some _ => throw (Io AlreadyExists)
    | None =>
        match path_parent p with
        | Some q =>
            match fs !! q with
            | Some Dir => put_fs (<[p := File []]> fs)
            | _ => throw (Io NotFound)
            end
        | None => throw (Io OtherIo)
        end
    end).

(** [file.write_all(b)] at the end of the open file [p]; a failing write or
    interrupted write may have written a prefix. *)
Definition fs_write_all (p : Path) (b : bytes) : IO unit := fun s w =>
  let old := match w_fs w !! p with Some (File c) => c | _ => [] end in
  match env_fault (w_env w) (w_step w) with
  | NoFault => Done tt s (set_fs (<[p := File (old ++ b)]> (w_fs w)) (tick w))
  | IoFault n => Failed (Io OtherIo) s (set_fs (<[p := File (old ++ take n b)]> (w_fs w)) (tick w))
  | Killed n => Crashed (set_fs (<[p := File (old ++ take n b)]> (w_fs w)) w)
  end.

(** [file.sync_all()], [file.sync_data()], and the directory flush of
    [sync_directory]: no visible effect, but they can fail. *)
Definition fs_sync (p : Path) : IO unit := with_fault (mret tt).

(** [File::open] for reading, of a file or a directory. *)
Definition fs_open (p : Path) : IO unit :=
  with_fault (
    fs ← get_fs;
    match fs !! p with
    | Some _ => mret tt
    | None => throw (Io NotFound)
    end).

(** [OpenOptions::new().create(true).append(true).open(p)]. *)
Definition fs_open_append (p : Path) : IO unit :=
  with_fault (
    fs ← get_fs;
    match fs !! p with
    | Some (File _) => mret tt
    | Some Dir => throw (Io OtherIo)
    | None => put_fs (<[p := File []]> fs)
    end).

(** [fs::write]: the file is created or emptied, then written. *)
Definition fs_write (p : Path) (b : bytes) : IO unit :=
  _ ← with_fault (
    fs ← get_fs;
    match fs !! p, path_parent p with
    | Some (File _), _ => put_fs (<[p := File []]> fs)
    | None, Some q =>
        match fs !! q with Some Dir => put_fs (<[p := File []]> fs) | _ => throw (Io NotFound) end
    | _, _ => throw (Io OtherIo)
    end);
  fs_write_all p b.

(** [fs::rename] of a regular file: atomic over an existing file. *)
Definition fs_rename (src dst : Path) : IO unit :=
  with_fault (
    fs ← get_fs;
    match fs !! src with
    | Some (File b) =>
        match fs !! dst with
        | Some Dir => throw (Io OtherIo)
        | Some (File _) => put_fs (<[dst := File b]> (delete src fs))
        | None =>
            match path_parent dst with
            | Some q =>
                match fs !! q with
                | Some Dir => put_fs (<[dst := File b]> (delete src fs))
                | _ => throw (Io NotFound)
                end
            | None => throw (Io OtherIo)
            end
        end
    | _ => throw (Io NotFound)
    end).

Definition fs_remove_file (p : Path) : IO unit :=
  with_fault (
    fs ← get_fs;
    match fs !! p with
    | Some (File _) => put_fs (delete p fs)
    | Some Dir => throw (Io OtherIo)
    | None => throw (Io NotFound)
    end).

(** [fs::rename] of a file or of a whole directory (onto a free name). *)
Fixpoint strip_path_prefix (prefix p : Path) : option Path :=
  match prefix, p with
  | [], _ => Some p
  | a :: prefix', b :: p' => if String.eqb a b then strip_path_prefix prefix' p' else None
  | _ :: _, [] => None
  end.

Definition move_tree (src dst : Path) (fs : gmap Path FsNode) : gmap Path FsNode :=
  list_to_map ((fun '(p, n) =>
    (match strip_path_prefix src p with Some rest => dst ++ rest | None => p end, n)) <$> map_to_list fs).

Definition fs_rename_any (src dst : Path) : IO unit := fun s w =>
  match w_fs w !! src with
  | Some Dir =>
      with_fault (
        fs ← get_fs;
        match fs !! dst, path_parent dst with
        | None, Some q =>
            match fs !! q with
            | Some Dir => put_fs (move_tree src dst fs)
            | _ => throw (Io NotFound)
            end
        | _, _ => throw (Io OtherIo)
        end) s w
  | _ => fs_rename src dst s w
  end.

(** [entry?] of a directory iterator, and [entry.file_type()?.is_dir()]. *)
Definition fs_dir_entry (p : Path) : IO unit := with_fault (mret tt).

Definition fs_is_dir (p : Path) : IO bool :=
  with_fault (fs ← get_fs; mret (match fs !! p with Some Dir => true | _ => false end)).

(** The entries of a directory: the nodes whose parent it is. *)
Definition fs_read_dir (p : Path) : IO (list Path) :=
  with_fault (
    fs ← get_fs;
    mret (List.filter (fun q => bool_decide (path_parent q = Some p))
            (fst <$> map_to_list fs))).

(** ** Weakest preconditions

    [wp m Q E C s w]: run from [s] and [w], the computation [m] never panics;
    [Q] holds if it returns, [E] if it fails, and [C] of the world that is left
    if the process dies inside it. *)

Section Wp.
Context {S A : Type}.

Definition outcome_sat (Q : A -> S -> World -> Prop) (E : FcpError -> S -> World -> Prop)
    (C : World -> Prop) (o : Outcome S A) : Prop :=
  match o with
  | Done a s w => Q a s w
  | Failed e s w => E e s w
  | Panicked _ => False
  | Crashed w => C w
  end.

Definition wp (m : M S A) Q E C (s : S) (w : World) : Prop := outcome_sat Q E C (m s w).
End Wp.

Section WpRules.
Context {S : Type}.

Lemma wp_mono {A} (m : M S A) (Q Q' : A -> S -> World -> Prop) (E E' : FcpError -> S -> World -> Prop)
    (C C' : World -> Prop) s w :
  wp m Q E C s w ->
  (forall a s w, Q a s w -> Q' a s w) ->
  (forall e s w, E e s w -> E' e s w) ->
  (forall w, C w -> C' w) ->
  wp m Q' E' C' s w.
Proof. unfold wp. destruct (m s w); simpl; auto. Qed.

(** What a specification may also say: which run it was. *)
Lemma wp_track {A} (m : M S A) (Q : A -> S -> World -> Prop) (E : FcpError -> S -> World -> Prop) (C : World -> Prop) s w :
  wp m Q E C s w ->
  wp m (fun a s' w' => m s w = Done a s' w' /\ Q a s' w') (fun e s' w' => m s w = Failed e s' w' /\ E e s' w') C s w.
Proof. unfold wp. destruct (m s w); cbn; auto. Qed.

Lemma wp_known_run {A} (m : M S A) (Q : A -> S -> World -> Prop) (E : FcpError -> S -> World -> Prop) (C : World -> Prop) s w :
  wp m (fun a s' w' => m s w = Done a s' w' -> Q a s' w') (fun e s' w' => m s w = Failed e s' w' -> E e s' w') C s w ->
  wp m Q E C s w.
Proof. unfold wp. destruct (m s w); cbn; auto. Qed.

Lemma wp_ret {A} (a : A) Q E C s w : Q a s w -> wp (S := S) (mret a) Q E C s w.
Proof. done. Qed.

Lemma wp_bind {A B} (m : M S A) (f : A -> M S B) Q E C s w :
  wp m (fun a => wp (f a) Q E C) E C s w -> wp (m ≫= f) Q E C s w.
Proof. unfold wp, mbind, M_bind. by destruct (m s w). Qed.

Lemma wp_throw {A} e Q E C s w : E e s w -> wp (S := S) (A := A) (throw e) Q E C s w.
Proof. done. Qed.

Lemma wp_lift {A} (r : FcpResult A) Q E C s w :
  match r with Ok a => Q a s w | Err e => E e s w end -> wp (S := S) (lift r) Q E C s w.
Proof. by destruct r. Qed.

Lemma wp_guard_not (b : bool) e Q E C s w :
  (if b then E e s w else Q tt s w) -> wp (S := S) (guard_not b e) Q E C s w.
Proof. by destruct b. Qed.

Lemma wp_ok_or_throw {A} (o : option A) e Q E C s w :
  match o with Some a => Q a s w | None => E e s w end -> wp (S := S) (ok_or_throw o e) Q E C s w.
Proof. by destruct o. Qed.

Lemma wp_unwrap {A} (o : option A) a Q E C s w :
  o = Some a -> Q a s w -> wp (S := S) (unwrap o) Q E C s w.
Proof. by intros ->. Qed.

Lemma wp_get Q E C s w : Q s s w -> wp (S := S) get Q E C s w.
Proof. done. Qed.

Lemma wp_put s' Q E C s w : Q tt s' w -> wp (S := S) (put s') Q E C s w.
Proof. done. Qed.

Lemma wp_modify f Q E C s w : Q tt (f s) w -> wp (S := S) (modify f) Q E C s w.
Proof. done. Qed.

Lemma wp_try {A} (m : M S A) Q E C s w :
  wp m (fun a => Q (Ok a)) (fun e => Q (Err e)) C s w -> wp (try_ m) Q E C s w.
Proof. unfold wp, try_. by destruct (m s w). Qed.

Lemma wp_io {A} (m : IO A) Q E C s w :
  wp m (fun a _ => Q a s) (fun e _ => E e s) C tt w -> wp (S := S) (io m) Q E C s w.
Proof. unfold wp, io. by destruct (m tt w). Qed.

Lemma wp_zoom {T A} (g : S -> T) (p : T -> S -> S) (m : M T A) Q E C s w :
  wp m (fun a t => Q a (p t s)) (fun e t => E e (p t s)) C (g s) w -> wp (zoom g p m) Q E C s w.
Proof. unfold wp, zoom. by destruct (m (g s) w). Qed.

Lemma wp_with_local {T A} (t0 : T) (m : M T A) Q E C s w :
  wp m (fun a t => Q (Ok a, t) s) (fun e t => Q (Err e, t) s) C t0 w ->
  wp (S := S) (with_local t0 m) Q E C s w.
Proof. unfold wp, with_local. by destruct (m t0 w). Qed.

(** A loop keeps an invariant its body keeps. *)
Lemma wp_for_each {X} (l : list X) body (I : S -> World -> Prop) E C s w :
  I s w ->
  (forall x s w, x ∈ l -> I s w -> wp (body x) (fun _ => I) E C s w) ->
  wp (S := S) (for_each l body) (fun _ => I) E C s w.
Proof.
  revert s w; induction l as [|x l IH]; intros s w HI Hb; [done|].
  simpl. apply wp_bind. eapply wp_mono.
  - apply Hb; [set_solver | done].
  - intros [] s' w' HI'. apply IH; [done|]. intros. apply Hb; [set_solver | done].
  - done.
  - done.
Qed.
End WpRules.

(** ** Computations that may also panic

    [returns Q E o]: [Q] if the run returned, [E] if it failed; nothing of a run
    that panicked or died. *)

Definition returns {S A} (Q : A -> S -> World -> Prop) (E : FcpError -> S -> World -> Prop) (o : Outcome S A) : Prop :=
  match o with Done a s w => Q a s w | Failed e s w => E e s w | _ => True end.

Lemma returns_bind {S A B} (m : M S A) (f : A -> M S B) Q E s w :
  returns (fun a s w => returns Q E (f a s w)) E (m s w) -> returns Q E ((m ≫= f) s w).
Proof. unfold mbind, M_bind. by destruct (m s w). Qed.

Lemma returns_mono {S A} (o : Outcome S A) (Q Q' : A -> S -> World -> Prop) (E E' : FcpError -> S -> World -> Prop) :
  returns Q E o -> (forall a s w, Q a s w -> Q' a s w) -> (forall e s w, E e s w -> E' e s w) -> returns Q' E' o.
Proof. destruct o; cbn; auto. Qed.

Lemma returns_wp {S A} (m : M S A) Q E C s w : wp m Q E C s w -> returns Q E (m s w).
Proof. unfold wp. destruct (m s w); cbn; auto. Qed.

(** ** Specifications of the file-system primitives

    [later w w']: the same environment, at the same step or at a later one.
    [agree_off P w w']: moreover the same regular files outside [P]. *)

Definition later (w w' : World) : Prop := w_env w' = w_env w /\ (w_step w <= w_step w')%nat.

Definition agree_off (P : Path -> Prop) (w w' : World) : Prop :=
  later w w' /\ forall p, ~ P p -> file_at w' p = file_at w p.

Abbreviation same_files := (agree_off (fun _ => False)).

Lemma later_refl w : later w w.
Proof. done. Qed.

Lemma later_tick w : later w (tick w).
Proof. split; [done|]. cbn. lia. Qed.

Lemma later_trans w1 w2 w3 : later w1 w2 -> later w2 w3 -> later w1 w3.
Proof. intros [? ?] [? ?]. split; [congruence|lia]. Qed.

Lemma later_set_fs w w' fs : later w w' -> later w (set_fs fs w').
Proof. done. Qed.

#[export] Hint Resolve later_refl later_tick later_set_fs : core.
#[export] Hint Extern 0 (later _ _) =>
  solve [repeat match goal with H : later _ _ |- _ => destruct H | x := _ : World |- _ => subst x end;
         split; cbn [w_env w_step tick set_fs] in *; [congruence|lia]] : core.

Lemma agree_off_later P w w' : agree_off P w w' -> later w w'.
Proof. by intros [? _]. Qed.

Lemma agree_off_refl P w : agree_off P w w.
Proof. done. Qed.

Lemma agree_off_trans P w1 w2 w3 : agree_off P w1 w2 -> agree_off P w2 w3 -> agree_off P w1 w3.
Proof. intros [? H1] [? H2]. split; [by eapply later_trans|]. intros p Hp. by rewrite H2, H1. Qed.

Lemma agree_off_tick P w w' : agree_off P w w' -> agree_off P w (tick w').
Proof. intros [? H]. by split. Qed.

(** A step more before or after is no difference. *)
#[export] Hint Extern 0 (agree_off ?P _ _) =>
  solve [match goal with
         | H : agree_off P _ _ |- _ =>
             let L := fresh in let F := fresh in
             destruct H as [L F]; split; [clear F; trivial|exact F]
         end] : core.

Lemma agree_off_weaken (P Q : Path -> Prop) w w' :
  agree_off P w w' -> (forall p, P p -> Q p) -> agree_off Q w w'.
Proof. intros [? H] HPQ. split; [done|]. intros p Hp. apply H. auto. Qed.

Lemma agree_off_file P w w' p : agree_off P w w' -> ~ P p -> file_at w' p = file_at w p.
Proof. intros [_ H]. apply H. Qed.

#[export] Hint Resolve agree_off_refl : vault.

Lemma file_at_lookup w p b : file_at w p = Some b -> w_fs w !! p = Some (File b).
Proof. unfold file_at. destruct (w_fs w !! p) as [[]|]; congruence. Qed.

Lemma file_at_of_lookup w p b : w_fs w !! p = Some (File b) -> file_at w p = Some b.
Proof. unfold file_at. by intros ->. Qed.

Lemma file_at_tick w p : file_at (tick w) p = file_at w p.
Proof. done. Qed.

Lemma same_files_tick w : same_files w (tick w).
Proof. done. Qed.
#[export] Hint Resolve same_files_tick : vault.

Lemma file_at_set_insert_eq fs p b w : file_at (set_fs (<[p := File b]> fs) w) p = Some b.
Proof. unfold file_at, set_fs; simpl. by rewrite lookup_insert_eq. Qed.

Lemma file_at_set_insert_ne fs p q n w :
  p <> q -> file_at (set_fs (<[p := n]> fs) w) q = file_at (set_fs fs w) q.
Proof. intros. unfold file_at, set_fs; simpl. by rewrite lookup_insert_ne. Qed.

Lemma file_at_set_delete_eq fs p w : file_at (set_fs (delete p fs) w) p = None.
Proof. unfold file_at, set_fs; simpl. by rewrite lookup_delete_eq. Qed.

Lemma file_at_set_delete_ne fs p q w :
  p <> q -> file_at (set_fs (delete p fs) w) q = file_at (set_fs fs w) q.
Proof. intros. unfold file_at, set_fs; simpl. by rewrite lookup_delete_ne. Qed.

Lemma file_at_make_dir fs p q w :
  file_at (set_fs (make_dir fs p) w) q = file_at (set_fs fs w) q.
Proof.
  unfold make_dir. destruct (fs !! p) eqn:E; [done|].
  destruct (decide (p = q)) as [->|]; [|by apply file_at_set_insert_ne].
  unfold file_at, set_fs; simpl. by rewrite lookup_insert_eq, E.
Qed.

Lemma file_at_make_dirs l fs q w :
  file_at (set_fs (foldl make_dir fs l) w) q = file_at (set_fs fs w) q.
Proof.
  revert fs; induction l as [|p l IH]; intros fs; [done|]. simpl.
  by rewrite IH, file_at_make_dir.
Qed.

(** Unfolds one primitive and splits on the fate of its step. *)
Ltac run_io :=
  unfold wp, with_fault, io_step, get_fs, put_fs, throw, mret, M_ret, mbind, M_bind in *;
  match goal with
  | |- context [env_fault (w_env ?w) (w_step ?w)] => destruct (env_fault (w_env w) (w_step w)) eqn:?
  end; simpl.

Section FsSpecs.

Lemma wp_fs_create_dir_all p (Q : unit -> unit -> World -> Prop) (E : FcpError -> unit -> World -> Prop) (C : World -> Prop) w :
  (forall w', same_files w w' -> Q tt tt w') ->
  (forall w', same_files w w' -> E (Io OtherIo) tt w') ->
  C w ->
  wp (fs_create_dir_all p) Q E C tt w.
Proof.
  intros HQ HE HC. unfold fs_create_dir_all. run_io; [|auto with vault..].
  destruct (existsb _ _); simpl; [auto with vault|].
  apply HQ. split; [done|]. intros q _. by rewrite file_at_make_dirs.
Qed.

Lemma wp_fs_exists p (Q : bool -> unit -> World -> Prop) (E : FcpError -> unit -> World -> Prop) (C : World -> Prop) w :
  (forall b, (b = true -> is_Some (w_fs w !! p)) -> Q b tt (tick w)) -> C w ->
  wp (fs_exists p) Q E C tt w.
Proof.
  intros HQ HC. unfold fs_exists. run_io; [|by apply HQ|done].
  apply HQ. by rewrite bool_decide_eq_true.
Qed.

(** The metadata call behind [Path::exists] does not fail at the current step. *)
Definition metadata_answers (w : World) : Prop := forall n, env_fault (w_env w) (w_step w) <> IoFault n.

Lemma wp_fs_exists_exact p (Q : bool -> unit -> World -> Prop) (E : FcpError -> unit -> World -> Prop) (C : World -> Prop) w :
  metadata_answers w ->
  Q (bool_decide (is_Some (w_fs w !! p))) tt (tick w) -> C w ->
  wp (fs_exists p) Q E C tt w.
Proof. intros Ha HQ HC. unfold fs_exists. unfold metadata_answers in Ha. run_io; [done|naive_solver|done]. Qed.

(** What the call [Path::exists] that is made in [w] lets see of a file: nothing when
    the metadata call fails. *)
Definition seen_file (w : World) (p : Path) : option bytes :=
  match env_fault (w_env w) (w_step w) with IoFault _ => None | _ => file_at w p end.

Lemma wp_fs_exists_seen p (Q : bool -> unit -> World -> Prop) (E : FcpError -> unit -> World -> Prop) (C : World -> Prop) w :
  (forall b : bool, seen_file w p = (if b then file_at w p else None) -> Q b tt (tick w)) -> C w -> wp (fs_exists p) Q E C tt w.
Proof.
  intros HQ HC. unfold fs_exists. unfold seen_file in HQ. run_io; [|by apply HQ|done].
  apply HQ. case_bool_decide as Hp; [done|]. unfold file_at. apply eq_None_not_Some in Hp. cbn in Hp. by rewrite Hp.
Qed.

Lemma wp_fs_read p (Q : bytes -> unit -> World -> Prop) (E : FcpError -> unit -> World -> Prop) (C : World -> Prop) w :
  (forall b, file_at w p = Some b -> Q b tt (tick w)) ->
  (file_at w p = None -> E (Io NotFound) tt (tick w)) ->
  E (Io OtherIo) tt (tick w) -> C w ->
  wp (fs_read p) Q E C tt w.
Proof.
  intros HQ HN HE HC. unfold fs_read. run_io; [|done..].
  unfold file_at in *. destruct (w_fs w !! p) as [[]|] eqn:Ep; simpl; auto.
Qed.

Lemma wp_fs_create_new p (Q : unit -> unit -> World -> Prop) (E : FcpError -> unit -> World -> Prop) (C : World -> Prop) w :
  (forall w', w_fs w !! p = None -> w_fs w' !! p = Some (File []) ->
     agree_off (eq p) w w' -> Q tt tt w') ->
  (forall e, E e tt (tick w)) -> C w ->
  wp (fs_create_new p) Q E C tt w.
Proof.
  intros HQ HE HC. unfold fs_create_new. run_io; [|done..].
  destruct (w_fs w !! p) eqn:Ep; simpl; [done|].
  destruct (path_parent p) as [q|]; simpl; [|done].
  destruct (w_fs w !! q) as [[]|]; simpl; try done.
  apply HQ; [done| |].
  - simpl. apply lookup_insert_eq.
  - split; [done|]. intros r Hr. by apply file_at_set_insert_ne.
Qed.

Lemma wp_fs_write_all p b c (Q : unit -> unit -> World -> Prop) (E : FcpError -> unit -> World -> Prop) (C : World -> Prop) w :
  w_fs w !! p = Some (File c) ->
  (forall w', file_at w' p = Some (c ++ b) -> w_fs w' !! p = Some (File (c ++ b)) ->
     agree_off (eq p) w w' -> Q tt tt w') ->
  (forall w', agree_off (eq p) w w' -> E (Io OtherIo) tt w') ->
  (forall w', agree_off (eq p) w w' -> C w') ->
  wp (fs_write_all p b) Q E C tt w.
Proof.
  intros Hp HQ HE HC. unfold fs_write_all, wp. rewrite Hp.
  assert (Hoff : forall d w0, later w w0 -> agree_off (eq p) w (set_fs (<[p := File d]> (w_fs w)) w0)).
  { intros d w0 He. split; [done|]. intros q Hq. by apply file_at_set_insert_ne. }
  destruct (env_fault (w_env w) (w_step w)); simpl.
  - apply HQ; [apply file_at_set_insert_eq | simpl; apply lookup_insert_eq | by apply Hoff].
  - apply HE. by apply Hoff.
  - apply HC. by apply Hoff.
Qed.

Lemma wp_fs_sync p (Q : unit -> unit -> World -> Prop) (E : FcpError -> unit -> World -> Prop) (C : World -> Prop) w :
  Q tt tt (tick w) -> E (Io OtherIo) tt (tick w) -> C w ->
  wp (fs_sync p) Q E C tt w.
Proof. intros. unfold fs_sync. by run_io. Qed.

Lemma wp_fs_open p (Q : unit -> unit -> World -> Prop) (E : FcpError -> unit -> World -> Prop) (C : World -> Prop) w :
  Q tt tt (tick w) -> (forall e, E e tt (tick w)) -> C w ->
  wp (fs_open p) Q E C tt w.
Proof. intros. unfold fs_open. run_io; [|done..]. destruct (w_fs w !! p); simpl; auto. Qed.

Lemma wp_fs_rename src dst b (Q : unit -> unit -> World -> Prop) (E : FcpError -> unit -> World -> Prop) (C : World -> Prop) w :
  src <> dst ->
  w_fs w !! src = Some (File b) ->
  (forall w', file_at w' dst = Some b -> w_fs w' !! src = None ->
     agree_off (fun p => p = src \/ p = dst) w w' -> Q tt tt w') ->
  (forall e, E e tt (tick w)) -> C w ->
  wp (fs_rename src dst) Q E C tt w.
Proof.
  intros Hne Hsrc HQ HE HC. unfold fs_rename. run_io; [|done..].
  rewrite Hsrc.
  assert (Hok : Q tt tt (set_fs (<[dst:=File b]> (delete src (w_fs w))) (tick w))).
  { apply HQ.
    - apply file_at_set_insert_eq.
    - simpl. rewrite lookup_insert_ne by done. apply lookup_delete_eq.
    - split; [done|]. intros q Hq.
      rewrite file_at_set_insert_ne, file_at_set_delete_ne by naive_solver. done. }
  destruct (w_fs w !! dst) as [[]|]; simpl; try done.
  destruct (path_parent dst) as [q|]; simpl; [|done].
  destruct (w_fs w !! q) as [[]|]; simpl; done.
Qed.

(** The same nodes, directories included, outside [P]. *)
Definition nodes_off (P : Path -> Prop) (w w' : World) : Prop :=
  w_env w' = w_env w /\ forall p, ~ P p -> w_fs w' !! p = w_fs w !! p.

Lemma wp_fs_rename_nodes src dst (Q : unit -> unit -> World -> Prop) (E : FcpError -> unit -> World -> Prop) (C : World -> Prop) w :
  src <> dst ->
  (forall w' b, w_fs w !! src = Some (File b) -> w_fs w' !! src = None -> w_fs w' !! dst = Some (File b) ->
     nodes_off (fun p => p = src \/ p = dst) w w' -> Q tt tt w') ->
  (forall e, E e tt (tick w)) -> C w ->
  wp (fs_rename src dst) Q E C tt w.
Proof.
  intros Hne HQ HE HC. unfold fs_rename. run_io; [|done..].
  destruct (w_fs w !! src) as [[b|]|] eqn:Hsrc; cbn; [|by apply HE..].
  assert (Hok : Q tt tt (set_fs (<[dst:=File b]> (delete src (w_fs w))) (tick w))).
  { eapply HQ; cbn; [done|by rewrite lookup_insert_ne, lookup_delete_eq|by rewrite lookup_insert_eq|].
    split; [done|]. intros p Hp. cbn. rewrite lookup_insert_ne, lookup_delete_ne by naive_solver. done. }
  destruct (w_fs w !! dst) as [[]|]; cbn; [done|by apply HE|].
  destruct (path_parent dst) as [q|]; cbn; [|by apply HE].
  destruct (w_fs w !! q) as [[]|]; cbn; [by apply HE|done|by apply HE].
Qed.

Lemma wp_fs_remove_nodes p (Q : unit -> unit -> World -> Prop) (E : FcpError -> unit -> World -> Prop) (C : World -> Prop) w :
  (forall w', w_fs w' !! p = None -> nodes_off (eq p) w w' -> Q tt tt w') ->
  (w_fs w !! p = None -> E (Io NotFound) tt (tick w)) ->
  E (Io OtherIo) tt (tick w) -> C w ->
  wp (fs_remove_file p) Q E C tt w.
Proof.
  intros HQ HN HE HC. unfold fs_remove_file. run_io; [|done..].
  destruct (w_fs w !! p) as [[]|] eqn:Ep; cbn; [|done|by apply HN].
  apply HQ; cbn; [apply lookup_delete_eq|]. split; [done|]. intros q Hq. cbn. by rewrite lookup_delete_ne.
Qed.

Lemma wp_fs_dir_entry p (Q : unit -> unit -> World -> Prop) (E : FcpError -> unit -> World -> Prop) (C : World -> Prop) w :
  Q tt tt (tick w) -> E (Io OtherIo) tt (tick w) -> C w -> wp (fs_dir_entry p) Q E C tt w.
Proof. intros. unfold fs_dir_entry. by run_io. Qed.

Lemma wp_fs_read_dir p (Q : list Path -> unit -> World -> Prop) (E : FcpError -> unit -> World -> Prop) (C : World -> Prop) w :
  (forall l, (forall q, q ∈ l <-> path_parent q = Some p /\ is_Some (w_fs w !! q)) -> Q l tt (tick w)) ->
  E (Io OtherIo) tt (tick w) -> C w -> wp (fs_read_dir p) Q E C tt w.
Proof.
  intros HQ HE HC. unfold fs_read_dir. run_io; [|done..]. apply HQ. intros q.
  rewrite list_elem_of_In, filter_In, bool_decide_eq_true, <- list_elem_of_In, list_elem_of_fmap.
  split.
  - intros [([q' n] & -> & Hin) Hp]. split; [done|]. apply elem_of_map_to_list in Hin. by exists n.
  - intros [Hp [n Hn]]. split; [|done]. exists (q, n). split; [done|]. by apply elem_of_map_to_list.
Qed.

Lemma wp_fs_remove_file p (Q : unit -> unit -> World -> Prop) (E : FcpError -> unit -> World -> Prop) (C : World -> Prop) w :
  (forall w', is_Some (file_at w p) -> file_at w' p = None -> agree_off (eq p) w w' -> Q tt tt w') ->
  (file_at w p = None -> E (Io NotFound) tt (tick w)) ->
  E (Io OtherIo) tt (tick w) -> C w ->
  wp (fs_remove_file p) Q E C tt w.
Proof.
  intros HQ HN HE HC. unfold fs_remove_file. run_io; [|done..].
  unfold file_at in HQ, HN.
  destruct (w_fs w !! p) as [[]|] eqn:Ep; simpl; auto.
  apply HQ; [done|apply file_at_set_delete_eq|].
  split; [done|]. intros q Hq. by apply file_at_set_delete_ne.
Qed.

Lemma wp_fs_write p b (Q : unit -> unit -> World -> Prop) (E : FcpError -> unit -> World -> Prop) (C : World -> Prop) w :
  (forall w', agree_off (eq p) w w' -> file_at w' p = Some b -> Q tt tt w') -> (forall e w', agree_off (eq p) w w' -> E e tt w') ->
  (forall w', agree_off (eq p) w w' -> C w') -> wp (fs_write p b) Q E C tt w.
Proof.
  intros HQ HE HC. unfold fs_write. apply wp_bind.
  assert (Hopen : agree_off (eq p) w (set_fs (<[p := File []]> (w_fs w)) (tick w))).
  { split; [done|]. intros q Hq. by apply file_at_set_insert_ne. }
  assert (Hall : wp (fs_write_all p b) Q E C tt (set_fs (<[p := File []]> (w_fs w)) (tick w))).
  { apply (wp_fs_write_all p b []); [apply lookup_insert_eq| | |]; intros; [apply HQ; [by eapply agree_off_trans|done]|apply HE|apply HC]; by eapply agree_off_trans. }
  assert (Ht : agree_off (eq p) w (tick w)) by done.
  run_io; [|by apply HE|by apply HC].
  destruct (w_fs w !! p) as [[c|]|]; cbn; [exact Hall|by apply HE|]. destruct (path_parent p) as [q|]; cbn; [|by apply HE].
  destruct (w_fs w !! q) as [[]|]; cbn; [by apply HE|exact Hall|by apply HE].
Qed.
End FsSpecs.

(** ** Running without faults *)

Definition no_faults (w : World) : Prop := forall n, env_fault (w_env w) n = NoFault.

(** Parts of an outcome, for concrete runs. *)
Definition outcome_world {S A} (o : Outcome S A) : World :=
  match o with Done _ _ w | Failed _ _ w | Panicked w | Crashed w => w end.
Definition outcome_state {S A} (d : S) (o : Outcome S A) : S :=
  match o with Done _ s _ | Failed _ s _ => s | _ => d end.
Definition outcome_value {S A} (d : A) (o : Outcome S A) : A :=
  match o with Done a _ _ => a | _ => d end.

Definition returned {S A} (o : Outcome S A) : bool := match o with Done _ _ _ => true | _ => false end.

(** What a run that was evaluated says with a contract. *)
Lemma wp_done {S A} (m : M S A) (Q : A -> S -> World -> Prop) (E : FcpError -> S -> World -> Prop) (C : World -> Prop) s w a :
  wp m Q E C s w -> match m s w with Done a' _ _ => a' = a | _ => False end ->
  exists s' w', m s w = Done a s' w' /\ Q a s' w'.
Proof. unfold wp. destruct (m s w); try done. intros HQ <-. eauto. Qed.

Lemma returned_done {S A} (a : A) (s : S) (o : Outcome S A) :
  returned o = true -> o = Done (outcome_value a o) (outcome_state s o) (outcome_world o).
Proof. by destruct o. Qed.

Lemma run_with_fault {A} (m : IO A) w : no_faults w -> with_fault m tt w = m tt (tick w).
Proof. intros Hw. unfold with_fault, io_step, mbind, M_bind. by rewrite Hw. Qed.

Lemma run_bind {S A B} (m : M S A) (f : A -> M S B) s w a s' w' :
  m s w = Done a s' w' -> (m ≫= f) s w = f a s' w'.
Proof. intros H. unfold mbind, M_bind. by rewrite H. Qed.

Lemma run_bind_inv {S A B} (m : M S A) (f : A -> M S B) s w b s' w' :
  (m ≫= f) s w = Done b s' w' -> exists a s1 w1, m s w = Done a s1 w1 /\ f a s1 w1 = Done b s' w'.
Proof. unfold mbind, M_bind. destruct (m s w) eqn:E; [|done..]. intros Hf. by eexists _, _, _. Qed.

Lemma run_lift_inv {S A} (r : FcpResult A) a (s : S) w s' w' :
  lift r s w = Done a s' w' -> r = Ok a /\ s' = s /\ w' = w.
Proof. destruct r; cbn; [|done]. by intros [= -> <- <-]. Qed.

Lemma run_guard_not_inv {S} b e u (s : S) w s' w' :
  guard_not b e s w = Done u s' w' -> b = false /\ s' = s /\ w' = w.
Proof. destruct b; cbn; [done|]. by intros [= _ <- <-]. Qed.

Lemma run_ok_or_throw_inv {S A} (o : option A) e a (s : S) w s' w' :
  ok_or_throw o e s w = Done a s' w' -> o = Some a /\ s' = s /\ w' = w.
Proof. destruct o; cbn; [|done]. by intros [= -> <- <-]. Qed.

Lemma run_unwrap_inv {S A} (o : option A) a (s : S) w s' w' :
  unwrap o s w = Done a s' w' -> o = Some a /\ s' = s /\ w' = w.
Proof. destruct o; cbn; [|done]. by intros [= -> <- <-]. Qed.

Lemma run_fs_read_inv p b w w' :
  fs_read p tt w = Done b tt w' -> file_at w p = Some b /\ w_fs w' = w_fs w.
Proof.
  unfold fs_read, with_fault, io_step, get_fs, mbind, M_bind, file_at.
  destruct (env_fault _ _); cbn; [|done..]. destruct (w_fs w !! p) as [[]|]; cbn; [|done..].
  by intros [= <- <-].
Qed.

Lemma run_bind_failed {S A B} (m : M S A) (f : A -> M S B) s w e s' w' :
  m s w = Failed e s' w' -> (m ≫= f) s w = Failed e s' w'.
Proof. intros H. unfold mbind, M_bind. by rewrite H. Qed.

Lemma run_io_lift {S A} (m : IO A) (s : S) w a w' : m tt w = Done a tt w' -> io m s w = Done a s w'.
Proof. intros H. unfold io. by rewrite H. Qed.

Ltac run_simpl :=
  unfold get_fs, put_fs, throw, mbind, M_bind, mret, M_ret; simpl.

Lemma run_lift {S A} (r : FcpResult A) a (s : S) w : r = Ok a -> lift r s w = Done a s w.
Proof. by intros ->. Qed.

Lemma run_guard_not {S} b e (s : S) w : b = false -> guard_not b e s w = Done tt s w.
Proof. by intros ->. Qed.

Lemma run_fill_random n w :
  no_faults w -> fill_random n tt w = Done (le_bytes n (env_random (w_env w) (w_step w))) tt (tick w).
Proof. intros Hw. unfold fill_random. by rewrite Hw. Qed.

(** Takes apart the steps of a run that returned. *)
Ltac run_inv H :=
  repeat match type of H with
  | (_ ≫= _) _ _ = Done _ _ _ =>
      let a := fresh "a" in let s1 := fresh "s" in let w1 := fresh "w" in let Ha := fresh "Hrun" in
      apply run_bind_inv in H as (a & s1 & w1 & Ha & H);
      first [ apply run_guard_not_inv in Ha as (Ha & -> & ->)
            | apply run_ok_or_throw_inv in Ha as (Ha & -> & ->)
            | apply run_lift_inv in Ha as (Ha & -> & ->)
            | apply run_unwrap_inv in Ha as (Ha & -> & ->)
            | idtac ]
  end;
  repeat match goal with x : unit |- _ => destruct x end.

(** Splits on the condition of the next guard. *)
Ltac wp_guard_case H :=
  apply wp_bind, wp_guard_not; match goal with |- if ?b then _ else _ => destruct b eqn:H end.

(** Splits on the condition of a program that starts with a test. *)
Ltac wp_if_case H :=
  match goal with |- wp (if ?b then _ else _) _ _ _ _ _ => destruct b eqn:H end.
