(* ===== verification/External.v ===== *)
(** * Interfaces to code outside the repository

    Third-party crates and platform services are parameters of the model: one
    class per service with its operations, and one class of laws with the
    documented behaviour that the host relies on. Nothing here is a definition
    of that code. *)

From S2P Require Import Prelude World.

(** ** uuid: a 128-bit value; its bytes are the big-endian ones. *)

Abbreviation Uuid := N.

Definition uuid_is_nil (u : Uuid) : bool := u =? 0.
Definition uuid_as_bytes (u : Uuid) : bytes := be_bytes 16 u.
Definition uuid_from_bytes (b : bytes) : Uuid := be_value b.

(** The text form ([Display], [Uuid::parse_str]). *)
Class UuidText := {
  uuid_to_string : Uuid -> string;
  uuid_parse : string -> option Uuid;
}.

Class UuidTextLaws `{UuidText} : Prop := {
  uuid_parse_to_string u : u < 2 ^ 128 -> uuid_parse (uuid_to_string u) = Some u;
  uuid_to_string_inj u v : uuid_to_string u = uuid_to_string v -> u = v;
}.

(** ** sha2 *)

Class Sha256 := sha256 : bytes -> bytes.

Class Sha256Laws `{Sha256} : Prop := sha256_length b : length (sha256 b) = 32%nat.

(** ** aes-gcm: AES-256-GCM with detached tag. *)

Class Aead := {
  aead_encrypt (key nonce aad plaintext : bytes) : option (bytes * bytes);
  aead_decrypt (key nonce aad ciphertext tag : bytes) : option bytes;
}.

Class AeadLaws `{Aead} : Prop := {
  aead_round_trip key nonce aad pt ct tag :
    aead_encrypt key nonce aad pt = Some (ct, tag) -> aead_decrypt key nonce aad ct tag = Some pt;
  aead_lengths key nonce aad pt ct tag :
    aead_encrypt key nonce aad pt = Some (ct, tag) -> length ct = length pt /\ length tag = 16%nat;
  (** GCM refuses only messages beyond 2^36 bytes. *)
  aead_encrypts key nonce aad pt :
    length key = 32%nat -> length nonce = 12%nat -> len pt <= 2 ^ 32 ->
    exists ct tag, aead_encrypt key nonce aad pt = Some (ct, tag);
}.

(** ** serde_json: the derived encoder and decoder of one type. What is written reads
    back, for a type without floating-point numbers; for the cookies, which have one,
    see [JsonF64] (VaultFormat). *)

Class Serde (A : Type) := {
  to_vec : A -> FcpResult bytes;
  from_slice : bytes -> FcpResult A;
}.

Class SerdeLaws (A : Type) `{Serde A} : Prop :=
  from_slice_to_vec (a : A) b : to_vec a = Ok b -> from_slice b = Ok a.

(** ** The key-encryption key of the platform ([PlatformKek]): a TPM key on
    Linux, an NCrypt key on Windows, named by the path of its blobs. *)

Class KekBackend := {
  kek_ensure_exists : Path -> IO unit;
  kek_wrap_dek : Path -> bytes -> IO bytes;
  kek_unwrap_dek : Path -> bytes -> IO bytes;
}.

(** A call of a service changes no file of the host but those in [own]. *)
Definition io_frame {A} (own : Path -> Prop) (m : IO A) : Prop :=
  forall w, wp m (fun _ _ w' => agree_off own w w') (fun _ _ w' => agree_off own w w')
              (fun w' => agree_off own w w') tt w.

Lemma wp_frame_call {A} own (m : IO A) (Q : A -> unit -> World -> Prop)
    (E : FcpError -> unit -> World -> Prop) (C : World -> Prop) w0 w :
  io_frame own m -> agree_off own w0 w ->
  (forall a w', agree_off own w0 w' -> Q a tt w') ->
  (forall e w', agree_off own w0 w' -> E e tt w') ->
  (forall w', agree_off own w0 w' -> C w') ->
  wp m Q E C tt w.
Proof.
  intros Hm Ha HQ HE HC. eapply wp_mono; [apply Hm|..]; cbn beta.
  - intros a [] w' Ha'. by eapply HQ, agree_off_trans.
  - intros e [] w' Ha'. by eapply HE, agree_off_trans.
  - intros w' Ha'. by eapply HC, agree_off_trans.
Qed.

Lemma same_files_off own w w1 w2 : agree_off own w w1 -> same_files w1 w2 -> agree_off own w w2.
Proof. intros H1 H2. eapply agree_off_trans; [exact H1|]. by eapply agree_off_weaken. Qed.

(** The temporary name the atomic writer uses beside [p]; see AtomicFile. *)
Definition kek_files (p : Path) (q : Path) : Prop :=
  q = p \/ exists n, path_file_name p = Some n /\ q = with_file_name p (n +:+ ".tmp").

Class KekLaws `{KekBackend} : Prop := {
  kek_ensure_frame p : io_frame (kek_files p) (kek_ensure_exists p);
  kek_wrap_frame p dek : io_frame (kek_files p) (kek_wrap_dek p dek);
  kek_unwrap_frame p b : io_frame (kek_files p) (kek_unwrap_dek p b);
}.

(** While the file at [p] is what it is in [w], the key unwraps [wrapped] to [dek]
    or not at all. *)
Definition unwraps_to `{KekBackend} (p : Path) (wrapped dek : bytes) (w : World) : Prop :=
  forall w1 d w2, file_at w1 p = file_at w p -> kek_unwrap_dek p wrapped tt w1 = Done d tt w2 -> d = dek.

Lemma unwraps_to_same `{KekBackend} p wrapped dek w w' :
  file_at w' p = file_at w p -> unwraps_to p wrapped dek w -> unwraps_to p wrapped dek w'.
Proof. intros Hf Hu w1 d w2 H1. apply Hu. congruence. Qed.

(** The backend keeps its key in the file alone: what it wrapped, and what it has
    unwrapped, it unwraps to the same afterwards. *)
Class KekKeeps `{KekBackend} : Prop := {
  wrap_keeps p dek w wrapped w' : kek_wrap_dek p dek tt w = Done wrapped tt w' -> unwraps_to p wrapped dek w';
  unwrap_keeps p wrapped w dek w' : kek_unwrap_dek p wrapped tt w = Done dek tt w' -> unwraps_to p wrapped dek w';
}.

(** ** The small-secret store of the platform ([local_secret]): DPAPI on
    Windows, a TPM-sealed object on Linux. *)

Class LocalSecret := {
  protect : bytes -> IO bytes;
  unprotect : bytes -> IO bytes;
}.

(** A call that leaves the file system of the host alone. *)
Definition untouched (w w' : World) : Prop := w_fs w' = w_fs w /\ later w w'.

Definition io_untouched {A} (m : IO A) : Prop :=
  forall w, wp m (fun _ _ w' => untouched w w') (fun _ _ w' => untouched w w') (untouched w) tt w.

Lemma untouched_frame own w w' : untouched w w' -> agree_off own w w'.
Proof. intros [Hfs He]. split; [done|]. intros p _. unfold file_at. by rewrite Hfs. Qed.

Lemma io_untouched_frame {A} own (m : IO A) : io_untouched m -> io_frame own m.
Proof. intros Hm w. eapply wp_mono; [apply Hm|..]; cbn beta; intros; by apply untouched_frame. Qed.

(** Neither backend keeps a file: the blob it returns is the whole of its state. *)
Class LocalSecretLaws `{LocalSecret} : Prop := {
  protect_untouched b : io_untouched (protect b);
  unprotect_untouched b : io_untouched (unprotect b);
}.

Lemma protect_frame `{LocalSecretLaws} b : io_frame (fun _ => False) (protect b).
Proof. apply io_untouched_frame, protect_untouched. Qed.
Lemma unprotect_frame `{LocalSecretLaws} b : io_frame (fun _ => False) (unprotect b).
Proof. apply io_untouched_frame, unprotect_untouched. Qed.
