(* ===== verification/Examples.v ===== *)
(** * Concrete services for the examples

    Executable stand-ins for the classes of External, used only to show that the
    hypotheses of the theorems can hold: a self-delimiting codec for data, a
    32-byte hash, an authenticated encryption with a checksum tag. None of them
    models a real service; only witnesses and theorems about a concrete run mention
    them. *)

From S2P Require Import Prelude World External.

(** ** Codecs *)

Record Codec (A : Type) := mkCodec {
  enc : A -> bytes;
  dec : bytes -> option (A * bytes);
  dec_enc : forall a rest, dec (enc a ++ rest) = Some (a, rest);
}.
Arguments mkCodec {A} enc dec dec_enc.
Arguments enc {A} c a.
Arguments dec {A} c b.
Arguments dec_enc {A} c a rest.

Definition codec_json {A} (c : Codec A) : Serde A := {|
  to_vec a := Ok (enc c a);
  from_slice b := match dec c b with Some (a, []) => Ok a | _ => Err Json end;
|}.

Lemma codec_json_laws {A} (c : Codec A) : @SerdeLaws A (codec_json c).
Proof.
  intros a b [= <-]. cbn. rewrite <- (app_nil_r (enc c a)). by rewrite dec_enc.
Qed.

Fixpoint enc_pos (p : positive) : bytes :=
  match p with
  | xH => [Byte.x00]
  | xO p' => Byte.x01 :: enc_pos p'
  | xI p' => Byte.x02 :: enc_pos p'
  end.

Fixpoint dec_pos (b : bytes) : option (positive * bytes) :=
  match b with
  | Byte.x00 :: rest => Some (xH, rest)
  | Byte.x01 :: rest => match dec_pos rest with Some (p, r) => Some (xO p, r) | None => None end
  | Byte.x02 :: rest => match dec_pos rest with Some (p, r) => Some (xI p, r) | None => None end
  | _ => None
  end.

Lemma dec_enc_pos p rest : dec_pos (enc_pos p ++ rest) = Some (p, rest).
Proof. induction p as [p IH|p IH|]; cbn; by rewrite ?IH. Qed.

Definition codec_N : Codec N.
Proof.
  refine (mkCodec
  (fun n => enc_pos (N.succ_pos n))
  (fun b => match dec_pos b with Some (p, r) => Some (Pos.pred_N p, r) | None => None end) _).
   intros n rest. cbn. rewrite dec_enc_pos. by rewrite N.pos_pred_succ. 
Defined.

Definition codec_pair {A B} (a : Codec A) (b : Codec B) : Codec (A * B).
Proof.
  refine (mkCodec
  (fun p => enc a p.1 ++ enc b p.2)
  (fun x => match dec a x with
            | Some (u, r) => match dec b r with Some (v, r') => Some ((u, v), r') | None => None end
            | None => None
            end) _).
   intros [u v] rest. cbn. by rewrite <- app_assoc, !dec_enc. 
Defined.

Definition codec_iso {A B} (f : B -> A) (g : A -> B) (Hgf : forall b, g (f b) = b) (c : Codec A) : Codec B.
Proof.
  refine (mkCodec (fun b => enc c (f b))
    (fun x => match dec c x with Some (a, r) => Some (g a, r) | None => None end) _).
   intros b rest. cbn. by rewrite dec_enc, Hgf. 
Defined.

Definition enc_option {A} (c : Codec A) (o : option A) : bytes :=
  match o with None => [Byte.x00] | Some a => Byte.x01 :: enc c a end.

Definition dec_option {A} (c : Codec A) (x : bytes) : option (option A * bytes) :=
  match x with
  | Byte.x00 :: r => Some (None, r)
  | Byte.x01 :: r => match dec c r with Some (a, r') => Some (Some a, r') | None => None end
  | _ => None
  end.

Lemma dec_enc_option {A} (c : Codec A) o rest : dec_option c (enc_option c o ++ rest) = Some (o, rest).
Proof. destruct o; cbn; by rewrite ?dec_enc. Qed.

Definition codec_option {A} (c : Codec A) : Codec (option A) :=
  mkCodec (enc_option c) (dec_option c) (dec_enc_option c).

Fixpoint dec_many {A} (c : Codec A) (n : nat) (x : bytes) : option (list A * bytes) :=
  match n with
  | O => Some ([], x)
  | S n' =>
      match dec c x with
      | Some (a, r) => match dec_many c n' r with Some (l, r') => Some (a :: l, r') | None => None end
      | None => None
      end
  end.

Definition codec_list {A} (c : Codec A) : Codec (list A).
Proof.
  refine (mkCodec
  (fun l => enc codec_N (N.of_nat (length l)) ++ concat (enc c <$> l))
  (fun x => match dec codec_N x with Some (n, r) => dec_many c (N.to_nat n) r | None => None end) _).
  
  intros l rest. cbv beta. rewrite <- app_assoc, dec_enc. cbv iota beta. rewrite Nat2N.id.
  induction l as [|a l IH]; [done|]. cbn. by rewrite <- app_assoc, dec_enc, IH.

Defined.

Definition enc_byte (b : byte) : bytes := [b].
Definition dec_byte (x : bytes) : option (byte * bytes) :=
  match x with b :: r => Some (b, r) | [] => None end.
Lemma dec_enc_byte b rest : dec_byte (enc_byte b ++ rest) = Some (b, rest).
Proof. done. Qed.
Definition codec_byte : Codec byte := mkCodec enc_byte dec_byte dec_enc_byte.

Definition codec_bytes : Codec bytes := codec_list codec_byte.

Definition codec_string : Codec string :=
  codec_iso list_byte_of_string string_of_list_byte string_of_list_byte_of_string codec_bytes.

Definition codec_bool : Codec bool.
Proof.
  refine (codec_iso (fun b : bool => if b then 1 else 0) (fun n => n =? 1) _ codec_N).
  by intros [].
Defined.

(** ** A hash, an authenticated cipher, text of identifiers *)

Definition toy_sha256 : Sha256 := fun b =>
  le_bytes 32 (foldl (fun h x => (h * 31 + Byte.to_N x + 1) mod 2 ^ 256) 7 b).

Lemma toy_sha256_laws : @Sha256Laws toy_sha256.
Proof. intros b. apply length_le_bytes. Qed.

Definition toy_tag (key nonce aad ct : bytes) : bytes :=
  firstn 16 (@sha256 toy_sha256 (key ++ nonce ++ aad ++ ct)).

Definition toy_aead : Aead := {|
  aead_encrypt key nonce aad pt := Some (pt, toy_tag key nonce aad pt);
  aead_decrypt key nonce aad ct tag :=
    if bool_decide (tag = toy_tag key nonce aad ct) then Some ct else None;
|}.

Lemma toy_aead_laws : @AeadLaws toy_aead.
Proof.
  split.
  - intros key nonce aad pt ct tag [= <- <-]. cbn. by rewrite bool_decide_true.
  - intros key nonce aad pt ct tag [= <- <-]. split; [done|].
    unfold toy_tag. rewrite length_firstn, (toy_sha256_laws _). done.
  - intros key nonce aad pt _ _ _. by eexists _, _.
Qed.

(** Identifiers as text: the self-delimiting code above, byte for character. *)
Definition toy_uuid_text : UuidText := {|
  uuid_to_string u := string_of_list_byte (enc codec_N u);
  uuid_parse s := match dec codec_N (list_byte_of_string s) with Some (u, []) => Some u | _ => None end;
|}.

Lemma toy_uuid_parse u : @uuid_parse toy_uuid_text (@uuid_to_string toy_uuid_text u) = Some u.
Proof.
  cbn [toy_uuid_text uuid_parse uuid_to_string]. rewrite list_byte_of_string_of_list_byte.
  rewrite <- (app_nil_r (enc codec_N u)). by rewrite dec_enc.
Qed.

Lemma toy_uuid_text_laws : @UuidTextLaws toy_uuid_text.
Proof.
  split; [intros u _; apply toy_uuid_parse|].
  intros u v Huv. pose proof (toy_uuid_parse u) as Hu. rewrite Huv, toy_uuid_parse in Hu. by injection Hu.
Qed.

(** ** The platform services *)

Lemma io_frame_ret {A} own (a : A) : io_frame own (mret a).
Proof. intros w. apply wp_ret, agree_off_refl. Qed.

(** A wrapped key is the key, padded to 256 bytes. *)
Definition toy_kek : KekBackend := {|
  kek_ensure_exists _ := mret tt;
  kek_wrap_dek _ dek := mret (dek ++ replicate (256 - length dek) Byte.x00);
  kek_unwrap_dek _ b := mret (firstn 32 b);
|}.

Lemma toy_kek_laws : @KekLaws toy_kek.
Proof. split; intros; apply io_frame_ret. Qed.

Definition toy_local_secret : LocalSecret := {| protect := fun b => mret b; unprotect := fun b => mret b |}.

Lemma toy_local_secret_laws : @LocalSecretLaws toy_local_secret.
Proof. by split; intros b w. Qed.
