(* ===== verification/AtomicFile.v ===== *)
(** * atomic_file.rs: verified, atomic, durable replacement of a file

    [write_verified_durable] writes a temporary file, syncs it, reads it back,
    lets the caller verify what it read, renames it over the target and flushes
    the directory.  Its result says whether the target was replaced. *)

From S2P Require Import Prelude World External.

Module DurableWrite.
Inductive DurableWriteResult := NotCommitted | Committed | DurabilityUnknown.
End DurableWrite.
Abbreviation DurableWriteResult := DurableWrite.DurableWriteResult.

#[export] Instance durable_write_result_eq_dec : EqDecision DurableWriteResult.
Proof. solve_decision. Defined.

Record DurableWriteFailure := mkDurableWriteFailure {
  dwf_result : DurableWriteResult;
  dwf_error : FcpError;
}.

Module Object.
Inductive ObjectClassification := Previous | Target | Missing | Neither.
End Object.
Abbreviation ObjectClassification := Object.ObjectClassification.

#[export] Instance object_classification_eq_dec : EqDecision ObjectClassification.
Proof. solve_decision. Defined.

(** [ObjectDigest] and [Digest32]: the 32 bytes of a SHA-256 digest. *)
Abbreviation Digest32 := bytes.

Definition ObjectDigest_of `{Sha256} (b : bytes) : Digest32 := sha256 b.

(** [temporary_path]. *)
Definition temporary_path (target : Path) : FcpResult Path :=
  match path_file_name target with
  | Some name => Ok (with_file_name target (name +:+ ".tmp"))
  | None => Err (Format "atomic target has no UTF-8 file name")
  end.

(** [atomic_replace]: [fs::rename], or [MoveFileExW] with replacement. *)
Definition atomic_replace (source target : Path) : IO unit := fs_rename source target.

(** [sync_directory]: opens the directory and flushes its entry. *)
Definition sync_directory (directory : Path) : IO unit :=
  _ ← fs_open directory; fs_sync directory.

Definition not_committed {A} (e : FcpError) : Result DurableWriteFailure A :=
  Err (mkDurableWriteFailure DurableWrite.NotCommitted e).

(** The closure of [write_verified_durable]; its local state is [replaced]. *)
Definition write_and_replace (target parent temporary : Path) (b : bytes)
    (verify : bytes -> IO unit) : M bool unit :=
  _ ← io (fs_create_new temporary);
  _ ← io (fs_write_all temporary b);
  _ ← io (fs_sync temporary);
  persisted ← io (fs_read temporary);
  _ ← io (verify persisted);
  _ ← io (atomic_replace temporary target);
  _ ← put true;
  io (sync_directory parent).

Definition write_verified_durable (target : Path) (b : bytes) (verify : bytes -> IO unit)
    : IO (Result DurableWriteFailure DurableWriteResult) :=
  match path_parent target with
  | None => mret (not_committed (Format "atomic target has no parent directory"))
  | Some parent =>
      created ← try_ (fs_create_dir_all parent);
      match created with
      | Err e => mret (not_committed e)
      | Ok _ =>
          match temporary_path target with
          | Err e => mret (not_committed e)
          | Ok temporary =>
              outcome ← with_local false (write_and_replace target parent temporary b verify);
              let '(result, replaced) := outcome in
              _ ← (if is_ok result then mret tt
                   else
                     leftover ← fs_exists temporary;
                     if (leftover : bool)
                     then _ ← try_ (fs_remove_file temporary); mret tt
                     else mret tt);
              match result with
              | Ok _ => mret (Ok DurableWrite.Committed)
              | Err e =>
                  mret (Err (mkDurableWriteFailure
                    (if (replaced : bool) then DurableWrite.DurabilityUnknown
                     else DurableWrite.NotCommitted) e))
              end
          end
      end
  end.

Definition write_verified (target : Path) (b : bytes) (verify : bytes -> IO unit) : IO unit :=
  r ← write_verified_durable target b verify;
  match r with
  | Ok _ => mret tt
  | Err failure => throw (dwf_error failure)
  end.

Definition classify_object `{Sha256} (path : Path) (previous : option Digest32)
    (target : Digest32) : IO ObjectClassification :=
  read ← try_ (fs_read path);
  match read with
  | Err (Io NotFound) => mret Object.Missing
  | Err e => throw e
  | Ok b =>
      let actual := ObjectDigest_of b in
      if bool_decide (actual = target) then mret Object.Target
      else if bool_decide (previous = Some actual) then mret Object.Previous
      else mret Object.Neither
  end.

(** ** Lemmas *)

(** The files the writer may touch: the target and its temporary file. *)
Definition writer_files (target : Path) (p : Path) : Prop :=
  p = target \/ temporary_path target = Ok p.

Lemma temporary_path_ne target temporary : temporary_path target = Ok temporary -> temporary <> target.
Proof.
  unfold temporary_path, path_file_name, with_file_name.
  destruct (list.last target) as [name|] eqn:Hl; [|done]. intros [= <-] Heq.
  apply list.last_Some in Hl as [l ->].
  rewrite removelast_last in Heq. apply app_inv_head in Heq. injection Heq as Heq.
  by eapply string_app_nonempty_ne; [|exact Heq].
Qed.

(** The writer stays in the directory of its target. *)
Lemma writer_files_dir d n p : writer_files (path_join d n) p -> removelast p = d.
Proof.
  unfold writer_files, temporary_path, path_file_name, path_join, with_file_name. rewrite list.last_snoc, removelast_last.
  intros [-> |[= <-]]; apply removelast_last.
Qed.

Lemma writer_files_disjoint d1 n1 d2 n2 p :
  d1 <> d2 -> writer_files (path_join d1 n1) p -> ~ writer_files (path_join d2 n2) p.
Proof. intros Hne H1%writer_files_dir H2%writer_files_dir. congruence. Qed.

Lemma path_parent_temporary target temporary :
  temporary_path target = Ok temporary -> path_parent temporary = path_parent target.
Proof.
  unfold temporary_path, path_file_name, with_file_name, path_parent.
  destruct (list.last target) as [name|] eqn:Hl; [|done]. intros [= <-].
  apply list.last_Some in Hl as [l ->]. rewrite !removelast_last.
  by destruct l.
Qed.

Section WriterSpec.
(** [V]: the files the verification closure may touch; [VQ]: what a successful
    verification of the bytes establishes. *)
Context (target : Path) (b : bytes) (verify : bytes -> IO unit).
Context (V : Path -> Prop) (VQ : Prop).
Hypothesis V_disjoint : forall p, V p -> ~ writer_files target p.
Hypothesis verify_spec : forall w0,
  wp (verify b) (fun _ _ w' => agree_off V w0 w' /\ VQ) (fun _ _ w' => agree_off V w0 w')
     (fun w' => agree_off V w0 w') tt w0.

Definition touched (p : Path) : Prop := writer_files target p \/ V p.

Definition old_or_new (w w' : World) : Prop :=
  file_at w' target = file_at w target \/ (file_at w' target = Some b /\ VQ).

Lemma wp_write_and_replace parent temporary w :
  temporary_path target = Ok temporary ->
  wp (write_and_replace target parent temporary b verify)
     (fun _ r w' => r = true /\ agree_off touched w w' /\ file_at w' target = Some b /\ VQ)
     (fun _ r w' => agree_off touched w w' /\
        if (r : bool) then file_at w' target = Some b /\ VQ else file_at w' target = file_at w target)
     (fun w' => agree_off touched w w' /\ old_or_new w w') false w.
Proof using V_disjoint verify_spec.
  intros Htmp. pose proof (temporary_path_ne _ _ Htmp) as Hne.
  assert (Hw : forall p, eq temporary p -> touched p) by (intros p <-; left; by right).
  assert (Hold : forall w', agree_off (eq temporary) w w' ->
    agree_off touched w w' /\ file_at w' target = file_at w target).
  { intros w' Ha. split; [by eapply agree_off_weaken|]. by eapply agree_off_file. }
  assert (Hold' : forall w', agree_off (eq temporary) w w' ->
    agree_off touched w w' /\ old_or_new w w').
  { intros w' Ha. apply Hold in Ha as []. split; [done|by left]. }
  assert (Hbase : agree_off (eq temporary) w w) by apply agree_off_refl.
  unfold write_and_replace.
  apply wp_bind, wp_io, wp_fs_create_new; [|by intros; apply Hold|by apply Hold'].
  intros w1 Hfree Hnew H1.
  apply wp_bind, wp_io. eapply wp_fs_write_all; [exact Hnew| | |];
    [|intros w2 H2; (apply Hold || apply Hold'); by eapply agree_off_trans..].
  intros w2 _ Hfile H2. pose proof (agree_off_trans _ _ _ _ H1 H2) as H12. clear H1 H2 Hnew.
  apply wp_bind, wp_io, wp_fs_sync; [|by apply Hold|by apply Hold'].
  apply wp_bind, wp_io, wp_fs_read; [|by intros; apply Hold..|by apply Hold'].
  intros b' Hb'. apply file_at_lookup in Hb'. cbn in Hb', Hfile.
  assert (b' = b) as -> by congruence. clear Hb'.
  set (w3 := tick (tick w2)). assert (H3 : agree_off (eq temporary) w w3) by by apply agree_off_tick, agree_off_tick.
  assert (Hverified : forall w4, agree_off V w3 w4 ->
    agree_off touched w w4 /\ file_at w4 target = file_at w target).
  { intros w4 H4. destruct (Hold w3 H3) as [Ht Hf]. split.
    - eapply agree_off_trans; [exact Ht|]. eapply agree_off_weaken; [exact H4|]. by right.
    - rewrite <- Hf. eapply agree_off_file; [done|]. intros HV. apply (V_disjoint _ HV). by left. }
  apply wp_bind, wp_io. eapply wp_mono; [apply verify_spec| | |]; simpl.
  2: { intros _ _ w4 H4. by apply Hverified. }
  2: { intros w4 H4. apply Hverified in H4 as []. split; [done|by left]. }
  intros _ _ w4 [H4 HVQ]. destruct (Hverified _ H4) as [Ht4 Hf4].
  assert (Htemp4 : w_fs w4 !! temporary = Some (File b)).
  { apply file_at_lookup. rewrite (agree_off_file _ _ _ _ H4).
    - by apply file_at_of_lookup.
    - intros HV. apply (V_disjoint _ HV). by right. }
  apply wp_bind, wp_io. eapply wp_fs_rename; [exact Hne|exact Htemp4| | |].
  2: { by intros. }
  2: { split; [done|by left]. }
  intros w5 Hf5 _ H5.
  assert (Ht5 : agree_off touched w w5).
  { eapply agree_off_trans; [exact Ht4|]. eapply agree_off_weaken; [exact H5|].
    intros p [->| ->]; left; [by right|by left]. }
  assert (Ho5 : old_or_new w w5) by by right.
  apply wp_bind, wp_put, wp_io, wp_bind, wp_fs_open; [|done|done].
  by apply wp_fs_sync.
Qed.

(** The outcome of the writer, by its result. *)
Definition write_outcome (w : World) (r : Result DurableWriteFailure DurableWriteResult)
    (w' : World) : Prop :=
  match r with
  | Ok res => res = DurableWrite.Committed /\ file_at w' target = Some b /\ VQ
  | Err f =>
      match dwf_result f with
      | DurableWrite.NotCommitted => file_at w' target = file_at w target
      | DurableWrite.DurabilityUnknown => file_at w' target = Some b /\ VQ
      | DurableWrite.Committed => False
      end
  end.

Lemma wp_write_verified_durable w :
  wp (write_verified_durable target b verify)
     (fun r _ w' => agree_off touched w w' /\ write_outcome w r w')
     (fun _ _ _ => False)
     (fun w' => agree_off touched w w' /\ old_or_new w w') tt w.
Proof using V_disjoint verify_spec.
  unfold write_verified_durable.
  destruct (path_parent target) as [parent|]; [|by split].
  assert (Hsame : forall w', same_files w w' ->
    agree_off touched w w' /\ file_at w' target = file_at w target).
  { intros w' Ha. split; [by eapply agree_off_weaken; [exact Ha|]|].
    apply (agree_off_file _ _ _ _ Ha). tauto. }
  apply wp_bind, wp_try, wp_fs_create_dir_all.
  2: { intros w' Hw'. by apply wp_ret, Hsame. }
  2: { split; [apply agree_off_refl|by left]. }
  intros w1 H1. destruct (Hsame _ H1) as [Ht1 Hf1].
  destruct (temporary_path target) as [temporary|e] eqn:Htmp; [|by split; [exact Ht1|]].
  apply wp_bind, wp_with_local. eapply wp_mono; [by apply wp_write_and_replace| | |]; simpl.
  - intros [] r w2 (-> & H2 & Hf2 & HVQ). apply wp_bind, wp_ret, wp_ret. simpl.
    split; [by eapply agree_off_trans|done].
  - intros e r w2 [H2 Hr]. pose proof (agree_off_trans _ _ _ _ Ht1 H2) as H12.
    set (res := if r then DurableWrite.DurabilityUnknown else DurableWrite.NotCommitted).
    assert (Hpost : forall w3, agree_off (eq temporary) w2 w3 ->
      agree_off touched w w3 /\ write_outcome w (Err (mkDurableWriteFailure res e)) w3).
    { intros w3 H3. split.
      - eapply agree_off_trans; [exact H12|]. eapply agree_off_weaken; [exact H3|].
        intros p <-. left; by right.
      - pose proof (temporary_path_ne _ _ Htmp).
        assert (file_at w3 target = file_at w2 target) as Hf by by eapply agree_off_file.
        unfold write_outcome, res; simpl. destruct r; simpl; rewrite Hf; [done|congruence]. }
    assert (Hcr : forall w3, agree_off (eq temporary) w2 w3 ->
      agree_off touched w w3 /\ old_or_new w w3).
    { intros w3 H3. destruct (Hpost w3 H3) as [Ha Ho]. split; [done|].
      unfold write_outcome, res in Ho; simpl in Ho. destruct r; simpl in Ho; [right|left]; tauto. }
    apply wp_bind, wp_bind, wp_fs_exists; [|by apply Hcr].
    intros [] _; [|by apply wp_ret, wp_ret, Hpost].
    apply wp_bind, wp_try, wp_fs_remove_file; [|intros; by apply wp_ret, wp_ret, Hpost..|by apply Hcr].
    intros w3 _ _ H3. apply wp_ret, wp_ret, Hpost.
    eapply agree_off_trans; [|exact H3]. apply agree_off_weaken with (P := fun _ => False); [apply same_files_tick|done].
  - intros w2 [H2 Ho]. split; [by eapply agree_off_trans|].
    unfold old_or_new in *. by rewrite <- Hf1.
Qed.
Lemma wp_write_verified (Q : unit -> unit -> World -> Prop) (E : FcpError -> unit -> World -> Prop)
    (C : World -> Prop) w :
  (forall w', agree_off touched w w' -> file_at w' target = Some b -> VQ -> Q tt tt w') ->
  (forall e w', agree_off touched w w' -> old_or_new w w' -> E e tt w') ->
  (forall w', agree_off touched w w' -> old_or_new w w' -> C w') ->
  wp (write_verified target b verify) Q E C tt w.
Proof using V_disjoint verify_spec.
  intros HQ HE HC. unfold write_verified. apply wp_bind.
  eapply wp_mono; [apply wp_write_verified_durable| | |]; cbn beta.
  - intros [res|[res e]] [] w' [Ha Ho].
    + destruct Ho as (_ & Hf & Hv). by apply wp_ret, HQ.
    + apply wp_throw, HE; [done|]. destruct res; cbn in Ho; [by left|done|by right].
  - done.
  - intros w' [Ha Ho]. by apply HC.
Qed.
End WriterSpec.

(** The same with a verification that only computes. *)
Lemma wp_write_verified_pure target b (check : bytes -> FcpResult unit)
    (Q : unit -> unit -> World -> Prop) (E : FcpError -> unit -> World -> Prop) (C : World -> Prop) w :
  (forall w', agree_off (writer_files target) w w' -> file_at w' target = Some b ->
     check b = Ok tt -> Q tt tt w') ->
  (forall e w', agree_off (writer_files target) w w' ->
     file_at w' target = file_at w target \/ (file_at w' target = Some b /\ check b = Ok tt) -> E e tt w') ->
  (forall w', agree_off (writer_files target) w w' ->
     file_at w' target = file_at w target \/ (file_at w' target = Some b /\ check b = Ok tt) -> C w') ->
  wp (write_verified target b (fun x => lift (check x))) Q E C tt w.
Proof.
  intros HQ HE HC.
  assert (Hoff : forall w', agree_off (touched target (fun _ => False)) w w' ->
    agree_off (writer_files target) w w').
  { intros w' Ha. eapply agree_off_weaken; [exact Ha|]. by intros p [|]. }
  apply (wp_write_verified _ _ _ (fun _ => False) (check b = Ok tt)); auto.
  - intros w0. apply wp_lift. destruct (check b) as [[]|]; [done|done].
Qed.

(** What [classify_object] says of a content. *)
Definition object_status `{Sha256} (previous : option Digest32) (target : Digest32)
    (content : option bytes) : ObjectClassification :=
  match content with
  | None => Object.Missing
  | Some b =>
      if bool_decide (sha256 b = target) then Object.Target
      else if bool_decide (previous = Some (sha256 b)) then Object.Previous
      else Object.Neither
  end.

Lemma wp_classify_object `{Sha256} path previous digest (Q : ObjectClassification -> unit -> World -> Prop) E C w :
  Q (object_status previous digest (file_at w path)) tt (tick w) ->
  E (Io OtherIo) tt (tick w) -> C w ->
  wp (classify_object path previous digest) Q E C tt w.
Proof.
  intros HQ HE HC. unfold classify_object. apply wp_bind, wp_try, wp_fs_read; [|intros Hn| |].
  - intros b Hb. rewrite Hb in HQ. unfold ObjectDigest_of. cbn in HQ |- *.
    repeat case_bool_decide; by apply wp_ret, HQ.
  - apply wp_ret. by rewrite Hn in HQ.
  - by apply wp_throw.
  - done.
Qed.

(** ** Running without faults *)

Lemma make_dirs_outside l fs q : q ∉ l -> foldl make_dir fs l !! q = fs !! q.
Proof.
  revert fs; induction l as [|p l IH]; intros fs Hq; [done|]. cbn.
  rewrite IH by set_solver. unfold make_dir.
  destruct (fs !! p); [done|]. rewrite lookup_insert_ne; [done|set_solver].
Qed.

Lemma make_dir_dir fs p q : fs !! q = Some Dir -> make_dir fs p !! q = Some Dir.
Proof.
  unfold make_dir. intros Hq. destruct (fs !! p) eqn:Hp; [done|].
  rewrite lookup_insert_ne; [done|congruence].
Qed.

Lemma make_dirs_inside l fs q :
  q ∈ l -> is_file (fs !! q) = false -> foldl make_dir fs l !! q = Some Dir.
Proof.
  assert (Hkeep : forall l fs, fs !! q = Some Dir -> foldl make_dir fs l !! q = Some Dir).
  { intros l0; induction l0 as [|p l0 IH]; intros fs0 H0; [done|]. apply IH. by apply make_dir_dir. }
  revert fs; induction l as [|p l IH]; intros fs Hq Hf; [set_solver|]. cbn.
  destruct (decide (p = q)) as [->|Hne].
  - apply Hkeep. unfold make_dir. destruct (fs !! q) as [[]|] eqn:Eq; [done|done|].
    by rewrite lookup_insert_eq.
  - apply IH; [by apply elem_of_cons in Hq as [->|]|]. unfold make_dir. destruct (fs !! p); [done|].
    by rewrite lookup_insert_ne.
Qed.

Lemma path_prefixes_length p q : q ∈ path_prefixes p -> (length q <= length p)%nat.
Proof.
  revert q; induction p as [|c p IH]; intros q; cbn.
  - intros Hq%list_elem_of_singleton. by subst.
  - intros Hq. apply elem_of_cons in Hq as [->|Hq]; cbn; [lia|].
    apply list_elem_of_fmap in Hq as (q' & -> & Hq'). apply IH in Hq'. cbn. lia.
Qed.

Lemma path_prefixes_self p : p ∈ path_prefixes p.
Proof.
  induction p as [|c p IH]; cbn; [set_solver|].
  apply elem_of_cons; right. by apply list_elem_of_fmap_2.
Qed.

Lemma path_parent_length p q : path_parent p = Some q -> length p = S (length q).
Proof.
  destruct p as [|c p]; [done|]. intros [= <-]. cbn [length]. f_equal.
  change (length p = length (removelast (c :: p))).
  revert c; induction p as [|d p IH]; intros c; [done|].
  change (length (d :: p) = S (length (removelast (d :: p)))). by rewrite <- IH.
Qed.

Lemma temporary_not_prefix target temporary parent :
  temporary_path target = Ok temporary -> path_parent target = Some parent ->
  temporary ∉ path_prefixes parent.
Proof.
  intros Ht Hp Hin%path_prefixes_length. rewrite <- (path_parent_temporary _ _ Ht) in Hp.
  apply path_parent_length in Hp. lia.
Qed.

Lemma path_parent_not_prefix p parent : path_parent p = Some parent -> p ∉ path_prefixes parent.
Proof. intros Hp Hin%path_prefixes_length. apply path_parent_length in Hp. lia. Qed.

(** A verification that accepts the bytes and leaves the files alone. *)
Definition accepts (verify : bytes -> IO unit) (b : bytes) : Prop :=
  forall w, no_faults w -> exists w', verify b tt w = Done tt tt w' /\ w_fs w' = w_fs w /\ w_env w' = w_env w.

Lemma run_create_new w p parent :
  no_faults w -> w_fs w !! p = None -> path_parent p = Some parent -> w_fs w !! parent = Some Dir ->
  fs_create_new p tt w = Done tt tt (set_fs (<[p := File []]> (w_fs w)) (tick w)).
Proof.
  intros Hw Hp Hpar Hd. unfold fs_create_new. rewrite run_with_fault by done.
  run_simpl. by rewrite Hp, Hpar, Hd.
Qed.

Lemma run_write_all w p b c :
  no_faults w -> w_fs w !! p = Some (File c) ->
  fs_write_all p b tt w = Done tt tt (set_fs (<[p := File (c ++ b)]> (w_fs w)) (tick w)).
Proof. intros Hw Hp. unfold fs_write_all. by rewrite Hw, Hp. Qed.

Lemma run_read w p b :
  no_faults w -> w_fs w !! p = Some (File b) -> fs_read p tt w = Done b tt (tick w).
Proof. intros Hw Hp. unfold fs_read. rewrite run_with_fault by done. run_simpl. by rewrite Hp. Qed.

Lemma run_rename w src dst b parent :
  no_faults w -> w_fs w !! src = Some (File b) -> w_fs w !! dst <> Some Dir ->
  path_parent dst = Some parent -> w_fs w !! parent = Some Dir ->
  fs_rename src dst tt w = Done tt tt (set_fs (<[dst := File b]> (delete src (w_fs w))) (tick w)).
Proof.
  intros Hw Hs Hd Hp Hpar. unfold fs_rename. rewrite run_with_fault by done.
  run_simpl. rewrite Hs, Hp, Hpar. by destruct (w_fs w !! dst) as [[]|].
Qed.

Lemma run_write_and_replace target parent temporary b verify w :
  no_faults w -> accepts verify b ->
  path_parent target = Some parent -> temporary_path target = Ok temporary ->
  w_fs w !! parent = Some Dir -> w_fs w !! temporary = None -> w_fs w !! target <> Some Dir ->
  parent <> temporary -> parent <> target ->
  exists w', write_and_replace target parent temporary b verify false w = Done tt true w' /\
    w_fs w' = <[target := File b]> (w_fs w) /\ w_env w' = w_env w.
Proof.
  intros Hw Hv Hpar Htmp Hdir Hfree Htarget Hpt Hpa.
  pose proof (temporary_path_ne _ _ Htmp) as Hne.
  set (fs2 := <[temporary := File b]> (w_fs w)).
  destruct (Hv (tick (tick (set_fs fs2 (tick (tick w)))))) as (w3 & Hr3 & Hfs3 & He3); [done|].
  cbn in Hfs3. assert (Hw3 : no_faults w3) by (unfold no_faults; by rewrite He3).
  assert (Hfs : delete temporary fs2 = w_fs w) by (unfold fs2; by rewrite delete_insert_id).
  exists (tick (tick (set_fs (<[target := File b]> (w_fs w)) (tick w3)))).
  split; [|done]. unfold write_and_replace.
  erewrite run_bind; [|eapply run_io_lift, run_create_new; [done..| |exact Hdir]; by rewrite (path_parent_temporary _ _ Htmp)].
  erewrite run_bind; [|apply run_io_lift, run_write_all; [done|apply lookup_insert_eq]].
  cbn [w_fs set_fs app]. rewrite insert_insert_eq. fold fs2.
  erewrite run_bind; [|apply run_io_lift; unfold fs_sync; by rewrite run_with_fault].
  erewrite run_bind; [|apply run_io_lift, run_read; [done|apply lookup_insert_eq]].
  erewrite run_bind; [|apply run_io_lift; exact Hr3].
  erewrite run_bind.
  2: { apply run_io_lift. unfold atomic_replace. eapply run_rename with (b := b); [done|..].
       - rewrite Hfs3. apply lookup_insert_eq.
       - rewrite Hfs3. unfold fs2. by rewrite lookup_insert_ne.
       - exact Hpar.
       - rewrite Hfs3. unfold fs2. by rewrite lookup_insert_ne. }
  rewrite Hfs3, Hfs. erewrite run_bind; [|done].
  apply run_io_lift. unfold sync_directory, fs_open, fs_sync.
  erewrite run_bind; [|rewrite run_with_fault by done; run_simpl; rewrite lookup_insert_ne, Hdir by done; done].
  by rewrite run_with_fault.
Qed.

Lemma run_write_verified_durable target parent temporary b verify w :
  no_faults w -> accepts verify b ->
  path_parent target = Some parent -> temporary_path target = Ok temporary ->
  (forall q, q ∈ path_prefixes parent -> is_file (w_fs w !! q) = false) ->
  w_fs w !! temporary = None -> w_fs w !! target <> Some Dir ->
  exists w', write_verified_durable target b verify tt w = Done (Ok DurableWrite.Committed) tt w' /\
    file_at w' target = Some b /\ w_fs w' !! temporary = None /\
    (forall p, p ∉ path_prefixes parent -> p <> target -> w_fs w' !! p = w_fs w !! p).
Proof.
  intros Hw Hv Hpar Htmp Hanc Hfree Htarget.
  pose proof (temporary_path_ne _ _ Htmp) as Hne.
  pose proof (temporary_not_prefix _ _ _ Htmp Hpar) as Hnp.
  pose proof (path_parent_not_prefix _ _ Hpar) as Htp.
  set (fs1 := foldl make_dir (w_fs w) (path_prefixes parent)).
  destruct (run_write_and_replace target parent temporary b verify (set_fs fs1 (tick w)))
    as (w' & Hr & Hfs & _); [done..| | | | | |].
  { apply make_dirs_inside; [apply path_prefixes_self|apply Hanc, path_prefixes_self]. }
  { simpl. unfold fs1. by rewrite make_dirs_outside. }
  { simpl. unfold fs1. by rewrite make_dirs_outside. }
  { intros ->. apply Hnp, path_prefixes_self. }
  { intros ->. apply Htp, path_prefixes_self. }
  exists w'. split.
  - unfold write_verified_durable. rewrite Hpar.
    erewrite run_bind.
    2: { unfold try_, fs_create_dir_all. rewrite run_with_fault by done. run_simpl.
         destruct (existsb _ _) eqn:Hex; [|done].
         apply existsb_exists in Hex as (q & Hq & Hf). apply list_elem_of_In in Hq.
         by rewrite Hanc in Hf. }
    cbn -[write_and_replace]. fold fs1. rewrite Htmp.
    erewrite run_bind; [|by unfold with_local; rewrite Hr]. done.
  - cbn in Hfs. rewrite Hfs. repeat split.
    + unfold file_at. by rewrite Hfs, lookup_insert_eq.
    + rewrite lookup_insert_ne by done. unfold fs1. by rewrite make_dirs_outside.
    + intros p Hp Hpt. rewrite lookup_insert_ne by done. unfold fs1. by rewrite make_dirs_outside.
Qed.

(** A temporary file that a killed process left behind: the write fails without
    touching the target, and the leftover is removed. *)
Lemma run_write_verified_durable_leftover target parent temporary b c verify w :
  no_faults w ->
  path_parent target = Some parent -> temporary_path target = Ok temporary ->
  (forall q, q ∈ path_prefixes parent -> is_file (w_fs w !! q) = false) ->
  w_fs w !! temporary = Some (File c) ->
  exists w',
    write_verified_durable target b verify tt w =
      Done (Err (mkDurableWriteFailure DurableWrite.NotCommitted (Io AlreadyExists))) tt w' /\
    file_at w' target = file_at w target /\ w_fs w' !! temporary = None.
Proof.
  intros Hw Hpar Htmp Hanc Hleft.
  pose proof (temporary_path_ne _ _ Htmp) as Hne.
  pose proof (temporary_not_prefix _ _ _ Htmp Hpar) as Hnp.
  pose proof (path_parent_not_prefix _ _ Hpar) as Htp.
  set (fs1 := foldl make_dir (w_fs w) (path_prefixes parent)).
  assert (Hl1 : fs1 !! temporary = Some (File c)) by (unfold fs1; by rewrite make_dirs_outside).
  exists (set_fs (delete temporary fs1) (tick (tick (tick (tick w))))). split.
  - unfold write_verified_durable. rewrite Hpar.
    erewrite run_bind.
    2: { unfold try_, fs_create_dir_all. rewrite run_with_fault by done. run_simpl.
         destruct (existsb _ _) eqn:Hex; [|done].
         apply existsb_exists in Hex as (q & Hq & Hf). apply list_elem_of_In in Hq.
         by rewrite Hanc in Hf. }
    cbn -[write_and_replace]. fold fs1. rewrite Htmp.
    erewrite run_bind.
    2: { unfold with_local, write_and_replace. erewrite run_bind_failed; [done|].
         unfold io, fs_create_new. rewrite run_with_fault by done. run_simpl. by rewrite Hl1. }
    cbn -[fs_exists fs_remove_file].
    erewrite run_bind; [done|]. erewrite run_bind.
    2: { unfold fs_exists, io_step, get_fs, mret, M_ret, mbind, M_bind. rewrite Hw. simpl.
         rewrite Hl1. by rewrite bool_decide_true. }
    cbn -[fs_remove_file].
    erewrite run_bind; [done|].
    unfold try_, fs_remove_file. rewrite run_with_fault by done. run_simpl. by rewrite Hl1.
  - split.
    + rewrite file_at_set_delete_ne by done. unfold file_at, fs1. simpl. by rewrite make_dirs_outside.
    + apply lookup_delete_eq.
Qed.

Lemma run_write_verified target parent temporary b verify w :
  no_faults w -> accepts verify b ->
  path_parent target = Some parent -> temporary_path target = Ok temporary ->
  (forall q, q ∈ path_prefixes parent -> is_file (w_fs w !! q) = false) ->
  w_fs w !! temporary = None -> w_fs w !! target <> Some Dir ->
  exists w', write_verified target b verify tt w = Done tt tt w' /\
    file_at w' target = Some b /\ w_fs w' !! temporary = None /\
    (forall p, p ∉ path_prefixes parent -> p <> target -> w_fs w' !! p = w_fs w !! p).
Proof.
  intros. edestruct run_write_verified_durable as (w' & Hr & Hrest); [done..|].
  exists w'. split; [|done]. unfold write_verified. by erewrite run_bind; [|exact Hr].
Qed.

Lemma accepts_lift (check : bytes -> FcpResult unit) b :
  check b = Ok tt -> accepts (fun x => lift (check x)) b.
Proof. intros Hc w _. exists w. by rewrite Hc. Qed.

(** ** Properties *)

(** C23: For every schedule of I/O faults and for a process killed at any step, a
    verified write leaves the target with its old bytes or with exactly the new
    ones: [Committed] and [DurabilityUnknown] mean the new, verified bytes are
    there, [NotCommitted] means the target is untouched, and no file but the
    target, its temporary file and what the verification owns is changed. *)
Theorem write_verified_durable_atomic target b verify V VQ w :
  (forall p, V p -> ~ writer_files target p) ->
  (forall w0,
     wp (verify b) (fun _ _ w' => agree_off V w0 w' /\ VQ) (fun _ _ w' => agree_off V w0 w')
       (fun w' => agree_off V w0 w') tt w0) ->
  wp (write_verified_durable target b verify)
     (fun r _ w' => agree_off (touched target V) w w' /\ write_outcome target b VQ w r w')
     (fun _ _ _ => False)
     (fun w' => agree_off (touched target V) w w' /\ old_or_new target b VQ w w') tt w.
Proof. intros. by apply wp_write_verified_durable. Qed.

Definition example_world (fs : gmap Path FsNode) (fault : nat -> Fault) : World :=
  mkWorld fs 0 (mkEnv fault (fun _ => 7) (fun _ => 1700000000000)).

Lemma write_verified_durable_atomic_witness :
  wp (write_verified_durable ["d"; "v.fcp"] (str_bytes "new") (fun _ => mret tt))
     (fun r _ w' => agree_off (touched ["d"; "v.fcp"] (fun _ => False)) (example_world {[ ["d"] := Dir ]} (fun _ => NoFault)) w'
        /\ write_outcome ["d"; "v.fcp"] (str_bytes "new") True (example_world {[ ["d"] := Dir ]} (fun _ => NoFault)) r w')
     (fun _ _ _ => False)
     (fun w' => agree_off (touched ["d"; "v.fcp"] (fun _ => False)) (example_world {[ ["d"] := Dir ]} (fun _ => NoFault)) w'
        /\ old_or_new ["d"; "v.fcp"] (str_bytes "new") True (example_world {[ ["d"] := Dir ]} (fun _ => NoFault)) w') tt
     (example_world {[ ["d"] := Dir ]} (fun _ => NoFault)).
Proof.
  apply write_verified_durable_atomic.
  - intros p [].
  - intros w0. split; [apply agree_off_refl|exact I].
Defined.

(** C32: Without faults, a write to a path whose temporary name is free succeeds:
    the result is [Committed], the target holds the bytes and no temporary file
    is left. *)
Theorem write_verified_durable_succeeds target parent temporary b verify w :
  no_faults w -> accepts verify b ->
  path_parent target = Some parent -> temporary_path target = Ok temporary ->
  (forall q, q ∈ path_prefixes parent -> is_file (w_fs w !! q) = false) ->
  w_fs w !! temporary = None -> w_fs w !! target <> Some Dir ->
  exists w', write_verified_durable target b verify tt w = Done (Ok DurableWrite.Committed) tt w' /\
    file_at w' target = Some b /\ w_fs w' !! temporary = None.
Proof.
  intros. edestruct run_write_verified_durable as (w' & ? & ? & ? & _); [done..|].
  by exists w'.
Qed.

Lemma write_verified_durable_succeeds_witness :
  exists w', write_verified_durable ["d"; "v.fcp"] (str_bytes "new") (fun _ => mret tt) tt
      (example_world {[ ["d"; "v.fcp"] := File (str_bytes "old") ]} (fun _ => NoFault)) =
      Done (Ok DurableWrite.Committed) tt w' /\
    file_at w' ["d"; "v.fcp"] = Some (str_bytes "new") /\ w_fs w' !! ["d"; "v.fcp.tmp"] = None.
Proof.
  apply (write_verified_durable_succeeds _ ["d"]); try done.
  - intros w Hw. by exists w.
  - intros q Hq. cbn in Hq.
    repeat (apply elem_of_cons in Hq as [->|Hq]; [reflexivity|]). by apply elem_of_nil in Hq.
Defined.

(** A temporary file left behind by a killed process makes the next verified
    write fail with [AlreadyExists]: nothing is committed, the target keeps its
    bytes, and the leftover is removed, so that the following write can
    succeed. *)
Theorem write_verified_durable_leftover target parent temporary b c verify w :
  no_faults w ->
  path_parent target = Some parent -> temporary_path target = Ok temporary ->
  (forall q, q ∈ path_prefixes parent -> is_file (w_fs w !! q) = false) ->
  w_fs w !! temporary = Some (File c) ->
  exists w',
    write_verified_durable target b verify tt w =
      Done (Err (mkDurableWriteFailure DurableWrite.NotCommitted (Io AlreadyExists))) tt w' /\
    file_at w' target = file_at w target /\ w_fs w' !! temporary = None.
Proof. intros. by eapply run_write_verified_durable_leftover. Qed.

Lemma write_verified_durable_leftover_witness :
  exists w',
    write_verified_durable ["d"; "v.fcp"] (str_bytes "new") (fun _ => mret tt) tt
      (example_world {[ ["d"; "v.fcp.tmp"] := File (str_bytes "ne"); ["d"] := Dir ]} (fun _ => NoFault)) =
      Done (Err (mkDurableWriteFailure DurableWrite.NotCommitted (Io AlreadyExists))) tt w' /\
    file_at w' ["d"; "v.fcp"] =
      file_at (example_world {[ ["d"; "v.fcp.tmp"] := File (str_bytes "ne"); ["d"] := Dir ]} (fun _ => NoFault)) ["d"; "v.fcp"] /\
    w_fs w' !! ["d"; "v.fcp.tmp"] = None.
Proof.
  apply (write_verified_durable_leftover _ ["d"] _ _ (str_bytes "ne")); try done.
  intros q Hq. cbn in Hq.
    repeat (apply elem_of_cons in Hq as [->|Hq]; [reflexivity|]). by apply elem_of_nil in Hq.
Defined.
