(* ===== verification/Nodes.v ===== *)
(** * Which nodes of the file system a call leaves alone

    [agree_off] compares the regular files of two worlds. Where a directory in
    the place of a file would matter, the node itself has to be kept: [kept p m]
    says that [m] never changes the node at [p], whatever happens. The hint
    database [kept] proves it from the text of the program. *)

From S2P Require Import Prelude World External AtomicFile.

Definition kept {S A} (p : Path) (m : M S A) : Prop := forall s w,
  wp m (fun _ _ w' => w_fs w' !! p = w_fs w !! p) (fun _ _ w' => w_fs w' !! p = w_fs w !! p)
    (fun w' => w_fs w' !! p = w_fs w !! p) s w.

Create HintDb kept.

Section Kept.
Context {S : Type} (p : Path).

Lemma kept_ret {A} (a : A) : kept p (mret a : M S A).
Proof. done. Qed.

Lemma kept_bind {A B} (m : M S A) (f : A -> M S B) : kept p m -> (forall a, kept p (f a)) -> kept p (m ≫= f).
Proof.
  intros Hm Hf s w. apply wp_bind. eapply wp_mono; [apply Hm|cbn beta..]; [|done|done].
  intros a s' w' <-. apply Hf.
Qed.

Lemma kept_throw {A} e : kept p (throw e : M S A).
Proof. done. Qed.
Lemma kept_lift {A} (r : FcpResult A) : kept p (lift r : M S A).
Proof. by destruct r. Qed.
Lemma kept_guard b e : kept p (guard_not b e : M S unit).
Proof. by destruct b. Qed.
Lemma kept_ok_or {A} (o : option A) e : kept p (ok_or_throw o e : M S A).
Proof. by destruct o. Qed.
Lemma kept_get : kept p (get : M S S).
Proof. done. Qed.
Lemma kept_put s : kept p (put s : M S unit).
Proof. done. Qed.
Lemma kept_modify f : kept p (modify f : M S unit).
Proof. done. Qed.

Lemma kept_try {A} (m : M S A) : kept p m -> kept p (try_ m).
Proof. intros Hm s w. by apply wp_try. Qed.

Lemma kept_io {A} (m : IO A) : kept p m -> kept p (io m : M S A).
Proof. intros Hm s w. by apply wp_io. Qed.

Lemma kept_zoom {T A} (g : S -> T) (f : T -> S -> S) (m : M T A) : kept p m -> kept p (zoom g f m).
Proof. intros Hm s w. by apply wp_zoom. Qed.

Lemma kept_with_local {T A} (t : T) (m : M T A) : kept p m -> kept p (with_local t m : M S _).
Proof. intros Hm s w. by apply wp_with_local. Qed.

Lemma kept_for_each {X} (l : list X) (body : X -> M S unit) : (forall x, kept p (body x)) -> kept p (for_each l body).
Proof. intros Hb. induction l as [|x l IH]; [apply kept_ret|]. by apply kept_bind. Qed.
End Kept.

Section KeptPrimitives.
Context (p : Path).

Lemma kept_io_step : kept p io_step.
Proof. intros [] w. unfold io_step. by run_io. Qed.

Lemma kept_with_fault {A} (m : IO A) : kept p m -> kept p (with_fault m).
Proof. intros Hm. apply kept_bind; [apply kept_io_step|]. intros []; [apply kept_throw|done]. Qed.

Lemma kept_get_fs : kept p get_fs.
Proof. by intros []. Qed.

Lemma kept_exists q : kept p (fs_exists q).
Proof. intros [] w. by apply wp_fs_exists. Qed.

Lemma kept_read q : kept p (fs_read q).
Proof. intros [] w. by apply wp_fs_read. Qed.

Lemma kept_open q : kept p (fs_open q).
Proof. intros [] w. by apply wp_fs_open. Qed.

Lemma kept_sync q : kept p (fs_sync q).
Proof. intros [] w. unfold fs_sync. by run_io. Qed.

Lemma kept_dir_entry q : kept p (fs_dir_entry q).
Proof. intros [] w. by apply wp_fs_dir_entry. Qed.

Lemma kept_read_dir q : kept p (fs_read_dir q).
Proof. intros [] w. by apply wp_fs_read_dir. Qed.

Lemma make_dir_other fs q : p <> q -> make_dir fs q !! p = fs !! p.
Proof. intros Hne. unfold make_dir. destruct (fs !! q); [done|]. by rewrite lookup_insert_ne. Qed.

Lemma kept_create_dir_all q : ~ p `prefix_of` q -> kept p (fs_create_dir_all q).
Proof.
  intros Hq [] w. unfold fs_create_dir_all. run_io; [|done..].
  destruct (existsb _ _); [done|]. cbn.
  assert (Hl : Forall (fun r => p <> r) (path_prefixes q)).
  { apply Forall_forall. intros r Hr ->. apply Hq. clear Hq. revert r Hr.
    induction q as [|c q IH]; intros r; cbn [path_prefixes]; rewrite elem_of_cons.
    - intros [->|Hr]; [done|by apply elem_of_nil in Hr].
    - intros [->|(r' & -> & Hr)%list_elem_of_fmap]; [apply prefix_nil|]. by apply prefix_cons, IH. }
  clear Hq. generalize (w_fs w) as fs. induction Hl as [|r l Hr Hl IH]; intros fs; [done|].
  cbn [foldl]. rewrite IH. by apply make_dir_other.
Qed.

Lemma kept_create_new q : p <> q -> kept p (fs_create_new q).
Proof.
  intros Hne [] w. unfold fs_create_new. run_io; [|done..].
  destruct (w_fs w !! q); [done|]. destruct (path_parent q) as [r|]; [|done].
  destruct (w_fs w !! r) as [[]|]; cbn; [done| |done]. by rewrite lookup_insert_ne.
Qed.

Lemma kept_open_append q : p <> q -> kept p (fs_open_append q).
Proof.
  intros Hne [] w. unfold fs_open_append. run_io; [|done..].
  destruct (w_fs w !! q) as [[]|]; cbn; [done..|]. by rewrite lookup_insert_ne.
Qed.

Lemma kept_write_all q b : p <> q -> kept p (fs_write_all q b).
Proof. intros Hne [] w. unfold wp, fs_write_all. destruct (env_fault _ _); cbn; by rewrite lookup_insert_ne. Qed.

Lemma kept_rename src dst : src <> dst -> p <> src -> p <> dst -> kept p (fs_rename src dst).
Proof.
  intros Hne H1 H2 [] w. apply wp_fs_rename_nodes; [done| |done..]. intros w' b _ _ _ [_ Ha]. apply Ha. by intros [].
Qed.

Lemma kept_remove_file q : p <> q -> kept p (fs_remove_file q).
Proof. intros Hne [] w. apply wp_fs_remove_nodes; [|done..]. intros w' _ [_ Ha]. by apply Ha. Qed.

Lemma kept_clock : kept p unix_ms.
Proof. intros [] w. unfold wp, unix_ms. by destruct (env_fault _ _). Qed.

Lemma kept_random n : kept p (fill_random n).
Proof. intros [] w. unfold wp, fill_random. by destruct (env_fault _ _). Qed.

Lemma kept_uuid : kept p new_v4.
Proof. by intros []. Qed.
End KeptPrimitives.

#[export] Hint Resolve kept_ret kept_throw kept_lift kept_guard kept_ok_or kept_get kept_put kept_modify kept_try
  kept_io kept_zoom kept_with_local kept_for_each kept_io_step kept_with_fault kept_get_fs kept_exists kept_read
  kept_open kept_sync kept_dir_entry kept_read_dir kept_create_dir_all kept_create_new kept_open_append
  kept_write_all kept_rename kept_remove_file kept_clock kept_random kept_uuid : kept.

(** Follows the text of a program. *)
Ltac kept_step :=
  match goal with
  | |- kept _ (_ ≫= _) => apply kept_bind; [|intros ?]
  | |- kept _ (let '(_, _) := ?x in _) => destruct x
  | |- kept _ (match ?x with _ => _ end) => destruct x
  | |- kept _ _ => solve [eauto with kept]
  end.
Ltac kept_tac := repeat kept_step.

(** The atomic writer keeps every node but its files and the directories it may
    have to create. *)
Section KeptWriter.
Context (p target : Path) (b : bytes) (verify : bytes -> IO unit).
Hypothesis verify_keeps : forall c, kept p (verify c).
Hypothesis p_other : ~ writer_files target p.
Hypothesis p_not_above : forall parent, path_parent target = Some parent -> ~ p `prefix_of` parent.

Lemma kept_write_verified_durable : kept p (write_verified_durable target b verify).
Proof using verify_keeps p_other p_not_above.
  unfold write_verified_durable. destruct (path_parent target) as [parent|] eqn:Hparent; [|kept_tac].
  specialize (p_not_above _ eq_refl). apply kept_bind; [eauto with kept|]. intros [_|e]; [|kept_tac].
  destruct (temporary_path target) as [temporary|e] eqn:Ht; [|kept_tac].
  assert (H1 : p <> target) by (intros ->; apply p_other; by left).
  assert (H2 : p <> temporary) by (intros ->; apply p_other; by right).
  pose proof (temporary_path_ne _ _ Ht) as H3.
  apply kept_bind.
  - apply kept_with_local. unfold write_and_replace, atomic_replace, sync_directory. kept_tac.
    apply kept_io. kept_tac.
  - intros [result replaced]. kept_tac.
Qed.

Lemma kept_write_verified : kept p (write_verified target b verify).
Proof using verify_keeps p_other p_not_above.
  unfold write_verified. apply kept_bind; [apply kept_write_verified_durable|]. intros []; kept_tac.
Qed.
End KeptWriter.

(** Two facts about the same run. *)
Lemma wp_and {S A} (m : M S A) (Q1 Q2 : A -> S -> World -> Prop) (E1 E2 : FcpError -> S -> World -> Prop)
    (C1 C2 : World -> Prop) s w :
  wp m Q1 E1 C1 s w -> wp m Q2 E2 C2 s w ->
  wp m (fun a s w => Q1 a s w /\ Q2 a s w) (fun e s w => E1 e s w /\ E2 e s w) (fun w => C1 w /\ C2 w) s w.
Proof. unfold wp. destruct (m s w); cbn; auto. Qed.
