(* ===== verification/Frames.v ===== *)
(** * What a call may change

    Two predicates on programs, with a rule per construct: [calm m], that [m]
    leaves the file system of the host alone, and [framed own m], that it changes
    no file but those in [own]. Both hold whatever fails, and both say that [m]
    does not panic. [calm_tac] follows the text of a program; the hint database
    [calm] holds what is known of the services. *)

From S2P Require Import Prelude World External AtomicFile.

(** [m] changes nothing of the file system of the host. *)
Definition calm {S A} (m : M S A) : Prop := forall s w,
  wp m (fun _ _ w' => untouched w w') (fun _ _ w' => untouched w w') (untouched w) s w.

Create HintDb calm.

Lemma untouched_refl w : untouched w w.
Proof. done. Qed.

Lemma untouched_tick w : untouched w (tick w).
Proof. done. Qed.

Lemma untouched_trans w1 w2 w3 : untouched w1 w2 -> untouched w2 w3 -> untouched w1 w3.
Proof. intros [? ?] [? ?]. split; [congruence|by eapply later_trans]. Qed.
#[export] Hint Resolve untouched_refl untouched_trans : calm.

Lemma untouched_file w w' p : untouched w w' -> file_at w' p = file_at w p.
Proof. intros [Hfs _]. unfold file_at. by rewrite Hfs. Qed.

Lemma calm_done {S A} (m : M S A) s w a s' w' : calm m -> m s w = Done a s' w' -> untouched w w'.
Proof. intros Hm Hrun. specialize (Hm s w). unfold wp in Hm. by rewrite Hrun in Hm. Qed.

Section Calm.
Context {S : Type}.

Lemma calm_ret {A} (a : A) : calm (mret a : M S A).
Proof. done. Qed.
Lemma calm_throw {A} e : calm (throw e : M S A).
Proof. done. Qed.
Lemma calm_lift {A} (r : FcpResult A) : calm (lift r : M S A).
Proof. by destruct r. Qed.
Lemma calm_guard b e : calm (guard_not b e : M S unit).
Proof. by destruct b. Qed.
Lemma calm_get : calm (get : M S S).
Proof. done. Qed.
Lemma calm_put s0 : calm (put s0 : M S unit).
Proof. done. Qed.
Lemma calm_modify f : calm (modify f : M S unit).
Proof. done. Qed.
Lemma calm_ok_or {A} (o : option A) e : calm (ok_or_throw o e : M S A).
Proof. apply calm_lift. Qed.
Lemma calm_zoom {T A} (g : S -> T) (f : T -> S -> S) (m : M T A) : calm m -> calm (zoom g f m).
Proof. intros Hm s w. apply wp_zoom, Hm. Qed.
Lemma calm_bind {A B} (m : M S A) (f : A -> M S B) : calm m -> (forall a, calm (f a)) -> calm (m ≫= f).
Proof.
  intros Hm Hf s w. apply wp_bind. eapply wp_mono; [apply Hm|cbn beta..]; [|done|done].
  intros a s1 w1 H1. eapply wp_mono; [apply Hf|..]; cbn beta; eauto with calm.
Qed.
Lemma calm_try {A} (m : M S A) : calm m -> calm (try_ m).
Proof. intros Hm s w. apply wp_try, Hm. Qed.
Lemma calm_with_local {T A} (t : T) (m : M T A) : calm m -> calm (with_local t m : M S _).
Proof. intros Hm s w. apply wp_with_local, Hm. Qed.
Lemma calm_io {A} (m : IO A) : calm m -> calm (io m : M S A).
Proof. intros Hm s w. apply wp_io, Hm. Qed.
End Calm.

Lemma calm_read p : calm (fs_read p).
Proof. intros [] w. by apply wp_fs_read. Qed.
Lemma calm_exists p : calm (fs_exists p).
Proof. intros [] w. by apply wp_fs_exists. Qed.

Lemma calm_clock : calm unix_ms.
Proof. intros s w. unfold wp, unix_ms. by destruct (env_fault _ _). Qed.
Lemma calm_random n : calm (fill_random n).
Proof. intros s w. unfold wp, fill_random. by destruct (env_fault _ _). Qed.
Lemma calm_uuid : calm new_v4.
Proof. done. Qed.

Lemma calm_untouched {A} (m : IO A) : calm m -> io_untouched m.
Proof. intros Hm w. apply Hm. Qed.

#[export] Hint Resolve calm_ret calm_throw calm_lift calm_guard calm_get calm_put calm_modify calm_ok_or calm_zoom
  calm_try calm_with_local calm_io calm_read calm_exists calm_clock calm_random calm_uuid : calm.

(** Follows the text of a program. *)
Ltac calm_step :=
  match goal with
  | |- calm (_ ≫= _) => apply calm_bind; [|intros ?]
  | |- calm (let '(_, _) := ?x in _) => destruct x
  | |- calm (match ?x with _ => _ end) => destruct x
  | |- calm _ => solve [eauto with calm]
  end.
Ltac calm_tac := repeat (calm_step; cbn beta zeta).

(** ** Frames around a block

    [framed own m]: [m] changes no file but those in [own]. *)
Definition framed {S A} (own : Path -> Prop) (m : M S A) : Prop := forall s w,
  wp m (fun _ _ w' => agree_off own w w') (fun _ _ w' => agree_off own w w') (agree_off own w) s w.

Section Framed.
Context {S : Type} (own : Path -> Prop).

Lemma calm_framed {A} (m : M S A) : calm m -> framed own m.
Proof. intros Hm s w. eapply wp_mono; [apply Hm|..]; cbn beta; intros; by apply untouched_frame. Qed.
Lemma framed_bind {A B} (m : M S A) (f : A -> M S B) : framed own m -> (forall a, framed own (f a)) -> framed own (m ≫= f).
Proof.
  intros Hm Hf s w. apply wp_bind. eapply wp_mono; [apply Hm|cbn beta..]; [|done|done].
  intros a s1 w1 H1. eapply wp_mono; [apply Hf|..]; cbn beta; intros; by eapply agree_off_trans.
Qed.
Lemma framed_try {A} (m : M S A) : framed own m -> framed own (try_ m).
Proof. intros Hm s w. apply wp_try, Hm. Qed.
Lemma framed_with_local {T A} (t : T) (m : M T A) : framed own m -> framed own (with_local t m : M S _).
Proof. intros Hm s w. apply wp_with_local, Hm. Qed.
Lemma framed_io {A} (m : IO A) : framed own m -> framed own (io m : M S A).
Proof. intros Hm s w. apply wp_io, Hm. Qed.
Lemma framed_zoom {T A} (g : S -> T) (f : T -> S -> S) (m : M T A) : framed own m -> framed own (zoom g f m).
Proof. intros Hm s w. apply wp_zoom, Hm. Qed.
Lemma framed_done {A} (m : M S A) s w a s' w' : framed own m -> m s w = Done a s' w' -> agree_off own w w'.
Proof. intros Hm Hrun. specialize (Hm s w). unfold wp in Hm. by rewrite Hrun in Hm. Qed.
End Framed.

Lemma framed_weaken {S A} (own own' : Path -> Prop) (m : M S A) :
  framed own m -> (forall p, own p -> own' p) -> framed own' m.
Proof. intros Hm Ho s w. eapply wp_mono; [apply Hm|..]; cbn beta; intros; by eapply agree_off_weaken. Qed.

Lemma framed_frame {A} own (m : IO A) : framed own m -> io_frame own m.
Proof. intros Hm w. apply Hm. Qed.

(** The verified writer, with a verification that only computes. *)
Lemma framed_write_verified own target b check :
  (forall p, writer_files target p -> own p) -> framed own (write_verified target b (fun x => lift (check x))).
Proof.
  intros Hown [] w. apply wp_write_verified_pure; intros; eapply agree_off_weaken; eauto.
Qed.

(** The same with a verification that only reads. *)
Lemma framed_write_calm own target b (verify : bytes -> IO unit) :
  (forall c, calm (verify c)) -> (forall p, writer_files target p -> own p) -> framed own (write_verified target b verify).
Proof.
  intros Hv Hown [] w.
  assert (Hoff : forall w', agree_off (touched target (fun _ => False)) w w' -> agree_off own w w').
  { intros w' Ha. eapply agree_off_weaken; [exact Ha|]. intros q [Hq|[]]. by apply Hown. }
  apply (wp_write_verified _ _ _ (fun _ => False) True); [done| |intros; by apply Hoff..].
  intros w0. eapply wp_mono; [apply Hv|..]; cbn beta; intros; [split; [by apply untouched_frame|done]|by apply untouched_frame..].
Qed.

(** ** A call of a system service: it changes no file, and reports its failure in
    its result. *)
Definition sys_call {A} (m : IO A) : Prop := forall w,
  wp m (fun _ _ w' => untouched w w') (fun _ _ _ => False) (untouched w) tt w.

Lemma sys_call_calm {A} (m : IO A) : sys_call m -> calm m.
Proof. intros Hm [] w. eapply wp_mono; [apply Hm|..]; cbn beta; tauto. Qed.

(** A call of a service whose answer satisfies [P]. *)
Definition sys_answer {A} (m : IO A) (P : A -> Prop) : Prop := forall w,
  wp m (fun a _ w' => untouched w w' /\ P a) (fun _ _ _ => False) (untouched w) tt w.

Lemma sys_answer_call {A} (m : IO A) P : sys_answer m P -> sys_call m.
Proof. intros Hm w. eapply wp_mono; [apply Hm|..]; cbn beta; tauto. Qed.

(** The call, with the equation of its run. *)
Lemma wp_sys_call {A} (m : IO A) (Q : A -> unit -> World -> Prop) (E : FcpError -> unit -> World -> Prop) (C : World -> Prop) w :
  sys_call m -> (forall a w', m tt w = Done a tt w' -> untouched w w' -> Q a tt w') ->
  (forall w', untouched w w' -> C w') -> wp m Q E C tt w.
Proof.
  intros Hm HQ HC. eapply wp_mono; [apply wp_track, Hm|cbn beta..]; [|by intros e [] w' []|done].
  intros a [] w' [Hrun Hu]. by apply HQ.
Qed.
