(* ===== verification/Handles.v ===== *)
(** * Handles that have to be given back

    The TPM and the key providers of Windows hand out handles. [Trace] is the record
    of a state in which every acquired and every released handle is noted;
    [balanced n m] says that [m] releases what it acquires, in the reverse order,
    and never holds more than [n] handles of its own. *)

From S2P Require Import Prelude World.

Inductive HandleEvent := Acquired (h : N) | Released (h : N).

(** A record is accepted if each handle is released in the reverse order, with at
    most [limit] of them held at a time. *)
Fixpoint brackets (limit : nat) (held : list N) (events : list HandleEvent) : option (list N) :=
  match events with
  | [] => Some held
  | Acquired h :: rest => if (length held <? limit)%nat then brackets limit (h :: held) rest else None
  | Released h :: rest =>
      match held with
      | h' :: held' => if h =? h' then brackets limit held' rest else None
      | [] => None
      end
  end.

Class Trace (S : Type) := trace : S -> list HandleEvent.
#[export] Instance trace_pair X : Trace (X * list HandleEvent) := snd.

Section Handles.
Context {S : Type} `{TR : Trace S}.

Definition extends (room : nat) (s s' : S) : Prop :=
  exists events, trace s' = trace s ++ events /\
    forall held, brackets (length held + room) held events = Some held.

Definition balanced (room : nat) {A} (m : M S A) : Prop := forall s w,
  returns (fun _ s' _ => extends room s s') (fun _ s' _ => extends room s s') (m s w).

(** [m] appends these events to the record, if it returns and if it fails. *)
Definition notes {A} (events : A -> list HandleEvent) (failed : list HandleEvent) (m : M S A) : Prop := forall s w,
  returns (fun a s' _ => trace s' = trace s ++ events a) (fun _ s' _ => trace s' = trace s ++ failed) (m s w).

(** A handle that is not [valid] needs no release. *)
Definition acquisition (valid : N -> bool) (h : N) : list HandleEvent := if valid h then [Acquired h] else [].
Definition release (valid : N -> bool) (h : N) : list HandleEvent := if valid h then [Released h] else [].

Definition acquires (valid : N -> bool) (m : M S N) : Prop := notes (acquisition valid) [] m.
Definition releases (valid : N -> bool) (h : N) {A} (m : M S A) : Prop :=
  notes (fun _ => release valid h) (release valid h) m.
End Handles.

Lemma brackets_app limit held ev1 ev2 :
  brackets limit held (ev1 ++ ev2) = held' ← brackets limit held ev1; brackets limit held' ev2.
Proof.
  revert held; induction ev1 as [|[h|h] ev1 IH]; intros held; cbn [brackets app]; [done|..].
  - destruct (length held <? limit)%nat; [apply IH|done].
  - destruct held as [|h' held]; [done|]. destruct (h =? h'); [apply IH|done].
Qed.

Lemma brackets_mono limit limit' held ev held' :
  (limit <= limit')%nat -> brackets limit held ev = Some held' -> brackets limit' held ev = Some held'.
Proof.
  intros Hl. revert held; induction ev as [|[h|h] ev IH]; intros held; cbn [brackets app]; [done|..].
  - destruct (Nat.ltb_spec (length held) limit); [|done].
    destruct (Nat.ltb_spec (length held) limit'); [apply IH|lia].
  - destruct held as [|h' held]; [done|]. destruct (h =? h'); [apply IH|done].
Qed.

Create HintDb balanced.

Section Balanced.
Context {S : Type} `{TR : Trace S}.

Lemma extends_same room (s s' : S) : trace s' = trace s -> extends room s s'.
Proof. intros H. exists []. by rewrite app_nil_r. Qed.

Lemma extends_trans room (s1 s2 s3 : S) : extends room s1 s2 -> extends room s2 s3 -> extends room s1 s3.
Proof.
  intros (ev1 & H1 & B1) (ev2 & H2 & B2). exists (ev1 ++ ev2). split; [by rewrite H2, H1, app_assoc|].
  intros held. rewrite brackets_app, B1. apply B2.
Qed.

Lemma extends_more room room' (s s' : S) : (room <= room')%nat -> extends room s s' -> extends room' s s'.
Proof.
  intros Hr (ev & H & B). exists ev. split; [done|]. intros held. eapply brackets_mono; [|apply B]. lia.
Qed.

(** A handle held around a stretch. *)
Lemma extends_held room valid h (s s1 s2 s3 : S) :
  trace s1 = trace s ++ acquisition valid h -> extends room s1 s2 -> trace s3 = trace s2 ++ release valid h ->
  extends (Datatypes.S room) s s3.
Proof.
  intros H1 (ev & H2 & B) H3. exists (acquisition valid h ++ ev ++ release valid h). split.
  { by rewrite H3, H2, H1, <- !app_assoc. }
  unfold acquisition, release. intros held. destruct (valid h).
  - cbn [brackets app]. destruct (Nat.ltb_spec (length held) (length held + Datatypes.S room)); [|lia].
    rewrite brackets_app. specialize (B (h :: held)). cbn [length] in B.
    replace (length held + Datatypes.S room)%nat with (Datatypes.S (length held) + room)%nat by lia. rewrite B. cbn.
    by rewrite N.eqb_refl.
  - cbn [app]. rewrite app_nil_r. eapply brackets_mono; [|apply B]. lia.
Qed.

Lemma balanced_more room room' {A} (m : M S A) : (room <= room')%nat -> balanced room m -> balanced room' m.
Proof.
  intros Hr Hm s w. eapply returns_mono; [apply Hm|..]; cbn beta; intros; by eapply extends_more.
Qed.

Lemma balanced_ret room {A} (a : A) : balanced room (mret a : M S A).
Proof. intros s w. by apply extends_same. Qed.
Lemma balanced_throw room {A} e : balanced room (throw e : M S A).
Proof. intros s w. by apply extends_same. Qed.
Lemma balanced_lift room {A} (r : FcpResult A) : balanced room (lift r : M S A).
Proof. intros s w. destruct r; by apply extends_same. Qed.
Lemma balanced_ok_or room {A} (o : option A) e : balanced room (ok_or_throw o e : M S A).
Proof. intros s w. destruct o; by apply extends_same. Qed.
Lemma balanced_unwrap room {A} (o : option A) : balanced room (unwrap o : M S A).
Proof. intros s w. destruct o; [by apply extends_same|done]. Qed.
Lemma balanced_io room {A} (m : IO A) : balanced room (io m : M S A).
Proof. intros s w. unfold io. destruct (m tt w); cbn; try done; by apply extends_same. Qed.
Lemma balanced_guard room b e : balanced room (guard_not b e : M S unit).
Proof. destruct b; [apply balanced_throw|apply balanced_ret]. Qed.
Lemma balanced_get room : balanced room (get : M S S).
Proof. intros s w. by apply extends_same. Qed.
Lemma balanced_modify room f : (forall s, trace (f s) = trace s) -> balanced room (modify f : M S unit).
Proof. intros Hf s w. by apply extends_same. Qed.
Lemma balanced_quiet room {A} (m : M S A) : notes (fun _ => []) [] m -> balanced room m.
Proof.
  intros Hm s w. eapply returns_mono; [apply Hm|..]; cbn beta; intros; apply extends_same; by rewrite app_nil_r in *.
Qed.

Lemma balanced_bind room {A B} (m : M S A) (f : A -> M S B) :
  balanced room m -> (forall a, balanced room (f a)) -> balanced room (m ≫= f).
Proof.
  intros Hm Hf s w. apply returns_bind. eapply returns_mono; [apply Hm|cbn beta..]; [|done].
  intros a s1 w1 H1. eapply returns_mono; [apply Hf|..]; cbn beta; intros; by eapply extends_trans.
Qed.

Lemma balanced_try room {A} (m : M S A) : balanced room m -> balanced room (try_ m).
Proof. intros Hm s w. specialize (Hm s w). unfold try_. by destruct (m s w). Qed.

(** A part of the state with the same record, or without one. *)
Lemma balanced_zoom room {T} `{TT : Trace T} (g : S -> T) (f : T -> S -> S) {A} (m : M T A) :
  (forall s, trace (g s) = trace s) -> (forall t s, trace (f t s) = trace t) -> balanced room m -> balanced room (zoom g f m).
Proof.
  intros Hg Hf Hm s w. specialize (Hm (g s) w). unfold zoom, extends in *.
  destruct (m (g s) w); cbn in *; try done; by rewrite Hf, <- Hg.
Qed.
Lemma balanced_zoom_off room {T} (g : S -> T) (f : T -> S -> S) {A} (m : M T A) :
  (forall t s, trace (f t s) = trace s) -> balanced room (zoom g f m).
Proof. intros Hf s w. unfold zoom. destruct (m (g s) w); cbn; try done; by apply extends_same. Qed.

(** A block that ends with the release of the handle that was acquired before it. *)
Lemma held_block valid room {A B} h (body : M S A) (drop : M S B) (s0 s : S) w :
  trace s = trace s0 ++ acquisition valid h -> balanced room body -> releases valid h drop ->
  returns (fun _ s' _ => extends (Datatypes.S room) s0 s') (fun _ s' _ => extends (Datatypes.S room) s0 s')
    ((result ← try_ body; _ ← drop; lift result) s w).
Proof.
  intros Hs Hb Hd. apply returns_bind. specialize (Hb s w). unfold try_.
  assert (Hend : forall (r : FcpResult A) s2 w2, extends room s s2 ->
    returns (fun _ s3 _ => extends (Datatypes.S room) s0 s3) (fun _ s3 _ => extends (Datatypes.S room) s0 s3)
      ((_ ← drop; lift r) s2 w2)).
  { intros r s2 w2 H2. apply returns_bind. eapply returns_mono; [apply Hd|cbn beta..].
    - intros _ s3 w3 H3. destruct r; by eapply extends_held.
    - intros e s3 w3 H3. by eapply extends_held. }
  destruct (body s w) as [a s2 w2|e s2 w2|w2|w2]; cbn in Hb; [by apply (Hend (Ok a))|by apply (Hend (Err e))|done|done].
Qed.

(** The one way to hold a handle: to acquire it before such a block. *)
Lemma balanced_held valid room {A B} (acquire : M S N) (body : N -> M S A) (drop : N -> M S B) :
  acquires valid acquire -> (forall h, balanced room (body h)) -> (forall h, releases valid h (drop h)) ->
  balanced (Datatypes.S room) (h ← acquire; result ← try_ (body h); _ ← drop h; lift result).
Proof.
  intros Ha Hb Hd s w. apply returns_bind. eapply returns_mono; [apply Ha|cbn beta..].
  - intros h s1 w1 H1. by apply (held_block valid room h).
  - intros e s1 w1 H1. apply extends_same. by rewrite app_nil_r in H1.
Qed.

(** A call that may acquire a handle, and what is done with its answer. *)
Lemma balanced_noted room {X A} (events : X -> list HandleEvent) (m : M S X) (f : X -> M S A) :
  notes events [] m ->
  (forall x s0 s w, trace s = trace s0 ++ events x ->
     returns (fun _ s' _ => extends room s0 s') (fun _ s' _ => extends room s0 s') (f x s w)) ->
  balanced room (m ≫= f).
Proof.
  intros Hm Hf s w. apply returns_bind. eapply returns_mono; [apply Hm|cbn beta..].
  - intros x s1 w1 H1. by apply Hf.
  - intros e s1 w1 H1. apply extends_same. by rewrite app_nil_r in H1.
Qed.

(** After a stretch that noted nothing. *)
Lemma balanced_from room {A} (m : M S A) (s0 s : S) w :
  balanced room m -> trace s = trace s0 ->
  returns (fun _ s' _ => extends room s0 s') (fun _ s' _ => extends room s0 s') (m s w).
Proof.
  intros Hm Hs. eapply returns_mono; [apply Hm|..]; cbn beta; intros; (eapply extends_trans; [by apply extends_same|eassumption]).
Qed.

Lemma notes_zoom {T} `{TT : Trace T} (g : S -> T) (f : T -> S -> S) {A} (events : A -> list HandleEvent) failed (m : M T A) :
  (forall s, trace (g s) = trace s) -> (forall t s, trace (f t s) = trace t) -> notes events failed m -> notes events failed (zoom g f m).
Proof.
  intros Hg Hf Hm s w. specialize (Hm (g s) w). unfold zoom.
  destruct (m (g s) w); cbn in *; try done; by rewrite Hf, <- Hg.
Qed.

Lemma acquires_lift_bind valid {A} (r : FcpResult A) (f : A -> M S N) :
  (forall a, acquires valid (f a)) -> acquires valid (lift r ≫= f).
Proof. intros Hf s w. destruct r as [a|e]; [apply Hf|cbn; by rewrite app_nil_r]. Qed.
End Balanced.

#[export] Hint Resolve balanced_ret balanced_throw balanced_lift balanced_ok_or balanced_unwrap balanced_io balanced_guard
  balanced_get : balanced.

(** ** A service that notes its handles *)

Section Noting.
Context {X : Type}.

Definition noting {A} (note : A -> list HandleEvent) (failed : list HandleEvent) (m : M X A) : M (X * list HandleEvent) A :=
  fun s w =>
    match m s.1 w with
    | Done a x w' => Done a (x, s.2 ++ note a) w'
    | Failed e x w' => Failed e (x, s.2 ++ failed) w'
    | Panicked w' => Panicked w'
    | Crashed w' => Crashed w'
    end.

Definition silent {A} (m : M X A) : M (X * list HandleEvent) A := noting (fun _ => []) [] m.

(** The note of a call that may hand out a handle. *)
Definition acquired {E} (valid : N -> bool) (r : Result E N) : list HandleEvent :=
  match r with Ok h => acquisition valid h | Err _ => [] end.

Lemma notes_noting {A} note failed (m : M X A) : notes note failed (noting note failed m).
Proof. intros s w. unfold noting. by destruct (m s.1 w). Qed.

Lemma balanced_silent room {A} (m : M X A) : balanced room (silent m).
Proof. apply balanced_quiet, notes_noting. Qed.

Lemma acquires_call {E} valid (m : M X (Result E N)) (convert : Result E N -> FcpResult N) :
  (forall r h, convert r = Ok h -> r = Ok h) -> (forall h, is_ok (convert (Ok h)) = true) ->
  acquires valid (r ← noting (acquired valid) [] m; lift (convert r)).
Proof.
  intros Hc Hok s w. unfold mbind, M_bind, noting. destruct (m s.1 w) as [r x w'|e x w'|w'|w']; cbn; try done.
  destruct (convert r) as [h|e] eqn:E'.
  - cbn. by rewrite (Hc _ _ E').
  - destruct r as [h|e']; [|done]. specialize (Hok h). by rewrite E' in Hok.
Qed.
End Noting.

(** Follows the text of a program; [extra] proves the calls of the service. *)
Ltac balanced_with extra := repeat (
  match goal with
  | |- balanced _ (_ ≫= _) => apply balanced_bind; [|intros ?]
  | |- balanced _ (try_ _) => apply balanced_try
  | |- balanced _ (match ?x with _ => _ end) => destruct x
  | |- balanced _ _ => first [solve [eauto with balanced] | extra]
  end; cbn beta iota zeta).
