(* ===== verification/Config.v ===== *)
(** * config.rs: the account-group configuration

    The configuration the host owns: its types, the policy table, the validation
    of scopes, and loading with the migration of version 2 files. *)

From Stdlib Require Import Strings.Ascii.
From S2P Require Import Prelude World External Examples AtomicFile.

(** ** Outside code: the public suffix list and untyped JSON *)

(** [psl::domain_str]: the registrable domain of a host name. *)
Class Psl := psl_domain_str : string -> option string.

(** [serde_json::Value]. *)
Inductive JsonValue :=
  | JNull
  | JBool (b : bool)
  | JU64 (n : N)
  | JOtherNumber (text : string)
  | JString (s : string)
  | JArray (items : list JsonValue)
  | JObject (fields : list (string * JsonValue)).

(** [serde_json::to_vec_pretty] of a value; [from_slice] is the [Serde] class. *)
Class JsonPretty := to_vec_pretty : JsonValue -> FcpResult bytes.

(** ** Data *)

Definition MAX_GROUPS : N := 32.
Definition MAX_SCOPE_LEN : N := 253.

Module Policy.
Inductive PolicyLevel := Critical | Balanced | Convenient | Monitor.
End Policy.
Abbreviation PolicyLevel := Policy.PolicyLevel.

Module Store.
Inductive StorePolicy := NormalProfile.
End Store.
Abbreviation StorePolicy := Store.StorePolicy.

Record AccountGroup := mkAccountGroup {
  ag_id : Uuid;
  ag_display_name : string;
  ag_scope : string;
  ag_policy_level : PolicyLevel;
  ag_store_policy : StorePolicy;
}.

Record AccountGroupsConfig := mkConfig {
  cfg_version : N;
  cfg_compatibility_version : N;
  cfg_groups : list AccountGroup;
}.

#[export] Instance policy_level_eq_dec : EqDecision PolicyLevel.
Proof. solve_decision. Defined.
#[export] Instance store_policy_eq_dec : EqDecision StorePolicy.
Proof. solve_decision. Defined.
#[export] Instance account_group_eq_dec : EqDecision AccountGroup.
Proof. solve_decision. Defined.
#[export] Instance config_eq_dec : EqDecision AccountGroupsConfig.
Proof. solve_decision. Defined.

Definition LEASE_BACKSTOP_MS : N := 12 * 60 * 60000.

Record PolicyParameters := mkPolicyParameters {
  lease_duration_ms : N;
  idle_threshold_seconds : N;
  last_tab_grace_ms : N;
  monitoring_only : bool;
}.

Definition policy_parameters (self : PolicyLevel) : PolicyParameters :=
  match self with
  | Policy.Critical => mkPolicyParameters LEASE_BACKSTOP_MS (5 * 60) 0 false
  | Policy.Balanced => mkPolicyParameters LEASE_BACKSTOP_MS (15 * 60) (2 * 60000) false
  | Policy.Convenient => mkPolicyParameters LEASE_BACKSTOP_MS (60 * 60) (15 * 60000) false
  | Policy.Monitor => mkPolicyParameters 0 0 0 true
  end.

Record LoadedConfig := mkLoadedConfig {
  lc_config : AccountGroupsConfig;
  lc_digest : string;
}.

(** The file that [include_bytes!] embeds: config/account-groups.json. *)
Definition newline : string := String (ascii_of_nat 10) EmptyString.
Definition quoted (s : string) : string := String (ascii_of_nat 34) s +:+ String (ascii_of_nat 34) EmptyString.
Definition BUNDLED_CONFIG : bytes := str_bytes
  ("{" +:+ newline +:+ "  " +:+ quoted "version" +:+ ": 3," +:+ newline
   +:+ "  " +:+ quoted "compatibility_version" +:+ ": 3," +:+ newline
   +:+ "  " +:+ quoted "groups" +:+ ": []" +:+ newline +:+ "}" +:+ newline).

(** ** Text *)

(** [str::trim] leaves nothing: the UTF-8 text is made of Unicode white space. *)
Fixpoint all_white_space (fuel : nat) (b : list N) : bool :=
  match fuel with
  | O => false
  | S fuel' =>
      match b with
      | [] => true
      | x :: r1 =>
          if ((9 <=? x) && (x <=? 13)) || (x =? 32) then all_white_space fuel' r1
          else match r1 with
          | [] => false
          | y :: r2 =>
              if (x =? 194) && ((y =? 133) || (y =? 160)) then all_white_space fuel' r2
              else match r2 with
              | [] => false
              | z :: r3 =>
                  if ((x =? 225) && (y =? 154) && (z =? 128))
                     || ((x =? 226) && (y =? 128)
                         && (((128 <=? z) && (z <=? 138)) || (z =? 168) || (z =? 169) || (z =? 175)))
                     || ((x =? 226) && (y =? 129) && (z =? 159))
                     || ((x =? 227) && (y =? 128) && (z =? 128))
                  then all_white_space fuel' r3
                  else false
              end
          end
      end
  end.

Definition trim_is_empty (s : string) : bool :=
  all_white_space (S (String.length s)) (Byte.to_N <$> str_bytes s).

Definition is_dot (c : ascii) : bool := Ascii.eqb c ".".

(** [trim_start_matches('.')]. *)
Fixpoint trim_start_dots (s : string) : string :=
  match s with
  | String c s' => if is_dot c then trim_start_dots s' else s
  | EmptyString => EmptyString
  end.

Definition is_ascii_alphanumeric (c : ascii) : bool :=
  is_ascii_lowercase c || is_ascii_uppercase c || is_ascii_digit c.

(** [normalize_scope]. *)
Definition normalize_scope (scope : string) : string := to_ascii_lowercase (trim_start_dots scope).

(** [str::split] on dots. *)
Fixpoint split_dots (s : string) : list string :=
  match s with
  | EmptyString => [EmptyString]
  | String c s' =>
      if is_dot c then EmptyString :: split_dots s'
      else match split_dots s' with
           | w :: ws => String c w :: ws
           | [] => [String c EmptyString]
           end
  end.

Fixpoint decimal_value (acc : N) (s : string) : N :=
  match s with
  | EmptyString => acc
  | String c s' => decimal_value (acc * 10 + (N_of_ascii c - 48)) s'
  end.

(** One octet of [Ipv4Addr::from_str]: one to three digits, no leading zero, at
    most 255. *)
Definition is_ipv4_octet (s : string) : bool :=
  (1 <=? str_len s) && (str_len s <=? 3) && str_forallb is_ascii_digit s
  && (negb (starts_with "0" s) || (str_len s =? 1)) && (decimal_value 0 s <=? 255).

Definition parses_as_ipv4 (s : string) : bool :=
  match split_dots s with
  | [a; b; c; d] => is_ipv4_octet a && is_ipv4_octet b && is_ipv4_octet c && is_ipv4_octet d
  | _ => false
  end.

(** [encode_hex]. *)
Definition hex_digit (n : N) : ascii :=
  if n <? 10 then ascii_of_N (48 + n) else ascii_of_N (87 + n).

Fixpoint encode_hex (b : bytes) : string :=
  match b with
  | [] => EmptyString
  | x :: b' =>
      String (hex_digit (N.shiftr (Byte.to_N x) 4))
        (String (hex_digit (N.land (Byte.to_N x) 15)) (encode_hex b'))
  end.

Section Validation.
Context `{PSL : Psl}.

(** [is_valid_scope]. *)
Definition is_valid_scope (scope : string) : bool :=
  if String.eqb scope "localhost" then true
  else if (str_len scope =? 0) || (MAX_SCOPE_LEN <? str_len scope) || ends_with "." scope
          || str_contains ".." scope
          || negb (str_forallb (fun c => is_ascii_alphanumeric c || Ascii.eqb c "." || Ascii.eqb c "-") scope)
  then false
  else if parses_as_ipv4 scope then true
  else match psl_domain_str scope with Some domain => String.eqb domain scope | None => false end.

Definition scopes_overlap (scope existing : string) : bool :=
  String.eqb scope existing || ends_with ("." +:+ existing) scope || ends_with ("." +:+ scope) existing.

(** The loop of [AccountGroupsConfig::validate]. *)
Fixpoint validate_groups (groups : list AccountGroup) (group_ids : gset N) (scopes : list string)
    : FcpResult unit :=
  match groups with
  | [] => Ok tt
  | group :: rest =>
      _ ← guard_err (uuid_is_nil (ag_id group) || bool_decide (ag_id group ∈ group_ids))
            (Format "account-group UUID is nil or duplicated");
      _ ← guard_err (trim_is_empty (ag_display_name group))
            (Format "account-group has an empty required field");
      let scope := normalize_scope (ag_scope group) in
      _ ← guard_err (existsb (scopes_overlap scope) scopes)
            (Format "account-group scopes overlap");
      _ ← guard_err (negb (is_valid_scope scope)) (Format "account-group scope is invalid");
      validate_groups rest ({[ag_id group]} ∪ group_ids) (scopes ++ [scope])
  end.

(** [AccountGroupsConfig::validate]. *)
Definition validate_config (self : AccountGroupsConfig) : FcpResult unit :=
  _ ← guard_err (negb (cfg_version self =? 3) || negb (cfg_compatibility_version self =? 3))
        (Format "unsupported account-group config version");
  _ ← guard_err (MAX_GROUPS <? len (cfg_groups self))
        (Format "account-group count is outside bounds");
  validate_groups (cfg_groups self) ∅ [].
End Validation.

(** ** Loading, with the migration of version 2 *)

Fixpoint obj_get (key : string) (fields : list (string * JsonValue)) : option JsonValue :=
  match fields with
  | [] => None
  | (k, v) :: rest => if String.eqb k key then Some v else obj_get key rest
  end.

Fixpoint obj_set (key : string) (value : JsonValue) (fields : list (string * JsonValue))
    : list (string * JsonValue) :=
  match fields with
  | [] => [(key, value)]
  | (k, v) :: rest => if String.eqb k key then (k, value) :: rest else (k, v) :: obj_set key value rest
  end.

Definition obj_remove (key : string) (fields : list (string * JsonValue)) : list (string * JsonValue) :=
  List.filter (fun f => negb (String.eqb f.1 key)) fields.

Definition migrate_group (group : JsonValue) : FcpResult JsonValue :=
  match group with
  | JObject fields => Ok (JObject (obj_remove "eviction_triggers" fields))
  | _ => Err (Format "legacy config group is malformed")
  end.

(** The body of the version 2 branch: [None] when the value is not version 2. *)
Definition migrate_value (value : JsonValue) : FcpResult (option JsonValue) :=
  match value with
  | JObject fields =>
      match obj_get "version" fields with
      | Some (JU64 2) =>
          match obj_get "groups" fields with
          | Some (JArray groups) =>
              migrated ← collect_results migrate_group groups;
              Ok (Some (JObject
                (obj_set "compatibility_version" (JU64 3)
                  (obj_set "version" (JU64 3) (obj_set "groups" (JArray migrated) fields)))))
          | _ => Err (Format "legacy config groups are malformed")
          end
      | _ => Ok None
      end
  | _ => Ok None
  end.

Section Load.
Context `{PSL : Psl, SH : Sha256, SV : Serde JsonValue, SP : JsonPretty, SC : Serde AccountGroupsConfig}.

Definition verify_config_candidate (candidate : bytes) : IO unit :=
  migrated ← lift (from_slice candidate); lift (validate_config migrated).

(** [LoadedConfig::load]. *)
Definition load_config (installed_path : Path) : IO LoadedConfig :=
  installed ← fs_exists installed_path;
  original ← (if (installed : bool) then fs_read installed_path else mret BUNDLED_CONFIG);
  value ← lift (from_slice original);
  migrated ← lift (migrate_value value);
  b ← match migrated with
      | None => mret original
      | Some value =>
          b ← lift (to_vec_pretty value);
          still_installed ← fs_exists installed_path;
          _ ← (if (still_installed : bool)
               then write_verified installed_path b verify_config_candidate
               else mret tt);
          mret b
      end;
  config ← lift (from_slice b);
  _ ← lift (validate_config config);
  mret (mkLoadedConfig config (encode_hex (sha256 b))).
End Load.

(** ** What validation means *)

Section Valid.
Context `{PSL : Psl}.

Record valid_group (g : AccountGroup) : Prop := {
  vg_id : ag_id g <> 0;
  vg_name : trim_is_empty (ag_display_name g) = false;
  vg_scope : is_valid_scope (normalize_scope (ag_scope g)) = true;
}.

Record valid_config (c : AccountGroupsConfig) : Prop := {
  vc_version : cfg_version c = 3;
  vc_compatibility : cfg_compatibility_version c = 3;
  vc_count : len (cfg_groups c) <= MAX_GROUPS;
  vc_ids : NoDup (ag_id <$> cfg_groups c);
  vc_groups : Forall valid_group (cfg_groups c);
  vc_disjoint : ForallOrdPairs (fun a b => scopes_overlap b a = false)
                  ((fun g => normalize_scope (ag_scope g)) <$> cfg_groups c);
}.

Lemma existsb_false {A} (f : A -> bool) l : existsb f l = false <-> Forall (fun x => f x = false) l.
Proof.
  induction l as [|x l IH]; cbn; [split; auto|].
  rewrite orb_false_iff, IH. split.
  - intros []. by constructor.
  - by intros [? ?]%Forall_cons.
Qed.

Lemma validate_groups_ok groups ids scopes :
  validate_groups groups ids scopes = Ok tt <->
  NoDup (ag_id <$> groups) /\ Forall (fun g => ag_id g ∉ ids) groups /\
  Forall valid_group groups /\
  Forall (fun g => Forall (fun e => scopes_overlap (normalize_scope (ag_scope g)) e = false) scopes) groups /\
  ForallOrdPairs (fun a b => scopes_overlap b a = false)
    ((fun g => normalize_scope (ag_scope g)) <$> groups).
Proof.
  revert ids scopes; induction groups as [|g groups IH]; intros ids scopes.
  { cbn. split; [|done]. intros _. repeat split; constructor. }
  cbn [validate_groups fmap list_fmap]. split.
  - intros Hv. res_inv Hv. unfold uuid_is_nil in *. bool_to_prop.
    apply IH in Hv as (Hnd & Hids & Hg & Hsc & Hpairs). apply existsb_false in Hr1.
    assert (Hnotin : Forall (fun g' => ag_id g' <> ag_id g /\ ag_id g' ∉ ids) groups).
    { eapply list.Forall_impl; [exact Hids|]. intros g' Hn. set_solver. }
    repeat split.
    + constructor; [|done]. intros Hin. apply list_elem_of_fmap in Hin as (g' & He & Hg').
      rewrite list.Forall_forall in Hnotin. apply Hnotin in Hg' as [Hne _]. congruence.
    + constructor; [done|]. eapply list.Forall_impl; [exact Hnotin|]. naive_solver.
    + by constructor.
    + constructor; [done|]. eapply list.Forall_impl; [exact Hsc|]. by intros g' [? _]%Forall_app.
    + constructor; [|done]. apply Forall_fmap. eapply list.Forall_impl; [exact Hsc|].
      intros g' [_ Hs]%Forall_app. rewrite Forall_singleton in Hs. exact Hs.
  - intros (Hnd & Hids & Hg & Hsc & Hpairs).
    apply NoDup_cons in Hnd as [Hni Hnd]. apply Forall_cons in Hids as [Hid Hids].
    apply Forall_cons in Hg as [[Hnil Hname Hscope] Hg]. apply Forall_cons in Hsc as [Hs0 Hsc].
    inversion Hpairs as [|? ? Hp0 Hpairs0]; subst; clear Hpairs; rename Hpairs0 into Hpairs. apply Forall_fmap in Hp0.
    unfold uuid_is_nil, mbind, result_bind, guard_err.
    rewrite (proj2 (N.eqb_neq _ _) Hnil), bool_decide_false by done. cbn [orb].
    rewrite Hname, (proj2 (existsb_false _ _) Hs0), Hscope. cbn [negb].
    apply IH. repeat split; [done| |done| |done].
    + rewrite list.Forall_forall in Hids |- *. intros g' Hg'. apply not_elem_of_union. split; [|by apply Hids].
      intros Heq%elem_of_singleton. apply Hni. rewrite <- Heq. by apply list_elem_of_fmap_2.
    + rewrite list.Forall_forall in Hsc, Hp0 |- *. intros g' Hg'. apply Forall_app. split; [by apply Hsc|].
      apply Forall_singleton. by apply Hp0.
Qed.

Lemma validate_config_valid c : validate_config c = Ok tt <-> valid_config c.
Proof.
  unfold validate_config. split.
  - intros Hv. res_inv Hv. bool_to_prop. apply validate_groups_ok in Hv as (? & _ & ? & _ & ?). by split.
  - intros [H1 H2 H3 H4 H5 H6]. unfold mbind, result_bind, guard_err.
    rewrite H1, H2, (proj2 (N.ltb_ge _ _) H3). cbn [N.eqb Pos.eqb negb orb].
    apply validate_groups_ok. repeat split; [done| |done| |done].
    + apply list.Forall_true. set_solver.
    + apply list.Forall_true. intros. constructor.
Qed.

(** A cookie host belongs to a scope when it is the scope or below it. *)
Definition host_in_scope (host scope : string) : Prop :=
  host = scope \/ ends_with ("." +:+ scope) host = true.

Lemma scopes_overlap_sym a b : scopes_overlap a b = scopes_overlap b a.
Proof.
  unfold scopes_overlap. rewrite String.eqb_sym, <- !orb_assoc.
  by rewrite (orb_comm (ends_with ("." +:+ a) b)).
Qed.

Lemma host_in_two_scopes host a b :
  host_in_scope host a -> host_in_scope host b -> scopes_overlap a b = true.
Proof.
  assert (Hdot : forall s t q, "." +:+ s = q +:+ ("." +:+ t) ->
    s = t \/ ends_with ("." +:+ t) s = true).
  { intros s t [|c q] Hq; cbn in Hq.
    - left. by injection Hq.
    - right. injection Hq as _ Hq. apply ends_with_spec. by exists q. }
  unfold host_in_scope, scopes_overlap. rewrite !orb_true_iff, String.eqb_eq.
  intros [->|Ha] [->|Hb]; [auto|auto|auto|].
  apply ends_with_spec in Ha as [p1 ->]. apply ends_with_spec in Hb as [p2 Heq].
  destruct (string_suffix_split _ _ _ _ Heq) as [[q Hq]|[q Hq]]; apply Hdot in Hq as [->|]; auto.
Qed.
End Valid.

(** ** Properties *)

(** C37: A configuration that validates has version 3, at most 32 groups with
    distinct non-nil identifiers, named and with valid scopes, and no two of its
    scopes overlap; and every such configuration validates. *)
Theorem validate_config_exact `{PSL : Psl} c : validate_config c = Ok tt <-> valid_config c.
Proof. apply validate_config_valid. Qed.

(** In a validated configuration no cookie host belongs to two groups:
    ownership of a cookie is unambiguous. *)
Theorem cookie_owner_unique `{PSL : Psl} c i j g1 g2 host :
  validate_config c = Ok tt ->
  cfg_groups c !! i = Some g1 -> cfg_groups c !! j = Some g2 ->
  host_in_scope host (normalize_scope (ag_scope g1)) ->
  host_in_scope host (normalize_scope (ag_scope g2)) ->
  i = j.
Proof.
  intros Hv%validate_config_valid H1 H2 Hh1 Hh2.
  pose proof (host_in_two_scopes _ _ _ Hh1 Hh2) as Hov.
  pose proof (vc_disjoint _ Hv) as Hpairs. revert Hpairs Hov.
  generalize (cfg_groups c) i j g1 g2 H1 H2. clear.
  intros l. induction l as [|g l IH]; intros i j g1 g2 H1 H2 Hp Hov; [done|].
  inversion Hp as [|? ? Hhead Htail]; subst.
  assert (Hin : forall k g', l !! k = Some g' ->
    scopes_overlap (normalize_scope (ag_scope g')) (normalize_scope (ag_scope g)) = false).
  { intros k g' Hk. rewrite Forall_fmap, list.Forall_forall in Hhead. apply Hhead.
    by eapply list_elem_of_lookup_2. }
  destruct i as [|i], j as [|j]; cbn in H1, H2; [done| | |].
  - injection H1 as ->. apply Hin in H2. rewrite scopes_overlap_sym in H2. congruence.
  - injection H2 as ->. apply Hin in H1. congruence.
  - f_equal. by eapply IH.
Qed.

Section ConfigExample.
#[local] Instance toy_psl : Psl := fun s => Some s.

Definition example_config : AccountGroupsConfig := mkConfig 3 3
  [mkAccountGroup 1 "Mail" ".Example.com" Policy.Balanced Store.NormalProfile;
   mkAccountGroup 2 "Local" "localhost" Policy.Critical Store.NormalProfile;
   mkAccountGroup 3 "Router" "192.168.1.1" Policy.Monitor Store.NormalProfile].

Lemma cookie_owner_unique_witness : 0%nat = 0%nat.
Proof.
  apply (cookie_owner_unique example_config 0 0
           (mkAccountGroup 1 "Mail" ".Example.com" Policy.Balanced Store.NormalProfile)
           (mkAccountGroup 1 "Mail" ".Example.com" Policy.Balanced Store.NormalProfile)
           "login.example.com"); [vm_compute; reflexivity|reflexivity|reflexivity|right; reflexivity|right; reflexivity].
Defined.
End ConfigExample.
