(* ===== verification/Messages.v ===== *)
(** * protocol/messages.rs: the protocol's data types

    The messages between the extension and the host, field by field, with the
    canonical encoding of a capability, the text form of a nonce, and the
    monitor event's vocabulary.  A cookie's expiration date, an [f64], is kept as
    its 64 bits. *)

From Stdlib Require Import Strings.Ascii.
From S2P Require Import Prelude World External Examples Config.

Definition CAPABILITY_DOMAIN : bytes := str_bytes "FCPHCAP1".
Definition CAPABILITY_NONCE_BYTES : N := 32.
Definition CAPABILITY_MAX_LIFETIME_MS : N := 60000.

(** ** Types *)

Module CapOp.
Inductive CapabilityOperation :=
  | Inject
  | RecoverProfile.
End CapOp.
Abbreviation CapabilityOperation := CapOp.CapabilityOperation.

Record CapabilityPayload := mkCapabilityPayload {
  cp_account_group_id : Uuid;
  cp_operation : CapabilityOperation;
  cp_expiry_unix_ms : N;
  cp_monotonic_sequence : N;
  cp_nonce : bytes;
}.

Record SignedCapability := mkSignedCapability {
  sc_payload : CapabilityPayload;
  sc_signature : bytes;
  sc_proof_context : bytes;
}.

Record CookiePartitionKey := mkCookiePartitionKey {
  cpk_top_level_site : option string;
  cpk_has_cross_site_ancestor : option bool;
}.

Module SameSite.
Inductive SameSiteStatus :=
  | NoRestriction
  | Lax
  | Strict
  | Unspecified.
End SameSite.
Abbreviation SameSiteStatus := SameSite.SameSiteStatus.

Record CookieRecord := mkCookieRecord {
  ck_domain : string;
  ck_expiration_date : option N;
  ck_host_only : bool;
  ck_http_only : bool;
  ck_name : string;
  ck_partition_key : option CookiePartitionKey;
  ck_path : string;
  ck_same_site : SameSiteStatus;
  ck_secure : bool;
  ck_session : bool;
  ck_store_id : string;
  ck_value : string;
}.

Record Handshake := mkHandshake {
  hs_protocol_version : N;
  hs_extension_id : string;
  hs_profile_id : Uuid;
  hs_extension_version : string;
  hs_min_host_version : string;
  hs_capabilities : list string;
  hs_cached_config_digest : option string;
}.

Module GState.
Inductive GroupState :=
  | Uninitialized
  | Sealed
  | Unlocking
  | Leased
  | Evicting
  | Degraded.
End GState.
Abbreviation GroupState := GState.GroupState.

Record RecoveryCandidate := mkRecoveryCandidate {
  rc_profile_id : Uuid;
  rc_display_name : string;
  rc_browser : string;
  rc_last_used_unix_ms : N;
  rc_site_count : N;
}.

Record HandshakeGroupState := mkHandshakeGroupState {
  hgs_account_group_id : Uuid;
  hgs_group_state : GroupState;
  hgs_reconciliation_required : bool;
  hgs_lease_id : option Uuid;
  hgs_lease_expiry_unix_ms : option N;
}.

Record HandshakeAck := mkHandshakeAck {
  hsa_protocol_version : N;
  hsa_config_digest : string;
  hsa_config : AccountGroupsConfig;
  hsa_groups : list HandshakeGroupState;
  hsa_host_version : string;
  hsa_min_extension_version : string;
  hsa_capabilities : list string;
  hsa_recovery_candidates : list RecoveryCandidate;
}.

Record RecoveryAdopt := mkRecoveryAdopt {
  ra_profile_id : Uuid;
}.

Record RecoveryAdopted := mkRecoveryAdopted {
  rad_profile_id : Uuid;
}.

Record GroupAdd := mkGroupAdd {
  ga_scope : string;
  ga_display_name : string;
  ga_policy_level : PolicyLevel;
}.

Record GroupSetPolicy := mkGroupSetPolicy {
  gsp_account_group_id : Uuid;
  gsp_policy_level : PolicyLevel;
}.

Record GroupRemove := mkGroupRemove {
  gr_account_group_id : Uuid;
}.

Record ConfigUpdated := mkConfigUpdated {
  cu_config_digest : string;
  cu_config : AccountGroupsConfig;
  cu_groups : list HandshakeGroupState;
}.

Record ConfigRejected := mkConfigRejected {
  cr_reason : string;
}.

Record OperationError := mkOperationError {
  oe_request_id : Uuid;
  oe_account_group_id : option Uuid;
  oe_code : string;
}.

Module Purpose.
Inductive LeasePurpose :=
  | Inject
  | Enroll.
End Purpose.
Abbreviation LeasePurpose := Purpose.LeasePurpose.

Record LeaseRequest := mkLeaseRequest {
  lr_account_group_id : Uuid;
  lr_purpose : LeasePurpose;
}.

Record LeaseGrant := mkLeaseGrant {
  lg_account_group_id : Uuid;
  lg_lease_id : Uuid;
  lg_expiry_unix_ms : N;
  lg_capability_sequence : option N;
}.

Record LeaseDeny := mkLeaseDeny {
  ld_account_group_id : Uuid;
  ld_reason : string;
}.

Record CookiesInjectChunk := mkCookiesInjectChunk {
  cic_account_group_id : Uuid;
  cic_lease_id : Uuid;
  cic_chunk_index : N;
  cic_chunk_count : N;
  cic_cookie_count : N;
  cic_cookies : list CookieRecord;
}.

Record InjectResult := mkInjectResult {
  ir_account_group_id : Uuid;
  ir_lease_id : Uuid;
  ir_success : bool;
  ir_health_check : string;
}.

Module EvictPh.
Inductive EvictPhase :=
  | Begin
  | SnapshotRequired.
End EvictPh.
Abbreviation EvictPhase := EvictPh.EvictPhase.

Record EvictRequest := mkEvictRequest {
  er_account_group_id : Uuid;
  er_lease_id : option Uuid;
  er_operation_id : Uuid;
  er_phase : EvictPhase;
  er_reason : string;
}.

Record CookiesSnapshotChunk := mkCookiesSnapshotChunk {
  csc_account_group_id : Uuid;
  csc_lease_id : option Uuid;
  csc_operation_id : Uuid;
  csc_chunk_index : N;
  csc_chunk_count : N;
  csc_cookie_count : N;
  csc_cookies : list CookieRecord;
  csc_operation_sequence : option N;
  csc_attempt_id : option Uuid;
  csc_purpose : option string;
}.

Module Disposition.
Inductive CookieDisposition :=
  | Remove
  | RetainLeased.
End Disposition.
Abbreviation CookieDisposition := Disposition.CookieDisposition.

Record EvictConfirmed := mkEvictConfirmed {
  ec_account_group_id : Uuid;
  ec_lease_id : option Uuid;
  ec_operation_id : Uuid;
  ec_vault_sequence : N;
  ec_cookie_disposition : CookieDisposition;
  ec_operation_sequence : option N;
  ec_attempt_id : option Uuid;
}.

Record EvictResult := mkEvictResult {
  eres_account_group_id : Uuid;
  eres_lease_id : option Uuid;
  eres_operation_id : Uuid;
  eres_success : bool;
  eres_remaining_cookie_count : N;
  eres_operation_sequence : option N;
  eres_attempt_id : option Uuid;
}.

Module WireKind.
Inductive OperationKindWire :=
  | Enrollment
  | Eviction
  | Reconciliation.
End WireKind.
Abbreviation OperationKindWire := WireKind.OperationKindWire.

Module Required.
Inductive OperationRequiredAction :=
  | SendSnapshot
  | ClassifyDurability
  | PrepareRemoval
  | VerifyBrowserState
  | Completed
  | ReconciliationRequired.
End Required.
Abbreviation OperationRequiredAction := Required.OperationRequiredAction.

Record OperationBegin := mkOperationBegin {
  ob_account_group_id : Uuid;
  ob_lease_id : option Uuid;
  ob_attempt_id : Uuid;
  ob_kind : OperationKindWire;
  ob_reason : string;
}.

Record OperationSnapshotRequired := mkOperationSnapshotRequired {
  osr_account_group_id : Uuid;
  osr_operation_id : Uuid;
  osr_operation_sequence : N;
  osr_lease_id : option Uuid;
  osr_attempt_id : Uuid;
}.

Record CookiesSnapshotChunkV7 := mkCookiesSnapshotChunkV7 {
  csc7_account_group_id : Uuid;
  csc7_operation_id : Uuid;
  csc7_operation_sequence : N;
  csc7_lease_id : option Uuid;
  csc7_attempt_id : Uuid;
  csc7_purpose : string;
  csc7_chunk_index : N;
  csc7_chunk_count : N;
  csc7_cookie_count : N;
  csc7_cookies : list CookieRecord;
}.

Record OperationStatusQuery := mkOperationStatusQuery {
  osq_account_group_id : Uuid;
  osq_operation_id : Uuid;
  osq_operation_sequence : N;
  osq_lease_id : option Uuid;
}.

Record OperationStatus := mkOperationStatus {
  os_account_group_id : Uuid;
  os_operation_id : Uuid;
  os_operation_sequence : N;
  os_lease_id : option Uuid;
  os_phase : string;
  os_required_action : OperationRequiredAction;
}.

Record EvictConfirmedV7 := mkEvictConfirmedV7 {
  ec7_account_group_id : Uuid;
  ec7_operation_id : Uuid;
  ec7_operation_sequence : N;
  ec7_lease_id : option Uuid;
  ec7_attempt_id : Uuid;
  ec7_vault_sequence : N;
  ec7_cookie_disposition : CookieDisposition;
}.

Record EvictRemovePrepare := mkEvictRemovePrepare {
  erp_account_group_id : Uuid;
  erp_operation_id : Uuid;
  erp_operation_sequence : N;
  erp_lease_id : option Uuid;
  erp_attempt_id : Uuid;
}.

Record EvictRemoveAuthorized := mkEvictRemoveAuthorized {
  era_account_group_id : Uuid;
  era_operation_id : Uuid;
  era_operation_sequence : N;
  era_lease_id : option Uuid;
  era_attempt_id : Uuid;
}.

Record EvictResultV7 := mkEvictResultV7 {
  er7_account_group_id : Uuid;
  er7_operation_id : Uuid;
  er7_operation_sequence : N;
  er7_lease_id : option Uuid;
  er7_attempt_id : Uuid;
  er7_success : bool;
  er7_remaining_cookie_count : N;
}.

Record OperationCompleted := mkOperationCompleted {
  oc_account_group_id : Uuid;
  oc_operation_id : Uuid;
  oc_operation_sequence : N;
  oc_lease_id : option Uuid;
  oc_success : bool;
}.

Module Invalidation.
Inductive SessionInvalidationReason :=
  | ExternalLogout
  | RestoreRejected
  | ScopeEmpty.
End Invalidation.
Abbreviation SessionInvalidationReason := Invalidation.SessionInvalidationReason.

Record SessionInvalidate := mkSessionInvalidate {
  si_account_group_id : Uuid;
  si_lease_id : option Uuid;
  si_reason : SessionInvalidationReason;
}.

Record SessionInvalidated := mkSessionInvalidated {
  sid_account_group_id : Uuid;
  sid_reason : SessionInvalidationReason;
}.

Record AuthCacheClear := mkAuthCacheClear {
  acc_account_group_id : Uuid;
  acc_reason : string;
}.

Module Severity.
Inductive MonitorSeverity :=
  | Info
  | Medium
  | High.
End Severity.
Abbreviation MonitorSeverity := Severity.MonitorSeverity.

Module Signal.
Inductive MonitorSignal :=
  | RemoteDebuggingPort
  | RemoteDebuggingPipe
  | ProcessInspectionWmiConnectAccessDenied
  | ProcessInspectionWmiConnectFailed
  | ProcessInspectionWmiPollAccessDenied
  | ProcessInspectionWmiPollFailed
  | ProcessInspectionCommandLineAccessDenied
  | ProcessInspectionCommandLineUnavailable
  | HostDisconnect
  | HostDisconnectActiveLease
  | ReconnectSuccess
  | ReconciliationFailed
  | AuditIntegrityRecovered
  | LeaseOutsideCookieCreated
  | SelectorChanged
  | MonitorQueueOverflow.
End Signal.
Abbreviation MonitorSignal := Signal.MonitorSignal.

Module Source.
Inductive MonitorSource :=
  | Extension
  | NativeHost.
End Source.
Abbreviation MonitorSource := Source.MonitorSource.

Record MonitorEvent := mkMonitorEvent {
  me_event_id : Uuid;
  me_observed_at_unix_ms : N;
  me_source : MonitorSource;
  me_signal : MonitorSignal;
  me_severity : MonitorSeverity;
  me_account_group_id : option Uuid;
  me_occurrence_count : N;
}.

Record MonitorPoll := mkMonitorPoll {
  mp_max_events : N;
}.

Record MonitorAlert := mkMonitorAlert {
  ma_event : MonitorEvent;
}.

Module Msg.
Inductive Message :=
  | Handshake (m : Handshake)
  | HandshakeAck (m : HandshakeAck)
  | RecoveryAdopt (m : RecoveryAdopt)
  | RecoveryAdopted (m : RecoveryAdopted)
  | LeaseRequest (m : LeaseRequest)
  | LeaseGrant (m : LeaseGrant)
  | LeaseDeny (m : LeaseDeny)
  | CookiesInjectChunk (m : CookiesInjectChunk)
  | InjectResult (m : InjectResult)
  | EvictRequest (m : EvictRequest)
  | CookiesSnapshotChunk (m : CookiesSnapshotChunk)
  | EvictConfirmed (m : EvictConfirmed)
  | EvictResult (m : EvictResult)
  | OperationBegin (m : OperationBegin)
  | OperationSnapshotRequired (m : OperationSnapshotRequired)
  | OperationStatusQuery (m : OperationStatusQuery)
  | OperationStatus (m : OperationStatus)
  | EvictRemovePrepare (m : EvictRemovePrepare)
  | EvictRemoveAuthorized (m : EvictRemoveAuthorized)
  | OperationCompleted (m : OperationCompleted)
  | SessionInvalidate (m : SessionInvalidate)
  | SessionInvalidated (m : SessionInvalidated)
  | AuthCacheClear (m : AuthCacheClear)
  | MonitorEvent (m : MonitorEvent)
  | MonitorPoll (m : MonitorPoll)
  | MonitorAlert (m : MonitorAlert)
  | GroupAdd (m : GroupAdd)
  | GroupRemove (m : GroupRemove)
  | GroupSetPolicy (m : GroupSetPolicy)
  | ConfigUpdated (m : ConfigUpdated)
  | ConfigRejected (m : ConfigRejected)
  | OperationError (m : OperationError).
End Msg.
Abbreviation Message := Msg.Message.

(** Decidable equality of every type. *)

#[export] Instance capability_operation_eq_dec : EqDecision CapabilityOperation.
Proof. solve_decision. Defined.
#[export] Instance capability_payload_eq_dec : EqDecision CapabilityPayload.
Proof. solve_decision. Defined.
#[export] Instance signed_capability_eq_dec : EqDecision SignedCapability.
Proof. solve_decision. Defined.
#[export] Instance cookie_partition_key_eq_dec : EqDecision CookiePartitionKey.
Proof. solve_decision. Defined.
#[export] Instance same_site_status_eq_dec : EqDecision SameSiteStatus.
Proof. solve_decision. Defined.
#[export] Instance cookie_record_eq_dec : EqDecision CookieRecord.
Proof. solve_decision. Defined.
#[export] Instance handshake_eq_dec : EqDecision Handshake.
Proof. solve_decision. Defined.
#[export] Instance group_state_eq_dec : EqDecision GroupState.
Proof. solve_decision. Defined.
#[export] Instance recovery_candidate_eq_dec : EqDecision RecoveryCandidate.
Proof. solve_decision. Defined.
#[export] Instance handshake_group_state_eq_dec : EqDecision HandshakeGroupState.
Proof. solve_decision. Defined.
#[export] Instance handshake_ack_eq_dec : EqDecision HandshakeAck.
Proof. solve_decision. Defined.
#[export] Instance recovery_adopt_eq_dec : EqDecision RecoveryAdopt.
Proof. solve_decision. Defined.
#[export] Instance recovery_adopted_eq_dec : EqDecision RecoveryAdopted.
Proof. solve_decision. Defined.
#[export] Instance group_add_eq_dec : EqDecision GroupAdd.
Proof. solve_decision. Defined.
#[export] Instance group_set_policy_eq_dec : EqDecision GroupSetPolicy.
Proof. solve_decision. Defined.
#[export] Instance group_remove_eq_dec : EqDecision GroupRemove.
Proof. solve_decision. Defined.
#[export] Instance config_updated_eq_dec : EqDecision ConfigUpdated.
Proof. solve_decision. Defined.
#[export] Instance config_rejected_eq_dec : EqDecision ConfigRejected.
Proof. solve_decision. Defined.
#[export] Instance operation_error_eq_dec : EqDecision OperationError.
Proof. solve_decision. Defined.
#[export] Instance lease_purpose_eq_dec : EqDecision LeasePurpose.
Proof. solve_decision. Defined.
#[export] Instance lease_request_eq_dec : EqDecision LeaseRequest.
Proof. solve_decision. Defined.
#[export] Instance lease_grant_eq_dec : EqDecision LeaseGrant.
Proof. solve_decision. Defined.
#[export] Instance lease_deny_eq_dec : EqDecision LeaseDeny.
Proof. solve_decision. Defined.
#[export] Instance cookies_inject_chunk_eq_dec : EqDecision CookiesInjectChunk.
Proof. solve_decision. Defined.
#[export] Instance inject_result_eq_dec : EqDecision InjectResult.
Proof. solve_decision. Defined.
#[export] Instance evict_phase_eq_dec : EqDecision EvictPhase.
Proof. solve_decision. Defined.
#[export] Instance evict_request_eq_dec : EqDecision EvictRequest.
Proof. solve_decision. Defined.
#[export] Instance cookies_snapshot_chunk_eq_dec : EqDecision CookiesSnapshotChunk.
Proof. solve_decision. Defined.
#[export] Instance cookie_disposition_eq_dec : EqDecision CookieDisposition.
Proof. solve_decision. Defined.
#[export] Instance evict_confirmed_eq_dec : EqDecision EvictConfirmed.
Proof. solve_decision. Defined.
#[export] Instance evict_result_eq_dec : EqDecision EvictResult.
Proof. solve_decision. Defined.
#[export] Instance operation_kind_wire_eq_dec : EqDecision OperationKindWire.
Proof. solve_decision. Defined.
#[export] Instance operation_required_action_eq_dec : EqDecision OperationRequiredAction.
Proof. solve_decision. Defined.
#[export] Instance operation_begin_eq_dec : EqDecision OperationBegin.
Proof. solve_decision. Defined.
#[export] Instance operation_snapshot_required_eq_dec : EqDecision OperationSnapshotRequired.
Proof. solve_decision. Defined.
#[export] Instance cookies_snapshot_chunk_v7_eq_dec : EqDecision CookiesSnapshotChunkV7.
Proof. solve_decision. Defined.
#[export] Instance operation_status_query_eq_dec : EqDecision OperationStatusQuery.
Proof. solve_decision. Defined.
#[export] Instance operation_status_eq_dec : EqDecision OperationStatus.
Proof. solve_decision. Defined.
#[export] Instance evict_confirmed_v7_eq_dec : EqDecision EvictConfirmedV7.
Proof. solve_decision. Defined.
#[export] Instance evict_remove_prepare_eq_dec : EqDecision EvictRemovePrepare.
Proof. solve_decision. Defined.
#[export] Instance evict_remove_authorized_eq_dec : EqDecision EvictRemoveAuthorized.
Proof. solve_decision. Defined.
#[export] Instance evict_result_v7_eq_dec : EqDecision EvictResultV7.
Proof. solve_decision. Defined.
#[export] Instance operation_completed_eq_dec : EqDecision OperationCompleted.
Proof. solve_decision. Defined.
#[export] Instance session_invalidation_reason_eq_dec : EqDecision SessionInvalidationReason.
Proof. solve_decision. Defined.
#[export] Instance session_invalidate_eq_dec : EqDecision SessionInvalidate.
Proof. solve_decision. Defined.
#[export] Instance session_invalidated_eq_dec : EqDecision SessionInvalidated.
Proof. solve_decision. Defined.
#[export] Instance auth_cache_clear_eq_dec : EqDecision AuthCacheClear.
Proof. solve_decision. Defined.
#[export] Instance monitor_severity_eq_dec : EqDecision MonitorSeverity.
Proof. solve_decision. Defined.
#[export] Instance monitor_signal_eq_dec : EqDecision MonitorSignal.
Proof. solve_decision. Defined.
#[export] Instance monitor_source_eq_dec : EqDecision MonitorSource.
Proof. solve_decision. Defined.
#[export] Instance monitor_event_eq_dec : EqDecision MonitorEvent.
Proof. solve_decision. Defined.
#[export] Instance monitor_poll_eq_dec : EqDecision MonitorPoll.
Proof. solve_decision. Defined.
#[export] Instance monitor_alert_eq_dec : EqDecision MonitorAlert.
Proof. solve_decision. Defined.
#[export] Instance message_eq_dec : EqDecision Message.
Proof. solve_decision. Defined.

(** ** Capabilities *)

(** The discriminant, [self.operation as u8]. *)
Definition capability_operation_u8 (op : CapabilityOperation) : N :=
  match op with CapOp.Inject => 1 | CapOp.RecoverProfile => 2 end.

(** [CapabilityPayload::canonical_bytes]. *)
Definition canonical_bytes (self : CapabilityPayload) : bytes :=
  CAPABILITY_DOMAIN
  ++ uuid_as_bytes (cp_account_group_id self)
  ++ [u8_of_N (capability_operation_u8 (cp_operation self))]
  ++ le_bytes 8 (cp_expiry_unix_ms self)
  ++ le_bytes 8 (cp_monotonic_sequence self)
  ++ cp_nonce self.

(** [CapabilityPayload::validate_shape]. *)
Definition validate_shape (self : CapabilityPayload) : FcpResult unit :=
  _ ← guard_err (uuid_is_nil (cp_account_group_id self))
        (Capability "account_group_id must not be nil");
  _ ← guard_err (cp_monotonic_sequence self =? 0)
        (Capability "monotonic_sequence must start at one");
  guard_err (forallb (fun b => Byte.to_N b =? 0) (cp_nonce self))
    (Capability "nonce must not be all-zero").

(** ** Nonce text *)

(** [Serialize for Nonce32], through [encode_hex]. *)
Definition serialize_nonce (nonce : bytes) : string := encode_hex nonce.

(** [decode_nibble]. *)
Definition decode_nibble (value : N) : Result string N :=
  if (48 <=? value) && (value <=? 57) then Ok (value - 48)
  else if (97 <=? value) && (value <=? 102) then Ok (value - 97 + 10)
  else Err "nonce must use lowercase hexadecimal encoding".

(** The loop of [decode_nonce]: slot by slot, two characters each. *)
Fixpoint decode_nonce_slots (slots : nat) (encoded : string) : Result string bytes :=
  match slots with
  | O => Ok []
  | S slots' =>
      match encoded with
      | String a (String b rest) =>
          high ← decode_nibble (N_of_ascii a);
          low ← decode_nibble (N_of_ascii b);
          tail ← decode_nonce_slots slots' rest;
          Ok (u8_of_N (N.lor (N.shiftl high 4) low) :: tail)
      | _ => Err "unreachable: the length was checked"
      end
  end.

(** [decode_nonce]. *)
Definition decode_nonce (encoded : string) : Result string bytes :=
  if negb (str_len encoded =? CAPABILITY_NONCE_BYTES * 2)
  then Err "nonce must contain 64 lowercase hexadecimal characters"
  else decode_nonce_slots 32 encoded.

(** ** Monitor events *)

(** [MonitorSignal::severity]. *)
Definition severity (self : MonitorSignal) : MonitorSeverity :=
  match self with
  | Signal.RemoteDebuggingPort
  | Signal.RemoteDebuggingPipe
  | Signal.HostDisconnectActiveLease
  | Signal.ReconciliationFailed
  | Signal.AuditIntegrityRecovered => Severity.High
  | Signal.LeaseOutsideCookieCreated | Signal.MonitorQueueOverflow => Severity.Medium
  | Signal.HostDisconnect
  | Signal.ReconnectSuccess
  | Signal.SelectorChanged
  | Signal.ProcessInspectionWmiConnectAccessDenied
  | Signal.ProcessInspectionWmiConnectFailed
  | Signal.ProcessInspectionWmiPollAccessDenied
  | Signal.ProcessInspectionWmiPollFailed
  | Signal.ProcessInspectionCommandLineAccessDenied
  | Signal.ProcessInspectionCommandLineUnavailable => Severity.Info
  end.

(** [MonitorSignal::audit_code]. *)
Definition audit_code (self : MonitorSignal) : string :=
  match self with
  | Signal.RemoteDebuggingPort => "remote_debugging_port"
  | Signal.RemoteDebuggingPipe => "remote_debugging_pipe"
  | Signal.ProcessInspectionWmiConnectAccessDenied =>
      "process_inspection_wmi_connect_wbem_access_denied_0x80041003"
  | Signal.ProcessInspectionWmiConnectFailed => "process_inspection_wmi_connect_failed"
  | Signal.ProcessInspectionWmiPollAccessDenied =>
      "process_inspection_wmi_poll_wbem_access_denied_0x80041003"
  | Signal.ProcessInspectionWmiPollFailed => "process_inspection_wmi_poll_failed"
  | Signal.ProcessInspectionCommandLineAccessDenied =>
      "process_inspection_command_line_wbem_access_denied_0x80041003"
  | Signal.ProcessInspectionCommandLineUnavailable =>
      "process_inspection_command_line_unavailable"
  | Signal.HostDisconnect => "host_disconnect"
  | Signal.HostDisconnectActiveLease => "host_disconnect_active_lease"
  | Signal.ReconnectSuccess => "reconnect_success"
  | Signal.ReconciliationFailed => "reconciliation_failed"
  | Signal.AuditIntegrityRecovered => "audit_integrity_recovered"
  | Signal.LeaseOutsideCookieCreated => "lease_outside_cookie_created"
  | Signal.SelectorChanged => "selector_changed"
  | Signal.MonitorQueueOverflow => "monitor_queue_overflow"
  end.

(** [MonitorEvent::validate]. *)
Definition validate_event (self : MonitorEvent) : FcpResult unit :=
  _ ← guard_err (uuid_is_nil (me_event_id self)) (Protocol "monitor event id must not be nil");
  _ ← guard_err (bool_decide (me_severity self <> severity (me_signal self)))
        (Protocol "monitor severity does not match signal");
  guard_err ((me_occurrence_count self =? 0) || (1000 <? me_occurrence_count self))
    (Protocol "monitor occurrence count is out of range").

(** ** Lemmas *)

Lemma str_len_encode_hex b : str_len (encode_hex b) = 2 * len b.
Proof.
  unfold str_len, len. induction b as [|x b IH]; [done|].
  cbn [encode_hex String.length length]. lia.
Qed.

Lemma decode_nibble_hex (x : byte) :
  decode_nibble (N_of_ascii (hex_digit (N.shiftr (Byte.to_N x) 4))) = Ok (N.shiftr (Byte.to_N x) 4) /\
  decode_nibble (N_of_ascii (hex_digit (N.land (Byte.to_N x) 15))) = Ok (N.land (Byte.to_N x) 15) /\
  u8_of_N (N.lor (N.shiftl (N.shiftr (Byte.to_N x) 4) 4) (N.land (Byte.to_N x) 15)) = x.
Proof. destruct x; repeat split; reflexivity. Qed.

Lemma decode_nonce_slots_hex b : decode_nonce_slots (length b) (encode_hex b) = Ok b.
Proof.
  induction b as [|x b IH]; [done|]. cbn [length encode_hex decode_nonce_slots].
  destruct (decode_nibble_hex x) as (-> & -> & Hx). unfold mbind, result_bind.
  by rewrite IH, Hx.
Qed.

Lemma hex_decode_nibble (a : ascii) h :
  decode_nibble (N_of_ascii a) = Ok h -> hex_digit h = a /\ h < 16.
Proof.
  destruct a as [[] [] [] [] [] [] [] []]; intros Hd; vm_compute in Hd; try discriminate Hd;
    injection Hd as <-; split; reflexivity.
Qed.

Lemma u8_nibbles h l : h < 16 -> l < 16 ->
  N.shiftr (Byte.to_N (u8_of_N (N.lor (N.shiftl h 4) l))) 4 = h /\
  N.land (Byte.to_N (u8_of_N (N.lor (N.shiftl h 4) l))) 15 = l.
Proof.
  intros Hh Hl. rewrite to_N_u8_of_N.
  assert (Hcheck : forallb (fun h => forallb (fun l =>
    (N.shiftr (N.lor (N.shiftl h 4) l mod 256) 4 =? h) && (N.land (N.lor (N.shiftl h 4) l mod 256) 15 =? l))
    (N.of_nat <$> seq 0 16)) (N.of_nat <$> seq 0 16) = true) by reflexivity.
  assert (Hin : forall n, n < 16 -> In n (N.of_nat <$> seq 0 16)).
  { intros n Hn. apply list_elem_of_In, list_elem_of_fmap. exists (N.to_nat n).
    split; [lia|]. apply elem_of_seq. lia. }
  rewrite forallb_forall in Hcheck. specialize (Hcheck h (Hin h Hh)).
  rewrite forallb_forall in Hcheck. specialize (Hcheck l (Hin l Hl)).
  apply andb_true_iff in Hcheck as [H1 H2]. by apply N.eqb_eq in H1, H2.
Qed.

Lemma decode_nonce_slots_inv slots s b :
  decode_nonce_slots slots s = Ok b -> String.length s = (2 * slots)%nat ->
  encode_hex b = s /\ length b = slots.
Proof.
  revert s b; induction slots as [|slots IH]; intros s b Hd Hlen.
  - injection Hd as <-. by destruct s.
  - destruct s as [|x [|y s]]; [done|cbn in Hlen; lia|]. cbn [decode_nonce_slots] in Hd.
    res_inv Hd. injection Hd as <-.
    apply hex_decode_nibble in Hr as [Hx Hh]. apply hex_decode_nibble in Hr0 as [Hy Hl].
    apply IH in Hr1 as [Hs Hn]; [|cbn in Hlen; lia].
    destruct (u8_nibbles _ _ Hh Hl) as [E1 E2].
    cbn [encode_hex length]. rewrite E1, E2, Hx, Hy, Hs, Hn. done.
Qed.

Lemma app_inj_length {A} (a b c d : list A) : length a = length c -> a ++ b = c ++ d -> a = c /\ b = d.
Proof. intros Hl Heq. by apply app_inj_1. Qed.

Lemma be_bytes_inj n u v :
  u < 256 ^ N.of_nat n -> v < 256 ^ N.of_nat n -> be_bytes n u = be_bytes n v -> u = v.
Proof. intros Hu Hv Heq. by rewrite <- (be_value_be_bytes n u), Heq, be_value_be_bytes. Qed.

Lemma le_bytes_inj n u v :
  u < 256 ^ N.of_nat n -> v < 256 ^ N.of_nat n -> le_bytes n u = le_bytes n v -> u = v.
Proof. intros Hu Hv Heq. by rewrite <- (le_value_le_bytes n u), Heq, le_value_le_bytes. Qed.

(** The field widths of a payload. *)
Record payload_in_range (p : CapabilityPayload) : Prop := {
  pr_group : cp_account_group_id p < 2 ^ 128;
  pr_expiry : cp_expiry_unix_ms p < 2 ^ 64;
  pr_sequence : cp_monotonic_sequence p < 2 ^ 64;
  pr_nonce : len (cp_nonce p) = CAPABILITY_NONCE_BYTES;
}.

Lemma canonical_bytes_length p : payload_in_range p -> len (canonical_bytes p) = 73.
Proof.
  intros Hp. pose proof (pr_nonce _ Hp) as Hn. unfold len in *. unfold canonical_bytes, uuid_as_bytes.
  rewrite !length_app, length_be_bytes, !length_le_bytes.
  change (length CAPABILITY_DOMAIN) with 8%nat. cbn [length]. unfold CAPABILITY_NONCE_BYTES in Hn. lia.
Qed.

Lemma canonical_bytes_inj p q :
  payload_in_range p -> payload_in_range q -> canonical_bytes p = canonical_bytes q -> p = q.
Proof.
  intros [Hg1 He1 Hs1 _] [Hg2 He2 Hs2 _]. unfold canonical_bytes, uuid_as_bytes. intros Heq.
  apply app_inj_length in Heq as [_ Heq]; [|done].
  apply app_inj_length in Heq as [Hg Heq]; [|by rewrite !length_be_bytes].
  apply app_inj_length in Heq as [Ho Heq]; [|done].
  apply app_inj_length in Heq as [He Heq]; [|by rewrite !length_le_bytes].
  apply app_inj_length in Heq as [Hs Hn]; [|by rewrite !length_le_bytes].
  apply be_bytes_inj in Hg; [|done..]. apply le_bytes_inj in He; [|done..]. apply le_bytes_inj in Hs; [|done..].
  destruct p as [g1 o1 e1 s1 n1], q as [g2 o2 e2 s2 n2]; cbn in *. subst. f_equal.
  by destruct o1, o2.
Qed.

(** ** Properties *)

(** The bytes a capability signature covers determine the capability: two
    payloads with the same canonical bytes agree on group, operation, expiry,
    sequence and nonce. *)
Theorem canonical_bytes_binds_payload p q :
  payload_in_range p -> payload_in_range q -> canonical_bytes p = canonical_bytes q -> p = q.
Proof. apply canonical_bytes_inj. Qed.

Definition example_payload : CapabilityPayload :=
  mkCapabilityPayload 77 CapOp.Inject 1700000060000 1 (be_bytes 32 12345).

Lemma example_payload_in_range : payload_in_range example_payload.
Proof. split; reflexivity. Qed.

Lemma canonical_bytes_binds_payload_witness : example_payload = example_payload.
Proof.
  apply canonical_bytes_binds_payload; [apply example_payload_in_range..|reflexivity].
Defined.

(** The text form of a nonce is a bijection: decoding accepts exactly the
    64-character lowercase hexadecimal strings, and it inverts the encoding. *)
Theorem nonce_text_round_trip n s :
  (len n = CAPABILITY_NONCE_BYTES -> decode_nonce (serialize_nonce n) = Ok n) /\
  (decode_nonce s = Ok n -> serialize_nonce n = s /\ len n = CAPABILITY_NONCE_BYTES).
Proof.
  unfold decode_nonce, serialize_nonce. split.
  - intros Hn. rewrite str_len_encode_hex, Hn. cbn [negb].
    replace 32%nat with (length n) by (unfold len, CAPABILITY_NONCE_BYTES in Hn; lia).
    apply decode_nonce_slots_hex.
  - destruct (N.eqb_spec (str_len s) (CAPABILITY_NONCE_BYTES * 2)) as [Hl|]; [|done].
    intros Hd. apply decode_nonce_slots_inv in Hd as [Hs Hn].
    + split; [done|]. unfold len. by rewrite Hn.
    + unfold str_len, CAPABILITY_NONCE_BYTES in Hl. lia.
Qed.
