(* ===== verification/VaultFormat.v ===== *)
(** * vault/format.rs, vault/payload.rs, crypto/aead.rs: the vault record

    A vault file is a fixed header of 318 bytes, the ciphertext and the tag. The
    header is also the additional data of the authenticated encryption. *)

From S2P Require Import Prelude World External Examples Config Messages.

(** ** crypto/aead.rs *)

Definition DEK_BYTES : N := 32.
Definition GCM_NONCE_BYTES : N := 12.
Definition GCM_TAG_BYTES : N := 16.

(** [SecretDek]: 32 bytes; zeroizing is not observable. *)
Abbreviation SecretDek := bytes.

(** [SecretDek::generate], [generate_nonce]. *)
Definition generate_dek : IO SecretDek := fill_random 32.
Definition generate_nonce : IO bytes := fill_random 12.

Section Cipher.
Context `{AE : Aead}.

Definition encrypt (dek nonce aad plaintext : bytes) : FcpResult (bytes * bytes) :=
  _ ← guard_err (negb (len dek =? DEK_BYTES)) (Crypto "invalid AES-256 key length");
  ok_or (aead_encrypt dek nonce aad plaintext) (Crypto "AES-256-GCM encryption failed").

Definition decrypt (dek nonce aad ciphertext tag : bytes) : FcpResult bytes :=
  _ ← guard_err (negb (len dek =? DEK_BYTES)) (Crypto "invalid AES-256 key length");
  ok_or (aead_decrypt dek nonce aad ciphertext tag) (Crypto "AES-256-GCM authentication failed").
End Cipher.

(** ** vault/payload.rs *)

Definition PAYLOAD_SCHEMA_VERSION : N := 1.

Record VaultPayload := mkPayload {
  pl_schema_version : N;
  pl_vault_sequence : N;
  pl_cookies : list CookieRecord;
}.

#[export] Instance vault_payload_eq_dec : EqDecision VaultPayload.
Proof. solve_decision. Defined.

Definition empty_payload : VaultPayload := mkPayload PAYLOAD_SCHEMA_VERSION 0 [].

(** *** What JSON makes of the expiration dates

    [expiration_date] is the only field of a vault that is an [f64] (here its 64
    bits). serde_json writes the shortest decimal that names the number, and reads a
    decimal, without its feature [float_roundtrip], which Cargo.toml does not enable,
    by an approximation that can miss that number by a last bit; a number that is not
    finite is written as [null]. [json_f64 d] is what is read of the text written for
    [d]: nothing valid, [null], or a number. All else comes back as it was. *)
Class JsonF64 := json_f64 : N -> option (option N).

Section Reread.
Context `{JF : JsonF64}.

Definition reread_cookie (c : CookieRecord) : option CookieRecord :=
  date ← match ck_expiration_date c with Some d => json_f64 d | None => Some None end;
  Some (mkCookieRecord (ck_domain c) date (ck_host_only c) (ck_http_only c) (ck_name c) (ck_partition_key c)
          (ck_path c) (ck_same_site c) (ck_secure c) (ck_session c) (ck_store_id c) (ck_value c)).

Definition reread_cookies (cookies : list CookieRecord) : option (list CookieRecord) := mapM reread_cookie cookies.

Definition reread_payload (payload : VaultPayload) : option VaultPayload :=
  cookies ← reread_cookies (pl_cookies payload);
  Some (mkPayload (pl_schema_version payload) (pl_vault_sequence payload) cookies).

(** Reading succeeds with the payload reread, or fails where that is not valid. *)
Definition gives_reread (result : FcpResult VaultPayload) (payload : VaultPayload) : Prop :=
  match reread_payload payload with
  | Some payload' => result = Ok payload'
  | None => exists e, result = Err e
  end.

Class PayloadLaws `{SP : Serde VaultPayload} : Prop :=
  payload_reread payload b : to_vec payload = Ok b -> gives_reread (from_slice b) payload.

Lemma reread_payload_cookies n q cookies payload :
  reread_payload (mkPayload n q cookies) = Some payload ->
  reread_cookies cookies = Some (pl_cookies payload) /\ payload = mkPayload n q (pl_cookies payload).
Proof using Type.
  unfold reread_payload. cbn [pl_cookies pl_schema_version pl_vault_sequence]. destruct (reread_cookies cookies); [|done]. by intros [= <-].
Qed.

(** A cookie without an expiration date comes back as it was. *)
Lemma reread_session_cookie c : ck_expiration_date c = None -> reread_cookie c = Some c.
Proof using Type. destruct c. cbn. by intros ->. Qed.
End Reread.

(** ** vault/format.rs *)

Definition VAULT_MAGIC : bytes := str_bytes "FCPV".
Definition VAULT_FORMAT_VERSION : N := 1.
Definition AEAD_ALG_AES_256_GCM : N := 1.
Definition WRAP_ALG_RSA_2048_OAEP_SHA256 : N := 1.
Definition WRAPPED_DEK_BYTES : N := 256.
Definition KEK_KEY_ID : bytes := str_bytes "VAULT-KEK-v1" ++ [Byte.x00; Byte.x00; Byte.x00; Byte.x00].
Definition MAX_CIPHERTEXT_BYTES : N := 4 * 1024 * 1024.
Definition FIXED_HEADER_BYTES : N :=
  4 + 2 + 2 + 16 + 2 + 2 + 16 + GCM_NONCE_BYTES + 2 + WRAPPED_DEK_BYTES + 4.

Record VaultHeader := mkHeader {
  vh_group_id : Uuid;
  vh_kek_key_id : bytes;
  vh_nonce : bytes;
  vh_wrapped_dek : bytes;
  vh_ciphertext_len : N;
}.

Record VaultRecord := mkVaultRecord {
  vr_header : VaultHeader;
  vr_ciphertext : bytes;
  vr_tag : bytes;
}.

#[export] Instance vault_header_eq_dec : EqDecision VaultHeader.
Proof. solve_decision. Defined.
#[export] Instance vault_record_eq_dec : EqDecision VaultRecord.
Proof. solve_decision. Defined.

(** [VaultHeader::new]. *)
Definition new_header (group_id : Uuid) (kek_key_id nonce wrapped_dek : bytes) (ciphertext_len : N)
    : FcpResult VaultHeader :=
  _ ← guard_err (uuid_is_nil group_id) (Format "group_id must not be nil");
  _ ← guard_err (negb (len wrapped_dek =? WRAPPED_DEK_BYTES)) (Format "wrapped DEK must be 256 bytes");
  _ ← guard_err (MAX_CIPHERTEXT_BYTES <? ciphertext_len)
        (Format "ciphertext exceeds 4194304 byte limit");
  _ ← guard_err (u32_max <? ciphertext_len) (Format "ciphertext length exceeds u32");
  Ok (mkHeader group_id kek_key_id nonce wrapped_dek ciphertext_len).

(** [VaultHeader::validate]. *)
Definition validate_header (self : VaultHeader) : FcpResult unit :=
  _ ← guard_err (uuid_is_nil (vh_group_id self)) (Format "group_id must not be nil");
  _ ← guard_err (negb (len (vh_wrapped_dek self) =? WRAPPED_DEK_BYTES))
        (Format "wrapped DEK must be 256 bytes");
  guard_err (MAX_CIPHERTEXT_BYTES <? vh_ciphertext_len self)
    (Format "ciphertext length exceeds limit").

Definition header_bytes (self : VaultHeader) : bytes :=
  VAULT_MAGIC
  ++ le_bytes 2 VAULT_FORMAT_VERSION
  ++ le_bytes 2 FIXED_HEADER_BYTES
  ++ uuid_as_bytes (vh_group_id self)
  ++ le_bytes 2 AEAD_ALG_AES_256_GCM
  ++ le_bytes 2 WRAP_ALG_RSA_2048_OAEP_SHA256
  ++ vh_kek_key_id self
  ++ vh_nonce self
  ++ le_bytes 2 WRAPPED_DEK_BYTES
  ++ vh_wrapped_dek self
  ++ le_bytes 4 (vh_ciphertext_len self).

(** [VaultHeader::encode]. *)
Definition encode_header (self : VaultHeader) : FcpResult bytes :=
  _ ← validate_header self; Ok (header_bytes self).

(** [VaultRecord::validate], [VaultRecord::encode]. *)
Definition validate_record (self : VaultRecord) : FcpResult unit :=
  _ ← validate_header (vr_header self);
  guard_err (negb (len (vr_ciphertext self) =? vh_ciphertext_len (vr_header self)))
    (Format "ciphertext length does not match authenticated header").

Definition encode_record (self : VaultRecord) : FcpResult bytes :=
  _ ← validate_record self;
  header ← encode_header (vr_header self);
  Ok (header ++ vr_ciphertext self ++ vr_tag self).

(** [Cursor::take]: the state of the cursor is the rest of the buffer. *)
Definition take_bytes (length : N) (cursor : bytes) : FcpResult (bytes * bytes) :=
  if len cursor <? length then Err (Format "vault record is truncated")
  else Ok (take (N.to_nat length) cursor, drop (N.to_nat length) cursor).

(** [require_u16]. *)
Definition require_u16 (expected : N) (field : string) (cursor : bytes) : FcpResult bytes :=
  '(raw, cursor) ← take_bytes 2 cursor;
  let actual := le_value raw in
  _ ← guard_err (negb (actual =? expected))
        (Format ("unsupported " +:+ field +:+ ": expected " +:+ pretty expected
                 +:+ ", got " +:+ pretty actual));
  Ok cursor.

(** [VaultRecord::decode]. *)
Definition decode_record (input : bytes) : FcpResult VaultRecord :=
  _ ← guard_err (len input <? FIXED_HEADER_BYTES + GCM_TAG_BYTES)
        (Format "vault record is truncated");
  '(magic, cursor) ← take_bytes 4 input;
  _ ← guard_err (bool_decide (magic <> VAULT_MAGIC)) (Format "vault magic mismatch");
  cursor ← require_u16 VAULT_FORMAT_VERSION "format_version" cursor;
  cursor ← require_u16 FIXED_HEADER_BYTES "header_len" cursor;
  '(group_id, cursor) ← take_bytes 16 cursor;
  cursor ← require_u16 AEAD_ALG_AES_256_GCM "aead_alg_id" cursor;
  cursor ← require_u16 WRAP_ALG_RSA_2048_OAEP_SHA256 "wrap_alg_id" cursor;
  '(kek_key_id, cursor) ← take_bytes 16 cursor;
  '(nonce, cursor) ← take_bytes GCM_NONCE_BYTES cursor;
  cursor ← require_u16 WRAPPED_DEK_BYTES "wrapped_dek_len" cursor;
  '(wrapped_dek, cursor) ← take_bytes WRAPPED_DEK_BYTES cursor;
  '(raw_len, cursor) ← take_bytes 4 cursor;
  let ciphertext_len := le_value raw_len in
  _ ← guard_err (MAX_CIPHERTEXT_BYTES <? ciphertext_len) (Format "ciphertext length exceeds limit");
  let expected_len := FIXED_HEADER_BYTES + ciphertext_len + GCM_TAG_BYTES in
  _ ← guard_err (negb (len input =? expected_len))
        (Format ("vault length mismatch: expected " +:+ pretty expected_len
                 +:+ ", got " +:+ pretty (len input)));
  '(ciphertext, cursor) ← take_bytes ciphertext_len cursor;
  '(tag, cursor) ← take_bytes GCM_TAG_BYTES cursor;
  header ← new_header (uuid_from_bytes group_id) kek_key_id nonce wrapped_dek ciphertext_len;
  let record := mkVaultRecord header ciphertext tag in
  _ ← validate_record record;
  Ok record.

Section Seal.
Context `{AE : Aead, SP : Serde VaultPayload}.

Definition unsupported_schema (v : N) : FcpError :=
  Format ("unsupported payload schema version " +:+ pretty v).

(** [VaultRecord::seal]. *)
Definition seal (group_id : Uuid) (kek_key_id wrapped_dek dek : bytes) (payload : VaultPayload)
    : IO VaultRecord :=
  _ ← guard_not (negb (pl_schema_version payload =? PAYLOAD_SCHEMA_VERSION))
        (unsupported_schema (pl_schema_version payload));
  plaintext ← lift (to_vec payload);
  nonce ← generate_nonce;
  header ← lift (new_header group_id kek_key_id nonce wrapped_dek (len plaintext));
  aad ← lift (encode_header header);
  '(ciphertext, tag) ← lift (encrypt dek nonce aad plaintext);
  mret (mkVaultRecord header ciphertext tag).

(** [VaultRecord::open]. *)
Definition open_record (self : VaultRecord) (dek : bytes) : FcpResult VaultPayload :=
  _ ← validate_record self;
  aad ← encode_header (vr_header self);
  plaintext ← decrypt dek (vh_nonce (vr_header self)) aad (vr_ciphertext self) (vr_tag self);
  payload ← from_slice plaintext;
  _ ← guard_err (negb (pl_schema_version payload =? PAYLOAD_SCHEMA_VERSION))
        (unsupported_schema (pl_schema_version payload));
  Ok payload.
End Seal.

(** ** Lemmas *)

(** The widths of the fixed-size arrays of a record. *)
Record record_widths (r : VaultRecord) : Prop := {
  rw_group : vh_group_id (vr_header r) < 2 ^ 128;
  rw_kek : len (vh_kek_key_id (vr_header r)) = 16;
  rw_nonce : len (vh_nonce (vr_header r)) = GCM_NONCE_BYTES;
  rw_tag : len (vr_tag r) = GCM_TAG_BYTES;
}.

Lemma len_le_bytes n v : len (le_bytes n v) = N.of_nat n.
Proof. unfold len. by rewrite length_le_bytes. Qed.

Lemma len_be_bytes n v : len (be_bytes n v) = N.of_nat n.
Proof. unfold len. by rewrite length_be_bytes. Qed.

Lemma take_bytes_app n a b : len a = n -> take_bytes n (a ++ b) = Ok (a, b).
Proof.
  intros <-. unfold take_bytes. rewrite len_app.
  destruct (N.ltb_spec (len a + len b) (len a)); [lia|].
  unfold len. by rewrite Nat2N.id, take_length_app, drop_length_app.
Qed.

Lemma take_bytes_inv n c a r : take_bytes n c = Ok (a, r) -> c = a ++ r /\ len a = n.
Proof.
  unfold take_bytes. destruct (N.ltb_spec (len c) n); [done|]. intros [= <- <-].
  split; [by rewrite take_drop|]. unfold len in *. rewrite length_take. lia.
Qed.

Lemma require_u16_app v f rest : v < 2 ^ 16 -> require_u16 v f (le_bytes 2 v ++ rest) = Ok rest.
Proof.
  intros Hv. unfold require_u16. rewrite take_bytes_app by apply len_le_bytes.
  unfold mbind, result_bind. rewrite le_value_le_bytes by done. by rewrite N.eqb_refl.
Qed.

Lemma require_u16_inv v f c r : require_u16 v f c = Ok r -> c = le_bytes 2 v ++ r.
Proof.
  unfold require_u16. intros Hr. res_inv Hr. destruct r0 as [raw rest].
  apply take_bytes_inv in Hr0 as [-> Hl]. res_inv Hr. injection Hr as <-.
  bool_to_prop. subst v. f_equal. rewrite <- (le_bytes_le_value raw) at 1. f_equal. unfold len in Hl. lia.
Qed.

Lemma validate_record_ok r :
  validate_record r = Ok tt <->
  vh_group_id (vr_header r) <> 0 /\ len (vh_wrapped_dek (vr_header r)) = WRAPPED_DEK_BYTES /\
  vh_ciphertext_len (vr_header r) <= MAX_CIPHERTEXT_BYTES /\
  len (vr_ciphertext r) = vh_ciphertext_len (vr_header r).
Proof.
  unfold validate_record, validate_header. split.
  - intros Hv. res_inv Hv. res_inv Hr. unfold uuid_is_nil in *. by bool_to_prop.
  - intros (H1 & H2 & H3 & H4). unfold mbind, result_bind, guard_err, uuid_is_nil.
    rewrite (proj2 (N.eqb_neq _ _) H1), H2, (proj2 (N.ltb_ge _ _) H3), H4, !N.eqb_refl. done.
Qed.

Lemma encode_record_ok r b :
  encode_record r = Ok b ->
  validate_record r = Ok tt /\ b = header_bytes (vr_header r) ++ vr_ciphertext r ++ vr_tag r.
Proof.
  unfold encode_record, encode_header. intros He. res_inv He. destruct r0. injection He as <-.
  split; [done|]. res_inv Hr0. by injection Hr0 as <-.
Qed.

Lemma validate_record_encode r :
  validate_record r = Ok tt ->
  encode_record r = Ok (header_bytes (vr_header r) ++ vr_ciphertext r ++ vr_tag r).
Proof.
  intros Hv. unfold encode_record, encode_header. rewrite Hv. unfold validate_record in Hv.
  res_inv Hv. unfold mbind, result_bind. by rewrite Hr.
Qed.

Lemma new_header_ok g k n w l :
  g <> 0 -> len w = WRAPPED_DEK_BYTES -> l <= MAX_CIPHERTEXT_BYTES -> new_header g k n w l = Ok (mkHeader g k n w l).
Proof.
  intros H1 H2 H3. unfold new_header, mbind, result_bind, guard_err, uuid_is_nil.
  rewrite (proj2 (N.eqb_neq _ _) H1), H2, (proj2 (N.ltb_ge _ _) H3), N.eqb_refl. cbn [negb].
  rewrite (proj2 (N.ltb_ge _ _)); [done|]. unfold u32_max, MAX_CIPHERTEXT_BYTES in *. lia.
Qed.

Lemma header_bytes_length r :
  record_widths r -> len (vh_wrapped_dek (vr_header r)) = WRAPPED_DEK_BYTES ->
  len (header_bytes (vr_header r)) = FIXED_HEADER_BYTES.
Proof.
  intros [Hg Hk Hn Ht] Hw. unfold header_bytes, uuid_as_bytes.
  rewrite !len_app, !len_le_bytes, len_be_bytes, Hk, Hn, Hw. reflexivity.
Qed.

Lemma decode_encode_record r b : record_widths r -> encode_record r = Ok b -> decode_record b = Ok r.
Proof.
  intros Hw He. pose proof (encode_record_ok _ _ He) as [Hv ->].
  pose proof Hv as Hv'. apply validate_record_ok in Hv' as (Hg & Hwd & Hmax & Hct).
  pose proof (header_bytes_length r Hw Hwd) as Hhl. destruct Hw as [Hgr Hk Hn Ht].
  unfold decode_record.
  set (input := header_bytes (vr_header r) ++ vr_ciphertext r ++ vr_tag r).
  assert (Hlen : len input = FIXED_HEADER_BYTES + vh_ciphertext_len (vr_header r) + GCM_TAG_BYTES).
  { unfold input. rewrite !len_app, Hhl, Hct, Ht. lia. }
  rewrite Hlen. unfold guard_err at 1. rewrite (proj2 (N.ltb_ge _ _)) by lia.
  unfold input, header_bytes. rewrite <- !app_assoc.
  unfold mbind, result_bind.
  rewrite take_bytes_app by done. rewrite bool_decide_false by tauto. unfold guard_err at 1.
  rewrite !require_u16_app by done.
  rewrite take_bytes_app by apply len_be_bytes. rewrite !require_u16_app by done.
  rewrite take_bytes_app by done. rewrite take_bytes_app by done.
  rewrite require_u16_app by done. rewrite take_bytes_app by done.
  rewrite take_bytes_app by apply len_le_bytes.
  assert (vh_ciphertext_len (vr_header r) < 256 ^ N.of_nat 4)
    by (unfold MAX_CIPHERTEXT_BYTES in Hmax; change (256 ^ N.of_nat 4) with 4294967296; lia).
  rewrite le_value_le_bytes by done.
  unfold guard_err at 1. rewrite (proj2 (N.ltb_ge _ _)) by done.
  unfold guard_err at 1. rewrite N.eqb_refl. cbn [negb].
  rewrite take_bytes_app by done. rewrite <- (app_nil_r (vr_tag r)) at 1. rewrite take_bytes_app by done.
  unfold uuid_from_bytes, uuid_as_bytes. rewrite be_value_be_bytes by done.
  rewrite new_header_ok by done.
  replace (mkVaultRecord _ _ _) with r; [by rewrite Hv|].
  by destruct r as [[] ? ?].
Qed.

(** One step back through the cursor of [decode_record]. *)
Ltac parse_step Hd :=
  let a := fresh "x" in let Ha := fresh "Hx" in
  apply bind_Ok in Hd as (a & Ha & Hd);
  lazymatch type of Ha with
  | guard_err _ _ = _ => apply guard_err_ok in Ha
  | take_bytes _ _ = _ =>
      let cursor := fresh "cursor" in
      destruct a as [a cursor]; apply take_bytes_inv in Ha as [-> Ha]
  | require_u16 _ _ _ = _ => apply require_u16_inv in Ha as ->
  | _ => idtac
  end;
  cbv beta iota zeta in Hd.

(** What [decode_record] has established of the pieces it cut out. *)
Lemma decoded_canonical magic group kek nonce wrapped raw ct tag rest header :
  len magic = 4 -> bool_decide (magic <> VAULT_MAGIC) = false ->
  len group = 16 -> len kek = 16 -> len nonce = GCM_NONCE_BYTES -> len wrapped = WRAPPED_DEK_BYTES ->
  len raw = 4 -> len ct = le_value raw -> len tag = GCM_TAG_BYTES ->
  negb (len (magic ++ le_bytes 2 VAULT_FORMAT_VERSION ++ le_bytes 2 FIXED_HEADER_BYTES ++ group
     ++ le_bytes 2 AEAD_ALG_AES_256_GCM ++ le_bytes 2 WRAP_ALG_RSA_2048_OAEP_SHA256 ++ kek ++ nonce
     ++ le_bytes 2 WRAPPED_DEK_BYTES ++ wrapped ++ raw ++ ct ++ tag ++ rest)
     =? FIXED_HEADER_BYTES + le_value raw + GCM_TAG_BYTES) = false ->
  new_header (uuid_from_bytes group) kek nonce wrapped (le_value raw) = Ok header ->
  validate_record (mkVaultRecord header ct tag) = Ok tt ->
  encode_record (mkVaultRecord header ct tag) =
    Ok (magic ++ le_bytes 2 VAULT_FORMAT_VERSION ++ le_bytes 2 FIXED_HEADER_BYTES ++ group
     ++ le_bytes 2 AEAD_ALG_AES_256_GCM ++ le_bytes 2 WRAP_ALG_RSA_2048_OAEP_SHA256 ++ kek ++ nonce
     ++ le_bytes 2 WRAPPED_DEK_BYTES ++ wrapped ++ raw ++ ct ++ tag ++ rest) /\
  record_widths (mkVaultRecord header ct tag).
Proof.
  intros Hm Hmagic Hg Hk Hn Hw Hraw Hct Htag Hlen Hh Hv.
  apply bool_decide_eq_false, dec_stable in Hmagic as ->.
  apply negb_false_iff, N.eqb_eq in Hlen. rewrite !len_app, !len_le_bytes in Hlen.
  assert (rest = []) as ->.
  { apply length_zero_iff_nil. unfold FIXED_HEADER_BYTES, len in *. lia. }
  unfold new_header in Hh. res_inv Hh. injection Hh as <-.
  assert (Hgv : be_bytes 16 (be_value group) = group).
  { rewrite <- (be_bytes_be_value group) at 2. f_equal. unfold len in Hg. lia. }
  assert (Hrv : le_bytes 4 (le_value raw) = raw).
  { rewrite <- (le_bytes_le_value raw) at 2. f_equal. unfold len in Hraw. lia. }
  split.
  - rewrite (validate_record_encode _ Hv). unfold header_bytes, uuid_as_bytes, uuid_from_bytes. cbn [vr_header vr_ciphertext vr_tag vh_group_id vh_kek_key_id vh_nonce vh_wrapped_dek vh_ciphertext_len].
    by rewrite Hgv, Hrv, <- !app_assoc, app_nil_r.
  - split; cbn; [|done..]. unfold uuid_from_bytes, be_value.
    pose proof (le_value_bound (rev group)) as Hb.
    assert (len (rev group) = 16) as Hrl by (unfold len in *; by rewrite length_rev).
    by rewrite Hrl in Hb.
Qed.

Lemma encode_decode_record b r :
  decode_record b = Ok r -> encode_record r = Ok b /\ record_widths r.
Proof.
  unfold decode_record. intros Hd. repeat parse_step Hd. injection Hd as <-.
  match goal with H : validate_record _ = Ok ?u |- _ => destruct u end.
  by eapply decoded_canonical.
Qed.

Section SealOpen.
Context `{AE : Aead, AL : !AeadLaws, SP : Serde VaultPayload, JF : JsonF64, PL : !PayloadLaws}.

(** What sealing produces, for every nonce the random source may give. *)
Lemma wp_seal group_id kek wrapped dek payload (Q : VaultRecord -> unit -> World -> Prop)
    (E : FcpError -> unit -> World -> Prop) (C : World -> Prop) w :
  group_id < 2 ^ 128 -> len kek = 16 ->
  (forall r, vh_group_id (vr_header r) = group_id -> vh_kek_key_id (vr_header r) = kek ->
     vh_wrapped_dek (vr_header r) = wrapped -> record_widths r -> validate_record r = Ok tt ->
     gives_reread (open_record r dek) payload -> Q r tt (tick w)) ->
  (forall e, E e tt w) -> (forall e, E e tt (tick w)) -> C w ->
  wp (seal group_id kek wrapped dek payload) Q E C tt w.
Proof.
  intros Hgr Hk HQ HE HE' HC. unfold seal.
  apply wp_bind, wp_guard_not. destruct (negb _) eqn:Hschema; [done|].
  apply wp_bind, wp_lift. destruct (to_vec payload) as [pt|] eqn:Hpt; [|done].
  apply wp_bind. unfold generate_nonce, fill_random, wp. destruct (env_fault _ _); cbn [outcome_sat]; [|done|done].
  fold (tick w). set (nonce := le_bytes 12 _).
  change (wp (header ← lift (new_header group_id kek nonce wrapped (len pt));
    aad ← lift (encode_header header);
    '(ciphertext, tag) ← lift (encrypt dek nonce aad pt);
    mret (mkVaultRecord header ciphertext tag)) Q E C tt (tick w)).
  apply wp_bind, wp_lift. destruct (new_header _ _ _ _ _) as [h|] eqn:Hh; [|done].
  apply wp_bind, wp_lift. destruct (encode_header h) as [aad|] eqn:Haad; [|done].
  apply wp_bind, wp_lift. destruct (encrypt dek nonce aad pt) as [[ct tag]|] eqn:Henc; [|done].
  apply wp_ret. unfold new_header in Hh. res_inv Hh. injection Hh as <-.
  unfold encrypt in Henc. res_inv Henc. destruct (aead_lengths _ _ _ _ _ _ Henc) as [Hlc Hlt].
  assert (Hlen : len ct = len pt) by (unfold len; by rewrite Hlc).
  unfold uuid_is_nil in *. bool_to_prop.
  assert (Hv : validate_record (mkVaultRecord (mkHeader group_id kek nonce wrapped (len pt)) ct tag) = Ok tt)
    by (apply validate_record_ok; cbn; auto).
  apply HQ; [done..| |done|].
  - split; [exact Hgr|exact Hk|exact (len_le_bytes 12 _)|]. unfold len. cbn [vr_tag]. by rewrite Hlt.
  - unfold open_record. rewrite Hv. unfold mbind, result_bind. cbn [vr_header vh_nonce vr_ciphertext vr_tag].
    rewrite Haad. unfold decrypt, mbind, result_bind, guard_err.
    match goal with H : len dek = DEK_BYTES |- _ => rewrite H end. cbn [N.eqb Pos.eqb negb DEK_BYTES].
    rewrite (aead_round_trip _ _ _ _ _ _ Henc). cbn [ok_or].
    pose proof (payload_reread _ _ Hpt) as Hread. unfold gives_reread, reread_payload in *.
    destruct (reread_cookies (pl_cookies payload)) as [kept|]; unfold mbind, option_bind in *; [|destruct Hread as [e ->]; by exists e].
    rewrite Hread. cbn [pl_schema_version]. by rewrite Hschema.
Qed.
End SealOpen.

(** ** Properties *)

(** The vault file format is canonical: encoding and decoding a record are
    inverse to each other, so that a file that decodes is byte for byte the
    encoding of the record it decodes to. *)
Theorem vault_record_codec r b :
  record_widths r -> (encode_record r = Ok b <-> decode_record b = Ok r).
Proof.
  intros Hw. split; [by apply decode_encode_record|]. intros Hd. by apply encode_decode_record.
Qed.

Definition example_record : VaultRecord :=
  mkVaultRecord (mkHeader 77 KEK_KEY_ID (le_bytes 12 99) (replicate 256 Byte.x41) 3)
    (str_bytes "abc") (le_bytes 16 4242).

Lemma vault_record_codec_witness :
  encode_record example_record = Ok (header_bytes (vr_header example_record) ++ str_bytes "abc" ++ le_bytes 16 4242)
  <-> decode_record (header_bytes (vr_header example_record) ++ str_bytes "abc" ++ le_bytes 16 4242) = Ok example_record.
Proof. apply vault_record_codec. split; reflexivity. Defined.

(** Every file that decodes has the length its header announces, and a
    ciphertext of at most 4 MiB. *)
Lemma decode_record_bounds b r :
  decode_record b = Ok r ->
  len b = FIXED_HEADER_BYTES + len (vr_ciphertext r) + GCM_TAG_BYTES /\
  len (vr_ciphertext r) <= MAX_CIPHERTEXT_BYTES.
Proof.
  intros Hd. apply encode_decode_record in Hd as [He Hw]. apply encode_record_ok in He as [Hv ->].
  pose proof Hv as Hv'. apply validate_record_ok in Hv' as (_ & Hwd & Hmax & Hct).
  rewrite !len_app, header_bytes_length, (rw_tag _ Hw) by done. split; lia.
Qed.

(** C36: Sealing a payload and opening the record gives the payload back: without
    faults, for a group that is not nil, a 256-byte wrapped key, a 32-byte data
    key and a payload of at most 4 MiB, [seal] returns a record whose header
    carries the group and the wrapped key, and which encodes to a file that decodes
    to it. Opening it gives the payload back as the JSON decoder reads what the encoder
    wrote: every field of every cookie as it was, in order, except that an
    expiration date is the number serde_json makes of its own text for it
    ([json_f64]; [null] for one that is not finite); if it makes nothing of it,
    opening fails. A payload whose dates all survive is given back exactly. *)
Theorem seal_open_round_trip `{AE : Aead, AL : !AeadLaws, SP : Serde VaultPayload, JF : JsonF64, PL : !PayloadLaws}
    group_id kek wrapped dek payload plaintext w :
  no_faults w ->
  group_id <> 0 -> group_id < 2 ^ 128 -> len kek = 16 -> len wrapped = WRAPPED_DEK_BYTES -> len dek = DEK_BYTES ->
  pl_schema_version payload = PAYLOAD_SCHEMA_VERSION ->
  to_vec payload = Ok plaintext -> len plaintext <= MAX_CIPHERTEXT_BYTES ->
  exists r b,
    seal group_id kek wrapped dek payload tt w = Done r tt (tick w) /\
    vh_group_id (vr_header r) = group_id /\ vh_wrapped_dek (vr_header r) = wrapped /\
    encode_record r = Ok b /\ decode_record b = Ok r /\ gives_reread (open_record r dek) payload /\
    (reread_cookies (pl_cookies payload) = Some (pl_cookies payload) -> open_record r dek = Ok payload).
Proof.
  intros Hnf Hg Hgr Hk Hw Hd Hsch Hpt Hmax.
  assert (Hrun : exists r, seal group_id kek wrapped dek payload tt w = Done r tt (tick w)).
  { set (nonce := le_bytes 12 (env_random (w_env w) (w_step w))).
    set (h := mkHeader group_id kek nonce wrapped (len plaintext)).
    assert (Haad : encode_header h = Ok (header_bytes h)).
    { unfold encode_header, validate_header, mbind, result_bind, guard_err, uuid_is_nil. cbn [h vh_group_id vh_wrapped_dek vh_ciphertext_len].
      by rewrite (proj2 (N.eqb_neq _ _) Hg), Hw, (proj2 (N.ltb_ge _ _) Hmax). }
    destruct (aead_encrypts dek nonce (header_bytes h) plaintext) as (ct & tag & Henc).
    { unfold len, DEK_BYTES in Hd. lia. }
    { apply length_le_bytes. }
    { unfold MAX_CIPHERTEXT_BYTES in Hmax. lia. }
    exists (mkVaultRecord h ct tag). unfold seal.
    erewrite run_bind; [|apply run_guard_not; by rewrite Hsch].
    erewrite run_bind; [|by apply run_lift].
    erewrite run_bind; [|by apply run_fill_random].
    erewrite run_bind; [|by apply run_lift, new_header_ok].
    erewrite run_bind; [|by apply run_lift].
    erewrite run_bind. 2: { apply run_lift. unfold encrypt, mbind, result_bind, guard_err.
    rewrite Hd. cbn [N.eqb Pos.eqb negb DEK_BYTES]. fold nonce. by rewrite Henc. }
    done. }
  destruct Hrun as [r Hr]. exists r.
  pose proof (wp_seal group_id kek wrapped dek payload
    (fun r _ _ => vh_group_id (vr_header r) = group_id /\ vh_wrapped_dek (vr_header r) = wrapped /\
       record_widths r /\ validate_record r = Ok tt /\ gives_reread (open_record r dek) payload)
    (fun _ _ _ => True) (fun _ => True) w Hgr Hk) as Hwp.
  unfold wp in Hwp. rewrite Hr in Hwp. cbn in Hwp.
  destruct Hwp as (H1 & H2 & H3 & H4 & H5); [by intros; auto|done..|].
  exists (header_bytes (vr_header r) ++ vr_ciphertext r ++ vr_tag r).
  pose proof (validate_record_encode _ H4) as He. split_and!; try done; [by apply decode_encode_record|].
  intros Hkept. unfold gives_reread, reread_payload in H5. rewrite Hkept in H5. by destruct payload.
Qed.

(** Codecs of the payload, for the examples. *)
Definition codec_same_site : Codec SameSiteStatus.
Proof.
  refine (codec_iso
    (fun s => match s with SameSite.NoRestriction => 0 | SameSite.Lax => 1 | SameSite.Strict => 2 | SameSite.Unspecified => 3 end)
    (fun n => match n with 0 => SameSite.NoRestriction | 1 => SameSite.Lax | 2 => SameSite.Strict | _ => SameSite.Unspecified end)
    _ codec_N).
  by intros [].
Defined.

Definition codec_partition_key : Codec CookiePartitionKey.
Proof.
  refine (codec_iso (fun k => (cpk_top_level_site k, cpk_has_cross_site_ancestor k))
    (fun '(a, b) => mkCookiePartitionKey a b) _ (codec_pair (codec_option codec_string) (codec_option codec_bool))).
  by intros [].
Defined.

Definition codec_cookie : Codec CookieRecord.
Proof.
  refine (codec_iso
    (fun c => (ck_domain c, (ck_expiration_date c, (ck_host_only c, (ck_http_only c, (ck_name c, (ck_partition_key c,
       (ck_path c, (ck_same_site c, (ck_secure c, (ck_session c, (ck_store_id c, ck_value c))))))))))))
    (fun '(a, (b, (c, (d, (e, (f, (g, (h, (i, (j, (k, l))))))))))) => mkCookieRecord a b c d e f g h i j k l) _
    (codec_pair codec_string (codec_pair (codec_option codec_N) (codec_pair codec_bool (codec_pair codec_bool
      (codec_pair codec_string (codec_pair (codec_option codec_partition_key) (codec_pair codec_string
      (codec_pair codec_same_site (codec_pair codec_bool (codec_pair codec_bool (codec_pair codec_string codec_string)))))))))))).
  by intros [].
Defined.

Definition codec_payload : Codec VaultPayload.
Proof.
  refine (codec_iso (fun p => (pl_schema_version p, (pl_vault_sequence p, pl_cookies p)))
    (fun '(a, (b, c)) => mkPayload a b c) _ (codec_pair codec_N (codec_pair codec_N (codec_list codec_cookie)))).
  by intros [].
Defined.

(** Numbers come back as they are, except those that are not finite. *)
Definition toy_f64 : JsonF64 := fun d => Some (if N.land (N.shiftr d 52) 2047 =? 2047 then None else Some d).

Definition toy_payload : Serde VaultPayload := {|
  to_vec payload := match @reread_payload toy_f64 payload with Some p => Ok (enc codec_payload p) | None => Err Json end;
  from_slice b := match dec codec_payload b with Some (p, []) => Ok p | _ => Err Json end;
|}.

Lemma toy_payload_laws : @PayloadLaws toy_f64 toy_payload.
Proof.
  intros payload b. unfold gives_reread, to_vec, toy_payload. destruct (reread_payload payload) as [p|]; [|done].
  intros [= <-]. apply (codec_json_laws codec_payload p). done.
Qed.

Definition example_cookie : CookieRecord :=
  mkCookieRecord "example.com" (Some 4745332725867267807) true true "sid" None "/" SameSite.Lax true true "0" "secret".

Section SealExample.
#[local] Existing Instance toy_aead.
#[local] Existing Instance toy_aead_laws.
#[local] Existing Instances toy_f64 toy_payload toy_payload_laws.

Definition quiet_world : World := mkWorld ∅ 0 (mkEnv (fun _ => NoFault) (fun _ => 7) (fun _ => 1700000000000)).

Lemma seal_open_round_trip_witness :
  exists r b,
    seal 77 KEK_KEY_ID (replicate 256 Byte.x41) (replicate 32 Byte.x42) (mkPayload 1 3 [example_cookie]) tt quiet_world
      = Done r tt (tick quiet_world) /\
    vh_group_id (vr_header r) = 77 /\ vh_wrapped_dek (vr_header r) = replicate 256 Byte.x41 /\
    encode_record r = Ok b /\ decode_record b = Ok r /\
    gives_reread (open_record r (replicate 32 Byte.x42)) (mkPayload 1 3 [example_cookie]) /\
    (reread_cookies [example_cookie] = Some [example_cookie] ->
     open_record r (replicate 32 Byte.x42) = Ok (mkPayload 1 3 [example_cookie])).
Proof.
  apply seal_open_round_trip with (plaintext := enc codec_payload (mkPayload 1 3 [example_cookie])); try done.
Defined.
End SealExample.
