(* ===== verification/Capability.v ===== *)
(** * crypto/capability.rs, lease/state_machine.rs, lease/store.rs: capabilities

    A capability is reserved, signed by the platform after it verified the user,
    verified, and durably consumed before the vault may be read. The ledger talks
    to its store and to the platform through two interfaces. *)

From Stdlib Require Import Sorting.Sorted.
From S2P Require Import Prelude World External Examples AtomicFile Config Messages.

(** ** Interfaces *)

(** crypto/capability.rs: [CapabilitySigner], [CapabilityVerifier] and
    [PlatformAuthorizer]; [A] is the platform's authorizer object. *)
Class PlatformAuthorizer (A : Type) := {
  sign : A -> CapabilityPayload -> IO SignedCapability;
  verify_signature : A -> SignedCapability -> IO unit;
  open_or_create : Path -> IO A;
  open_existing : Path -> IO A;
  recover_if_credential_vanished : A -> FcpError -> Path -> IO (bool * A);
}.

(** What the host relies on: signing and verifying change no file, and opening
    and recovering keep to the files of the credential at [p], [own p]. *)
Class PlatformAuthorizerLaws (A : Type) `{PlatformAuthorizer A} (own : Path -> Path -> Prop) : Prop := {
  sign_frame a p : io_frame (fun _ => False) (sign a p);
  verify_frame a c : io_frame (fun _ => False) (verify_signature a c);
  open_or_create_frame p : io_frame (own p) (open_or_create p);
  open_existing_frame p : io_frame (fun _ => False) (open_existing p);
  recover_frame a e p : io_frame (own p) (recover_if_credential_vanished a e p);
}.

(** A backend verifies the user: a signature it returns is for the payload it was
    given, and [verified] holds of the run that made it. *)
Class UserVerification (A : Type) `{PlatformAuthorizer A}
    (verified : A -> CapabilityPayload -> World -> World -> Prop) : Prop :=
  sign_verified a p w c w' : sign a p tt w = Done c tt w' -> sc_payload c = p /\ verified a p w w'.

(** ** Data *)

Definition REPLAY_NONCE_WINDOW : nat := 128.

Record CapabilityLedger := mkLedger {
  cl_account_group_id : Uuid;
  last_issued_sequence : N;
  last_consumed_sequence : N;
  consumed_nonces : list bytes;
  pending : option CapabilityPayload;
}.

#[export] Instance capability_ledger_eq_dec : EqDecision CapabilityLedger.
Proof. solve_decision. Defined.

Record ConsumedCapability := mkConsumed {
  cc_account_group_id : Uuid;
  cc_operation : CapabilityOperation;
  cc_monotonic_sequence : N;
}.

(** [CapabilityLedgerStore]: atomically replaces the persisted ledger. *)
Class CapabilityLedgerStore := persist_ledger : CapabilityLedger -> IO unit.

(** The promise of a store: [disk_ledger] is what a later load would read; a
    successful [persist] makes it the snapshot, and one that fails or is cut
    short leaves it as it was or makes it the snapshot. Only the files in [own]
    change. *)
Class CapabilityLedgerStoreSpec `{CapabilityLedgerStore}
    (disk_ledger : World -> option CapabilityLedger) (own : Path -> Prop) : Prop :=
  wp_persist_ledger snapshot (Q : unit -> unit -> World -> Prop) (E : FcpError -> unit -> World -> Prop)
      (C : World -> Prop) w :
    (forall w', agree_off own w w' -> disk_ledger w' = Some snapshot -> Q tt tt w') ->
    (forall e w', agree_off own w w' ->
       disk_ledger w' = disk_ledger w \/ disk_ledger w' = Some snapshot -> E e tt w') ->
    (forall w', agree_off own w w' ->
       disk_ledger w' = disk_ledger w \/ disk_ledger w' = Some snapshot -> C w') ->
    wp (persist_ledger snapshot) Q E C tt w.

(** ** crypto/capability.rs: [new_payload] *)

Definition new_payload (account_group_id : Uuid) (operation : CapabilityOperation)
    (now_unix_ms lifetime_ms monotonic_sequence : N) : IO CapabilityPayload :=
  _ ← guard_not ((lifetime_ms =? 0) || (CAPABILITY_MAX_LIFETIME_MS <? lifetime_ms))
        (Capability "lifetime must be within 1..=60000 ms");
  expiry_unix_ms ← ok_or_throw (checked_add u64_max now_unix_ms lifetime_ms)
                     (Capability "expiry overflow");
  nonce ← fill_random 32;
  let payload := mkCapabilityPayload account_group_id operation expiry_unix_ms monotonic_sequence nonce in
  _ ← lift (validate_shape payload);
  mret payload.

(** ** lease/state_machine.rs *)

(** [CapabilityLedger::new]. *)
Definition new_ledger (account_group_id : Uuid) : FcpResult CapabilityLedger :=
  _ ← guard_err (uuid_is_nil account_group_id) (Capability "account group must not be nil");
  Ok (mkLedger account_group_id 0 0 [] None).

(** [while len > REPLAY_NONCE_WINDOW { pop_front }]. *)
Definition trim_window (nonces : list bytes) : list bytes :=
  drop (length nonces - REPLAY_NONCE_WINDOW) nonces.

Section Ledger.
Context `{CLS : CapabilityLedgerStore}.

(** [CapabilityLedger::reserve]. *)
Definition reserve (operation : CapabilityOperation) (now_unix_ms lifetime_ms : N)
    : M CapabilityLedger CapabilityPayload :=
  self ← get;
  _ ← guard_not (bool_decide (is_Some (pending self)))
        (Capability "another capability is already pending");
  sequence ← ok_or_throw (checked_add u64_max (last_issued_sequence self) 1)
               (Capability "monotonic sequence exhausted");
  payload ← io (new_payload (cl_account_group_id self) operation now_unix_ms lifetime_ms sequence);
  let next := mkLedger (cl_account_group_id self) sequence (last_consumed_sequence self)
                (consumed_nonces self) (Some payload) in
  _ ← io (persist_ledger next);
  _ ← put next;
  mret payload.

(** [CapabilityLedger::cancel_pending]. *)
Definition cancel_pending : M CapabilityLedger unit :=
  self ← get;
  let next := mkLedger (cl_account_group_id self) (last_issued_sequence self)
                (last_consumed_sequence self) (consumed_nonces self) None in
  _ ← io (persist_ledger next);
  put next.

(** [CapabilityLedger::verify_and_consume]. *)
Definition verify_and_consume {A} `{PA : PlatformAuthorizer A} (verifier : A) (signed : SignedCapability)
    (expected_operation : CapabilityOperation) (now_unix_ms : N)
    : M CapabilityLedger ConsumedCapability :=
  let payload := sc_payload signed in
  _ ← lift (validate_shape payload);
  _ ← io (verify_signature verifier signed);
  self ← get;
  _ ← guard_not (negb (cp_account_group_id payload =? cl_account_group_id self))
        (Capability "account group mismatch");
  _ ← guard_not (bool_decide (cp_operation payload <> expected_operation))
        (Capability "operation mismatch");
  _ ← guard_not (cp_expiry_unix_ms payload <? now_unix_ms) (Capability "capability expired");
  _ ← guard_not (CAPABILITY_MAX_LIFETIME_MS <? saturating_sub (cp_expiry_unix_ms payload) now_unix_ms)
        (Capability "capability expiry exceeds maximum remaining lifetime");
  _ ← guard_not (cp_monotonic_sequence payload <=? last_consumed_sequence self)
        (Capability "sequence replay detected");
  _ ← guard_not (bool_decide (cp_nonce payload ∈ consumed_nonces self))
        (Capability "nonce replay detected");
  reserved ← ok_or_throw (pending self) (Capability "no capability is pending");
  _ ← guard_not (bool_decide (reserved <> payload))
        (Capability "signed payload does not match the reserved transition");
  let next := mkLedger (cl_account_group_id self) (last_issued_sequence self)
                (cp_monotonic_sequence payload)
                (trim_window (consumed_nonces self ++ [cp_nonce payload])) None in
  _ ← io (persist_ledger next);
  _ ← put next;
  mret (mkConsumed (cp_account_group_id payload) (cp_operation payload) (cp_monotonic_sequence payload)).
End Ledger.

(** ** lease/store.rs: [FileCapabilityLedgerStore], a path *)

Section FileStore.
Context `{SL : Serde CapabilityLedger}.

Definition verify_ledger_persisted (snapshot : CapabilityLedger) (persisted : bytes) : FcpResult unit :=
  verified ← from_slice persisted;
  guard_err (bool_decide (verified <> snapshot)) (Capability "capability ledger read-back mismatch").

(** [persist]. *)
Definition file_persist_ledger (path : Path) (snapshot : CapabilityLedger) : IO unit :=
  b ← lift (to_vec snapshot);
  write_verified path b (fun persisted => lift (verify_ledger_persisted snapshot persisted)).

(** [load]. *)
Definition load_ledger (path : Path) : IO CapabilityLedger :=
  b ← fs_read path; lift (from_slice b).

(** [load_or_initialize]. *)
Definition load_or_initialize_ledger (path : Path) (group_id : Uuid) : IO CapabilityLedger :=
  present ← fs_exists path;
  if (present : bool) then
    ledger ← load_ledger path;
    _ ← guard_not (negb (cl_account_group_id ledger =? group_id))
          (Capability "persisted capability ledger belongs to another group");
    mret ledger
  else
    ledger ← lift (new_ledger group_id);
    _ ← file_persist_ledger path ledger;
    mret ledger.
End FileStore.

(** ** The file store keeps the promise *)

Section FileStoreSpec.
Context `{SL : Serde CapabilityLedger}.

Definition disk_ledger (path : Path) (w : World) : option CapabilityLedger :=
  match file_at w path with
  | Some b => match from_slice b with Ok l => Some l | Err _ => None end
  | None => None
  end.

Lemma verify_ledger_persisted_ok snapshot b :
  verify_ledger_persisted snapshot b = Ok tt -> from_slice b = Ok snapshot.
Proof.
  unfold verify_ledger_persisted. intros Hv. res_inv Hv.
  by apply bool_decide_eq_false, dec_stable in Hv as ->.
Qed.

#[export] Instance file_store_spec path :
  @CapabilityLedgerStoreSpec (file_persist_ledger path) (disk_ledger path) (writer_files path).
Proof.
  intros snapshot Q E C w HQ HE HC. unfold persist_ledger, file_persist_ledger.
  apply wp_bind, wp_lift. destruct (to_vec snapshot) as [b|e] eqn:Hb; [|apply HE; [done|by left]].
  assert (Hdisk : forall w', file_at w' path = Some b -> verify_ledger_persisted snapshot b = Ok tt ->
    disk_ledger path w' = Some snapshot).
  { intros w' Hf Hv%verify_ledger_persisted_ok. unfold disk_ledger. by rewrite Hf, Hv. }
  assert (Hcases : forall w',
    file_at w' path = file_at w path \/ (file_at w' path = Some b /\ verify_ledger_persisted snapshot b = Ok tt) ->
    disk_ledger path w' = disk_ledger path w \/ disk_ledger path w' = Some snapshot).
  { intros w' [Hf|[Hf Hv]]; [left; unfold disk_ledger; by rewrite Hf|right; auto]. }
  apply wp_write_verified_pure; auto.
Qed.
End FileStoreSpec.

(** ** The abstract ledger *)

(** One durable change of the ledger; the label is the token it releases. *)
Inductive ledger_step (s : CapabilityLedger) : option ConsumedCapability -> CapabilityLedger -> Prop :=
  | LReserve p :
      pending s = None ->
      cp_monotonic_sequence p = last_issued_sequence s + 1 ->
      last_issued_sequence s + 1 <= u64_max ->
      cp_account_group_id p = cl_account_group_id s ->
      validate_shape p = Ok tt ->
      ledger_step s None
        (mkLedger (cl_account_group_id s) (last_issued_sequence s + 1) (last_consumed_sequence s)
           (consumed_nonces s) (Some p))
  | LCancel :
      ledger_step s None
        (mkLedger (cl_account_group_id s) (last_issued_sequence s) (last_consumed_sequence s)
           (consumed_nonces s) None)
  | LConsume p :
      pending s = Some p ->
      last_consumed_sequence s < cp_monotonic_sequence p ->
      cp_nonce p ∉ consumed_nonces s ->
      cp_account_group_id p = cl_account_group_id s ->
      ledger_step s
        (Some (mkConsumed (cp_account_group_id p) (cp_operation p) (cp_monotonic_sequence p)))
        (mkLedger (cl_account_group_id s) (last_issued_sequence s) (cp_monotonic_sequence p)
           (trim_window (consumed_nonces s ++ [cp_nonce p])) None).

Record ledger_ok (s : CapabilityLedger) : Prop := {
  lo_order : last_consumed_sequence s <= last_issued_sequence s;
  lo_range : last_issued_sequence s <= u64_max;
  lo_window : (length (consumed_nonces s) <= REPLAY_NONCE_WINDOW)%nat;
  lo_pending : forall p, pending s = Some p ->
    cp_monotonic_sequence p = last_issued_sequence s /\
    last_consumed_sequence s < cp_monotonic_sequence p /\
    cp_account_group_id p = cl_account_group_id s;
}.

Lemma ledger_step_ok s t s' : ledger_ok s -> ledger_step s t s' -> ledger_ok s'.
Proof.
  intros [Ho Hr Hw Hp] Hs. inversion Hs as [p Hn Hseq Hmax Hg Hv|Hs'|p Hpend Hlt Hnon Hg]; subst.
  - split; cbn; [lia|done|done|]. intros q [= <-]. rewrite Hseq. repeat split; [lia|done].
  - split; cbn; [done..|by intros q].
  - destruct (Hp p Hpend) as (Hseq & Hlt' & _). split; cbn; [by rewrite Hseq|done| |by intros q].
    unfold trim_window. rewrite length_drop. lia.
Qed.

Lemma ledger_step_monotone s t s' :
  ledger_step s t s' -> last_consumed_sequence s <= last_consumed_sequence s'.
Proof. intros Hs. inversion Hs; subst; cbn; lia. Qed.

Lemma ledger_step_token s t s' tok :
  ledger_step s t s' -> t = Some tok ->
  last_consumed_sequence s < cc_monotonic_sequence tok /\
  last_consumed_sequence s' = cc_monotonic_sequence tok.
Proof. intros Hs ->. inversion Hs; subst. done. Qed.

(** The tokens released so far, the latest first, with what is in memory and on disk:
    all are covered by both. *)
Definition released_below (ts : list ConsumedCapability) (s : CapabilityLedger) : Prop :=
  ledger_ok s /\ Forall (fun t => cc_monotonic_sequence t <= last_consumed_sequence s) ts.

Definition strictly_later (a b : ConsumedCapability) : Prop := cc_monotonic_sequence b < cc_monotonic_sequence a.

Lemma released_below_step ts s t s' : released_below ts s -> ledger_step s t s' -> released_below ts s'.
Proof.
  intros [Hok Hts] Hs. split; [by eapply ledger_step_ok|]. pose proof (ledger_step_monotone _ _ _ Hs).
  eapply list.Forall_impl; [exact Hts|]. cbn. intros; lia.
Qed.

Lemma released_below_release ts s t s' :
  StronglySorted strictly_later ts -> released_below ts s -> ledger_step s t s' ->
  StronglySorted strictly_later (option_list t ++ ts) /\ released_below (option_list t ++ ts) s'.
Proof.
  intros Hsort Hts Hs. pose proof (released_below_step _ _ _ _ Hts Hs) as [Hok' Hts'].
  destruct t as [tok|]; [|by split]. destruct (ledger_step_token _ _ _ _ Hs eq_refl) as [Hlt Heq]. cbn. split.
  - constructor; [done|]. eapply list.Forall_impl; [apply Hts|]. unfold strictly_later. cbn. intros; lia.
  - split; [done|]. constructor; [lia|done].
Qed.

(** ** The operations refine the abstract ledger *)

(** The files a verification changes. *)
Abbreviation auth_own := (fun _ : Path => False).

Section Refinement.
Context `{CLS : CapabilityLedgerStore} {disk : World -> option CapabilityLedger} {own : Path -> Prop}
  {SPEC : CapabilityLedgerStoreSpec disk own}.
Context {A : Type} `{PA : PlatformAuthorizer A} {cred_own : Path -> Path -> Prop} {PAL : PlatformAuthorizerLaws A cred_own}.

(** What a failed or interrupted call may have done to the disk. *)
Definition ledger_disk (s : CapabilityLedger) (w w' : World) : Prop :=
  disk w' = disk w \/ exists t s', ledger_step s t s' /\ disk w' = Some s'.

Hypothesis disk_frame : forall w w', agree_off auth_own w w' -> disk w' = disk w.

Lemma disk_tick w : disk (tick w) = disk w.
Proof using disk_frame. by apply disk_frame. Qed.

Lemma wp_new_payload g op now life seq (Q : CapabilityPayload -> unit -> World -> Prop)
    (E : FcpError -> unit -> World -> Prop) (C : World -> Prop) w :
  (forall p, cp_account_group_id p = g -> cp_operation p = op -> cp_monotonic_sequence p = seq ->
     cp_expiry_unix_ms p = now + life -> 0 < life <= CAPABILITY_MAX_LIFETIME_MS ->
     validate_shape p = Ok tt -> Q p tt (tick w)) ->
  (forall e, E e tt w) -> (forall e, E e tt (tick w)) -> C w ->
  wp (new_payload g op now life seq) Q E C tt w.
Proof.
  intros HQ HE HE' HC. unfold new_payload.
  apply wp_bind, wp_guard_not. destruct (_ || _) eqn:Hlife; [done|].
  apply wp_bind, wp_ok_or_throw. destruct (checked_add _ _ _) as [expiry|] eqn:Hexp; [|done].
  apply checked_add_Some in Hexp as [-> _]. apply orb_false_iff in Hlife as [Hl1 Hl2]. bool_to_prop.
  apply wp_bind. unfold fill_random, wp. destruct (env_fault _ _); cbn [outcome_sat]; [|done|done].
  fold (tick w).
  set (p := mkCapabilityPayload _ _ _ _ _).
  change (wp (_ ← lift (validate_shape p); mret p : IO CapabilityPayload) Q E C tt (tick w)).
  apply wp_bind, wp_lift. destruct (validate_shape p) as [[]|] eqn:Hv; [|done].
  apply wp_ret, HQ; try done. split; [lia|done].
Qed.

Lemma wp_reserve op now life (Q : CapabilityPayload -> CapabilityLedger -> World -> Prop)
    (E : FcpError -> CapabilityLedger -> World -> Prop) C s w :
  (forall p s' w', ledger_step s None s' -> pending s' = Some p -> disk w' = Some s' ->
     cp_operation p = op -> agree_off own w w' -> Q p s' w') ->
  (forall e w', agree_off own w w' -> ledger_disk s w w' -> E e s w') ->
  (forall w', agree_off own w w' -> ledger_disk s w w' -> C w') ->
  wp (reserve op now life) Q E C s w.
Proof using SPEC disk_frame.
  intros HQ HE HC. unfold reserve.
  assert (Hsame : agree_off own w w /\ ledger_disk s w w) by (split; [apply agree_off_refl|by left]).
  assert (Htick : agree_off own w (tick w) /\ ledger_disk s w (tick w))
    by (split; [done|left; apply disk_tick]).
  destruct Hsame, Htick.
  apply wp_bind, wp_get, wp_bind, wp_guard_not.
  destruct (bool_decide _) eqn:Hp; [by apply HE|]. apply bool_decide_eq_false, eq_None_not_Some in Hp.
  apply wp_bind, wp_ok_or_throw. destruct (checked_add _ _ _) as [seq|] eqn:Hseq; [|by apply HE].
  apply checked_add_Some in Hseq as [-> Hmax].
  apply wp_bind, wp_io, wp_new_payload; [|auto..].
  intros p Hg Hop Hs _ _ Hv.
  assert (Hstep : ledger_step s None (mkLedger (cl_account_group_id s) (last_issued_sequence s + 1)
    (last_consumed_sequence s) (consumed_nonces s) (Some p))) by (by apply LReserve).
  apply wp_bind, wp_io, wp_persist_ledger.
  - intros w' Ha Hd. apply wp_bind, wp_put, wp_ret. by apply HQ.
  - intros e w' Ha Hd. apply HE; [done|]. rewrite disk_tick in Hd. destruct Hd; [by left|right; eauto].
  - intros w' Ha Hd. apply HC; [done|]. rewrite disk_tick in Hd. destruct Hd; [by left|right; eauto].
Qed.

Lemma wp_cancel_pending (Q : unit -> CapabilityLedger -> World -> Prop)
    (E : FcpError -> CapabilityLedger -> World -> Prop) C s w :
  (forall s' w', ledger_step s None s' -> pending s' = None -> disk w' = Some s' ->
     agree_off own w w' -> Q tt s' w') ->
  (forall e w', agree_off own w w' -> ledger_disk s w w' -> E e s w') ->
  (forall w', agree_off own w w' -> ledger_disk s w w' -> C w') ->
  wp cancel_pending Q E C s w.
Proof using SPEC.
  intros HQ HE HC. unfold cancel_pending.
  pose proof (LCancel s) as Hstep.
  apply wp_bind, wp_get, wp_bind, wp_io, wp_persist_ledger.
  - intros w' Ha Hd. apply wp_put. by apply HQ.
  - intros e w' Ha Hd. apply HE; [done|]. destruct Hd; [by left|right; eauto].
  - intros w' Ha Hd. apply HC; [done|]. destruct Hd; [by left|right; eauto].
Qed.

Definition both_own (p : Path) : Prop := own p \/ auth_own p.

Lemma wp_verify_and_consume (verifier : A) signed op now
    (Q : ConsumedCapability -> CapabilityLedger -> World -> Prop)
    (E : FcpError -> CapabilityLedger -> World -> Prop) C s w :
  (forall tok s' w', ledger_step s (Some tok) s' -> disk w' = Some s' ->
     pending s = Some (sc_payload signed) -> cc_operation tok = op -> cc_account_group_id tok = cl_account_group_id s ->
     now <= cp_expiry_unix_ms (sc_payload signed) -> agree_off both_own w w' -> Q tok s' w') ->
  (forall e w', agree_off both_own w w' -> ledger_disk s w w' -> E e s w') ->
  (forall w', agree_off both_own w w' -> ledger_disk s w w' -> C w') ->
  wp (verify_and_consume verifier signed op now) Q E C s w.
Proof using SPEC PAL disk_frame.
  intros HQ HE HC. unfold verify_and_consume.
  assert (Hauth : forall w', agree_off auth_own w w' -> agree_off both_own w w' /\ ledger_disk s w w').
  { intros w' Ha. split; [|left; by apply disk_frame]. eapply agree_off_weaken; [exact Ha|]. by right. }
  apply wp_bind, wp_lift. destruct (validate_shape _) as [[]|]; [|by apply HE; apply Hauth].
  apply wp_bind, wp_io. eapply wp_mono; [apply (verify_frame verifier signed)| | |]; cbn beta.
  2: { intros e [] w' Ha. by apply HE; apply Hauth. }
  2: { intros w' Ha. by apply HC; apply Hauth. }
  intros [] [] w1 Ha. destruct (Hauth _ Ha) as [Hb Hd].
  apply wp_bind, wp_get. set (p := sc_payload signed).
  apply wp_bind, wp_guard_not. destruct (negb _) eqn:Hg; [by apply HE|].
  apply wp_bind, wp_guard_not. destruct (bool_decide (cp_operation p <> op)) eqn:Hop; [by apply HE|].
  apply wp_bind, wp_guard_not. destruct (_ <? now) eqn:Hexp; [by apply HE|].
  apply wp_bind, wp_guard_not. destruct (_ <? saturating_sub _ _); [by apply HE|].
  apply wp_bind, wp_guard_not. destruct (_ <=? _) eqn:Hseq; [by apply HE|].
  apply wp_bind, wp_guard_not. destruct (bool_decide (cp_nonce p ∈ _)) eqn:Hnon; [by apply HE|].
  apply wp_bind, wp_ok_or_throw. destruct (pending s) as [reserved|] eqn:Hpend; [|by apply HE].
  apply wp_bind, wp_guard_not. destruct (bool_decide (reserved <> p)) eqn:Hres; [by apply HE|].
  bool_to_prop. apply dec_stable in Hop, Hres. subst reserved.
  assert (Hstep : ledger_step s (Some (mkConsumed (cp_account_group_id p) (cp_operation p) (cp_monotonic_sequence p)))
    (mkLedger (cl_account_group_id s) (last_issued_sequence s) (cp_monotonic_sequence p)
       (trim_window (consumed_nonces s ++ [cp_nonce p])) None)) by (by apply LConsume).
  assert (Hcomb : forall w', agree_off own w1 w' -> agree_off both_own w w').
  { intros w' Ho. eapply agree_off_trans; [exact Hb|]. eapply agree_off_weaken; [exact Ho|]. by left. }
  apply wp_bind, wp_io, wp_persist_ledger.
  - intros w' Ho Hdisk. apply wp_bind, wp_put, wp_ret. apply HQ; auto.
  - intros e w' Ho Hdisk. apply HE; [auto|]. unfold ledger_disk in *. rewrite <- (disk_frame _ _ Ha).
    destruct Hdisk; [by left|right; eauto].
  - intros w' Ho Hdisk. apply HC; [auto|]. unfold ledger_disk in *. rewrite <- (disk_frame _ _ Ha).
    destruct Hdisk; [by left|right; eauto].
Qed.
End Refinement.

(** ** Loading *)

Section Load.
Context `{SL : Serde CapabilityLedger}.

Lemma wp_load_or_initialize_ledger path group d (Q : CapabilityLedger -> unit -> World -> Prop)
    (E : FcpError -> unit -> World -> Prop) (C : World -> Prop) w :
  disk_ledger path w = Some d ->
  env_fault (w_env w) (w_step w) = NoFault ->
  (cl_account_group_id d = group -> Q d tt (tick (tick w))) ->
  (forall e, E e tt (tick (tick w))) -> C (tick w) ->
  wp (load_or_initialize_ledger path group) Q E C tt w.
Proof.
  intros Hd Hnf HQ HE HC. unfold disk_ledger in Hd.
  destruct (file_at w path) as [b|] eqn:Hf; [|done].
  destruct (from_slice b) as [d'|] eqn:Hs; [|done]. injection Hd as ->.
  apply file_at_lookup in Hf.
  unfold load_or_initialize_ledger. apply wp_bind. unfold wp at 1, fs_exists, io_step, get_fs, mbind, M_bind.
  rewrite Hnf. cbn [outcome_sat mret M_ret]. unfold mret, M_ret. cbn [w_fs tick].
  rewrite Hf, bool_decide_true by (by eexists). cbn [outcome_sat].
  apply wp_bind. unfold load_ledger. apply wp_bind, wp_fs_read; [|by intros; apply HE|by apply HE|done].
  intros b' Hb'. apply file_at_lookup in Hb'. cbn in Hb'. rewrite Hf in Hb'. injection Hb' as <-.
  apply wp_lift. rewrite Hs. apply wp_bind, wp_guard_not.
  destruct (negb _) eqn:Hg; [by apply HE|]. apply wp_ret, HQ. by bool_to_prop.
Qed.

End Load.

(** ** Properties *)

Inductive LedgerCall :=
  | CallReserve (operation : CapabilityOperation) (now_unix_ms lifetime_ms : N)
  | CallCancel
  | CallConsume (signed : SignedCapability) (operation : CapabilityOperation) (now_unix_ms : N).

Definition run_ledger_call `{CLS : CapabilityLedgerStore} {A} `{PA : PlatformAuthorizer A} (verifier : A)
    (c : LedgerCall) : M CapabilityLedger (option ConsumedCapability) :=
  match c with
  | CallReserve op now life => _ ← reserve op now life; mret None
  | CallCancel => _ ← cancel_pending; mret None
  | CallConsume signed op now => tok ← verify_and_consume verifier signed op now; mret (Some tok)
  end.

(** *** The life of a ledger file

    Processes open the file one after the other, and each makes calls on the ledger it
    has in memory; a call may succeed, fail, or be cut short by the death of the
    process, at any point of its writing. Between the calls anything may happen to the
    rest of the world. The state is the ledger in memory, while a process is alive, and
    the world; the list is that of the tokens that the calls returned, the latest
    first. A process opens the file in a world where the call of [Path::exists] is
    answered (see [ledger_forgotten_on_metadata_error]). *)
Section LedgerLife.
Context `{SL : Serde CapabilityLedger} {A : Type} `{PA : PlatformAuthorizer A} {cred_own : Path -> Path -> Prop}
  `{PAL : !PlatformAuthorizerLaws A cred_own}.
Context (path : Path) (group : Uuid).

Abbreviation ledger_call := (@run_ledger_call (file_persist_ledger path) A PA).

Inductive ledger_life : option CapabilityLedger -> World -> list ConsumedCapability -> Prop :=
  | LifeCreated w s w' :
      file_at w path = None -> load_or_initialize_ledger path group tt w = Done s tt w' -> ledger_life (Some s) w' []
  | LifeCall s w ts verifier c t s' w' :
      ledger_life (Some s) w ts -> ledger_call verifier c s w = Done t s' w' ->
      ledger_life (Some s') w' (option_list t ++ ts)
  | LifeFailed s w ts verifier c e s' w' :
      ledger_life (Some s) w ts -> ledger_call verifier c s w = Failed e s' w' -> ledger_life (Some s') w' ts
  | LifeKilled s w ts verifier c w' :
      ledger_life (Some s) w ts -> ledger_call verifier c s w = Crashed w' -> ledger_life None w' ts
  | LifeEnded m w ts : ledger_life m w ts -> ledger_life None w ts
  | LifeElsewhere m w ts w' : ledger_life m w ts -> file_at w' path = file_at w path -> ledger_life m w' ts
  | LifeReopened m w ts s w' :
      ledger_life m w ts -> metadata_answers w -> load_or_initialize_ledger path group tt w = Done s tt w' ->
      ledger_life (Some s) w' ts.

Lemma disk_ledger_frame w w' : agree_off auth_own w w' -> disk_ledger path w' = disk_ledger path w.
Proof using Type. intros Ha. unfold disk_ledger. rewrite (agree_off_file _ _ _ _ Ha); [done|tauto]. Qed.

(** A call on the file, on every branch. *)
Lemma wp_ledger_call verifier c s w :
  wp (ledger_call verifier c)
     (fun t s' w' => ledger_step s t s' /\ disk_ledger path w' = Some s')
     (fun _ s' w' => s' = s /\ @ledger_disk (disk_ledger path) s w w')
     (fun w' => @ledger_disk (disk_ledger path) s w w') s w.
Proof using PAL.
  pose proof disk_ledger_frame as Hframe. pose proof (file_store_spec path) as Hspec.
  destruct c as [op now life| |signed op now]; cbn [run_ledger_call]; apply wp_bind.
  - apply (@wp_reserve (file_persist_ledger path) _ _ Hspec Hframe); auto.
    intros. by apply wp_ret.
  - apply (@wp_cancel_pending (file_persist_ledger path) _ _ Hspec); auto. intros. by apply wp_ret.
  - apply (@wp_verify_and_consume (file_persist_ledger path) _ _ Hspec A PA cred_own PAL Hframe); auto.
    intros. by apply wp_ret.
Qed.

(** Opening: a new file is a new ledger, and an old one is read. *)
Lemma ledger_created w s w' :
  file_at w path = None -> load_or_initialize_ledger path group tt w = Done s tt w' ->
  s = mkLedger group 0 0 [] None /\ disk_ledger path w' = Some s.
Proof using Type.
  intros Hf Hrun.
  assert (Hwp : wp (load_or_initialize_ledger path group)
    (fun s _ w' => s = mkLedger group 0 0 [] None /\ disk_ledger path w' = Some s) (fun _ _ _ => True) (fun _ => True) tt w);
    [|unfold wp in Hwp; by rewrite Hrun in Hwp].
  unfold load_or_initialize_ledger. apply wp_bind, wp_fs_exists; [|done]. intros present Hpresent.
  destruct present.
  - apply wp_bind. unfold load_ledger. apply wp_bind, wp_fs_read; [|done..]. intros b Hb.
    change (file_at w path = Some b) in Hb. congruence.
  - apply wp_bind, wp_lift. unfold new_ledger, mbind, result_bind, guard_err. destruct (uuid_is_nil group); [done|].
    apply wp_bind. apply (@wp_persist_ledger (file_persist_ledger path) _ _ (file_store_spec path)); [|done..].
    intros w1 _ Hd. by apply wp_ret.
Qed.

Lemma ledger_reopened w s w' d :
  disk_ledger path w = Some d -> metadata_answers w -> load_or_initialize_ledger path group tt w = Done s tt w' ->
  s = d /\ disk_ledger path w' = Some d.
Proof using Type.
  intros Hd Hm Hrun.
  assert (Hwp : wp (load_or_initialize_ledger path group)
    (fun s _ w' => s = d /\ disk_ledger path w' = Some d) (fun _ _ _ => True) (fun _ => True) tt w);
    [|unfold wp in Hwp; by rewrite Hrun in Hwp].
  unfold disk_ledger in Hd. destruct (file_at w path) as [b|] eqn:Hf; [|done]. destruct (from_slice b) as [d'|] eqn:Hb; [|done].
  injection Hd as ->. unfold load_or_initialize_ledger. apply wp_bind, wp_fs_exists_exact; [done| |done].
  pose proof Hf as Hnode. apply file_at_lookup in Hnode. rewrite bool_decide_true by (rewrite Hnode; by eexists).
  apply wp_bind. unfold load_ledger. apply wp_bind, wp_fs_read; [|done..]. intros b' Hb'.
  change (file_at w path = Some b') in Hb'. rewrite Hf in Hb'. injection Hb' as <-.
  apply wp_lift. rewrite Hb. apply wp_bind, wp_guard_not. destruct (negb _); [done|]. apply wp_ret. split; [done|].
  unfold disk_ledger. change (file_at (tick (tick w)) path) with (file_at w path). by rewrite Hf, Hb.
Qed.

Lemma ledger_life_invariant m w ts :
  ledger_life m w ts ->
  StronglySorted strictly_later ts /\ (exists d, disk_ledger path w = Some d /\ released_below ts d) /\
  forall s, m = Some s -> released_below ts s.
Proof using PAL.
  intros Hlife. induction Hlife as [w s w' Hf Hrun|s w ts verifier c t s' w' _ (Hs & (d & Hd & Hbd) & Hm) Hrun
    |s w ts verifier c e s' w' _ (Hs & (d & Hd & Hbd) & Hm) Hrun|s w ts verifier c w' _ (Hs & (d & Hd & Hbd) & Hm) Hrun
    |m w ts _ (Hs & Hd & _)|m w ts w' _ (Hs & (d & Hd & Hbd) & Hm) Hf|m w ts s w' _ (Hs & (d & Hd & Hbd) & _) Hans Hrun].
  - destruct (ledger_created _ _ _ Hf Hrun) as [-> Hd].
    assert (Hb : released_below [] (mkLedger group 0 0 [] None)).
    { split; [|constructor]. split; cbn; [lia|done|unfold REPLAY_NONCE_WINDOW; lia|done]. }
    split_and!; [constructor|by eexists|by intros s [= <-]].
  - pose proof (wp_ledger_call verifier c s w) as H. unfold wp in H. rewrite Hrun in H. destruct H as [Hstep Hd'].
    destruct (released_below_release _ _ _ _ Hs (Hm s eq_refl) Hstep) as [Hs' Hb'].
    split_and!; [done|by eexists|by intros s0 [= <-]].
  - pose proof (wp_ledger_call verifier c s w) as H. unfold wp in H. rewrite Hrun in H. destruct H as [-> Hdisk].
    split_and!; [done| |done]. destruct Hdisk as [->|(t & s1 & Hstep & Hd1)]; [by exists d|].
    exists s1. split; [done|]. by eapply released_below_step; [apply Hm|].
  - pose proof (wp_ledger_call verifier c s w) as H. unfold wp in H. rewrite Hrun in H.
    split_and!; [done| |done]. destruct H as [->|(t & s1 & Hstep & Hd1)]; [by exists d|].
    exists s1. split; [done|]. by eapply released_below_step; [apply Hm|].
  - by split_and!.
  - split_and!; [done| |done]. exists d. split; [|done]. unfold disk_ledger in *. by rewrite Hf.
  - destruct (ledger_reopened _ _ _ _ Hd Hans Hrun) as [-> Hd']. split_and!; [done|by exists d|by intros s [= <-]].
Qed.
End LedgerLife.

(** C26: Refinement of the abstract ledger by the calls on the file store: a call
    that succeeds takes exactly one abstract step, which is on disk before it
    returns, and releases a token only by consuming the reserved payload; a call
    that fails, or during which the process dies, leaves the memory alone and
    puts at most one abstract step on disk. *)
Theorem ledger_call_refines `{SL : Serde CapabilityLedger} {A} `{PA : PlatformAuthorizer A} cred_own
    `{PAL : !PlatformAuthorizerLaws A cred_own} path (verifier : A) c s w :
  wp (@run_ledger_call (file_persist_ledger path) A PA verifier c)
     (fun t s' w' => ledger_step s t s' /\ disk_ledger path w' = Some s')
     (fun _ s' w' => s' = s /\ @ledger_disk (disk_ledger path) s w w')
     (fun w' => @ledger_disk (disk_ledger path) s w w') s w.
Proof. apply wp_ledger_call. Qed.


(** Codecs, for the examples. *)
Definition codec_capability_operation : Codec CapabilityOperation.
Proof.
  refine (codec_iso (fun o => match o with CapOp.Inject => 0 | CapOp.RecoverProfile => 1 end)
    (fun n => match n with 0 => CapOp.Inject | _ => CapOp.RecoverProfile end) _ codec_N).
  by intros [].
Defined.

Definition codec_capability_payload : Codec CapabilityPayload.
Proof.
  refine (codec_iso
    (fun p => (cp_account_group_id p, (cp_operation p, (cp_expiry_unix_ms p, (cp_monotonic_sequence p, cp_nonce p)))))
    (fun '(a, (b, (c, (d, e)))) => mkCapabilityPayload a b c d e) _
    (codec_pair codec_N (codec_pair codec_capability_operation (codec_pair codec_N (codec_pair codec_N codec_bytes))))).
  by intros [].
Defined.

Definition codec_ledger : Codec CapabilityLedger.
Proof.
  refine (codec_iso
    (fun l => (cl_account_group_id l, (last_issued_sequence l, (last_consumed_sequence l, (consumed_nonces l, pending l)))))
    (fun '(a, (b, (c, (d, e)))) => mkLedger a b c d e) _
    (codec_pair codec_N (codec_pair codec_N (codec_pair codec_N (codec_pair (codec_list codec_bytes)
      (codec_option codec_capability_payload)))))).
  by intros [].
Defined.

Definition toy_ledger : Serde CapabilityLedger := codec_json codec_ledger.

(** An authorizer that signs with an empty signature and accepts everything. *)
Definition toy_authorizer : PlatformAuthorizer unit := {|
  sign _ p := mret (mkSignedCapability p [] []);
  verify_signature _ _ := mret tt;
  open_or_create _ := mret tt;
  open_existing _ := mret tt;
  recover_if_credential_vanished a _ _ := mret (false, a);
|}.

Lemma toy_authorizer_laws own : @PlatformAuthorizerLaws unit toy_authorizer own.
Proof. split; intros; intros w; apply agree_off_refl. Qed.

Section LedgerExample.
#[local] Existing Instance toy_ledger.
#[local] Existing Instance toy_authorizer.

Definition example_ledger : CapabilityLedger := mkLedger 77 6 5 [be_bytes 32 3] None.

Definition ledger_world (fault : nat -> Fault) : World :=
  mkWorld (<[["d"; "l.json"] := File (enc codec_ledger example_ledger)]> {[ ["d"] := Dir ]}) 0
    (mkEnv fault (fun n => 7 + N.of_nat n) (fun _ => 1700000000000)).

Lemma ledger_call_refines_witness :
  wp (@run_ledger_call (file_persist_ledger ["d"; "l.json"]) unit toy_authorizer tt
        (CallReserve CapOp.Inject 1700000000000 60000))
     (fun t s' w' => ledger_step example_ledger t s' /\ disk_ledger ["d"; "l.json"] w' = Some s')
     (fun _ s' w' => s' = example_ledger /\
        @ledger_disk (disk_ledger ["d"; "l.json"]) example_ledger (ledger_world (fun _ => NoFault)) w')
     (fun w' => @ledger_disk (disk_ledger ["d"; "l.json"]) example_ledger (ledger_world (fun _ => NoFault)) w')
     example_ledger (ledger_world (fun _ => NoFault)).
Proof.
  apply (@ledger_call_refines toy_ledger unit toy_authorizer (fun _ _ => False) (toy_authorizer_laws _)).
Defined.

(** A capability is reserved and accepted in a new file, which is then opened again;
    there it is refused. *)
Abbreviation example_call := (@run_ledger_call (file_persist_ledger ["d"; "l.json"]) unit toy_authorizer tt).
Definition life_world : World :=
  mkWorld {[ ["d"] := Dir ]} 0 (mkEnv (fun _ => NoFault) (fun n => 7 + N.of_nat n) (fun _ => 1700000000000)).
Definition life_created : Outcome unit CapabilityLedger := load_or_initialize_ledger ["d"; "l.json"] 77 tt life_world.
Definition life_new : CapabilityLedger := mkLedger 77 0 0 [] None.
Definition life_reserved : Outcome CapabilityLedger (option ConsumedCapability) :=
  example_call (CallReserve CapOp.Inject 1700000000000 60000) life_new (outcome_world life_created).
Definition life_signed : SignedCapability :=
  mkSignedCapability (default example_payload (pending (outcome_state life_new life_reserved))) [] [].
Definition life_consumed : Outcome CapabilityLedger (option ConsumedCapability) :=
  example_call (CallConsume life_signed CapOp.Inject 1700000000000) (outcome_state life_new life_reserved)
    (outcome_world life_reserved).
Definition life_reopened : Outcome unit CapabilityLedger :=
  load_or_initialize_ledger ["d"; "l.json"] 77 tt (outcome_world life_consumed).
Definition life_replayed : Outcome CapabilityLedger (option ConsumedCapability) :=
  example_call (CallConsume life_signed CapOp.Inject 1700000000000) (outcome_value life_new life_reopened)
    (outcome_world life_reopened).

Lemma example_life :
  ledger_life ["d"; "l.json"] 77 (Some (outcome_state life_new life_replayed)) (outcome_world life_replayed)
    [mkConsumed 77 CapOp.Inject 1].
Proof.
  assert (Hfail : life_replayed = Failed (Capability "sequence replay detected") (outcome_state life_new life_replayed)
    (outcome_world life_replayed)) by (vm_compute; reflexivity).
  eapply LifeFailed; [|exact Hfail].
  apply (LifeReopened _ _ (Some (outcome_state life_new life_consumed)) (outcome_world life_consumed)).
  - apply (LifeCall _ _ (outcome_state life_new life_reserved) (outcome_world life_reserved) [] tt
      (CallConsume life_signed CapOp.Inject 1700000000000) (Some (mkConsumed 77 CapOp.Inject 1))); [|vm_compute; reflexivity].
    apply (LifeCall _ _ life_new (outcome_world life_created) [] tt (CallReserve CapOp.Inject 1700000000000 60000) None);
      [|vm_compute; reflexivity].
    apply (LifeCreated _ _ life_world); vm_compute; reflexivity.
  - intros n. vm_compute. discriminate.
  - vm_compute. reflexivity.
Qed.


(** [Path::exists] answers [false] when the metadata of the file cannot be
    read: one transient I/O error while a ledger file is opened makes
    [load_or_initialize] take the ledger for absent and replace it on disk by a
    fresh one, which forgets every consumed sequence. *)
Theorem ledger_forgotten_on_metadata_error :
  match load_or_initialize_ledger ["d"; "l.json"] 77 tt
          (ledger_world (fun n => match n with O => IoFault 0 | _ => NoFault end)) with
  | Done l _ w' =>
      disk_ledger ["d"; "l.json"] (ledger_world (fun _ => NoFault)) = Some example_ledger /\
      l = mkLedger 77 0 0 [] None /\ disk_ledger ["d"; "l.json"] w' = Some l
  | _ => False
  end.
Proof. vm_compute. repeat split. Qed.
End LedgerExample.
