(* ===== verification/LeaseMeta.v ===== *)
(** * lease/metadata.rs: the persisted lease metadata of a group

    The projection of a group's lease the host keeps on disk, its migration from
    version 1, and the sticky protocol floor. *)

From S2P Require Import Prelude World External Examples AtomicFile Config Messages.

Definition LEASE_METADATA_VERSION : N := 2.
Definition LEGACY_LEASE_METADATA_VERSION : N := 1.

Record LeaseMetadata := mkLease {
  lm_version : N;
  lm_account_group_id : Uuid;
  lm_state : GroupState;
  lm_lease_id : option Uuid;
  lm_granted_at_unix_ms : option N;
  lm_expires_at_unix_ms : option N;
  lm_pending_operation_id : option Uuid;
  lm_vault_sequence : N;
  lm_transition_sequence : N;
  lm_protocol_floor : N;
  lm_operation_sequence_high_water : N;
}.

#[export] Instance lease_metadata_eq_dec : EqDecision LeaseMetadata.
Proof. solve_decision. Defined.

(** Field assignments. *)
Definition set_lm_version v (m : LeaseMetadata) := mkLease v (lm_account_group_id m) (lm_state m) (lm_lease_id m) (lm_granted_at_unix_ms m) (lm_expires_at_unix_ms m) (lm_pending_operation_id m) (lm_vault_sequence m) (lm_transition_sequence m) (lm_protocol_floor m) (lm_operation_sequence_high_water m).
Definition set_lm_state v (m : LeaseMetadata) := mkLease (lm_version m) (lm_account_group_id m) v (lm_lease_id m) (lm_granted_at_unix_ms m) (lm_expires_at_unix_ms m) (lm_pending_operation_id m) (lm_vault_sequence m) (lm_transition_sequence m) (lm_protocol_floor m) (lm_operation_sequence_high_water m).
Definition set_lm_lease_id v (m : LeaseMetadata) := mkLease (lm_version m) (lm_account_group_id m) (lm_state m) v (lm_granted_at_unix_ms m) (lm_expires_at_unix_ms m) (lm_pending_operation_id m) (lm_vault_sequence m) (lm_transition_sequence m) (lm_protocol_floor m) (lm_operation_sequence_high_water m).
Definition set_lm_granted_at v (m : LeaseMetadata) := mkLease (lm_version m) (lm_account_group_id m) (lm_state m) (lm_lease_id m) v (lm_expires_at_unix_ms m) (lm_pending_operation_id m) (lm_vault_sequence m) (lm_transition_sequence m) (lm_protocol_floor m) (lm_operation_sequence_high_water m).
Definition set_lm_expires_at v (m : LeaseMetadata) := mkLease (lm_version m) (lm_account_group_id m) (lm_state m) (lm_lease_id m) (lm_granted_at_unix_ms m) v (lm_pending_operation_id m) (lm_vault_sequence m) (lm_transition_sequence m) (lm_protocol_floor m) (lm_operation_sequence_high_water m).
Definition set_lm_pending_operation_id v (m : LeaseMetadata) := mkLease (lm_version m) (lm_account_group_id m) (lm_state m) (lm_lease_id m) (lm_granted_at_unix_ms m) (lm_expires_at_unix_ms m) v (lm_vault_sequence m) (lm_transition_sequence m) (lm_protocol_floor m) (lm_operation_sequence_high_water m).
Definition set_lm_vault_sequence v (m : LeaseMetadata) := mkLease (lm_version m) (lm_account_group_id m) (lm_state m) (lm_lease_id m) (lm_granted_at_unix_ms m) (lm_expires_at_unix_ms m) (lm_pending_operation_id m) v (lm_transition_sequence m) (lm_protocol_floor m) (lm_operation_sequence_high_water m).
Definition set_lm_transition_sequence v (m : LeaseMetadata) := mkLease (lm_version m) (lm_account_group_id m) (lm_state m) (lm_lease_id m) (lm_granted_at_unix_ms m) (lm_expires_at_unix_ms m) (lm_pending_operation_id m) (lm_vault_sequence m) v (lm_protocol_floor m) (lm_operation_sequence_high_water m).
Definition set_lm_protocol_floor v (m : LeaseMetadata) := mkLease (lm_version m) (lm_account_group_id m) (lm_state m) (lm_lease_id m) (lm_granted_at_unix_ms m) (lm_expires_at_unix_ms m) (lm_pending_operation_id m) (lm_vault_sequence m) (lm_transition_sequence m) v (lm_operation_sequence_high_water m).
Definition set_lm_operation_sequence_high_water v (m : LeaseMetadata) := mkLease (lm_version m) (lm_account_group_id m) (lm_state m) (lm_lease_id m) (lm_granted_at_unix_ms m) (lm_expires_at_unix_ms m) (lm_pending_operation_id m) (lm_vault_sequence m) (lm_transition_sequence m) (lm_protocol_floor m) v.

(** [LeaseMetadata::initial]. *)
Definition initial_lease (account_group_id : Uuid) (vault_exists : bool) : LeaseMetadata :=
  mkLease LEASE_METADATA_VERSION account_group_id
    (if vault_exists then GState.Sealed else GState.Uninitialized)
    None None None None 0 0 6 0.

(** [LeaseMetadata::validate]. *)
Definition validate_lease (self : LeaseMetadata) (expected_group : Uuid) : FcpResult unit :=
  _ ← guard_err (negb (lm_version self =? LEASE_METADATA_VERSION))
        (Format ("unsupported lease metadata version " +:+ pretty (lm_version self)));
  guard_err (negb (lm_account_group_id self =? expected_group))
    (Format "lease metadata account group mismatch").

(** [LeaseMetadata::advance_transition]. *)
Definition advance_transition (self : LeaseMetadata) : FcpResult LeaseMetadata :=
  next ← ok_or (checked_add u64_max (lm_transition_sequence self) 1)
           (Format "lease transition sequence exhausted");
  Ok (set_lm_transition_sequence next self).

(** [LeaseMetadata::activate_protocol_v7]: the new metadata and whether it changed. *)
Definition activate_protocol_v7 (high_water : N) (self : LeaseMetadata) : FcpResult (bool * LeaseMetadata) :=
  _ ← guard_err (7 <? lm_protocol_floor self) (Format "unsupported lease protocol floor");
  let changed := (lm_protocol_floor self <? 7) || (lm_operation_sequence_high_water self <? high_water) in
  Ok (changed,
      set_lm_operation_sequence_high_water (N.max (lm_operation_sequence_high_water self) high_water)
        (set_lm_protocol_floor 7 self)).

Definition clear_lease (m : LeaseMetadata) : LeaseMetadata :=
  set_lm_expires_at None (set_lm_granted_at None (set_lm_lease_id None m)).

(** The version 1 branch of [load_or_initialize], before it advances the
    transition. *)
Definition migrate_lease (metadata : LeaseMetadata) : LeaseMetadata :=
  let metadata :=
    set_lm_operation_sequence_high_water 0
      (set_lm_protocol_floor 6 (set_lm_version LEASE_METADATA_VERSION metadata)) in
  if (match lm_state metadata with GState.Unlocking | GState.Evicting | GState.Degraded => true | _ => false end)
     || bool_decide (is_Some (lm_pending_operation_id metadata))
  then clear_lease (set_lm_state GState.Degraded metadata)
  else metadata.

Section LeaseStore.
Context `{SM : Serde LeaseMetadata}.

Definition verify_lease_persisted (metadata : LeaseMetadata) (persisted : bytes) : FcpResult unit :=
  verified ← from_slice persisted;
  guard_err (bool_decide (verified <> metadata)) (Format "lease metadata read-back mismatch").

(** [LeaseMetadataStore::persist]; the store is its path. *)
Definition persist_lease (path : Path) (metadata : LeaseMetadata) : IO unit :=
  _ ← lift (validate_lease metadata (lm_account_group_id metadata));
  b ← lift (to_vec metadata);
  write_verified path b (fun persisted => lift (verify_lease_persisted metadata persisted)).

(** [LeaseMetadataStore::load_or_initialize]. *)
Definition load_or_initialize_lease (path : Path) (account_group_id : Uuid) (vault_exists : bool)
    : IO LeaseMetadata :=
  present ← fs_exists path;
  if (present : bool) then
    b ← fs_read path;
    loaded ← lift (from_slice b);
    metadata ← (if lm_version loaded =? LEGACY_LEASE_METADATA_VERSION
                then metadata ← lift (advance_transition (migrate_lease loaded));
                     _ ← persist_lease path metadata;
                     mret metadata
                else mret loaded);
    _ ← lift (validate_lease metadata account_group_id);
    _ ← guard_not (bool_decide (lm_state metadata = GState.Uninitialized) && vault_exists)
          (Format "vault exists while lease metadata is uninitialized");
    if bool_decide (lm_state metadata <> GState.Uninitialized) && negb vault_exists
    then
      let reset := initial_lease account_group_id false in
      _ ← persist_lease path reset;
      mret reset
    else mret metadata
  else
    let metadata := initial_lease account_group_id vault_exists in
    _ ← persist_lease path metadata;
    mret metadata.
End LeaseStore.

(** ** Specification *)

Section LeaseSpec.
Context `{SM : Serde LeaseMetadata}.

(** What a later load of the file would find. *)
Definition disk_lease (path : Path) (w : World) : option LeaseMetadata :=
  match file_at w path with
  | Some b => match from_slice b with Ok m => Some m | Err _ => None end
  | None => None
  end.

Lemma wp_persist_lease path m (Q : unit -> unit -> World -> Prop) (E : FcpError -> unit -> World -> Prop)
    (C : World -> Prop) w :
  (forall w', agree_off (writer_files path) w w' -> disk_lease path w' = Some m ->
     lm_version m = LEASE_METADATA_VERSION -> Q tt tt w') ->
  (forall e w', agree_off (writer_files path) w w' ->
     disk_lease path w' = disk_lease path w \/ disk_lease path w' = Some m -> E e tt w') ->
  (forall w', agree_off (writer_files path) w w' ->
     disk_lease path w' = disk_lease path w \/ disk_lease path w' = Some m -> C w') ->
  wp (persist_lease path m) Q E C tt w.
Proof.
  intros HQ HE HC. unfold persist_lease.
  apply wp_bind, wp_lift. destruct (validate_lease _ _) as [[]|e] eqn:Hv; [|apply HE; [done|by left]].
  apply wp_bind, wp_lift. destruct (to_vec m) as [b|e] eqn:Hb; [|apply HE; [done|by left]].
  assert (Hdisk : forall w', file_at w' path = Some b -> verify_lease_persisted m b = Ok tt ->
    disk_lease path w' = Some m).
  { intros w' Hf Hp. unfold verify_lease_persisted in Hp. res_inv Hp.
    apply bool_decide_eq_false, dec_stable in Hp as ->. unfold disk_lease. by rewrite Hf, Hr. }
  assert (Hcases : forall w',
    file_at w' path = file_at w path \/ (file_at w' path = Some b /\ verify_lease_persisted m b = Ok tt) ->
    disk_lease path w' = disk_lease path w \/ disk_lease path w' = Some m).
  { intros w' [Hf|[Hf Hp]]; [left; unfold disk_lease; by rewrite Hf|right; auto]. }
  unfold validate_lease in Hv. res_inv Hv. bool_to_prop.
  apply wp_write_verified_pure; auto.
Qed.

(** A state in which a lease may be running. *)
Definition lease_active (m : LeaseMetadata) : bool :=
  match lm_state m with GState.Leased | GState.Unlocking => true | _ => false end.

Lemma migrate_lease_spec m :
  let m' := migrate_lease m in
  lm_version m' = LEASE_METADATA_VERSION /\ lm_protocol_floor m' = 6 /\
  lm_operation_sequence_high_water m' = 0 /\
  lm_account_group_id m' = lm_account_group_id m /\
  lm_pending_operation_id m' = lm_pending_operation_id m /\
  lm_transition_sequence m' = lm_transition_sequence m /\
  (is_Some (lm_pending_operation_id m) -> lm_state m' = GState.Degraded) /\
  (lm_state m' = GState.Degraded ->
     lm_lease_id m' = None /\ lm_granted_at_unix_ms m' = None /\ lm_expires_at_unix_ms m' = None) /\
  (lm_state m' = GState.Leased -> lm_state m = GState.Leased /\ lm_pending_operation_id m = None).
Proof.
  destruct m as [v g st l gr ex pend vs ts fl hw]. unfold migrate_lease, clear_lease. cbn.
  destruct (bool_decide (is_Some pend)) eqn:Hp.
  - apply bool_decide_eq_true in Hp. rewrite orb_true_r. cbn. repeat split; done.
  - apply bool_decide_eq_false, eq_None_not_Some in Hp as ->. rewrite orb_false_r.
    destruct st; cbn; repeat split; try done; intros [? ?]; done.
Qed.

Lemma activate_protocol_v7_spec hw m changed m' :
  activate_protocol_v7 hw m = Ok (changed, m') ->
  lm_protocol_floor m' = 7 /\ lm_protocol_floor m <= 7 /\
  lm_operation_sequence_high_water m <= lm_operation_sequence_high_water m' /\
  hw <= lm_operation_sequence_high_water m' /\
  (changed = false -> m' = m) /\
  lm_state m' = lm_state m /\ lm_lease_id m' = lm_lease_id m /\
  lm_transition_sequence m' = lm_transition_sequence m.
Proof.
  unfold activate_protocol_v7. intros Ha. res_inv Ha. injection Ha as <- <-. bool_to_prop. cbn.
  repeat split; try lia.
  intros Hc. bool_to_prop. destruct m; cbn in *. unfold set_lm_operation_sequence_high_water, set_lm_protocol_floor. cbn.
  f_equal; lia.
Qed.
End LeaseSpec.

(** ** Properties *)

(** C38: Whatever faults occur, lease metadata that [load_or_initialize] returns
    is what the file now holds, of version 2, of the requested group, and agrees
    with the vault: it is uninitialized exactly when there is no vault. Only the
    lease file and its temporary are touched. *)
Theorem load_lease_consistent `{SM : Serde LeaseMetadata} path group vault_exists w :
  wp (load_or_initialize_lease path group vault_exists)
     (fun m _ w' =>
        lm_version m = LEASE_METADATA_VERSION /\ lm_account_group_id m = group /\
        (lm_state m = GState.Uninitialized <-> vault_exists = false) /\
        disk_lease path w' = Some m /\ agree_off (writer_files path) w w')
     (fun _ _ w' => agree_off (writer_files path) w w')
     (fun w' => agree_off (writer_files path) w w') tt w.
Proof.
  unfold load_or_initialize_lease.
  assert (Hinit : forall w1 ve, agree_off (writer_files path) w w1 ->
    wp (_ ← persist_lease path (initial_lease group ve); mret (initial_lease group ve))
      (fun m _ w' => lm_version m = LEASE_METADATA_VERSION /\ lm_account_group_id m = group /\
        (lm_state m = GState.Uninitialized <-> ve = false) /\
        disk_lease path w' = Some m /\ agree_off (writer_files path) w w')
      (fun _ _ w' => agree_off (writer_files path) w w')
      (fun w' => agree_off (writer_files path) w w') tt w1).
  { intros w1 ve H1. apply wp_bind, wp_persist_lease; intros; try (by eapply agree_off_trans).
    apply wp_ret. repeat split; try done; try (by eapply agree_off_trans). all: by destruct ve. }
  apply wp_bind, wp_fs_exists; [|done].
  intros [] _; [|by apply Hinit].
  apply wp_bind, wp_fs_read; [|done..]. intros b Hb. rewrite file_at_tick in Hb.
  apply wp_bind, wp_lift. destruct (from_slice b) as [loaded|] eqn:Hload; [|done].
  set (w2 := tick (tick w)). assert (H2 : agree_off (writer_files path) w w2) by done.
  assert (Hdisk2 : disk_lease path w2 = Some loaded).
  { unfold disk_lease. change (file_at w2 path) with (file_at w path). by rewrite Hb, Hload. }
  apply wp_bind.
  assert (Hrest : forall m w3, agree_off (writer_files path) w w3 -> disk_lease path w3 = Some m ->
    wp (_ ← lift (validate_lease m group);
        _ ← guard_not (bool_decide (lm_state m = GState.Uninitialized) && vault_exists)
              (Format "vault exists while lease metadata is uninitialized");
        if bool_decide (lm_state m <> GState.Uninitialized) && negb vault_exists
        then _ ← persist_lease path (initial_lease group false); mret (initial_lease group false)
        else mret m)
      (fun m _ w' => lm_version m = LEASE_METADATA_VERSION /\ lm_account_group_id m = group /\
        (lm_state m = GState.Uninitialized <-> vault_exists = false) /\
        disk_lease path w' = Some m /\ agree_off (writer_files path) w w')
      (fun _ _ w' => agree_off (writer_files path) w w')
      (fun w' => agree_off (writer_files path) w w') tt w3).
  { intros m w3 H3 Hd3. apply wp_bind, wp_lift. destruct (validate_lease m group) as [[]|] eqn:Hv; [|done].
    apply wp_bind, wp_guard_not. destruct (_ && vault_exists) eqn:Hc1; [done|].
    destruct vault_exists.
    - rewrite andb_true_r in Hc1. rewrite andb_false_r. apply wp_ret.
      unfold validate_lease in Hv. res_inv Hv. bool_to_prop. split_and!; try done; try split; intros; congruence.
    - destruct (bool_decide (lm_state m <> GState.Uninitialized)) eqn:Hst; [by apply Hinit|].
      apply wp_ret. apply bool_decide_eq_false, dec_stable in Hst.
      unfold validate_lease in Hv. res_inv Hv. bool_to_prop. split_and!; try done; try split; intros; congruence. }
  destruct (lm_version loaded =? LEGACY_LEASE_METADATA_VERSION); [|by apply wp_ret, Hrest].
  apply wp_bind, wp_lift. destruct (advance_transition _) as [m|]; [|done].
  apply wp_bind, wp_persist_lease; intros; try (by eapply agree_off_trans).
  apply wp_ret, Hrest; [by eapply agree_off_trans|done].
Qed.

(** The migration of version 1 metadata is conservative: an operation that
    was pending, or a state in transition, becomes degraded with no lease; a
    group is leased afterwards only if it was leased with nothing pending; and the
    group, the pending operation and the transition sequence are kept. *)
Theorem lease_migration_conservative m :
  let m' := migrate_lease m in
  lm_account_group_id m' = lm_account_group_id m /\
  lm_pending_operation_id m' = lm_pending_operation_id m /\
  lm_transition_sequence m' = lm_transition_sequence m /\
  (is_Some (lm_pending_operation_id m) -> lm_state m' = GState.Degraded) /\
  (lm_state m' = GState.Degraded ->
     lm_lease_id m' = None /\ lm_granted_at_unix_ms m' = None /\ lm_expires_at_unix_ms m' = None) /\
  (lm_state m' = GState.Leased -> lm_state m = GState.Leased /\ lm_pending_operation_id m = None).
Proof. pose proof (migrate_lease_spec m). cbn in *. tauto. Qed.
