(* ===== verification/VaultStore.v ===== *)
(** * vault/store.rs: the vault files of the groups

    A store is its root directory. A group's vault is one file there; deletion
    is staged by a rename, so that a crash between the deletion and the
    configuration change can be repaired. *)

From S2P Require Import Prelude World External Examples AtomicFile Config Messages VaultFormat.

Section Store.
Context `{UT : UuidText, AE : Aead, SP : Serde VaultPayload}.

(** [path_for], [staged_delete_path_for]. *)
Definition path_for (root : Path) (group_id : Uuid) : Path :=
  path_join root (uuid_to_string group_id +:+ ".fcpv").

Definition staged_delete_path_for (root : Path) (group_id : Uuid) : Path :=
  path_join root (uuid_to_string group_id +:+ ".fcpv.delete-pending").

(** [VaultStore::read], [read_bytes]. *)
Definition read_vault (root : Path) (group_id : Uuid) : IO VaultRecord :=
  b ← fs_read (path_for root group_id); lift (decode_record b).

Definition read_vault_bytes (root : Path) (group_id : Uuid) : IO bytes :=
  fs_read (path_for root group_id).

(** [remove_if_exists]. *)
Definition remove_if_exists (path : Path) : IO unit :=
  removed ← try_ (fs_remove_file path);
  match removed with
  | Ok _ => mret tt
  | Err (Io NotFound) => mret tt
  | Err e => throw e
  end.

(** [VaultStore::delete]. *)
Definition delete_vault (root : Path) (group_id : Uuid) : IO unit :=
  removed ← try_ (fs_remove_file (path_for root group_id));
  match removed with
  | Ok _ => mret tt
  | Err (Io NotFound) => mret tt
  | Err e => throw e
  end.

(** [stage_delete], [rollback_staged_delete], [commit_staged_delete]. *)
Definition stage_delete (root : Path) (group_id : Uuid) : IO unit :=
  _ ← fs_create_dir_all root;
  let source := path_for root group_id in
  present ← fs_exists source;
  if negb present then mret tt
  else
    let staged := staged_delete_path_for root group_id in
    already ← fs_exists staged;
    _ ← guard_not already (Format "vault deletion is already staged");
    fs_rename source staged.

Definition rollback_staged_delete (root : Path) (group_id : Uuid) : IO unit :=
  let staged := staged_delete_path_for root group_id in
  present ← fs_exists staged;
  if negb present then mret tt
  else
    let target := path_for root group_id in
    occupied ← fs_exists target;
    _ ← guard_not occupied (Format "cannot restore staged vault over an existing vault");
    fs_rename staged target.

Definition commit_staged_delete (root : Path) (group_id : Uuid) : IO unit :=
  remove_if_exists (staged_delete_path_for root group_id).

(** [staged_group_id]. *)
Definition staged_group_id (path : Path) : option Uuid :=
  match path_file_name path with
  | Some name =>
      match strip_suffix ".fcpv.delete-pending" name with
      | Some id => uuid_parse id
      | None => None
      end
  | None => None
  end.

(** One turn of the loop of [recover_staged_deletions]. *)
Definition recover_entry (root : Path) (configured : gset N) (path : Path) : IO unit :=
  _ ← fs_dir_entry path;
  match staged_group_id path with
  | None => mret tt
  | Some group_id =>
      restore ← (if bool_decide (group_id ∈ configured)
                 then present ← fs_exists (path_for root group_id); mret (negb present)
                 else mret false);
      if (restore : bool)
      then fs_rename path (path_for root group_id)
      else remove_if_exists path
  end.

(** [recover_staged_deletions]. *)
Definition recover_staged_deletions (root : Path) (configured : gset N) : IO unit :=
  present ← fs_exists root;
  if negb present then mret tt
  else
    entries ← fs_read_dir root;
    for_each entries (recover_entry root configured).

(** The verification closure of [write_prepared]. *)
Definition verify_vault_bytes (group_id : Uuid) (b dek persisted : bytes) : FcpResult unit :=
  _ ← guard_err (bool_decide (persisted <> b)) (Format "prepared vault bytes changed before commit");
  verified ← decode_record persisted;
  _ ← guard_err (negb (vh_group_id (vr_header verified) =? group_id))
        (Format "prepared vault group mismatch");
  _ ← open_record verified dek;
  Ok tt.

(** [write_prepared], [VaultStore::write_verified]. *)
Definition write_prepared (root : Path) (group_id : Uuid) (b dek : bytes)
    : IO (Result DurableWriteFailure DurableWriteResult) :=
  write_verified_durable (path_for root group_id) b
    (fun persisted => lift (verify_vault_bytes group_id b dek persisted)).

Definition write_vault_verified (root : Path) (record : VaultRecord) (dek : bytes) : IO unit :=
  b ← lift (encode_record record);
  r ← write_prepared root (vh_group_id (vr_header record)) b dek;
  match r with Ok _ => mret tt | Err failure => throw (dwf_error failure) end.

(** ** Lemmas *)

(** The bytes hold a record of the group that opens under the key. *)
Definition opens_as (group_id : Uuid) (b dek : bytes) : Prop :=
  exists r payload, decode_record b = Ok r /\ vh_group_id (vr_header r) = group_id /\ open_record r dek = Ok payload.

Lemma verify_vault_bytes_ok group_id b dek persisted :
  verify_vault_bytes group_id b dek persisted = Ok tt -> persisted = b /\ opens_as group_id b dek.
Proof.
  unfold verify_vault_bytes. intros Hv. res_inv Hv. apply bool_decide_eq_false, dec_stable in Hr as ->.
  bool_to_prop. split; [done|]. by eexists _, _.
Qed.

(** The outcome of a vault write: by its result, and for a killed process. *)
Lemma wp_write_prepared root group_id b dek
    (Q : Result DurableWriteFailure DurableWriteResult -> unit -> World -> Prop)
    (E : FcpError -> unit -> World -> Prop) (C : World -> Prop) w :
  (forall r w', agree_off (writer_files (path_for root group_id)) w w' ->
     write_outcome (path_for root group_id) b (opens_as group_id b dek) w r w' -> Q r tt w') ->
  (forall w', agree_off (writer_files (path_for root group_id)) w w' ->
     old_or_new (path_for root group_id) b (opens_as group_id b dek) w w' -> C w') ->
  wp (write_prepared root group_id b dek) Q E C tt w.
Proof.
  intros HQ HC. unfold write_prepared.
  assert (Hoff : forall w', agree_off (touched (path_for root group_id) (fun _ => False)) w w' ->
    agree_off (writer_files (path_for root group_id)) w w').
  { intros w' Ha. eapply agree_off_weaken; [exact Ha|]. by intros p [|]. }
  eapply wp_mono; [apply (wp_write_verified_durable _ _ _ (fun _ => False) (opens_as group_id b dek))| | |].
  - done.
  - intros w0. apply wp_lift. destruct (verify_vault_bytes group_id b dek b) as [[]|] eqn:Hv; [|done].
    split; [done|]. by apply verify_vault_bytes_ok in Hv as [].
  - cbn beta. intros r [] w' [Ha Ho]. apply HQ; auto.
  - done.
  - cbn beta. intros w' [Ha Ho]. apply HC; auto.
Qed.
End Store.

(** ** Staged deletions after a crash *)

Section StagedDeletion.
Context `{UT : UuidText, UL : !UuidTextLaws}.

(** A vault's own name never reads as a staged one. *)
Lemma staged_suffix_vault s : strip_suffix ".fcpv.delete-pending" (s +:+ ".fcpv") = None.
Proof.
  unfold strip_suffix. destruct (ends_with _ _) eqn:He; [|done]. exfalso.
  apply ends_with_spec in He as [p Heq].
  apply string_suffix_split in Heq as [[q Hq]|[q Hq]].
  - apply (f_equal String.length) in Hq. rewrite string_app_length in Hq. cbn in Hq. lia.
  - assert (ends_with ".fcpv" ".fcpv.delete-pending" = true) as Hc by (apply ends_with_spec; by exists q).
    discriminate Hc.
Qed.

Lemma staged_group_id_vault root g : staged_group_id (path_for root g) = None.
Proof.
  unfold staged_group_id, path_for, path_file_name, path_join. by rewrite list.last_snoc, staged_suffix_vault.
Qed.

Lemma staged_group_id_staged root g : g < 2 ^ 128 -> staged_group_id (staged_delete_path_for root g) = Some g.
Proof using UL.
  intros Hg. unfold staged_group_id, staged_delete_path_for, path_file_name, path_join.
  rewrite list.last_snoc, strip_suffix_app. by apply uuid_parse_to_string.
Qed.

Lemma path_for_inj root g g' : path_for root g = path_for root g' -> g = g'.
Proof using UL.
  unfold path_for, path_join. intros Heq. apply app_inj_2 in Heq as [_ Heq]; [|done]. injection Heq as Heq.
  apply uuid_to_string_inj. apply (f_equal (strip_suffix ".fcpv")) in Heq. rewrite !strip_suffix_app in Heq. by injection Heq.
Qed.

Context (root : Path) (g : Uuid) (configured : gset N) (b : bytes).
Hypothesis g_width : g < 2 ^ 128.

(** A deletion of the group's vault [b] is staged. *)
Definition staged_state (w : World) : Prop :=
  w_fs w !! path_for root g = None /\ w_fs w !! staged_delete_path_for root g = Some (File b).

(** It has been undone for a configured group, and carried out for any other. *)
Definition settled_state (w : World) : Prop :=
  w_fs w !! path_for root g = (if bool_decide (g ∈ configured) then Some (File b) else None) /\
  w_fs w !! staged_delete_path_for root g = None.

Definition pending_or_settled (w : World) : Prop := staged_state w \/ settled_state w.

Lemma state_frame (P : Path -> Prop) w w' :
  nodes_off P w w' -> ~ P (path_for root g) -> ~ P (staged_delete_path_for root g) ->
  (staged_state w -> staged_state w') /\ (settled_state w -> settled_state w').
Proof. intros [_ Ha] H1 H2. unfold staged_state, settled_state. by rewrite !Ha. Qed.

Lemma staged_ne_vault g' : staged_delete_path_for root g <> path_for root g'.
Proof using UL g_width.
  intros Heq. apply (f_equal staged_group_id) in Heq. rewrite staged_group_id_staged, staged_group_id_vault in Heq; done.
Qed.

Lemma wp_remove_if_exists path (Q : unit -> unit -> World -> Prop) (E : FcpError -> unit -> World -> Prop) (C : World -> Prop) w :
  (forall w', w_fs w' !! path = None -> nodes_off (eq path) w w' -> Q tt tt w') ->
  (forall e, E e tt (tick w)) -> C w -> wp (remove_if_exists path) Q E C tt w.
Proof.
  intros HQ HE HC. unfold remove_if_exists. apply wp_bind, wp_try, wp_fs_remove_nodes.
  - intros. by apply wp_ret, HQ.
  - intros. by apply wp_ret, HQ.
  - apply wp_throw, HE.
  - done.
Qed.

(** The turn for the staged file itself. *)
Lemma wp_recover_entry_staged (Q : unit -> unit -> World -> Prop) (E : FcpError -> unit -> World -> Prop) (C : World -> Prop) w :
  pending_or_settled w ->
  (forall w', settled_state w' -> Q tt tt w') ->
  (forall e w', pending_or_settled w' -> E e tt w') ->
  (forall w', pending_or_settled w' -> C w') ->
  wp (recover_entry root configured (staged_delete_path_for root g)) Q E C tt w.
Proof using UL g_width.
  intros Hst HQ HE HC. unfold recover_entry.
  apply wp_bind, wp_fs_dir_entry; [|by apply HE|by apply HC]. rewrite staged_group_id_staged by done.
  assert (Hremove : forall w1, pending_or_settled w1 -> (g ∈ configured -> settled_state w1) ->
    wp (remove_if_exists (staged_delete_path_for root g)) Q E C tt w1).
  { intros w1 H1 Hc. apply wp_remove_if_exists; [|by intros; apply HE|by apply HC].
    intros w2 Hnone [_ Ha]. apply HQ. split; [|done]. rewrite Ha by apply staged_ne_vault.
    case_bool_decide as Hg; [destruct (Hc Hg) as [-> _]; by rewrite bool_decide_true|].
    destruct H1 as [[-> _]|[-> _]]; [done|]. by rewrite bool_decide_false. }
  destruct (bool_decide (g ∈ configured)) eqn:Hg; [apply bool_decide_eq_true in Hg|apply bool_decide_eq_false in Hg].
  - apply wp_bind, wp_bind, wp_fs_exists; [|by apply HC]. intros present Hpresent. apply wp_ret.
    destruct present; cbn [negb].
    + apply Hremove; [done|]. intros _. destruct Hst as [[Hv _]|Hs]; [|done].
      specialize (Hpresent eq_refl). cbn in Hpresent. rewrite Hv in Hpresent. by destruct Hpresent.
    + apply wp_fs_rename_nodes; [apply staged_ne_vault| |by intros; apply HE|by apply HC].
      intros w2 b' Hsrc Hnone Hdst _. apply HQ. split; [|done]. rewrite bool_decide_true by done. cbn in Hsrc.
      destruct Hst as [[_ Hs]|[_ Hs]]; rewrite Hs in Hsrc; congruence.
  - by apply wp_bind, wp_ret, Hremove.
Qed.

Definition both_states_kept (w w' : World) : Prop :=
  (staged_state w -> staged_state w') /\ (settled_state w -> settled_state w').

(** The turn for any other entry. *)
Lemma wp_recover_entry_other q (Q : unit -> unit -> World -> Prop) (E : FcpError -> unit -> World -> Prop) (C : World -> Prop) w :
  staged_group_id q <> Some g ->
  (forall w', both_states_kept w w' -> Q tt tt w') ->
  (forall e w', both_states_kept w w' -> E e tt w') ->
  (forall w', both_states_kept w w' -> C w') ->
  wp (recover_entry root configured q) Q E C tt w.
Proof using UL g_width.
  intros Hq HQ HE HC.
  assert (Hid : forall w', w_fs w' = w_fs w -> both_states_kept w w').
  { intros w' Hfs. unfold both_states_kept, staged_state, settled_state. by rewrite Hfs. }
  assert (Hkeep : forall P w1 w2, w_fs w1 = w_fs w -> nodes_off P w1 w2 -> ~ P (path_for root g) ->
    ~ P (staged_delete_path_for root g) -> both_states_kept w w2).
  { intros P w1 w2 Hfs Ha H1 H2. destruct (state_frame _ _ _ Ha H1 H2) as [K1 K2].
    unfold both_states_kept, staged_state, settled_state in *. by rewrite <- Hfs. }
  unfold recover_entry. apply wp_bind, wp_fs_dir_entry; [|by apply HE, Hid|by apply HC, Hid].
  destruct (staged_group_id q) as [g'|] eqn:Hg'; [|by apply wp_ret, HQ, Hid].
  assert (Hqs : q <> staged_delete_path_for root g).
  { intros ->. by rewrite staged_group_id_staged in Hg'. }
  assert (Hqv : forall x, q <> path_for root x) by (intros x ->; by rewrite staged_group_id_vault in Hg').
  assert (Hremove : forall w1, w_fs w1 = w_fs w -> wp (remove_if_exists q) Q E C tt w1).
  { intros w1 Hfs. apply wp_remove_if_exists; [|by intros; apply HE, Hid|by apply HC, Hid].
    intros w2 _ Ha. eapply HQ, Hkeep; [exact Hfs|exact Ha|apply Hqv|exact Hqs]. }
  destruct (bool_decide (g' ∈ configured)); [|by apply wp_bind, wp_ret, Hremove].
  apply wp_bind, wp_bind, wp_fs_exists; [|by apply HC, Hid]. intros present _. apply wp_ret.
  destruct present; cbn [negb]; [by apply Hremove|].
  apply wp_fs_rename_nodes; [apply Hqv| |by intros; apply HE, Hid|by apply HC, Hid].
  intros w2 b' _ _ _ Ha. eapply HQ, Hkeep; [|exact Ha| |]; [done| |].
  - intros [Heq|Heq]; [by apply (Hqv g)|]. apply path_for_inj in Heq as <-. done.
  - intros [Heq|Heq]; [by apply Hqs|by apply staged_ne_vault in Heq].
Qed.

Lemma wp_recover_entries entries (Q : unit -> unit -> World -> Prop) (E : FcpError -> unit -> World -> Prop) (C : World -> Prop) w :
  (forall q, q ∈ entries -> staged_group_id q = Some g -> q = staged_delete_path_for root g) ->
  pending_or_settled w -> (staged_delete_path_for root g ∈ entries \/ settled_state w) ->
  (forall w', settled_state w' -> Q tt tt w') ->
  (forall e w', pending_or_settled w' -> E e tt w') ->
  (forall w', pending_or_settled w' -> C w') ->
  wp (for_each entries (recover_entry root configured)) Q E C tt w.
Proof using UL g_width.
  revert w; induction entries as [|q entries IH]; intros w Hcanon Hst Hin HQ HE HC; cbn [for_each].
  { apply wp_ret, HQ. destruct Hin as [Hin|]; [|done]. by apply elem_of_nil in Hin. }
  assert (Hcanon' : forall q, q ∈ entries -> staged_group_id q = Some g -> q = staged_delete_path_for root g)
    by (intros; apply Hcanon; [by apply elem_of_cons; right|done]).
  apply wp_bind. destruct (decide (q = staged_delete_path_for root g)) as [->|Hne].
  - apply wp_recover_entry_staged; [done| |done|done].
    intros w' Hs. apply IH; [done|by right|by right|done..].
  - assert (Hkept : forall w', both_states_kept w w' -> pending_or_settled w')
      by (intros w' [H1 H2]; destruct Hst; [left|right]; auto).
    apply wp_recover_entry_other; [|intros w' Hk|intros e w' Hk; by apply HE, Hkept|intros w' Hk; by apply HC, Hkept].
    + intros Hq. apply Hne, Hcanon; [by apply elem_of_cons; left|done].
    + apply IH; [done|by apply Hkept| |done..].
      destruct Hin as [Hin|Hs]; [|right; by apply Hk]. left. by apply elem_of_cons in Hin as [<-|].
Qed.
End StagedDeletion.

(** ** Properties *)

(** A staged deletion is repaired at startup: from a world where the group's
    vault has been renamed to its staged name, [recover_staged_deletions]
    restores the vault, byte for byte, when the group is still configured, and
    removes the staged file when it is not; if the recovery fails or dies, the
    deletion is still staged or already settled, so that it can be repeated. (The
    existence check of the directory must be answered, and no second file of the
    directory may spell the same group.) *)
Theorem staged_deletion_recovers `{UT : UuidText, UL : !UuidTextLaws} root g configured b w :
  g < 2 ^ 128 -> metadata_answers w -> is_Some (w_fs w !! root) -> staged_state root g b w ->
  (forall q, path_parent q = Some root -> is_Some (w_fs w !! q) -> staged_group_id q = Some g ->
     q = staged_delete_path_for root g) ->
  wp (recover_staged_deletions root configured)
     (fun _ _ w' => settled_state root g configured b w')
     (fun _ _ w' => pending_or_settled root g configured b w')
     (fun w' => pending_or_settled root g configured b w') tt w.
Proof.
  intros Hg Hm Hroot Hst Hcanon. unfold recover_staged_deletions.
  assert (Hpending : forall w', w_fs w' = w_fs w -> pending_or_settled root g configured b w').
  { intros w' Hfs. left. unfold staged_state in *. by rewrite Hfs. }
  apply wp_bind, wp_fs_exists_exact; [done| |by apply Hpending]. rewrite bool_decide_true by done. cbn [negb].
  apply wp_bind, wp_fs_read_dir; [|by apply Hpending..]. intros entries Hentries.
  apply (wp_recover_entries root g configured b Hg); [|by apply Hpending| |done..].
  - intros q Hq. apply Hentries in Hq as [Hp Hs]. by apply Hcanon.
  - left. apply Hentries. split.
    + unfold staged_delete_path_for, path_join, path_parent. rewrite removelast_last. by destruct root.
    + cbn. destruct Hst as [_ ->]. by eexists.
Qed.

Section StagedExample.
#[local] Existing Instances toy_uuid_text toy_uuid_text_laws.

Definition staged_world : World :=
  mkWorld {[ ["v"] := Dir; staged_delete_path_for ["v"] 77 := File (str_bytes "vault") ]} 0
    (mkEnv (fun _ => NoFault) (fun _ => 7) (fun _ => 0)).

Lemma staged_deletion_recovers_witness :
  wp (recover_staged_deletions ["v"] {[77]})
     (fun _ _ w' => settled_state ["v"] 77 {[77]} (str_bytes "vault") w')
     (fun _ _ w' => pending_or_settled ["v"] 77 {[77]} (str_bytes "vault") w')
     (fun w' => pending_or_settled ["v"] 77 {[77]} (str_bytes "vault") w') tt staged_world.
Proof.
  apply staged_deletion_recovers.
  - reflexivity.
  - intros n. discriminate.
  - by exists Dir.
  - split; by vm_compute.
  - intros q _ Hq Hid. cbn [staged_world w_fs] in Hq.
    destruct (decide (["v"] = q)) as [<-|Hne]; [by vm_compute in Hid|].
    rewrite lookup_insert_ne in Hq by done. by apply lookup_singleton_is_Some in Hq.
Defined.
End StagedExample.
