(* ===== verification/Transaction.v ===== *)
(** * transaction.rs: the vault transactions of one group

    Authorizing and reading the vault for injection, and preparing and
    committing the replacement of the vault after a snapshot. *)

From S2P Require Import Prelude World External Examples AtomicFile Config Messages VaultFormat Capability VaultStore.

Definition CAPABILITY_LIFETIME_MS : N := 60000.

Record PreparedVaultWrite := mkPrepared {
  pv_group_id : Uuid;
  pv_bytes : bytes;
  pv_dek : SecretDek;
  pv_previous_digest : option bytes;
  pv_target_digest : bytes;
  pv_vault_sequence : N;
  pv_commit_required : bool;
}.

(** The stores are their paths: the key-encryption key's, the vault root and
    the capability ledger's file. *)
Record VaultTransactions := mkTransactions {
  vt_group_id : Uuid;
  vt_kek : Path;
  vt_vault_store : Path;
  vt_capability_ledger : CapabilityLedger;
  vt_capability_store : Path;
}.

Definition set_vt_capability_ledger (l : CapabilityLedger) (t : VaultTransactions) : VaultTransactions :=
  mkTransactions (vt_group_id t) (vt_kek t) (vt_vault_store t) l (vt_capability_store t).

Section Transactions.
Context `{UT : UuidText, SH : Sha256, AE : Aead, SP : Serde VaultPayload, SL : Serde CapabilityLedger,
  KB : KekBackend}.

(** Runs a ledger operation on the transaction's own ledger and file store. *)
Definition on_ledger {T} (m : forall _ : CapabilityLedgerStore, M CapabilityLedger T) : M VaultTransactions T :=
  self ← get;
  zoom vt_capability_ledger set_vt_capability_ledger (m (file_persist_ledger (vt_capability_store self))).

(** [VaultTransactions::open]. *)
Definition open_transactions (group_id : Uuid) (kek vault_store capability_store : Path)
    : IO VaultTransactions :=
  capability_ledger ← load_or_initialize_ledger capability_store group_id;
  if bool_decide (is_Some (pending capability_ledger)) then
    cancelled ← with_local capability_ledger (@cancel_pending (file_persist_ledger capability_store));
    let '(r, capability_ledger) := cancelled in
    _ ← lift r;
    mret (mkTransactions group_id kek vault_store capability_ledger capability_store)
  else mret (mkTransactions group_id kek vault_store capability_ledger capability_store).

(** [authorize_inject]. *)
Definition authorize_inject {A} `{PA : PlatformAuthorizer A} (authorizer : A)
    : M VaultTransactions ConsumedCapability :=
  now ← io unix_ms;
  payload ← on_ledger (fun _ => reserve CapOp.Inject now CAPABILITY_LIFETIME_MS);
  signed ← try_ (io (sign authorizer payload));
  match signed with
  | Err error => _ ← on_ledger (fun _ => cancel_pending); throw error
  | Ok signed =>
      now ← io unix_ms;
      on_ledger (fun _ => verify_and_consume authorizer signed CapOp.Inject now)
  end.

(** [require_authorization]. *)
Definition require_authorization (self : VaultTransactions) (authorization : ConsumedCapability)
    (expected_operation : CapabilityOperation) : FcpResult unit :=
  _ ← guard_err (negb (cc_account_group_id authorization =? vt_group_id self))
        (Capability "consumed capability belongs to another account group");
  guard_err (bool_decide (cc_operation authorization <> expected_operation))
    (Capability "consumed capability operation does not authorize this transaction").

(** [read_for_inject]. *)
Definition read_for_inject (self : VaultTransactions) (authorization : ConsumedCapability) : IO VaultPayload :=
  _ ← lift (require_authorization self authorization CapOp.Inject);
  record ← read_vault (vt_vault_store self) (vt_group_id self);
  dek ← kek_unwrap_dek (vt_kek self) (vh_wrapped_dek (vr_header record));
  lift (open_record record dek).

Definition vault_path (self : VaultTransactions) : Path := path_for (vt_vault_store self) (vt_group_id self).

Definition vault_exists (self : VaultTransactions) : IO bool := fs_exists (vault_path self).

(** [prepare_after_snapshot]. *)
Definition prepare_after_snapshot (self : VaultTransactions) (cookies : list CookieRecord)
    : IO PreparedVaultWrite :=
  present ← fs_exists (path_for (vt_vault_store self) (vt_group_id self));
  if (present : bool) then
    previous_bytes ← read_vault_bytes (vt_vault_store self) (vt_group_id self);
    existing ← lift (decode_record previous_bytes);
    dek ← kek_unwrap_dek (vt_kek self) (vh_wrapped_dek (vr_header existing));
    previous ← lift (open_record existing dek);
    if bool_decide (cookies = []) then
      let digest := sha256 previous_bytes in
      mret (mkPrepared (vt_group_id self) previous_bytes dek (Some digest) digest
              (pl_vault_sequence previous) false)
    else
      vault_sequence ← ok_or_throw (checked_add u64_max (pl_vault_sequence previous) 1)
                         (Format "vault sequence exhausted");
      let payload := mkPayload PAYLOAD_SCHEMA_VERSION vault_sequence cookies in
      replacement ← seal (vt_group_id self) (vh_kek_key_id (vr_header existing))
                      (vh_wrapped_dek (vr_header existing)) dek payload;
      b ← lift (encode_record replacement);
      mret (mkPrepared (vt_group_id self) b dek (Some (sha256 previous_bytes)) (sha256 b)
              vault_sequence true)
  else
    _ ← guard_not (bool_decide (cookies = [])) (Protocol "cannot create an empty group vault");
    _ ← kek_ensure_exists (vt_kek self);
    dek ← generate_dek;
    wrapped_dek ← kek_wrap_dek (vt_kek self) dek;
    let payload := mkPayload PAYLOAD_SCHEMA_VERSION 1 cookies in
    record ← seal (vt_group_id self) KEK_KEY_ID wrapped_dek dek payload;
    b ← lift (encode_record record);
    mret (mkPrepared (vt_group_id self) b dek None (sha256 b) 1 true).

(** [commit_prepared]. *)
Definition commit_prepared (self : VaultTransactions) (prepared : PreparedVaultWrite)
    : IO (Result DurableWriteFailure DurableWriteResult) :=
  if negb (pv_commit_required prepared) then mret (Ok DurableWrite.Committed)
  else write_prepared (vt_vault_store self) (pv_group_id prepared) (pv_bytes prepared) (pv_dek prepared).

Definition commit_or_throw (self : VaultTransactions) (prepared : PreparedVaultWrite) : IO N :=
  r ← commit_prepared self prepared;
  match r with
  | Ok _ => mret (pv_vault_sequence prepared)
  | Err failure => throw (dwf_error failure)
  end.

(** [enroll], [update_after_snapshot]. *)
Definition enroll (self : VaultTransactions) (cookies : list CookieRecord) : IO N :=
  present ← fs_exists (vault_path self);
  _ ← guard_not present (Format "enrollment refused because the group vault already exists");
  prepared ← prepare_after_snapshot self cookies;
  commit_or_throw self prepared.

Definition update_after_snapshot (self : VaultTransactions) (cookies : list CookieRecord) : IO N :=
  present ← fs_exists (vault_path self);
  _ ← guard_not (negb present) (Format "snapshot update refused because the group vault is missing");
  prepared ← prepare_after_snapshot self cookies;
  commit_or_throw self prepared.

(** [invalidate], [stage_invalidation], [rollback_staged_invalidation],
    [commit_staged_invalidation]. *)
Definition invalidate (self : VaultTransactions) : IO unit :=
  delete_vault (vt_vault_store self) (vt_group_id self).
Definition stage_invalidation (self : VaultTransactions) : IO unit :=
  stage_delete (vt_vault_store self) (vt_group_id self).
Definition rollback_staged_invalidation (self : VaultTransactions) : IO unit :=
  rollback_staged_delete (vt_vault_store self) (vt_group_id self).
Definition commit_staged_invalidation (self : VaultTransactions) : IO unit :=
  commit_staged_delete (vt_vault_store self) (vt_group_id self).
End Transactions.

(** ** The preparation of a vault write *)

(** The bytes hold a record of the group that opens to the payload as JSON gives it
    back. *)
Definition opens_to `{AE : Aead, SP : Serde VaultPayload, JF : JsonF64} (group_id : Uuid) (b dek : bytes)
    (payload : VaultPayload) : Prop :=
  exists r, decode_record b = Ok r /\ vh_group_id (vr_header r) = group_id /\ gives_reread (open_record r dek) payload.

(** A vault that opens, opens to what JSON gives back. *)
Lemma opens_to_reread `{AE : Aead, SP : Serde VaultPayload, JF : JsonF64} group_id b dek n q cookies :
  opens_to group_id b dek (mkPayload n q cookies) -> opens_as group_id b dek ->
  exists r kept, reread_cookies cookies = Some kept /\ decode_record b = Ok r /\ open_record r dek = Ok (mkPayload n q kept).
Proof.
  intros (r & Hr & _ & Ho) (r' & p & Hr' & _ & Hp). rewrite Hr in Hr'. injection Hr' as <-.
  unfold gives_reread in Ho. destruct (reread_payload _) as [p'|] eqn:Hread; [|destruct Ho as [e He]; by rewrite He in Hp].
  apply reread_payload_cookies in Hread as [Hread Hp']. exists r, (pl_cookies p'). by rewrite <- Hp'.
Qed.

Section Prepare.
Context `{UT : UuidText, SH : Sha256, AE : Aead, AL : !AeadLaws, SP : Serde VaultPayload,
  JF : JsonF64, PL : !PayloadLaws, KB : KekBackend, KL : !KekLaws}.

(** What a prepared write says about the vault it is to replace, of which the
    preparation saw [seen]. *)
Record prepared_seeing (seen : option bytes) (tx : VaultTransactions) (w : World) (p : PreparedVaultWrite) : Prop := {
  pf_group : pv_group_id p = vt_group_id tx;
  pf_target : pv_target_digest p = sha256 (pv_bytes p);
  pf_previous : pv_previous_digest p = sha256 <$> seen;
  pf_unchanged : pv_commit_required p = false -> file_at w (vault_path tx) = Some (pv_bytes p);
}.
Definition prepared_for (tx : VaultTransactions) (w : World) : PreparedVaultWrite -> Prop :=
  prepared_seeing (file_at w (vault_path tx)) tx w.

(** The prepared content, from the vault's content: the unchanged bytes for an
    empty snapshot, and otherwise a record that opens to the cookies under the
    next vault sequence. *)
Definition prepared_content (tx : VaultTransactions) (vault : option bytes) (cookies : list CookieRecord)
    (p : PreparedVaultWrite) : Prop :=
  match vault with
  | Some old => exists r previous, decode_record old = Ok r /\ open_record r (pv_dek p) = Ok previous /\
      ((cookies = [] /\ pv_commit_required p = false /\ pv_bytes p = old /\
        pv_vault_sequence p = pl_vault_sequence previous) \/
       (cookies <> [] /\ pv_commit_required p = true /\
        pv_vault_sequence p = pl_vault_sequence previous + 1 /\ pv_vault_sequence p <= u64_max /\
        opens_to (vt_group_id tx) (pv_bytes p) (pv_dek p)
          (mkPayload PAYLOAD_SCHEMA_VERSION (pv_vault_sequence p) cookies)))
  | None => cookies <> [] /\ pv_commit_required p = true /\ pv_vault_sequence p = 1 /\
      opens_to (vt_group_id tx) (pv_bytes p) (pv_dek p) (mkPayload PAYLOAD_SCHEMA_VERSION 1 cookies)
  end.

(** What was prepared and verified opens, to the cookies as JSON gives them back. *)
Lemma prepared_content_kept tx vault cookies p :
  prepared_content tx vault cookies p -> (pv_commit_required p = true -> opens_as (vt_group_id tx) (pv_bytes p) (pv_dek p)) ->
  exists kept, reread_cookies cookies = Some kept /\
    (cookies <> [] -> exists r, decode_record (pv_bytes p) = Ok r /\
       open_record r (pv_dek p) = Ok (mkPayload PAYLOAD_SCHEMA_VERSION (pv_vault_sequence p) kept)).
Proof using Type.
  intros Hc Hw.
  assert (Hcase : cookies = [] \/ (pv_commit_required p = true /\
    opens_to (vt_group_id tx) (pv_bytes p) (pv_dek p) (mkPayload PAYLOAD_SCHEMA_VERSION (pv_vault_sequence p) cookies))).
  { destruct vault as [old|]; cbn in Hc; [|destruct Hc as (_ & Hr & -> & Ho); by right].
    destruct Hc as (r & previous & _ & _ & [(-> & _)|(_ & Hr & _ & _ & Ho)]); [by left|by right]. }
  destruct Hcase as [->|[Hr Ho]]; [by exists []|].
  destruct (opens_to_reread _ _ _ _ _ _ Ho (Hw Hr)) as (r & kept & Hk & Hd & Hopen). eauto.
Qed.

(** Sealing and encoding a payload yields bytes that open to it. *)
Lemma wp_seal_encode {B} group_id kek wrapped dek payload (f : bytes -> B) (Q : B -> unit -> World -> Prop)
    (E : FcpError -> unit -> World -> Prop) (C : World -> Prop) w :
  group_id < 2 ^ 128 -> len kek = 16 ->
  (forall b, opens_to group_id b dek payload -> Q (f b) tt (tick w)) ->
  (forall e w', same_files w w' -> E e tt w') -> C w ->
  wp (record ← seal group_id kek wrapped dek payload; b ← lift (encode_record record); mret (f b)) Q E C tt w.
Proof using AL PL.
  intros Hg Hk HQ HE HC. apply wp_bind, wp_seal; [done|done| |intros; apply HE..|done]; [|auto with vault..].
  intros r Hrg _ _ Hw Hv Ho. apply wp_bind, wp_lift. rewrite (validate_record_encode _ Hv). apply wp_ret, HQ.
  exists r. split_and!; [|done..]. apply decode_encode_record; [done|by apply validate_record_encode].
Qed.

Lemma wp_prepare_after_snapshot tx cookies (Q : PreparedVaultWrite -> unit -> World -> Prop)
    (E : FcpError -> unit -> World -> Prop) (C : World -> Prop) w :
  vt_group_id tx < 2 ^ 128 ->
  (forall p w', agree_off (kek_files (vt_kek tx)) w w' -> prepared_seeing (seen_file w (vault_path tx)) tx w p ->
     prepared_content tx (seen_file w (vault_path tx)) cookies p -> Q p tt w') ->
  (forall e w', agree_off (kek_files (vt_kek tx)) w w' -> E e tt w') ->
  (forall w', agree_off (kek_files (vt_kek tx)) w w' -> C w') ->
  wp (prepare_after_snapshot tx cookies) Q E C tt w.
Proof using AL PL KL.
  intros Hg HQ HE HC. unfold prepare_after_snapshot.
  assert (Hticks : forall w', same_files w w' -> agree_off (kek_files (vt_kek tx)) w w').
  { intros w'. by apply same_files_off. }
  apply wp_bind, wp_fs_exists_seen; [|by apply HC, Hticks]. intros [] Hseen; fold (vault_path tx) in Hseen.
  - apply wp_bind, wp_fs_read; [|by intros; apply HE, Hticks|by apply HE, Hticks|by apply HC, Hticks].
    intros old Hold. change (file_at w (vault_path tx) = Some old) in Hold. rewrite Hold in Hseen.
    apply wp_bind, wp_lift. destruct (decode_record old) as [r|] eqn:Hr; [|by apply HE, Hticks].
    apply wp_bind. eapply wp_frame_call; [apply kek_unwrap_frame|by apply Hticks| |done|done].
    intros dek w1 Ha1. apply wp_bind, wp_lift. destruct (open_record r dek) as [prev|] eqn:Hprev; [|by apply HE].
    destruct (bool_decide (cookies = [])) eqn:Hc; [apply bool_decide_eq_true in Hc|apply bool_decide_eq_false in Hc].
    + apply wp_ret, HQ; [done|by split; cbn; rewrite ?Hseen|]. rewrite Hseen. exists r, prev. split_and!; [done..|by left].
    + apply wp_bind, wp_ok_or_throw. destruct (checked_add _ _ _) as [sq|] eqn:Hsq; [|by apply HE].
      apply checked_add_Some in Hsq as [-> Hle].
      apply wp_seal_encode; [done|by apply encode_decode_record in Hr as [_ Hw]; apply rw_kek| |by intros; eapply HE, same_files_off|by apply HC].
      intros b Hb. apply HQ; [done|by split; cbn; rewrite ?Hseen|]. rewrite Hseen.
      exists r, prev. split_and!; [done..|by right].
  - apply wp_bind, wp_guard_not. destruct (bool_decide (cookies = [])) eqn:Hc; [by apply HE, Hticks|].
    apply bool_decide_eq_false in Hc.
    apply wp_bind. eapply wp_frame_call; [apply kek_ensure_frame|by apply Hticks| |done|done]. intros _ w1 Ha1.
    apply wp_bind. unfold generate_dek, fill_random, wp at 1.
    destruct (env_fault _ _); cbn [outcome_sat]; [|by apply HE|by apply HC]. fold (tick w1).
    apply wp_bind. eapply wp_frame_call; [apply kek_wrap_frame|by apply agree_off_tick| |done|done]. intros wrapped w2 Ha2.
    apply wp_seal_encode; [done|done| |by intros; eapply HE, same_files_off|by apply HC].
    intros b Hb. apply HQ; [done|by split; cbn; rewrite ?Hseen|]. by rewrite Hseen.
Qed.
End Prepare.

(** ** Properties *)

Section TransactionProperties.
Context `{UT : UuidText, SH : Sha256, AE : Aead, AL : !AeadLaws, SP : Serde VaultPayload,
  JF : JsonF64, PL : !PayloadLaws, KB : KekBackend, KL : !KekLaws}.

(** Preparing a vault write: the vault is the file, or none where the file is not seen
    ([seen_file]: the metadata call fails). A prepared write names the digest of the
    vault's present content as the previous one and the digest of its own bytes as the
    target; for an empty snapshot it keeps the bytes and the sequence, and otherwise its
    bytes decode to a record of the group that opens under the prepared key to the
    cookies as JSON gives them back, with the sequence one above the vault's (1 when
    there is none). The preparation writes no file but the key-encryption key's. *)
Theorem prepare_after_snapshot_next tx cookies w :
  vt_group_id tx < 2 ^ 128 ->
  wp (prepare_after_snapshot tx cookies)
     (fun p _ w' => agree_off (kek_files (vt_kek tx)) w w' /\ prepared_seeing (seen_file w (vault_path tx)) tx w p /\
        prepared_content tx (seen_file w (vault_path tx)) cookies p)
     (fun _ _ w' => agree_off (kek_files (vt_kek tx)) w w')
     (fun w' => agree_off (kek_files (vt_kek tx)) w w') tt w.
Proof using AL PL KL. intros Hg. apply wp_prepare_after_snapshot; auto. Qed.

(** A failing metadata call makes an existing vault look absent: the write is
    then prepared as the first of the group. Whatever the vault file holds, the
    prepared record has sequence 1 and no previous digest. *)
Theorem vault_restarts_on_metadata_error tx cookies n w :
  vt_group_id tx < 2 ^ 128 -> env_fault (w_env w) (w_step w) = IoFault n ->
  wp (prepare_after_snapshot tx cookies)
     (fun p _ w' => pv_previous_digest p = None /\ pv_vault_sequence p = 1 /\ pv_commit_required p = true /\
        opens_to (vt_group_id tx) (pv_bytes p) (pv_dek p) (mkPayload PAYLOAD_SCHEMA_VERSION 1 cookies) /\
        agree_off (kek_files (vt_kek tx)) w w')
     (fun _ _ w' => agree_off (kek_files (vt_kek tx)) w w')
     (fun w' => agree_off (kek_files (vt_kek tx)) w w') tt w.
Proof using AL PL KL.
  intros Hg Hf. unfold prepare_after_snapshot.
  apply wp_bind. unfold wp at 1, fs_exists, io_step, mbind, M_bind. rewrite Hf. cbn.
  assert (Ht : agree_off (kek_files (vt_kek tx)) w (tick w)) by done.
  apply wp_bind, wp_guard_not. destruct (bool_decide (cookies = [])); [done|].
  apply wp_bind. eapply wp_frame_call; [apply kek_ensure_frame|exact Ht| |done|done]. intros _ w1 Ha1.
  apply wp_bind. unfold generate_dek, fill_random, wp at 1.
  destruct (env_fault (w_env w1) _); cbn [outcome_sat]; [|done|done]. fold (tick w1).
  apply wp_bind. eapply wp_frame_call; [apply kek_wrap_frame|by apply agree_off_tick| |done|done]. intros wrapped w2 Ha2.
  apply wp_seal_encode; [done|done| |by intros; eapply same_files_off|done]. auto.
Qed.

(** The reading of a vault, on every branch. *)
Lemma wp_read_for_inject tx authorization w :
  wp (read_for_inject tx authorization)
     (fun payload _ w' => cc_account_group_id authorization = vt_group_id tx /\
        cc_operation authorization = CapOp.Inject /\
        agree_off (kek_files (vt_kek tx)) w w' /\
        exists b r dek, file_at w (vault_path tx) = Some b /\ decode_record b = Ok r /\
          open_record r dek = Ok payload)
     (fun _ _ w' => agree_off (kek_files (vt_kek tx)) w w' /\
        (cc_account_group_id authorization <> vt_group_id tx \/ cc_operation authorization <> CapOp.Inject -> w' = w))
     (fun w' => agree_off (kek_files (vt_kek tx)) w w' /\
        cc_account_group_id authorization = vt_group_id tx /\ cc_operation authorization = CapOp.Inject) tt w.
Proof using KL.
  unfold read_for_inject, require_authorization. apply wp_bind, wp_lift.
  unfold mbind, result_bind, guard_err. destruct (N.eqb_spec (cc_account_group_id authorization) (vt_group_id tx)) as [Hg|];
    cbn [negb]; [|split; [apply agree_off_refl|done]].
  destruct (bool_decide (cc_operation authorization <> CapOp.Inject)) eqn:Hop; [by split; [apply agree_off_refl|]|].
  apply bool_decide_eq_false, dec_stable in Hop. 
  assert (Hno : ~ (cc_account_group_id authorization <> vt_group_id tx \/ cc_operation authorization <> CapOp.Inject)) by naive_solver.
  assert (Ht : agree_off (kek_files (vt_kek tx)) w (tick w)) by done.
  apply wp_bind. unfold read_vault. apply wp_bind, wp_fs_read; [|done..].
  intros b Hb. apply wp_lift. destruct (decode_record b) as [r|] eqn:Hr; [|done].
  apply wp_bind. eapply wp_frame_call; [apply kek_unwrap_frame|exact Ht| |done|done]. intros dek w1 Ha1.
  apply wp_lift. destruct (open_record r dek) eqn:Hopen; [|done]. split_and!; [done..|]. by exists b, r, dek.
Qed.

(** The vault is opened for injection only with a consumed capability of this
    group for the inject operation: with any other token [read_for_inject] fails
    before it touches a file or the key-encryption key, and otherwise what it
    returns is the content of the group's vault under the unwrapped key; it
    writes no file but the key-encryption key's. *)
Theorem read_for_inject_authorized tx authorization w :
  wp (read_for_inject tx authorization)
     (fun payload _ w' => cc_account_group_id authorization = vt_group_id tx /\
        cc_operation authorization = CapOp.Inject /\
        agree_off (kek_files (vt_kek tx)) w w' /\
        exists b r dek, file_at w (vault_path tx) = Some b /\ decode_record b = Ok r /\
          open_record r dek = Ok payload)
     (fun _ _ w' => agree_off (kek_files (vt_kek tx)) w w' /\
        (cc_account_group_id authorization <> vt_group_id tx \/ cc_operation authorization <> CapOp.Inject -> w' = w))
     (fun w' => agree_off (kek_files (vt_kek tx)) w w' /\
        cc_account_group_id authorization = vt_group_id tx /\ cc_operation authorization = CapOp.Inject) tt w.
Proof using KL. apply wp_read_for_inject. Qed.
End TransactionProperties.

Section TransactionExamples.
#[local] Existing Instances toy_uuid_text toy_sha256 toy_aead toy_aead_laws toy_f64 toy_payload toy_payload_laws toy_kek toy_kek_laws.

Definition example_tx : VaultTransactions :=
  mkTransactions 77 ["data"; "kek-key.json"] ["data"; "vault"; "groups"] (mkLedger 77 0 0 [] None)
    ["data"; "leases"; "capabilities"; "77.json"].

Lemma prepare_after_snapshot_next_witness :
  wp (prepare_after_snapshot example_tx [example_cookie])
     (fun p _ w' => agree_off (kek_files ["data"; "kek-key.json"]) quiet_world w' /\ prepared_seeing None example_tx quiet_world p /\
        prepared_content example_tx None [example_cookie] p)
     (fun _ _ w' => agree_off (kek_files ["data"; "kek-key.json"]) quiet_world w')
     (fun w' => agree_off (kek_files ["data"; "kek-key.json"]) quiet_world w') tt quiet_world.
Proof. apply (prepare_after_snapshot_next example_tx [example_cookie] quiet_world); reflexivity. Defined.

(** The first metadata call of this world fails. *)
Definition unreadable_world : World :=
  mkWorld ∅ 0 (mkEnv (fun n => match n with O => IoFault 0 | _ => NoFault end) (fun _ => 7) (fun _ => 0)).

Lemma vault_restarts_on_metadata_error_witness :
  wp (prepare_after_snapshot example_tx [example_cookie])
     (fun p _ w' => pv_previous_digest p = None /\ pv_vault_sequence p = 1 /\ pv_commit_required p = true /\
        opens_to 77 (pv_bytes p) (pv_dek p) (mkPayload PAYLOAD_SCHEMA_VERSION 1 [example_cookie]) /\
        agree_off (kek_files ["data"; "kek-key.json"]) unreadable_world w')
     (fun _ _ w' => agree_off (kek_files ["data"; "kek-key.json"]) unreadable_world w')
     (fun w' => agree_off (kek_files ["data"; "kek-key.json"]) unreadable_world w') tt unreadable_world.
Proof. apply (vault_restarts_on_metadata_error example_tx [example_cookie] 0 unreadable_world); reflexivity. Defined.

Lemma read_for_inject_authorized_witness :
  wp (read_for_inject example_tx (mkConsumed 77 CapOp.Inject 3))
     (fun payload _ w' => 77 = 77 /\ CapOp.Inject = CapOp.Inject /\
        agree_off (kek_files ["data"; "kek-key.json"]) quiet_world w' /\
        exists b r dek, file_at quiet_world (vault_path example_tx) = Some b /\ decode_record b = Ok r /\
          open_record r dek = Ok payload)
     (fun _ _ w' => agree_off (kek_files ["data"; "kek-key.json"]) quiet_world w' /\
        (77 <> 77 \/ CapOp.Inject <> CapOp.Inject -> w' = quiet_world))
     (fun w' => agree_off (kek_files ["data"; "kek-key.json"]) quiet_world w' /\ 77 = 77 /\ CapOp.Inject = CapOp.Inject)
     tt quiet_world.
Proof. apply (read_for_inject_authorized example_tx (mkConsumed 77 CapOp.Inject 3) quiet_world). Defined.
End TransactionExamples.
