(* ===== verification/Paths.v ===== *)
(** * paths.rs: where the host keeps its files

    The layout of a profile's data directory, the discovery of the directory and
    the one-time migrations from older layouts.  The environment variables are
    arguments; an empty path stands for an empty value. *)

From S2P Require Import Prelude World External AtomicFile.

Record DataPaths := mkPaths {
  dp_root : Path;
  dp_vault_groups : Path;
  dp_lease_groups : Path;
  dp_capability_ledgers : Path;
  dp_legacy_lease_metadata : Path;
  dp_legacy_capability_ledger : Path;
  dp_account_groups_config : Path;
  dp_audit_directory : Path;
  dp_hello_credential : Path;
  dp_kek_key : Path;
  dp_operation_journals : Path;
  dp_snapshot_integrity_key : Path;
}.

(** [DataPaths::from_root]. *)
Definition from_root (root : Path) : DataPaths := {|
  dp_root := root;
  dp_vault_groups := path_join (path_join root "vault") "groups";
  dp_lease_groups := path_join (path_join root "leases") "groups";
  dp_capability_ledgers := path_join (path_join root "leases") "capabilities";
  dp_legacy_lease_metadata := path_join (path_join root "leases") "mvp-group.json";
  dp_legacy_capability_ledger := path_join (path_join root "leases") "capability-ledger.json";
  dp_account_groups_config := path_join (path_join root "config") "account-groups.json";
  dp_audit_directory := path_join root "audit";
  dp_hello_credential := path_join root "hello-credential.json";
  dp_kek_key := path_join root "kek-key.json";
  dp_operation_journals := path_join (path_join root "operations") "groups";
  dp_snapshot_integrity_key := path_join (path_join root "operations") "snapshot-key.dpapi";
|}.

Section Paths.
Context `{UT : UuidText}.

(** [lease_path], [capability_path], [operation_journal_path]. *)
Definition lease_path (self : DataPaths) (group_id : Uuid) : Path :=
  path_join (dp_lease_groups self) (uuid_to_string group_id +:+ ".json").
Definition capability_path (self : DataPaths) (group_id : Uuid) : Path :=
  path_join (dp_capability_ledgers self) (uuid_to_string group_id +:+ ".json").
Definition operation_journal_path (self : DataPaths) (group_id : Uuid) : Path :=
  path_join (dp_operation_journals self) (uuid_to_string group_id +:+ ".json").

(** [operation_journals_exist]: entries that cannot be read are skipped. *)
Fixpoint any_json_entry (entries : list Path) : IO bool :=
  match entries with
  | [] => mret false
  | p :: rest =>
      entry ← try_ (fs_dir_entry p);
      if is_ok entry && match path_file_name p with Some name => has_json_extension name | None => false end
      then mret true
      else any_json_entry rest
  end.

Definition operation_journals_exist (self : DataPaths) : IO bool :=
  present ← fs_exists (dp_operation_journals self);
  if negb present then mret false
  else
    entries ← fs_read_dir (dp_operation_journals self);
    any_json_entry entries.

Definition remove_ignoring_absence (p : Path) : IO unit :=
  removed ← try_ (fs_remove_file p);
  match removed with
  | Ok _ => mret tt
  | Err (Io NotFound) => mret tt
  | Err e => throw e
  end.

(** [remove_group_projections]. *)
Definition remove_group_projections (self : DataPaths) (group_id : Uuid) : IO unit :=
  for_each [lease_path self group_id; capability_path self group_id; operation_journal_path self group_id]
    remove_ignoring_absence.

(** [migrate_one]. *)
Definition migrate_one (legacy target : Path) : IO unit :=
  present ← fs_exists legacy;
  skip ← (if negb present then mret true else fs_exists target);
  if (skip : bool) then mret tt
  else
    _ ← match path_parent target with Some parent => fs_create_dir_all parent | None => mret tt end;
    fs_rename_any legacy target.

(** [migrate_phase5_group]. *)
Definition migrate_phase5_group (self : DataPaths) (group_id : Uuid) : IO unit :=
  _ ← migrate_one (dp_legacy_lease_metadata self) (lease_path self group_id);
  migrate_one (dp_legacy_capability_ledger self) (capability_path self group_id).

(** [profiles.file_name() == "profiles"], on the parent of the root. *)
Definition profiles_directory (self : DataPaths) : FcpResult Path :=
  profiles ← ok_or (path_parent (dp_root self)) (Protocol "profile data root has no profiles directory");
  _ ← guard_err (bool_decide (path_file_name profiles <> Some "profiles"%string))
        (Protocol "profile data root is outside the profiles directory");
  Ok profiles.

(** [sibling_profile], [sibling_profile_roots]. *)
Definition sibling_profile (self : DataPaths) (profile_id : Uuid) : FcpResult DataPaths :=
  profiles ← profiles_directory self;
  Ok (from_root (path_join profiles (uuid_to_string profile_id))).

Fixpoint collect_profile_roots (entries : list Path) : IO (list (Uuid * Path)) :=
  match entries with
  | [] => mret []
  | p :: rest =>
      _ ← fs_dir_entry p;
      is_dir ← fs_is_dir p;
      tail ← collect_profile_roots rest;
      mret (if negb is_dir then tail
            else match path_file_name p with
                 | Some name =>
                     match uuid_parse name with Some profile_id => (profile_id, p) :: tail | None => tail end
                 | None => tail
                 end)
  end.

Definition sibling_profile_roots (self : DataPaths) : IO (list (Uuid * Path)) :=
  profiles ← lift (profiles_directory self);
  present ← fs_exists profiles;
  if negb present then mret []
  else
    entries ← fs_read_dir profiles;
    collect_profile_roots entries.

(** [platform_root] (Unix) and [discover_root]. *)
Definition platform_root (xdg_data_home home : option Path) : FcpResult Path :=
  base ← match xdg_data_home with
         | Some (c :: p) => Ok (c :: p)
         | _ =>
             home ← ok_or home (Io NotFound);
             Ok (path_join (path_join home ".local") "share")
         end;
  Ok (path_join base "fursoy-vault").

Definition discover_root (fcp_data_dir xdg_data_home home : option Path) : FcpResult Path :=
  match fcp_data_dir with
  | Some override_path => Ok override_path
  | None => platform_root xdg_data_home home
  end.

(** [migrate_legacy_profile].  The owner file is ASCII text; [trim] removes the
    white space around it. *)
Definition is_space (c : Ascii.ascii) : bool :=
  let n := Ascii.N_of_ascii c in ((9 <=? n) && (n <=? 13)) || (n =? 32).

Fixpoint trim_start (s : string) : string :=
  match s with
  | String c s' => if is_space c then trim_start s' else s
  | EmptyString => EmptyString
  end.

Fixpoint string_rev_append (s acc : string) : string :=
  match s with EmptyString => acc | String c s' => string_rev_append s' (String c acc) end.
Definition string_rev (s : string) : string := string_rev_append s EmptyString.
Definition trim (s : string) : string := string_rev (trim_start (string_rev (trim_start s))).

Definition legacy_items : list string := ["vault"; "leases"; "config"; "audit"]%string.

Fixpoint any_exists (paths : list Path) : IO bool :=
  match paths with
  | [] => mret false
  | p :: rest => present ← fs_exists p; if (present : bool) then mret true else any_exists rest
  end.

Definition claim_migration (owner_path : Path) (profile_id : Uuid) : IO string :=
  created ← try_ (fs_create_new owner_path);
  match created with
  | Ok _ =>
      let value := uuid_to_string profile_id in
      _ ← fs_write_all owner_path (str_bytes value);
      _ ← fs_sync owner_path;
      mret value
  | Err (Io AlreadyExists) =>
      b ← fs_read owner_path;
      _ ← guard_not (negb (is_utf8 b)) (Io InvalidData);
      mret (trim (string_of_list_byte b))
  | Err e => throw e
  end.

Definition migrate_legacy_profile (base target : Path) (profile_id : Uuid) : IO unit :=
  has_legacy ← any_exists ((path_join base <$> legacy_items) ++ [path_join base "hello-credential.json"]);
  if negb has_legacy then mret tt
  else
    _ ← fs_create_dir_all (path_join base "profiles");
    owner ← claim_migration (path_join base "profile-migration-owner") profile_id;
    if negb (String.eqb owner (uuid_to_string profile_id)) then mret tt
    else
      _ ← for_each legacy_items (fun name => migrate_one (path_join base name) (path_join target name));
      migrate_one (path_join base "hello-credential.json") (path_join target "hello-credential.json").

(** [DataPaths::discover], [discover_profile]; [root] is [discover_root]'s
    answer. *)
Definition discover (root : FcpResult Path) : FcpResult DataPaths :=
  root ← root; Ok (from_root root).

Definition discover_profile (root : FcpResult Path) (profile_id : Uuid) : IO DataPaths :=
  base ← lift root;
  let root := path_join (path_join base "profiles") (uuid_to_string profile_id) in
  _ ← migrate_legacy_profile base root profile_id;
  mret (from_root root).

(** [discover_for_export]. *)
Fixpoint collect_profiles (entries : list Path) : IO (list Path) :=
  match entries with
  | [] => mret []
  | p :: rest =>
      _ ← fs_dir_entry p;
      is_dir ← fs_is_dir p;
      tail ← collect_profiles rest;
      mret (if is_dir && match path_file_name p with Some name => bool_decide (is_Some (uuid_parse name)) | None => false end
            then p :: tail else tail)
  end.

Definition discover_for_export (root : FcpResult Path) (profile_id : option Uuid) : IO DataPaths :=
  base ← lift root;
  match profile_id with
  | Some profile_id =>
      mret (from_root (path_join (path_join base "profiles") (uuid_to_string profile_id)))
  | None =>
      let profiles_root := path_join base "profiles" in
      present ← fs_exists profiles_root;
      profiles ← (if (present : bool)
                  then entries ← fs_read_dir profiles_root; collect_profiles entries
                  else mret []);
      match profiles with
      | [] => mret (from_root base)
      | [profile] => mret (from_root profile)
      | _ => throw (Protocol "multiple browser profiles exist; select one with --profile")
      end
  end.
End Paths.
