(* ===== verification/OpModel.v ===== *)
(** * operation/model.rs: the operation journal's data and its validity

    Phases and their legal transitions, the request and its fingerprint, the
    snapshot binding, and the validation every journal passes before it is
    written and after it is read. *)

From Stdlib Require Import Strings.Ascii Sorting.Sorted.
From S2P Require Import Prelude External Examples.

Definition OPERATION_JOURNAL_VERSION : N := 1.

Module Kind.
Inductive OperationKind := Enrollment | Eviction | Reconciliation.
End Kind.
Abbreviation OperationKind := Kind.OperationKind.

#[export] Instance operation_kind_eq_dec : EqDecision OperationKind.
Proof. solve_decision. Defined.

Module Phase.
Inductive OperationPhase :=
  | NotCommitted
  | DurabilityUnknown
  | Committed
  | BrowserRemovalPending
  | Completed
  | Aborted
  | ReconciliationRequired.
End Phase.
Abbreviation OperationPhase := Phase.OperationPhase.

#[export] Instance operation_phase_eq_dec : EqDecision OperationPhase.
Proof. solve_decision. Defined.

Definition can_transition_to (self next : OperationPhase) : bool :=
  match self, next with
  | Phase.NotCommitted,
      (Phase.DurabilityUnknown | Phase.Committed | Phase.Aborted | Phase.ReconciliationRequired) => true
  | Phase.DurabilityUnknown,
      (Phase.NotCommitted | Phase.Committed | Phase.ReconciliationRequired) => true
  | Phase.Committed, (Phase.BrowserRemovalPending | Phase.ReconciliationRequired) => true
  | Phase.BrowserRemovalPending, (Phase.Completed | Phase.ReconciliationRequired) => true
  | _, _ => false
  end.

Definition is_terminal (self : OperationPhase) : bool :=
  match self with
  | Phase.Completed | Phase.Aborted | Phase.ReconciliationRequired => true
  | _ => false
  end.

(** [Digest32]: the 32 bytes of a digest. *)
Abbreviation Digest32 := bytes.
Definition Digest32_sha256 `{Sha256} (b : bytes) : Digest32 := sha256 b.

Record OperationRequest := mkRequest {
  req_operation_id : Uuid;
  req_attempt_id : option Uuid;
  req_kind : OperationKind;
  req_lease_id : option Uuid;
  req_reason_code : string;
  req_base_vault_sequence : N;
}.

Record SnapshotBinding := mkBinding {
  sb_snapshot_tag : Digest32;
  sb_previous_vault_digest : option Digest32;
  sb_target_vault_digest : Digest32;
  sb_target_vault_sequence : N;
  sb_cookie_count : N;
  sb_aggregate_bytes : N;
}.

Record JournalOperation := mkOperation {
  operation_id : Uuid;
  attempt_id : option Uuid;
  sequence : N;
  request_fingerprint : Digest32;
  op_kind : OperationKind;
  op_lease_id : option Uuid;
  reason_code : string;
  base_vault_sequence : N;
  phase : OperationPhase;
  snapshot : option SnapshotBinding;
}.

Record OperationJournal := mkJournal {
  version : N;
  account_group_id : Uuid;
  sequence_high_water : N;
  operations : list JournalOperation;
}.

(** The private struct that [fingerprint] serializes. *)
Record BoundRequest := mkBoundRequest {
  br_domain : string;
  br_account_group_id : Uuid;
  br_request : OperationRequest;
}.

#[export] Instance operation_request_eq_dec : EqDecision OperationRequest.
Proof. solve_decision. Defined.
#[export] Instance snapshot_binding_eq_dec : EqDecision SnapshotBinding.
Proof. solve_decision. Defined.
#[export] Instance journal_operation_eq_dec : EqDecision JournalOperation.
Proof. solve_decision. Defined.
#[export] Instance operation_journal_eq_dec : EqDecision OperationJournal.
Proof. solve_decision. Defined.

Definition reason_code_char (c : Ascii.ascii) : bool :=
  is_ascii_lowercase c || is_ascii_digit c || Ascii.eqb c "_"%char.

(** [OperationRequest::validate]. *)
Definition validate_request (self : OperationRequest) : FcpResult unit :=
  _ ← guard_err (uuid_is_nil (req_operation_id self))
        (Protocol "operation id must not be nil");
  _ ← guard_err (match req_attempt_id self with Some v => uuid_is_nil v | None => false end)
        (Protocol "operation attempt id must not be nil");
  guard_err
    ((str_len (req_reason_code self) =? 0)
     || (64 <? str_len (req_reason_code self))
     || negb (str_forallb reason_code_char (req_reason_code self)))
    (Protocol "operation reason code is not canonical").

Section Validation.
Context `{SH : Sha256, JB : Serde BoundRequest}.

(** [OperationRequest::fingerprint]. *)
Definition fingerprint (self : OperationRequest) (group : Uuid) : FcpResult Digest32 :=
  _ ← validate_request self;
  encoded ← to_vec (mkBoundRequest "FCP-OP-REQUEST-1" group self);
  Ok (Digest32_sha256 encoded).

(** [OperationJournal::empty]. *)
Definition empty_journal (group : Uuid) : OperationJournal :=
  mkJournal OPERATION_JOURNAL_VERSION group 0 [].

(** The request a stored operation was created from. *)
Definition request_of (operation : JournalOperation) : OperationRequest :=
  mkRequest (operation_id operation) (attempt_id operation) (op_kind operation)
    (op_lease_id operation) (reason_code operation) (base_vault_sequence operation).

Definition phase_needs_snapshot (p : OperationPhase) : bool :=
  match p with
  | Phase.Committed | Phase.BrowserRemovalPending | Phase.Completed => true
  | _ => false
  end.

(** The loop of [OperationJournal::validate]: returns [previous_sequence]. *)
Fixpoint validate_operations (expected_group high_water : N) (ops : list JournalOperation)
    (previous_sequence : N) (operation_ids : gset N) : FcpResult N :=
  match ops with
  | [] => Ok previous_sequence
  | operation :: rest =>
      _ ← guard_err
            ((sequence operation <=? previous_sequence)
             || (high_water <? sequence operation)
             || uuid_is_nil (operation_id operation)
             || bool_decide (operation_id operation ∈ operation_ids))
            (Format "operation journal sequence is invalid");
      actual ← fingerprint (request_of operation) expected_group;
      _ ← guard_err (bool_decide (actual <> request_fingerprint operation))
            (Format "operation journal request fingerprint mismatch");
      _ ← guard_err (phase_needs_snapshot (phase operation) && bool_decide (snapshot operation = None))
            (Format "committed operation is missing its snapshot binding");
      validate_operations expected_group high_water rest (sequence operation)
        ({[operation_id operation]} ∪ operation_ids)
  end.

(** [OperationJournal::validate]. *)
Definition validate_journal (self : OperationJournal) (expected_group : Uuid) : FcpResult unit :=
  _ ← guard_err
        (negb (version self =? OPERATION_JOURNAL_VERSION)
         || negb (account_group_id self =? expected_group))
        (Format "operation journal identity or version mismatch");
  previous_sequence ←
    validate_operations expected_group (sequence_high_water self) (operations self) 0 ∅;
  guard_err (negb (previous_sequence =? sequence_high_water self))
    (Format "operation journal high-water mark mismatch").
End Validation.

(** ** What validation means

    The declarative reading of [validate_journal]: sequences increase strictly
    from 0 up to the high-water mark, identifiers are distinct and not nil,
    every stored fingerprint is that of the operation's own request, and a
    committed operation carries its snapshot binding. *)

Section Valid.
Context `{SH : Sha256, JB : Serde BoundRequest}.

Record valid_operation (group : Uuid) (o : JournalOperation) : Prop := {
  vo_not_nil : operation_id o <> 0;
  vo_fingerprint : fingerprint (request_of o) group = Ok (request_fingerprint o);
  vo_snapshot : phase_needs_snapshot (phase o) = true -> is_Some (snapshot o);
}.

Record valid_journal (group : Uuid) (j : OperationJournal) : Prop := {
  vj_version : version j = OPERATION_JOURNAL_VERSION;
  vj_group : account_group_id j = group;
  vj_sorted : Sorted N.lt (0 :: map sequence (operations j));
  vj_high_water : List.last (0 :: map sequence (operations j)) 0 = sequence_high_water j;
  vj_ids : NoDup (map operation_id (operations j));
  vj_operations : Forall (valid_operation group) (operations j);
}.

Lemma validate_operations_ok group high ops prev ids last_sequence :
  validate_operations group high ops prev ids = Ok last_sequence <->
  Sorted N.lt (prev :: map sequence ops) /\
  List.last (prev :: map sequence ops) 0 = last_sequence /\
  NoDup (map operation_id ops) /\
  Forall (fun o => (operation_id o ∉ ids) /\ sequence o <= high /\ valid_operation group o) ops.
Proof.
  revert prev ids; induction ops as [|o ops IH]; intros prev ids.
  - cbn. split.
    + intros [= ->]. repeat split; repeat constructor.
    + by intros (_ & -> & _).
  - cbn [validate_operations map]. split.
    + intros Hv. res_inv Hv. unfold uuid_is_nil in *. bool_to_prop.
      apply IH in Hv as (Hs & Hl & Hnd & Hall).
      assert (Hself : valid_operation group o).
      { split.
        - done.
        - rewrite Hr0. apply dec_stable in Hr1. by subst.
        - intros Hp. rewrite Hp in Hr2. destruct (snapshot o); [done|].
          by destruct Hr2. }
      repeat split.
      * constructor; [exact Hs|]. constructor. lia.
      * exact Hl.
      * constructor; [|exact Hnd]. intros Hin. apply list_elem_of_fmap in Hin as (o' & He & Ho').
        rewrite list.Forall_forall in Hall. apply Hall in Ho' as (Hn & _). set_solver.
      * constructor; [done|]. eapply list.Forall_impl; [exact Hall|].
        cbn. intros o' (Hn & Hq & Hvo). split; [set_solver|done].
    + intros (Hs & Hl & Hnd & Hall).
      apply Sorted_inv in Hs as [Hs Hr]. inversion Hr as [|? ? Hlt]. subst.
      apply NoDup_cons in Hnd as [Hni Hnd]. apply Forall_cons in Hall as [(Hn & Hq & Hvo) Hall].
      destruct Hvo as [Hnil Hfp Hsn].
      unfold mbind, result_bind, guard_err.
      destruct (N.leb_spec (sequence o) prev); [lia|].
      destruct (N.ltb_spec high (sequence o)); [lia|].
      unfold uuid_is_nil. destruct (N.eqb_spec (operation_id o) 0); [done|].
      rewrite bool_decide_false by done. simpl. rewrite Hfp. rewrite bool_decide_false by naive_solver.
      assert (phase_needs_snapshot (phase o) && bool_decide (snapshot o = None) = false) as ->.
      { destruct (phase_needs_snapshot (phase o)); [|done]. destruct Hsn as [x ->]; [done|]. done. }
      apply IH. repeat split; [done..|]. rewrite list.Forall_forall in Hall |- *.
      intros o' Ho'. destruct (Hall o' Ho') as (Hn' & Hq' & Hvo'). split; [|done].
      intros Hin. apply elem_of_union in Hin as [Heq|]; [|done]. apply elem_of_singleton in Heq.
      apply Hni. rewrite <- Heq. by apply list_elem_of_fmap_2.
Qed.

Lemma sorted_le_last prev l x :
  Sorted N.lt (prev :: l) -> x ∈ prev :: l -> x <= List.last (prev :: l) 0.
Proof.
  revert prev x; induction l as [|y l IH]; intros prev x Hs Hx.
  - apply list_elem_of_singleton in Hx as ->. cbn. lia.
  - apply Sorted_inv in Hs as [Hs Hr]. inversion Hr as [|? ? Hlt]; subst.
    change (List.last (prev :: y :: l) 0) with (List.last (y :: l) 0).
    apply elem_of_cons in Hx as [->|Hx]; [|by apply IH].
    transitivity y; [lia|]. apply IH; [done|]. apply elem_of_cons. by left.
Qed.

Lemma validate_journal_valid j group : validate_journal j group = Ok tt <-> valid_journal group j.
Proof.
  unfold validate_journal. split.
  - intros Hv. res_inv Hv. bool_to_prop.
    apply validate_operations_ok in Hr0 as (Hs & Hl & Hnd & Hall).
    split; [done..|by rewrite Hl|done|].
    eapply list.Forall_impl; [exact Hall|]. cbn. tauto.
  - intros [Hver Hg Hs Hl Hnd Hall]. unfold mbind, result_bind, guard_err. rewrite Hver, Hg, !N.eqb_refl. simpl.
    assert (validate_operations group (sequence_high_water j) (operations j) 0 ∅ =
      Ok (sequence_high_water j)) as ->.
    { apply validate_operations_ok. repeat split; [done..|].
      rewrite list.Forall_forall in Hall |- *. intros o Ho. split; [set_solver|]. split; [|by apply Hall].
      rewrite <- Hl. apply sorted_le_last; [done|]. apply elem_of_cons. right.
      by apply list_elem_of_fmap_2. }
    by rewrite N.eqb_refl.
Qed.
End Valid.

(** ** Properties *)

(** [OperationJournal::validate] accepts exactly the well-formed journals:
    right version and group, strictly increasing sequences that end at the
    high-water mark, distinct non-nil identifiers, every stored fingerprint equal
    to that of the operation's own request, and a snapshot binding in every
    committed operation. *)
Theorem validate_journal_exact `{SH : Sha256, JB : Serde BoundRequest} j group :
  validate_journal j group = Ok tt <-> valid_journal group j.
Proof. apply validate_journal_valid. Qed.

(** ** Codecs of the journal types, for the examples *)

Definition codec_kind : Codec OperationKind.
Proof.
  refine (codec_iso (fun k => match k with Kind.Enrollment => 0 | Kind.Eviction => 1 | Kind.Reconciliation => 2 end)
    (fun n => match n with 0 => Kind.Enrollment | 1 => Kind.Eviction | _ => Kind.Reconciliation end) _ codec_N).
  by intros [].
Defined.

Definition codec_phase : Codec OperationPhase.
Proof.
  refine (codec_iso
    (fun p => match p with
      | Phase.NotCommitted => 0 | Phase.DurabilityUnknown => 1 | Phase.Committed => 2
      | Phase.BrowserRemovalPending => 3 | Phase.Completed => 4 | Phase.Aborted => 5
      | Phase.ReconciliationRequired => 6 end)
    (fun n => match n with
      | 0 => Phase.NotCommitted | 1 => Phase.DurabilityUnknown | 2 => Phase.Committed
      | 3 => Phase.BrowserRemovalPending | 4 => Phase.Completed | 5 => Phase.Aborted
      | _ => Phase.ReconciliationRequired end) _ codec_N).
  by intros [].
Defined.

Definition codec_request : Codec OperationRequest.
Proof.
  refine (codec_iso
    (fun r => (req_operation_id r, (req_attempt_id r, (req_kind r, (req_lease_id r, (req_reason_code r, req_base_vault_sequence r))))))
    (fun '(a, (b, (c, (d, (e, f))))) => mkRequest a b c d e f) _
    (codec_pair codec_N (codec_pair (codec_option codec_N) (codec_pair codec_kind
      (codec_pair (codec_option codec_N) (codec_pair codec_string codec_N)))))).
  by intros [].
Defined.

Definition codec_bound_request : Codec BoundRequest.
Proof.
  refine (codec_iso (fun r => (br_domain r, (br_account_group_id r, br_request r)))
    (fun '(a, (b, c)) => mkBoundRequest a b c) _ (codec_pair codec_string (codec_pair codec_N codec_request))).
  by intros [].
Defined.

Definition codec_binding : Codec SnapshotBinding.
Proof.
  refine (codec_iso
    (fun b => (sb_snapshot_tag b, (sb_previous_vault_digest b, (sb_target_vault_digest b,
       (sb_target_vault_sequence b, (sb_cookie_count b, sb_aggregate_bytes b))))))
    (fun '(a, (b, (c, (d, (e, f))))) => mkBinding a b c d e f) _
    (codec_pair codec_bytes (codec_pair (codec_option codec_bytes) (codec_pair codec_bytes
      (codec_pair codec_N (codec_pair codec_N codec_N)))))).
  by intros [].
Defined.

Definition codec_operation : Codec JournalOperation.
Proof.
  refine (codec_iso
    (fun o => (operation_id o, (attempt_id o, (sequence o, (request_fingerprint o, (op_kind o,
       (op_lease_id o, (reason_code o, (base_vault_sequence o, (phase o, snapshot o))))))))))
    (fun '(a, (b, (c, (d, (e, (f, (g, (h, (i, k))))))))) => mkOperation a b c d e f g h i k) _
    (codec_pair codec_N (codec_pair (codec_option codec_N) (codec_pair codec_N (codec_pair codec_bytes
      (codec_pair codec_kind (codec_pair (codec_option codec_N) (codec_pair codec_string
      (codec_pair codec_N (codec_pair codec_phase (codec_option codec_binding))))))))))).
  by intros [].
Defined.

Definition codec_journal : Codec OperationJournal.
Proof.
  refine (codec_iso
    (fun j => (version j, (account_group_id j, (sequence_high_water j, operations j))))
    (fun '(a, (b, (c, d))) => mkJournal a b c d) _
    (codec_pair codec_N (codec_pair codec_N (codec_pair codec_N (codec_list codec_operation))))).
  by intros [].
Defined.

Definition toy_bound_request : Serde BoundRequest := codec_json codec_bound_request.
Definition toy_journal : Serde OperationJournal := codec_json codec_journal.
