(* ===== verification/OpJournal.v ===== *)
(** * operation/journal.rs: the durable operation journal

    The store keeps the journal in memory and rewrites the whole file at each
    change, through the verified durable writer; a write whose durability is
    unknown is classified by reading the file again. *)

From Stdlib Require Import Sorting.Sorted.
From S2P Require Import Prelude World External Examples AtomicFile OpModel.

Inductive BeginResult :=
  | Created (operation : JournalOperation)
  | Duplicate (operation : JournalOperation).

Record OperationJournalStore := mkJournalStore {
  ojs_path : Path;
  ojs_account_group_id : Uuid;
  ojs_journal : OperationJournal;
}.

Definition set_ojs_journal (j : OperationJournal) (s : OperationJournalStore) : OperationJournalStore :=
  mkJournalStore (ojs_path s) (ojs_account_group_id s) j.

Definition with_phase (p : OperationPhase) (o : JournalOperation) : JournalOperation :=
  mkOperation (operation_id o) (attempt_id o) (sequence o) (request_fingerprint o) (op_kind o)
    (op_lease_id o) (reason_code o) (base_vault_sequence o) p (snapshot o).

Definition with_snapshot (b : option SnapshotBinding) (o : JournalOperation) : JournalOperation :=
  mkOperation (operation_id o) (attempt_id o) (sequence o) (request_fingerprint o) (op_kind o)
    (op_lease_id o) (reason_code o) (base_vault_sequence o) (phase o) b.

Definition with_operations (ops : list JournalOperation) (j : OperationJournal) : OperationJournal :=
  mkJournal (version j) (account_group_id j) (sequence_high_water j) ops.

(** [Debug] of the two enums that error messages print. *)
Definition phase_debug (p : OperationPhase) : string :=
  match p with
  | Phase.NotCommitted => "NotCommitted"
  | Phase.DurabilityUnknown => "DurabilityUnknown"
  | Phase.Committed => "Committed"
  | Phase.BrowserRemovalPending => "BrowserRemovalPending"
  | Phase.Completed => "Completed"
  | Phase.Aborted => "Aborted"
  | Phase.ReconciliationRequired => "ReconciliationRequired"
  end.

Definition durable_write_debug (r : DurableWriteResult) : string :=
  match r with
  | DurableWrite.NotCommitted => "NotCommitted"
  | DurableWrite.Committed => "Committed"
  | DurableWrite.DurabilityUnknown => "DurabilityUnknown"
  end.

(** [OperationJournalStore::operation]: the first operation with this id. *)
Definition find_operation (id : Uuid) (j : OperationJournal) : option JournalOperation :=
  List.find (fun operation => operation_id operation =? id) (operations j).

(** [find_mut], and the assignment through the reference it returns. *)
Definition find_mut (j : OperationJournal) (id : Uuid) : FcpResult JournalOperation :=
  ok_or (find_operation id j) (Protocol "unknown operation id").

Fixpoint update_first (id : Uuid) (f : JournalOperation -> JournalOperation)
    (ops : list JournalOperation) : list JournalOperation :=
  match ops with
  | [] => []
  | o :: rest => if operation_id o =? id then f o :: rest else o :: update_first id f rest
  end.

Definition assign (id : Uuid) (f : JournalOperation -> JournalOperation) (j : OperationJournal)
    : OperationJournal :=
  with_operations (update_first id f (operations j)) j.

Section Store.
Context `{SH : Sha256, JB : Serde BoundRequest, JJ : Serde OperationJournal}.

(** [OperationJournalStore::open]. *)
Definition open_journal (path : Path) (group : Uuid) : IO OperationJournalStore :=
  present ← fs_exists path;
  journal ← (if (present : bool)
             then b ← fs_read path; lift (from_slice b)
             else mret (empty_journal group));
  _ ← lift (validate_journal journal group);
  mret (mkJournalStore path group journal).

Definition operation (id : Uuid) : M OperationJournalStore (option JournalOperation) :=
  self ← get; mret (find_operation id (ojs_journal self)).

(** The verification closure of [persist]. *)
Definition verify_persisted (group : Uuid) (next : OperationJournal) (persisted : bytes) : FcpResult unit :=
  decoded ← from_slice persisted;
  _ ← validate_journal decoded group;
  guard_err (bool_decide (decoded <> next)) (Format "operation journal read-back mismatch").

(** [persist]. *)
Definition persist (next : OperationJournal) : M OperationJournalStore unit :=
  self ← get;
  _ ← lift (validate_journal next (ojs_account_group_id self));
  target_bytes ← lift (to_vec next);
  present ← io (fs_exists (ojs_path self));
  previous_bytes ← (if (present : bool)
                    then b ← io (fs_read (ojs_path self)); mret (Some b)
                    else mret None);
  written ← io (write_verified_durable (ojs_path self) target_bytes
                 (fun persisted => lift (verify_persisted (ojs_account_group_id self) next persisted)));
  match written with
  | Ok DurableWrite.Committed => modify (set_ojs_journal next)
  | Ok other =>
      throw (Format ("unexpected successful durable write result " +:+ durable_write_debug other))
  | Err failure =>
      if bool_decide (dwf_result failure = DurableWrite.DurabilityUnknown) then
        classification ← io (classify_object (ojs_path self)
                               (ObjectDigest_of <$> previous_bytes) (ObjectDigest_of target_bytes));
        match classification with
        | Object.Target => modify (set_ojs_journal next)
        | Object.Previous | Object.Missing => throw (dwf_error failure)
        | Object.Neither => throw (Format "operation journal durability could not be classified")
        end
      else throw (dwf_error failure)
  end.

(** The record [begin] pushes for a new request. *)
Definition new_operation (request : OperationRequest) (seq : N) (fp : Digest32) : JournalOperation :=
  mkOperation (req_operation_id request) (req_attempt_id request) seq fp (req_kind request)
    (req_lease_id request) (req_reason_code request) (req_base_vault_sequence request)
    Phase.NotCommitted None.

(** [begin]. *)
Definition begin (request : OperationRequest) : M OperationJournalStore BeginResult :=
  self ← get;
  fp ← lift (fingerprint request (ojs_account_group_id self));
  existing ← operation (req_operation_id request);
  match existing with
  | Some existing =>
      if bool_decide (request_fingerprint existing = fp)
      then mret (Duplicate existing)
      else throw (Protocol "operation id was reused with a different request payload")
  | None =>
      seq ← ok_or_throw (checked_add u64_max (sequence_high_water (ojs_journal self)) 1)
              (Format "operation sequence exhausted");
      let operation := new_operation request seq fp in
      let next := mkJournal (version (ojs_journal self)) (account_group_id (ojs_journal self)) seq
                    (operations (ojs_journal self) ++ [operation]) in
      _ ← persist next;
      mret (Created operation)
  end.

(** [issue]. *)
Definition issue (kind : OperationKind) (lease_id : option Uuid) (reason : string) (base : N)
    : M OperationJournalStore JournalOperation :=
  id ← io new_v4;
  begun ← begin (mkRequest id None kind lease_id reason base);
  match begun with
  | Created operation => mret operation
  | Duplicate _ => throw (Format "newly generated operation id collided with the journal")
  end.

(** [bind_snapshot]. *)
Definition bind_snapshot (id : Uuid) (binding : SnapshotBinding) : M OperationJournalStore unit :=
  self ← get;
  let next := ojs_journal self in
  operation ← lift (find_mut next id);
  _ ← guard_not
        (bool_decide (phase operation <> Phase.NotCommitted)
         && bool_decide (phase operation <> Phase.DurabilityUnknown))
        (Protocol "snapshot cannot be bound in the current operation phase");
  match snapshot operation with
  | Some existing =>
      if bool_decide (existing = binding) then mret tt
      else throw (Protocol "operation snapshot payload conflicts with the durable binding")
  | None => persist (assign id (with_snapshot (Some binding)) next)
  end.

(** [transition]. *)
Definition transition (id : Uuid) (next_phase : OperationPhase) : M OperationJournalStore unit :=
  self ← get;
  let next := ojs_journal self in
  operation ← lift (find_mut next id);
  if bool_decide (phase operation = next_phase) then mret tt
  else
    _ ← guard_not (negb (can_transition_to (phase operation) next_phase))
          (Protocol ("illegal operation phase transition from " +:+ phase_debug (phase operation)
                     +:+ " to " +:+ phase_debug next_phase));
    _ ← guard_not (bool_decide (next_phase = Phase.Committed) && bool_decide (snapshot operation = None))
          (Protocol "operation cannot commit without a snapshot binding");
    persist (assign id (with_phase next_phase) next).
End Store.

(** ** Specification

    [jstep] is the abstract journal: what one durable change may be.  [stored]
    says that the file holds a valid journal that reads back as [j]. *)

Section Spec.
Context `{SH : Sha256, JB : Serde BoundRequest, JJ : Serde OperationJournal}.

Inductive jstep (group : Uuid) (j : OperationJournal) : OperationJournal -> Prop :=
  | JBegin request fp :
      fingerprint request group = Ok fp ->
      find_operation (req_operation_id request) j = None ->
      sequence_high_water j + 1 <= u64_max ->
      jstep group j (mkJournal (version j) (account_group_id j) (sequence_high_water j + 1)
        (operations j ++ [new_operation request (sequence_high_water j + 1) fp]))
  | JBind id o b :
      find_operation id j = Some o ->
      phase o = Phase.NotCommitted \/ phase o = Phase.DurabilityUnknown ->
      snapshot o = None ->
      jstep group j (assign id (with_snapshot (Some b)) j)
  | JTransition id o p :
      find_operation id j = Some o ->
      can_transition_to (phase o) p = true ->
      (p = Phase.Committed -> is_Some (snapshot o)) ->
      jstep group j (assign id (with_phase p) j).

Record stored (group : Uuid) (path : Path) (j : OperationJournal) (w : World) : Prop := {
  st_valid : valid_journal group j;
  st_file : exists b, file_at w path = Some b /\ to_vec j = Ok b /\ from_slice b = Ok j;
}.

Lemma stored_frame P group path j w w' :
  agree_off P w w' -> ~ P path -> stored group path j w -> stored group path j w'.
Proof. intros Ha HP [Hv Hf]. split; [done|]. by rewrite (agree_off_file _ _ _ _ Ha HP). Qed.

Lemma verify_persisted_ok group next b :
  verify_persisted group next b = Ok tt -> from_slice b = Ok next /\ valid_journal group next.
Proof.
  unfold verify_persisted. intros Hv. res_inv Hv. apply bool_decide_eq_false, dec_stable in Hv as ->.
  split; [done|]. destruct r0. by apply validate_journal_valid.
Qed.

Lemma wp_persist next (Q : unit -> OperationJournalStore -> World -> Prop) E C s w :
  (forall w', agree_off (writer_files (ojs_path s)) w w' ->
     stored (ojs_account_group_id s) (ojs_path s) next w' -> Q tt (set_ojs_journal next s) w') ->
  (forall e w', agree_off (writer_files (ojs_path s)) w w' ->
     file_at w' (ojs_path s) = file_at w (ojs_path s) \/
     stored (ojs_account_group_id s) (ojs_path s) next w' -> E e s w') ->
  (forall w', agree_off (writer_files (ojs_path s)) w w' ->
     file_at w' (ojs_path s) = file_at w (ojs_path s) \/
     stored (ojs_account_group_id s) (ojs_path s) next w' -> C w') ->
  wp (persist next) Q E C s w.
Proof.
  intros HQ HE HC. unfold persist.
  set (path := ojs_path s) in *. set (group := ojs_account_group_id s) in *.
  set (W := writer_files path) in *.
  apply wp_bind, wp_get. fold path group. apply wp_bind, wp_lift.
  destruct (validate_journal next group) as [[]|e] eqn:Hv; [|by apply HE; [|left]].
  apply wp_bind, wp_lift. destruct (to_vec next) as [b|e] eqn:Hb; [|by apply HE; [|left]].
  apply wp_bind, wp_io, wp_fs_exists; [|by apply HC; [|left]]. intros present _.
  assert (Hprev : forall Q' w1, agree_off W w w1 -> file_at w1 path = file_at w path ->
    (forall previous w2, agree_off W w w2 -> file_at w2 path = file_at w path -> Q' previous s w2) ->
    wp (if present then b ← io (fs_read path); mret (Some b) else mret None : M OperationJournalStore (option bytes))
       Q' E C s w1).
  { intros Q' w1 H1 Hf1 HQ'. destruct present; [|by apply wp_ret, HQ'].
    apply wp_bind, wp_io, wp_fs_read.
    - intros. by apply wp_ret, HQ'.
    - intros. by apply HE; [|left].
    - by apply HE; [|left].
    - by apply HC; [|left]. }
  apply wp_bind, Hprev; [done|done|]. clear Hprev. intros previous w2 H2 Hf2.
  apply wp_bind, wp_io. eapply wp_mono.
  - apply (wp_write_verified_durable path b _ (fun _ => False)
             (from_slice b = Ok next /\ valid_journal group next)).
    + done.
    + intros w0. apply wp_lift. destruct (verify_persisted group next b) as [[]|] eqn:Hvp.
      * split; [done|]. by apply verify_persisted_ok.
      * done.
  - cbn beta. intros r [] w3 [H3 Ho].
    assert (H3' : agree_off W w w3).
    { eapply agree_off_trans; [exact H2|]. eapply agree_off_weaken; [exact H3|]. by intros p [|]. }
    assert (Hst : file_at w3 path = Some b /\ from_slice b = Ok next /\ valid_journal group next ->
      stored group path next w3) by (intros (? & ? & ?); split; [done|by exists b]).
    destruct r as [res|[res err]].
    + destruct Ho as (-> & Hst'). apply wp_modify, HQ; auto.
    + cbn [dwf_result dwf_error write_outcome] in *. destruct res; [| |].
      * rewrite bool_decide_false by done. apply HE; [done|left]. congruence.
      * done.
      * rewrite bool_decide_true by done. apply wp_bind, wp_io.
        assert (H4 : agree_off W w (tick w3)) by done.
        assert (Hst4 : stored group path next (tick w3))
          by (apply (stored_frame (fun _ => False) _ _ _ w3); auto using same_files_tick).
        apply wp_classify_object; [|by apply HE; auto|by apply HC; auto].
        destruct (object_status _ _ _); [apply wp_throw, HE; auto|apply wp_modify, HQ; auto|apply wp_throw, HE; auto..].
  - done.
  - intros w3 [H3 Ho]. apply HC.
    + eapply agree_off_trans; [exact H2|]. eapply agree_off_weaken; [exact H3|]. by intros p [|].
    + destruct Ho as [Ho|(Hf & Hs & Hvj)]; [left; congruence|right]. split; [done|by exists b].
Qed.

(** The effect of a call on the disk, when it fails or is cut short: nothing, or
    one abstract step that the memory does not know of yet. *)
Definition disk_step (s : OperationJournalStore) (w w' : World) : Prop :=
  agree_off (writer_files (ojs_path s)) w w' /\
  (file_at w' (ojs_path s) = file_at w (ojs_path s) \/
   exists j', jstep (ojs_account_group_id s) (ojs_journal s) j' /\
     stored (ojs_account_group_id s) (ojs_path s) j' w').

(** The same for a call whose only possible change is to [next]. *)
Definition disk_next (s : OperationJournalStore) (next : OperationJournal) (w w' : World) : Prop :=
  agree_off (writer_files (ojs_path s)) w w' /\
  (file_at w' (ojs_path s) = file_at w (ojs_path s) \/
   (jstep (ojs_account_group_id s) (ojs_journal s) next /\
    stored (ojs_account_group_id s) (ojs_path s) next w')).

Lemma disk_next_refl s next w : disk_next s next w w.
Proof. split; [apply agree_off_refl|by left]. Qed.
#[local] Hint Resolve disk_next_refl : vault.

Lemma disk_next_step s next w w' : disk_next s next w w' -> disk_step s w w'.
Proof. intros [Ha Hd]. split; [done|]. destruct Hd as [|[? ?]]; [by left|right; by exists next]. Qed.

Lemma disk_step_refl s w : disk_step s w w.
Proof. split; [apply agree_off_refl|by left]. Qed.
#[local] Hint Resolve disk_step_refl : vault.

Lemma wp_persist_step next (Q : unit -> OperationJournalStore -> World -> Prop)
    (E : FcpError -> OperationJournalStore -> World -> Prop) C s w :
  jstep (ojs_account_group_id s) (ojs_journal s) next ->
  (forall w', agree_off (writer_files (ojs_path s)) w w' ->
     stored (ojs_account_group_id s) (ojs_path s) next w' -> Q tt (set_ojs_journal next s) w') ->
  (forall e w', disk_next s next w w' -> E e s w') ->
  (forall w', disk_next s next w w' -> C w') ->
  wp (persist next) Q E C s w.
Proof.
  intros Hj HQ HE HC. apply wp_persist; [done| |];
    intros; (apply HE || apply HC); (split; [done|]); tauto.
Qed.

Lemma wp_operation id (Q : option JournalOperation -> OperationJournalStore -> World -> Prop) E C s w :
  Q (find_operation id (ojs_journal s)) s w -> wp (operation id) Q E C s w.
Proof. done. Qed.

Lemma wp_begin request (Q : BeginResult -> OperationJournalStore -> World -> Prop)
    (E : FcpError -> OperationJournalStore -> World -> Prop) C s w :
  (forall fp o, fingerprint request (ojs_account_group_id s) = Ok fp ->
     find_operation (req_operation_id request) (ojs_journal s) = Some o ->
     request_fingerprint o = fp -> Q (Duplicate o) s w) ->
  (forall fp w' o j', fingerprint request (ojs_account_group_id s) = Ok fp ->
     find_operation (req_operation_id request) (ojs_journal s) = None ->
     o = new_operation request (sequence_high_water (ojs_journal s) + 1) fp ->
     j' = mkJournal (version (ojs_journal s)) (account_group_id (ojs_journal s))
            (sequence_high_water (ojs_journal s) + 1) (operations (ojs_journal s) ++ [o]) ->
     jstep (ojs_account_group_id s) (ojs_journal s) j' ->
     agree_off (writer_files (ojs_path s)) w w' ->
     stored (ojs_account_group_id s) (ojs_path s) j' w' ->
     Q (Created o) (set_ojs_journal j' s) w') ->
  (forall e w', disk_step s w w' -> E e s w') ->
  (forall w', disk_step s w w' -> C w') ->
  wp (begin request) Q E C s w.
Proof.
  intros Hdup Hnew HE HC. unfold begin.
  apply wp_bind, wp_get, wp_bind, wp_lift.
  destruct (fingerprint _ _) as [fp|e] eqn:Hfp; [|auto with vault].
  apply wp_bind, wp_operation. destruct (find_operation _ _) as [o|] eqn:Hfind.
  - case_bool_decide; [apply wp_ret; eauto|apply wp_throw; auto with vault].
  - apply wp_bind, wp_ok_or_throw. destruct (checked_add _ _ _) as [seq|] eqn:Hseq; [|auto with vault].
    apply checked_add_Some in Hseq as [-> Hle].
    apply wp_bind, wp_persist_step; [by constructor| |eauto using disk_next_step..].
    intros w' Ha Hst. apply wp_ret. eapply Hnew; eauto. by constructor.
Qed.

Lemma wp_bind_snapshot id b (Q : unit -> OperationJournalStore -> World -> Prop)
    (E : FcpError -> OperationJournalStore -> World -> Prop) C s w :
  (forall o, find_operation id (ojs_journal s) = Some o -> snapshot o = Some b -> Q tt s w) ->
  (forall o w' j', find_operation id (ojs_journal s) = Some o -> snapshot o = None ->
     j' = assign id (with_snapshot (Some b)) (ojs_journal s) ->
     jstep (ojs_account_group_id s) (ojs_journal s) j' ->
     agree_off (writer_files (ojs_path s)) w w' ->
     stored (ojs_account_group_id s) (ojs_path s) j' w' -> Q tt (set_ojs_journal j' s) w') ->
  (forall e w', disk_next s (assign id (with_snapshot (Some b)) (ojs_journal s)) w w' -> E e s w') ->
  (forall w', disk_next s (assign id (with_snapshot (Some b)) (ojs_journal s)) w w' -> C w') ->
  wp (bind_snapshot id b) Q E C s w.
Proof.
  intros Hdup Hnew HE HC. unfold bind_snapshot, find_mut.
  apply wp_bind, wp_get, wp_bind, wp_lift.
  destruct (find_operation _ _) as [o|] eqn:Hfind; [|by apply HE, disk_next_refl].
  apply wp_bind, wp_guard_not.
  destruct (_ && _) eqn:Hphase; [by apply HE, disk_next_refl|].
  destruct (snapshot o) as [b'|] eqn:Hs.
  - destruct (bool_decide (b' = b)) eqn:Hb; [|apply wp_throw; auto with vault].
    apply bool_decide_eq_true in Hb. apply wp_ret. subst. eauto.
  - assert (jstep (ojs_account_group_id s) (ojs_journal s)
              (assign id (with_snapshot (Some b)) (ojs_journal s))).
    { apply JBind with o; [done| |done]. apply andb_false_iff in Hphase as [Hp|Hp];
        apply bool_decide_eq_false, dec_stable in Hp; auto. }
    apply wp_persist_step; [done| |auto..]. intros. eapply Hnew; eauto.
Qed.

Lemma wp_transition id p (Q : unit -> OperationJournalStore -> World -> Prop)
    (E : FcpError -> OperationJournalStore -> World -> Prop) C s w :
  (forall o, find_operation id (ojs_journal s) = Some o -> phase o = p -> Q tt s w) ->
  (forall o w' j', find_operation id (ojs_journal s) = Some o ->
     can_transition_to (phase o) p = true ->
     j' = assign id (with_phase p) (ojs_journal s) ->
     jstep (ojs_account_group_id s) (ojs_journal s) j' ->
     agree_off (writer_files (ojs_path s)) w w' ->
     stored (ojs_account_group_id s) (ojs_path s) j' w' -> Q tt (set_ojs_journal j' s) w') ->
  (forall e w', disk_next s (assign id (with_phase p) (ojs_journal s)) w w' -> E e s w') ->
  (forall w', disk_next s (assign id (with_phase p) (ojs_journal s)) w w' -> C w') ->
  wp (transition id p) Q E C s w.
Proof.
  intros Hdup Hnew HE HC. unfold transition, find_mut.
  apply wp_bind, wp_get, wp_bind, wp_lift.
  destruct (find_operation _ _) as [o|] eqn:Hfind; [|by apply HE, disk_next_refl].
  cbn. destruct (bool_decide (phase o = p)) eqn:Hp.
  { apply bool_decide_eq_true in Hp. by apply wp_ret, (Hdup o). }
  apply wp_bind, wp_guard_not. destruct (can_transition_to _ _) eqn:Hcan; [|by apply HE, disk_next_refl].
  apply wp_bind, wp_guard_not. destruct (_ && _) eqn:Hsn; [by apply HE, disk_next_refl|].
  assert (jstep (ojs_account_group_id s) (ojs_journal s) (assign id (with_phase p) (ojs_journal s))).
  { apply JTransition with o; [done..|]. intros ->. destruct (snapshot o); [done|].
    by rewrite !bool_decide_true in Hsn. }
  apply wp_persist_step; [done| |auto..]. intros. eapply Hnew; eauto.
Qed.
End Spec.

(** ** The abstract journal *)

Lemma find_operation_Some id j o :
  find_operation id j = Some o -> operation_id o = id /\ o ∈ operations j.
Proof.
  unfold find_operation. intros Hf. apply find_some in Hf as [Hin Heq].
  split; [by apply N.eqb_eq|by apply list_elem_of_In].
Qed.

Lemma find_operation_None id j : find_operation id j = None -> id ∉ map operation_id (operations j).
Proof.
  unfold find_operation. intros Hf Hin. apply list_elem_of_fmap in Hin as (o & -> & Ho).
  apply list_elem_of_In in Ho. eapply find_none in Hf; [|exact Ho].
  by rewrite N.eqb_refl in Hf.
Qed.

Section Update.
Context (id : Uuid) (f : JournalOperation -> JournalOperation).
Hypothesis f_id : forall o, operation_id (f o) = operation_id o.
Hypothesis f_sequence : forall o, sequence (f o) = sequence o.

Lemma update_first_ids ops : map operation_id (update_first id f ops) = map operation_id ops.
Proof using f_id. induction ops as [|o ops IH]; [done|]. cbn. case_match; cbn; congruence. Qed.

Lemma update_first_sequences ops : map sequence (update_first id f ops) = map sequence ops.
Proof using f_sequence. induction ops as [|o ops IH]; [done|]. cbn. case_match; cbn; congruence. Qed.

Lemma find_assign_eq j o : find_operation id j = Some o -> find_operation id (assign id f j) = Some (f o).
Proof using f_id.
  unfold find_operation, assign. cbn. induction (operations j) as [|x ops IH]; [done|]. cbn.
  destruct (operation_id x =? id) eqn:Hx; cbn.
  - rewrite f_id, Hx. by intros [= ->].
  - rewrite Hx. exact IH.
Qed.

Lemma find_assign_none j : find_operation id j = None -> find_operation id (assign id f j) = None.
Proof.
  unfold find_operation, assign. cbn. induction (operations j) as [|x ops IH]; [done|]. cbn.
  destruct (operation_id x =? id) eqn:Hx; cbn; [done|]. rewrite Hx. exact IH.
Qed.

Lemma find_assign_ne id' j : id' <> id -> find_operation id' (assign id f j) = find_operation id' j.
Proof using f_id.
  intros Hne. unfold find_operation, assign. cbn. induction (operations j) as [|x ops IH]; [done|]. cbn.
  destruct (operation_id x =? id) eqn:Hx; cbn.
  - rewrite f_id. apply N.eqb_eq in Hx as ->. by rewrite (proj2 (N.eqb_neq _ _)).
  - case_match; [done|exact IH].
Qed.

Lemma update_first_Forall (P : JournalOperation -> Prop) ops o :
  List.find (fun x => operation_id x =? id) ops = Some o -> P (f o) -> Forall P ops ->
  Forall P (update_first id f ops).
Proof.
  intros Hf HP. induction ops as [|x ops IH]; [done|]. intros [Hx Hops]%Forall_cons. cbn in *.
  destruct (operation_id x =? id); [|constructor; auto].
  injection Hf as ->. by constructor.
Qed.
End Update.

Section Abstract.
Context `{SH : Sha256, JB : Serde BoundRequest}.

Lemma sorted_snoc prev l x :
  Sorted N.lt (prev :: l) -> List.last (prev :: l) 0 < x -> Sorted N.lt (prev :: l ++ [x]).
Proof.
  revert prev; induction l as [|y l IH]; intros prev Hs Hx.
  - repeat constructor. exact Hx.
  - apply Sorted_inv in Hs as [Hs Hr]. inversion Hr. constructor; [by apply IH|by constructor].
Qed.

Lemma validate_request_not_nil r u : validate_request r = Ok u -> req_operation_id r <> 0.
Proof. unfold validate_request. intros Hv. res_inv Hv. unfold uuid_is_nil in *. by bool_to_prop. Qed.

Lemma fingerprint_not_nil r group fp : fingerprint r group = Ok fp -> req_operation_id r <> 0.
Proof. unfold fingerprint. intros Hv. res_inv Hv. by eapply validate_request_not_nil. Qed.

Lemma request_of_new r seq fp : request_of (new_operation r seq fp) = r.
Proof. by destruct r. Qed.

Lemma can_transition_needs_snapshot p q :
  can_transition_to p q = true -> phase_needs_snapshot q = true ->
  phase_needs_snapshot p = true \/ q = Phase.Committed.
Proof. destruct p, q; cbn; auto. Qed.

(** Every abstract step keeps the journal valid. *)
Lemma jstep_valid group j j' : valid_journal group j -> jstep group j j' -> valid_journal group j'.
Proof.
  intros [Hver Hg Hs Hl Hnd Hall] Hj.
  assert (Hassign : forall id o f, find_operation id j = Some o ->
    (forall o, operation_id (f o) = operation_id o) -> (forall o, sequence (f o) = sequence o) ->
    valid_operation group (f o) -> valid_journal group (assign id f j)).
  { intros id o f Hf Hid Hsq Hvo. split; cbn.
    - done.
    - done.
    - by rewrite update_first_sequences.
    - rewrite update_first_sequences; done.
    - by rewrite update_first_ids.
    - by eapply update_first_Forall. }
  assert (Hold : forall id o, find_operation id j = Some o -> valid_operation group o).
  { intros id o Ho. apply find_operation_Some in Ho as [_ Ho].
    by apply (proj1 (list.Forall_forall _ _) Hall). }
  inversion Hj as [r fp Hfp Hnone Hmax|id o b Ho Hp Hsn|id o p Ho Hcan Hsn]; subst.
  - split; cbn; [done|done| | | |].
    + rewrite map_app. apply sorted_snoc; [done|]. rewrite Hl. cbn. lia.
    + rewrite map_app. cbn. change (List.last ((0 :: map sequence (operations j)) ++ [sequence_high_water j + 1]) 0 = sequence_high_water j + 1).
      by rewrite last_last.
    + rewrite map_app. apply NoDup_app. split; [done|]. split.
      * intros id Hid Hin. cbn in Hin. apply list_elem_of_singleton in Hin as ->.
        by apply find_operation_None in Hnone.
      * apply NoDup_singleton.
    + apply Forall_app. split; [done|]. apply Forall_singleton. split; cbn; [|by rewrite request_of_new|done].
      by eapply fingerprint_not_nil.
  - eapply Hassign; [exact Ho|done|done|]. destruct (Hold _ _ Ho) as [Hn Hf Hb].
    split; [done|exact Hf|by eauto].
  - eapply Hassign; [exact Ho|done|done|]. destruct (Hold _ _ Ho) as [Hn Hf Hb].
    split; [done|exact Hf|]. cbn. intros Hneed.
    destruct (can_transition_needs_snapshot _ _ Hcan Hneed); auto.
Qed.

(** What a step may do to an operation: keep its identity, move its phase along
    the transition table, and bind a snapshot once. *)
Record op_progress (o o' : JournalOperation) : Prop := {
  op_same_request : request_of o' = request_of o;
  op_same_fingerprint : request_fingerprint o' = request_fingerprint o;
  op_same_sequence : sequence o' = sequence o;
  op_phase : rtc (fun p q => can_transition_to p q = true) (phase o) (phase o');
  op_snapshot : forall b, snapshot o = Some b -> snapshot o' = Some b;
}.

Lemma op_progress_refl o : op_progress o o.
Proof. split; done. Qed.

Lemma op_progress_trans o1 o2 o3 : op_progress o1 o2 -> op_progress o2 o3 -> op_progress o1 o3.
Proof. intros [] []. split; [congruence..|by etrans|auto]. Qed.

Lemma jstep_progress group j j' id o :
  jstep group j j' -> find_operation id j = Some o ->
  exists o', find_operation id j' = Some o' /\ op_progress o o'.
Proof.
  intros Hj Ho.
  assert (Hassign : forall id0 o0 f, find_operation id0 j = Some o0 ->
    (forall o, operation_id (f o) = operation_id o) -> op_progress o0 (f o0) ->
    exists o', find_operation id (assign id0 f j) = Some o' /\ op_progress o o').
  { intros id0 o0 f Hf Hid Hp. destruct (decide (id = id0)) as [->|Hne].
    - exists (f o0). rewrite (find_assign_eq _ _ Hid _ _ Hf). split; [done|]. by simplify_eq.
    - exists o. rewrite find_assign_ne by done. split; [done|apply op_progress_refl]. }
  inversion Hj as [r fp Hfp Hnone Hmax|id0 o0 b Ho0 Hp Hsn|id0 o0 p Ho0 Hcan Hsn]; subst.
  - exists o. split; [|apply op_progress_refl]. unfold find_operation in *. cbn. by apply find_app_l.
  - apply (Hassign id0 o0); [done|done|]. split; cbn; [done..|congruence].
  - apply (Hassign id0 o0); [done|done|]. split; cbn; [done..|by apply rtc_once|done].
Qed.

Lemma jsteps_progress group j j' id o :
  rtc (jstep group) j j' -> find_operation id j = Some o ->
  exists o', find_operation id j' = Some o' /\ op_progress o o'.
Proof.
  intros Hr. revert o. induction Hr as [|j1 j2 j3 Hstep _ IH]; intros o Ho.
  - exists o. split; [done|apply op_progress_refl].
  - destruct (jstep_progress _ _ _ _ _ Hstep Ho) as (o2 & Ho2 & Hp2).
    destruct (IH _ Ho2) as (o3 & Ho3 & Hp3). exists o3. split; [done|by eapply op_progress_trans].
Qed.

Lemma jsteps_valid group j j' :
  valid_journal group j -> rtc (jstep group) j j' -> valid_journal group j'.
Proof. intros Hv Hr. induction Hr; eauto using jstep_valid. Qed.

Lemma empty_journal_valid group : valid_journal group (empty_journal group).
Proof. split; cbn; [done..|repeat constructor|done|constructor|constructor]. Qed.

Lemma terminal_stuck p q : is_terminal p = true -> can_transition_to p q = false.
Proof. destruct p; done. Qed.

Lemma terminal_phase_stays o o' : op_progress o o' -> is_terminal (phase o) = true -> phase o' = phase o.
Proof.
  intros Hp Ht. pose proof (op_phase _ _ Hp) as Hr. inversion Hr as [|? ? ? Hstep]; [done|].
  by rewrite terminal_stuck in Hstep.
Qed.
End Abstract.

(** ** Properties *)

Inductive JournalCall :=
  | CallBegin (request : OperationRequest)
  | CallBind (id : Uuid) (binding : SnapshotBinding)
  | CallTransition (id : Uuid) (next_phase : OperationPhase).

Definition run_call `{SH : Sha256, JB : Serde BoundRequest, JJ : Serde OperationJournal}
    (c : JournalCall) : M OperationJournalStore unit :=
  match c with
  | CallBegin r => _ ← begin r; mret tt
  | CallBind id b => bind_snapshot id b
  | CallTransition id p => transition id p
  end.

(** C28: Refinement of the abstract journal: whatever faults occur, each of
    [begin], [bind_snapshot] and [transition] either repeats what is already
    there (and changes nothing), or takes exactly one abstract step, which is
    durably on disk and reads back before the call returns. A call that fails
    leaves the memory as it was, and the file with its old content or with one
    legal successor; so does a process killed inside it. *)
Theorem journal_call_refines `{SH : Sha256, JB : Serde BoundRequest, JJ : Serde OperationJournal} c s w :
  wp (run_call c)
     (fun _ s' w' =>
        (s' = s /\ w' = w) \/
        exists j', jstep (ojs_account_group_id s) (ojs_journal s) j' /\
          s' = set_ojs_journal j' s /\
          agree_off (writer_files (ojs_path s)) w w' /\
          stored (ojs_account_group_id s) (ojs_path s) j' w')
     (fun _ s' w' => s' = s /\ disk_step s w w')
     (fun w' => disk_step s w w') s w.
Proof.
  destruct c as [r|id b|id p]; cbn [run_call].
  - apply wp_bind, wp_begin; [intros; apply wp_ret; by left| |by auto..].
    intros fp w' o j' **. apply wp_ret. right. by exists j'.
  - apply wp_bind_snapshot; [by left| |eauto using disk_next_step..]. intros o w' j' **. right. by exists j'.
  - apply wp_transition; [by left| |eauto using disk_next_step..]. intros o w' j' **. right. by exists j'.
Qed.

(** C29: Along every history of the journal from the empty one, the journal stays
    valid and an operation keeps its request, fingerprint and sequence, moves
    its phase only along the transition table, never leaves a terminal phase,
    and never loses or changes a snapshot binding. *)
Theorem journal_history `{SH : Sha256, JB : Serde BoundRequest} group j1 j2 id o :
  rtc (jstep group) (empty_journal group) j1 -> rtc (jstep group) j1 j2 ->
  find_operation id j1 = Some o ->
  valid_journal group j2 /\
  exists o', find_operation id j2 = Some o' /\ op_progress o o' /\
    (is_terminal (phase o) = true -> phase o' = phase o).
Proof.
  intros H1 H2 Ho. split.
  - eapply jsteps_valid; [|exact H2]. eapply jsteps_valid; [apply empty_journal_valid|exact H1].
  - destruct (jsteps_progress _ _ _ _ _ H2 Ho) as (o' & Ho' & Hp).
    exists o'. split; [done|]. split; [done|]. by apply terminal_phase_stays.
Qed.

Definition example_request : OperationRequest :=
  mkRequest 5 (Some 9) Kind.Eviction (Some 3) "idle_timeout" 4.

Section HistoryExample.
#[local] Existing Instance toy_sha256.
#[local] Existing Instance toy_bound_request.

Definition example_fp : Digest32 := 
  match fingerprint example_request 77 with Ok fp => fp | Err _ => [] end.

Definition example_j1 : OperationJournal :=
  mkJournal 1 77 1 [new_operation example_request 1 example_fp].

Lemma example_j1_reachable : rtc (jstep 77) (empty_journal 77) example_j1.
Proof. apply rtc_once, (JBegin 77 (empty_journal 77) example_request); [reflexivity|reflexivity|done]. Qed.

Definition example_j2 : OperationJournal := assign 5 (with_phase Phase.Aborted) example_j1.

Lemma example_j2_reachable : rtc (jstep 77) example_j1 example_j2.
Proof. by eapply rtc_once, JTransition. Qed.

Lemma journal_history_witness :
  valid_journal 77 example_j2 /\
  exists o', find_operation 5 example_j2 = Some o' /\
    op_progress (new_operation example_request 1 example_fp) o' /\
    (is_terminal Phase.NotCommitted = true -> phase o' = Phase.NotCommitted).
Proof.
  apply (journal_history 77 example_j1 example_j2 5).
  - apply example_j1_reachable.
  - apply example_j2_reachable.
  - reflexivity.
Defined.
End HistoryExample.
