(* ===== verification/OpRecovery.v ===== *)
(** * operation/fingerprint.rs and operation/recovery.rs

    The keyed tag of a snapshot, and the classification of an interrupted
    operation by comparing the vault file with the digests its binding holds. *)

From S2P Require Import Prelude World External Examples AtomicFile OpModel OpJournal.

(** ** fingerprint.rs *)

Definition SNAPSHOT_KEY_BYTES : nat := 32.

Record SnapshotTagContext := mkTagContext {
  tc_profile_id : Uuid;
  tc_account_group_id : Uuid;
  tc_operation_id : Uuid;
  tc_operation_sequence : N;
  tc_base_vault_sequence : N;
}.

(** [SnapshotTagger]: its 32-byte key. *)
Abbreviation SnapshotTagger := bytes.

Section Tag.
Context `{SH : Sha256, LS : LocalSecret}.

(** [load_or_create]. *)
Definition load_or_create_tagger (path : Path) (journal_exists : bool) : IO SnapshotTagger :=
  present ← fs_exists path;
  if (present : bool) then
    sealed ← fs_read path;
    plaintext ← unprotect sealed;
    _ ← guard_not (negb (length plaintext =? SNAPSHOT_KEY_BYTES)%nat)
          (Format "snapshot tag key has invalid length");
    mret plaintext
  else
    _ ← guard_not journal_exists (Format "snapshot tag key is missing while operation journals exist");
    key ← fill_random SNAPSHOT_KEY_BYTES;
    protected ← protect key;
    _ ← write_verified path protected (fun candidate =>
          recovered ← unprotect candidate;
          guard_not (bool_decide (recovered <> key)) (Crypto "snapshot tag key write verification failed"));
    mret key.

Definition xor_byte (a b : byte) : byte := u8_of_N (N.lxor (Byte.to_N a) (Byte.to_N b)).

(** The padded key blocks of [hmac_sha256]: 64 bytes of [pad], the first 32 of
    them xored with the key. *)
Definition key_pad (pad : byte) (key : bytes) : bytes :=
  zip_with xor_byte (replicate SNAPSHOT_KEY_BYTES pad) key
  ++ replicate (64 - SNAPSHOT_KEY_BYTES) pad.

(** [hmac_sha256]. *)
Definition hmac_sha256 (key input : bytes) : bytes :=
  let inner_hash := sha256 (key_pad Byte.x36 key ++ input) in
  sha256 (key_pad Byte.x5c key ++ inner_hash).

(** The bytes that [SnapshotTagger::tag] authenticates. *)
Definition tag_input (context : SnapshotTagContext) (canonical_snapshot : bytes) : bytes :=
  str_bytes "FCPSNAP1"
  ++ uuid_as_bytes (tc_profile_id context)
  ++ uuid_as_bytes (tc_account_group_id context)
  ++ uuid_as_bytes (tc_operation_id context)
  ++ le_bytes 8 (tc_operation_sequence context)
  ++ le_bytes 8 (tc_base_vault_sequence context)
  ++ canonical_snapshot.

(** [SnapshotTagger::tag]. *)
Definition tag (self : SnapshotTagger) (context : SnapshotTagContext) (canonical_snapshot : bytes) : bytes :=
  hmac_sha256 self (tag_input context canonical_snapshot).
End Tag.

(** ** recovery.rs *)

Module Recovery.
Inductive RecoveryClassification := NotCommitted | Committed | ReconciliationRequired.
End Recovery.
Abbreviation RecoveryClassification := Recovery.RecoveryClassification.

#[export] Instance recovery_classification_eq_dec : EqDecision RecoveryClassification.
Proof. solve_decision. Defined.

Section Classify.
Context `{SH : Sha256, JB : Serde BoundRequest, JJ : Serde OperationJournal}.

(** The table of [classify_vault]. *)
Definition recovery_classification (precommit_phase : bool) (previous : option Digest32)
    (object : ObjectClassification) : RecoveryClassification :=
  match object with
  | Object.Previous => if precommit_phase then Recovery.NotCommitted else Recovery.ReconciliationRequired
  | Object.Target => Recovery.Committed
  | Object.Missing =>
      if precommit_phase && bool_decide (previous = None) then Recovery.NotCommitted
      else Recovery.ReconciliationRequired
  | Object.Neither => Recovery.ReconciliationRequired
  end.

Definition is_precommit (p : OperationPhase) : bool :=
  match p with Phase.NotCommitted | Phase.DurabilityUnknown => true | _ => false end.

(** [classify_vault]. *)
Definition classify_vault (id : Uuid) (vault_path : Path) : M OperationJournalStore RecoveryClassification :=
  found ← operation id;
  operation ← ok_or_throw found (Protocol "unknown operation id");
  snapshot ← ok_or_throw (snapshot operation) (Protocol "operation has no durable snapshot binding");
  object ← io (classify_object vault_path (sb_previous_vault_digest snapshot) (sb_target_vault_digest snapshot));
  mret (recovery_classification (is_precommit (phase operation)) (sb_previous_vault_digest snapshot) object).

Definition recovery_target_phase (classification : RecoveryClassification) (p : OperationPhase) : OperationPhase :=
  match classification with
  | Recovery.NotCommitted => Phase.NotCommitted
  | Recovery.Committed =>
      match p with Phase.Committed | Phase.BrowserRemovalPending => p | _ => Phase.Committed end
  | Recovery.ReconciliationRequired => Phase.ReconciliationRequired
  end.

(** [recover_vault_phase]. *)
Definition recover_vault_phase (id : Uuid) (vault_path : Path) : M OperationJournalStore RecoveryClassification :=
  classification ← classify_vault id vault_path;
  found ← operation id;
  operation ← unwrap found;
  let target_phase := recovery_target_phase classification (phase operation) in
  _ ← (if bool_decide (phase operation <> target_phase) then transition id target_phase else mret tt);
  mret classification.
End Classify.

(** ** Specification of the recovery of one operation *)

Section RecoverySpec.
Context `{SH : Sha256, JB : Serde BoundRequest, JJ : Serde OperationJournal}.

(** What recovery concludes for an operation from the vault's content. *)
Definition recovery_verdict (o : JournalOperation) (b : SnapshotBinding) (vault : option bytes)
    : RecoveryClassification :=
  recovery_classification (is_precommit (phase o)) (sb_previous_vault_digest b)
    (object_status (sb_previous_vault_digest b) (sb_target_vault_digest b) vault).

Lemma wp_classify_vault id vault_path o b
    (Q : RecoveryClassification -> OperationJournalStore -> World -> Prop)
    (E : FcpError -> OperationJournalStore -> World -> Prop) (C : World -> Prop) s w :
  find_operation id (ojs_journal s) = Some o -> snapshot o = Some b ->
  Q (recovery_verdict o b (file_at w vault_path)) s (tick w) ->
  (forall e, E e s (tick w)) -> C w ->
  wp (classify_vault id vault_path) Q E C s w.
Proof.
  intros Ho Hb HQ HE HC. unfold classify_vault.
  apply wp_bind, wp_operation. rewrite Ho.
  apply wp_bind, wp_ok_or_throw, wp_bind, wp_ok_or_throw. rewrite Hb.
  by apply wp_bind, wp_io, wp_classify_object.
Qed.

Lemma recovery_verdict_phase o b vault :
  is_terminal (phase o) = false ->
  recovery_target_phase (recovery_verdict o b vault) (phase o) = phase o \/
  can_transition_to (phase o) (recovery_target_phase (recovery_verdict o b vault) (phase o)) = true.
Proof.
  unfold recovery_verdict, recovery_classification.
  destruct (object_status _ _ _), (phase o); cbn; try done; auto; by destruct (bool_decide _); auto.
Qed.

(** The journal after one recovery: the operation has the phase the verdict
    calls for, and nothing else has changed. *)
Definition recovered_journal (id : Uuid) (c : RecoveryClassification) (o : JournalOperation)
    (j : OperationJournal) : OperationJournal :=
  if bool_decide (phase o = recovery_target_phase c (phase o)) then j
  else assign id (with_phase (recovery_target_phase c (phase o))) j.

Lemma wp_recover_vault_phase id vault_path o b
    (Q : RecoveryClassification -> OperationJournalStore -> World -> Prop)
    (E : FcpError -> OperationJournalStore -> World -> Prop) (C : World -> Prop) s w :
  find_operation id (ojs_journal s) = Some o -> snapshot o = Some b ->
  stored (ojs_account_group_id s) (ojs_path s) (ojs_journal s) w ->
  (forall c j' w', c = recovery_verdict o b (file_at w vault_path) ->
     j' = recovered_journal id c o (ojs_journal s) ->
     j' = ojs_journal s \/ jstep (ojs_account_group_id s) (ojs_journal s) j' ->
     agree_off (writer_files (ojs_path s)) w w' ->
     stored (ojs_account_group_id s) (ojs_path s) j' w' -> Q c (set_ojs_journal j' s) w') ->
  (forall e w', disk_next s (recovered_journal id (recovery_verdict o b (file_at w vault_path)) o (ojs_journal s)) w w' ->
     E e s w') ->
  (forall w', disk_next s (recovered_journal id (recovery_verdict o b (file_at w vault_path)) o (ojs_journal s)) w w' ->
     C w') ->
  wp (recover_vault_phase id vault_path) Q E C s w.
Proof.
  intros Ho Hb Hst HQ HE HC. unfold recover_vault_phase.
  assert (Htick : forall n w', disk_next s n (tick w) w' -> disk_next s n w w') by (by intros n w' [H1 H2]).
  assert (Hst' : stored (ojs_account_group_id s) (ojs_path s) (ojs_journal s) (tick w))
    by (eapply stored_frame; [apply same_files_tick|auto|done]).
  apply wp_bind, (wp_classify_vault _ _ o b); [done|done| |intros; apply HE|apply HC];
    [|by (split; [done|left])..].
  apply wp_bind, wp_operation. rewrite Ho. apply wp_bind. eapply wp_unwrap; [done|].
  set (c := recovery_verdict o b (file_at w vault_path)) in *. set (p := recovery_target_phase c (phase o)).
  destruct (bool_decide (phase o <> p)) eqn:Hp.
  - apply bool_decide_eq_true in Hp.
    assert (Hrec : recovered_journal id c o (ojs_journal s) = assign id (with_phase p) (ojs_journal s))
      by (unfold recovered_journal; fold p; by rewrite bool_decide_false).
    rewrite Hrec in HE, HC.
    apply wp_bind, wp_transition; [| |by auto..].
    + intros o' Ho' Hp'. rewrite Ho in Ho'. injection Ho' as <-. by destruct Hp.
    + intros o' w' j' Ho' Hcan Hj Hstep Ha Hs. simplify_eq. apply wp_ret. apply HQ; [done| |by right|done|done].
      unfold recovered_journal. fold p. by rewrite bool_decide_false.
  - apply bool_decide_eq_false, dec_stable in Hp. apply wp_bind, wp_ret, wp_ret.
    assert (Hsame : recovered_journal id c o (ojs_journal s) = ojs_journal s).
    { unfold recovered_journal. fold p. by rewrite bool_decide_true. }
    replace s with (set_ojs_journal (ojs_journal s) s) at 1 by (by destruct s).
    by apply HQ; [|rewrite Hsame|left| |].
Qed.

Lemma find_recovered id c o j :
  find_operation id j = Some o ->
  find_operation id (recovered_journal id c o j) =
    Some (with_phase (recovery_target_phase c (phase o)) o).
Proof.
  intros Ho. unfold recovered_journal. destruct (bool_decide _) eqn:Hp.
  - apply bool_decide_eq_true in Hp. rewrite <- Hp, Ho. by destruct o.
  - by apply find_assign_eq.
Qed.

Lemma find_recovered_ne id id' c o j :
  id' <> id -> find_operation id' (recovered_journal id c o j) = find_operation id' j.
Proof. intros Hne. unfold recovered_journal. case_match; [done|by apply find_assign_ne]. Qed.
End RecoverySpec.

(** ** Properties of the snapshot tag *)

(** RFC 2104 with a 64-byte block, for a key no longer than the block. *)
Definition rfc2104_hmac (hash : bytes -> bytes) (key input : bytes) : bytes :=
  let k := key ++ replicate (64 - length key) Byte.x00 in
  hash ((xor_byte Byte.x5c <$> k) ++ hash ((xor_byte Byte.x36 <$> k) ++ input)).

Lemma key_pad_rfc2104 pad key :
  length key = SNAPSHOT_KEY_BYTES -> xor_byte pad Byte.x00 = pad ->
  key_pad pad key = xor_byte pad <$> (key ++ replicate (64 - length key) Byte.x00).
Proof.
  intros Hlen Hpad. unfold key_pad. rewrite Hlen, fmap_app, fmap_replicate, Hpad. f_equal.
  rewrite <- Hlen. clear. induction key as [|b key IH]; [done|]. cbn. by f_equal.
Qed.

(** The tagger's hash is HMAC-SHA-256 as RFC 2104 defines it: for the 32-byte
    keys the host loads or creates, the xor-ed blocks of [hmac_sha256] are the
    key, zero-padded to the 64-byte block, xor-ed with ipad and opad. *)
Theorem hmac_sha256_is_rfc2104 `{SH : Sha256} key input :
  length key = SNAPSHOT_KEY_BYTES -> hmac_sha256 key input = rfc2104_hmac sha256 key input.
Proof.
  intros Hlen. unfold hmac_sha256, rfc2104_hmac.
  by rewrite (key_pad_rfc2104 Byte.x36), (key_pad_rfc2104 Byte.x5c).
Qed.

Lemma hmac_sha256_is_rfc2104_witness :
  @hmac_sha256 toy_sha256 (replicate 32 Byte.x07) (str_bytes "abc") =
  rfc2104_hmac (@sha256 toy_sha256) (replicate 32 Byte.x07) (str_bytes "abc").
Proof. apply (@hmac_sha256_is_rfc2104 toy_sha256). reflexivity. Defined.

Record context_in_range (c : SnapshotTagContext) : Prop := {
  cir_profile : tc_profile_id c < 2 ^ 128;
  cir_group : tc_account_group_id c < 2 ^ 128;
  cir_operation : tc_operation_id c < 2 ^ 128;
  cir_sequence : tc_operation_sequence c < 2 ^ 64;
  cir_base : tc_base_vault_sequence c < 2 ^ 64;
}.

(** What the tag authenticates is unambiguous: two snapshots with the same
    authenticated bytes are the same snapshot, of the same profile, group,
    operation, operation sequence and base vault sequence. *)
Theorem tag_input_injective c1 c2 s1 s2 :
  context_in_range c1 -> context_in_range c2 -> tag_input c1 s1 = tag_input c2 s2 -> c1 = c2 /\ s1 = s2.
Proof.
  intros [] [] Heq. unfold tag_input, uuid_as_bytes in Heq.
  apply app_inv_head in Heq.
  apply app_inj_1 in Heq as [H1 Heq]; [|by rewrite !length_be_bytes].
  apply app_inj_1 in Heq as [H2 Heq]; [|by rewrite !length_be_bytes].
  apply app_inj_1 in Heq as [H3 Heq]; [|by rewrite !length_be_bytes].
  apply app_inj_1 in Heq as [H4 Heq]; [|by rewrite !length_le_bytes].
  apply app_inj_1 in Heq as [H5 Heq]; [|by rewrite !length_le_bytes].
  split; [|done].
  apply (f_equal be_value) in H1, H2, H3. apply (f_equal le_value) in H4, H5.
  rewrite !be_value_be_bytes in H1, H2, H3 by assumption. rewrite !le_value_le_bytes in H4, H5 by assumption.
  destruct c1, c2; cbn in *; congruence.
Qed.

Definition example_context : SnapshotTagContext := mkTagContext 3 77 5 1 4.

Lemma tag_input_injective_witness : example_context = example_context /\ str_bytes "[]" = str_bytes "[]".
Proof. apply tag_input_injective; [split; reflexivity..|reflexivity]. Defined.
