(* ===== verification/Coordinator.v ===== *)
(** * operation/coordinator.rs: operations, snapshots and the vault together

    The coordinator writes the snapshot binding to the journal before it lets
    the vault be replaced, moves the operation through its phases, and decides
    after a restart what became of an interrupted operation. *)

From S2P Require Import Prelude World External Examples AtomicFile Config Messages VaultFormat Capability VaultStore Transaction Paths OpModel OpJournal OpRecovery.

Record StartupRecovery := mkStartupRecovery {
  needs_reconciliation : bool;
  committed_operation_id : option Uuid;
  committed_vault_sequence : option N;
}.

Record OperationCoordinator := mkCoordinator {
  oc_journal : OperationJournalStore;
  oc_tagger : SnapshotTagger;
  oc_profile_id : option Uuid;
}.

Definition set_oc_journal (j : OperationJournalStore) (c : OperationCoordinator) : OperationCoordinator :=
  mkCoordinator j (oc_tagger c) (oc_profile_id c).

Definition set_oc_profile_id (p : option Uuid) (c : OperationCoordinator) : OperationCoordinator :=
  mkCoordinator (oc_journal c) (oc_tagger c) p.

(** A method call on the journal field. *)
Definition on_journal {T} (m : M OperationJournalStore T) : M OperationCoordinator T :=
  zoom oc_journal set_oc_journal m.

Definition journal_of (c : OperationCoordinator) : OperationJournal := ojs_journal (oc_journal c).

Section Coordinator.
Context `{UT : UuidText, SH : Sha256, AE : Aead, LS : LocalSecret, SP : Serde VaultPayload,
  JB : Serde BoundRequest, JJ : Serde OperationJournal}.

(** [OperationCoordinator::open]. *)
Definition open_coordinator (paths : DataPaths) (account_group_id : Uuid) : IO OperationCoordinator :=
  journal_exists ← operation_journals_exist paths;
  tagger ← load_or_create_tagger (dp_snapshot_integrity_key paths) journal_exists;
  journal ← open_journal (operation_journal_path paths account_group_id) account_group_id;
  mret (mkCoordinator journal tagger None).

(** [set_profile_id]. *)
Definition set_profile_id (profile_id : Uuid) : M OperationCoordinator unit :=
  self ← get;
  _ ← guard_not (uuid_is_nil profile_id) (Protocol "profile id must not be nil");
  _ ← guard_not (match oc_profile_id self with Some existing => negb (existing =? profile_id) | None => false end)
        (Protocol "operation coordinator profile binding changed");
  put (set_oc_profile_id (Some profile_id) self).

(** [has_unresolved], [operation], [operation_by_attempt], [sequence_high_water],
    [completed_projection]. *)
Definition has_unresolved (self : OperationCoordinator) : bool :=
  existsb (fun o => negb (is_terminal (phase o))) (operations (journal_of self)).

Definition coordinator_operation (self : OperationCoordinator) (id : Uuid) : option JournalOperation :=
  find_operation id (journal_of self).

Definition operation_by_attempt (self : OperationCoordinator) (attempt : Uuid) : option JournalOperation :=
  List.find (fun o => bool_decide (attempt_id o = Some attempt)) (operations (journal_of self)).

Definition journal_high_water (self : OperationCoordinator) : N := sequence_high_water (journal_of self).

Definition completed_projection (self : OperationCoordinator) (id : Uuid) : option JournalOperation :=
  match find_operation id (journal_of self) with
  | Some o => if bool_decide (phase o = Phase.Completed) then Some o else None
  | None => None
  end.

(** [begin_v6]. *)
Definition begin_v6 (id : Uuid) (kind : OperationKind) (lease_id : option Uuid) (reason : string) (base : N)
    : M OperationCoordinator JournalOperation :=
  self ← get;
  _ ← guard_not (bool_decide (find_operation id (journal_of self) = None) && has_unresolved self)
        (Protocol "another durable operation is unresolved for this group");
  begun ← on_journal (begin (mkRequest id None kind lease_id reason base));
  match begun with Created operation | Duplicate operation => mret operation end.

(** [issue_v7]. *)
Definition issue_v7 (attempt : Uuid) (kind : OperationKind) (lease_id : option Uuid) (reason : string) (base : N)
    : M OperationCoordinator JournalOperation :=
  self ← get;
  _ ← guard_not (has_unresolved self) (Protocol "another durable operation is unresolved for this group");
  id ← io new_v4;
  begun ← on_journal (begin (mkRequest id (Some attempt) kind lease_id reason base));
  match begun with
  | Created operation => mret operation
  | Duplicate _ => throw (Format "host-issued operation id collided")
  end.

(** The tag context of an operation of this coordinator. *)
Definition tag_context (self : OperationCoordinator) (profile id seq base : N) : SnapshotTagContext :=
  mkTagContext profile (account_group_id (journal_of self)) id seq base.

(** [verify_snapshot]. *)
Definition verify_snapshot (self : OperationCoordinator) (id seq attempt : N) (canonical_snapshot : bytes)
    : FcpResult bool :=
  operation ← ok_or (find_operation id (journal_of self)) (Protocol "unknown operation id");
  _ ← guard_err (negb (sequence operation =? seq) || bool_decide (attempt_id operation <> Some attempt))
        (Protocol "operation sequence or attempt binding mismatch");
  profile ← ok_or (oc_profile_id self)
              (Protocol "operation coordinator has no handshake profile binding");
  expected ← ok_or (snapshot operation) (Protocol "operation has no committed snapshot binding");
  let actual := tag (oc_tagger self) (tag_context self profile id seq (base_vault_sequence operation))
                  canonical_snapshot in
  Ok (bool_decide (actual = sb_snapshot_tag expected)).

(** The operations that are not in a terminal phase, in journal order. *)
Definition active_ids (j : OperationJournal) : list Uuid :=
  operation_id <$> List.filter (fun o => negb (is_terminal (phase o))) (operations j).

(** One turn of the loop of [prepare_for_v6_reconciliation]. *)
Definition reconcile_operation (vault_path : Path) (id : Uuid) : M OperationCoordinator unit :=
  found ← on_journal (operation id);
  operation ← unwrap found;
  _ ← (if bool_decide (is_Some (snapshot operation)) && is_precommit (phase operation)
       then _ ← on_journal (recover_vault_phase id vault_path); mret tt
       else mret tt);
  found ← on_journal (OpJournal.operation id);
  operation ← unwrap found;
  let terminal := if bool_decide (phase operation = Phase.NotCommitted) then Phase.Aborted
                  else Phase.ReconciliationRequired in
  on_journal (transition id terminal).

(** [prepare_for_v6_reconciliation]. *)
Definition prepare_for_v6_reconciliation (vault_path : Path) : M OperationCoordinator unit :=
  self ← get;
  for_each (active_ids (journal_of self)) (reconcile_operation vault_path).

(** The binding [commit_snapshot] records. *)
Definition snapshot_binding (self : OperationCoordinator) (profile : Uuid) (operation : JournalOperation)
    (id : Uuid) (canonical_snapshot : bytes) (cookie_count : N) (prepared : PreparedVaultWrite)
    : SnapshotBinding :=
  mkBinding
    (tag (oc_tagger self) (tag_context self profile id (sequence operation) (base_vault_sequence operation))
       canonical_snapshot)
    (pv_previous_digest prepared) (pv_target_digest prepared) (pv_vault_sequence prepared)
    cookie_count (len canonical_snapshot).

(** [commit_snapshot]. *)
Definition commit_snapshot (id : Uuid) (canonical_snapshot : bytes) (cookie_count : N)
    (prepared : PreparedVaultWrite) (transactions : VaultTransactions) : M OperationCoordinator N :=
  self ← get;
  operation ← ok_or_throw (find_operation id (journal_of self)) (Protocol "unknown operation id");
  profile ← ok_or_throw (oc_profile_id self)
              (Protocol "operation coordinator has no handshake profile binding");
  _ ← guard_not (u64_max <? len canonical_snapshot) (Protocol "snapshot byte length exceeds u64");
  let vault_sequence := pv_vault_sequence prepared in
  _ ← on_journal (bind_snapshot id
        (snapshot_binding self profile operation id canonical_snapshot cookie_count prepared));
  _ ← on_journal (transition id Phase.DurabilityUnknown);
  written ← io (commit_prepared transactions prepared);
  match written with
  | Ok DurableWrite.Committed =>
      _ ← on_journal (transition id Phase.Committed);
      mret vault_sequence
  | Ok other => throw (Format ("unexpected successful vault write result " +:+ durable_write_debug other))
  | Err failure =>
      if bool_decide (dwf_result failure = DurableWrite.DurabilityUnknown) then
        classification ← on_journal (recover_vault_phase id (vault_path transactions));
        match classification with
        | Recovery.Committed => mret vault_sequence
        | Recovery.NotCommitted => throw (dwf_error failure)
        | Recovery.ReconciliationRequired =>
            throw (Format "vault durability could not be classified")
        end
      else
        _ ← on_journal (transition id Phase.NotCommitted);
        throw (dwf_error failure)
  end.

(** [mark_external_result_pending], [complete], [abort],
    [require_reconciliation]. *)
Definition mark_external_result_pending (id : Uuid) : M OperationCoordinator unit :=
  on_journal (transition id Phase.BrowserRemovalPending).
Definition complete (id : Uuid) : M OperationCoordinator unit := on_journal (transition id Phase.Completed).
Definition abort (id : Uuid) : M OperationCoordinator unit := on_journal (transition id Phase.Aborted).
Definition require_reconciliation (id : Uuid) : M OperationCoordinator unit :=
  on_journal (transition id Phase.ReconciliationRequired).

(** One turn of the loop of [startup_recover]. *)
Definition recover_operation (vault_path : Path) (id : Uuid) (recovery : StartupRecovery)
    : M OperationCoordinator StartupRecovery :=
  let recovery := mkStartupRecovery true (committed_operation_id recovery) (committed_vault_sequence recovery) in
  found ← on_journal (operation id);
  operation ← unwrap found;
  if bool_decide (snapshot operation = None) then
    _ ← on_journal (transition id Phase.Aborted);
    mret recovery
  else
    classification ← on_journal (recover_vault_phase id vault_path);
    match classification with
    | Recovery.NotCommitted => _ ← on_journal (transition id Phase.Aborted); mret recovery
    | Recovery.Committed =>
        found ← on_journal (OpJournal.operation id);
        snapshot ← unwrap (match found with Some value => snapshot value | None => None end);
        mret (mkStartupRecovery true (Some id) (Some (sb_target_vault_sequence snapshot)))
    | Recovery.ReconciliationRequired => mret recovery
    end.

Fixpoint recover_operations (vault_path : Path) (ids : list Uuid) (recovery : StartupRecovery)
    : M OperationCoordinator StartupRecovery :=
  match ids with
  | [] => mret recovery
  | id :: rest =>
      recovery ← recover_operation vault_path id recovery;
      recover_operations vault_path rest recovery
  end.

(** [startup_recover]. *)
Definition startup_recover (vault_path : Path) : M OperationCoordinator StartupRecovery :=
  self ← get;
  recover_operations vault_path (active_ids (journal_of self)) (mkStartupRecovery false None None).
End Coordinator.

(** ** The commit protocol on the journal *)

Section Protocol.
Context `{SH : Sha256, JB : Serde BoundRequest, JJ : Serde OperationJournal}.

(** The journal on disk continues the one in memory, by a relation [R] on
    journals. *)
Definition disk_reach (R : OperationJournal -> OperationJournal -> Prop) (s : OperationJournalStore)
    (w w' : World) : Prop :=
  agree_off (writer_files (ojs_path s)) w w' /\
  exists j', stored (ojs_account_group_id s) (ojs_path s) j' w' /\ R (ojs_journal s) j'.

Lemma stored_same_file group path j w w' :
  file_at w' path = file_at w path -> stored group path j w -> stored group path j w'.
Proof. intros Hf [Hv Hb]. split; [done|]. by rewrite Hf. Qed.

Lemma disk_next_reach R s n w w' :
  Reflexive R -> (jstep (ojs_account_group_id s) (ojs_journal s) n -> R (ojs_journal s) n) ->
  stored (ojs_account_group_id s) (ojs_path s) (ojs_journal s) w -> disk_next s n w w' -> disk_reach R s w w'.
Proof.
  intros HR Hn Hst [Ha [Hf|[Hj Hst']]]; (split; [done|]).
  - exists (ojs_journal s). split; [by eapply stored_same_file|done].
  - exists n. auto.
Qed.

Lemma disk_reach_after R s j1 w w1 w' :
  Transitive R -> R (ojs_journal s) j1 -> agree_off (writer_files (ojs_path s)) w w1 ->
  disk_reach R (set_ojs_journal j1 s) w1 w' -> disk_reach R s w w'.
Proof.
  intros HR Hr Ha [Ha' (j' & Hst & Hr')]. split; [by eapply agree_off_trans|].
  exists j'. split; [done|by etrans].
Qed.

(** Along [j] to [j'] the operation may have received the binding [b], and its
    phase has stayed before the commit. *)
Definition held (id : Uuid) (b : SnapshotBinding) (j j' : OperationJournal) : Prop :=
  forall o', find_operation id j' = Some o' -> exists o, find_operation id j = Some o /\
    (snapshot o' = snapshot o \/ snapshot o' = Some b) /\
    (is_precommit (phase o) = true -> is_precommit (phase o') = true).

Definition held_steps (group id : Uuid) (b : SnapshotBinding) (j j' : OperationJournal) : Prop :=
  rtc (jstep group) j j' /\ held id b j j'.

#[export] Instance held_steps_preorder group id b : PreOrder (held_steps group id b).
Proof.
  split.
  - intros j. split; [done|]. intros o Ho. exists o. auto.
  - intros j1 j2 j3 [H12 K12] [H23 K23]. split; [by etrans|].
    intros o3 Ho3. destruct (K23 _ Ho3) as (o2 & Ho2 & Hs2 & Hp2). destruct (K12 _ Ho2) as (o1 & Ho1 & Hs1 & Hp1).
    exists o1. split; [done|]. split; [|auto]. destruct Hs2 as [->|]; auto.
Qed.

Lemma held_assign group id b j f :
  (forall o, operation_id (f o) = operation_id o) ->
  (forall o, find_operation id j = Some o ->
     (snapshot (f o) = snapshot o \/ snapshot (f o) = Some b) /\
     (is_precommit (phase o) = true -> is_precommit (phase (f o)) = true)) ->
  jstep group j (assign id f j) -> held_steps group id b j (assign id f j).
Proof.
  intros Hid Hf Hj. split; [by apply rtc_once|]. intros o' Ho'.
  destruct (find_operation id j) as [o|] eqn:Ho.
  - rewrite (find_assign_eq _ _ Hid _ _ Ho) in Ho'. injection Ho' as <-. exists o. split; [done|by apply Hf].
  - by rewrite find_assign_none in Ho'.
Qed.

(** Moving an operation forward from a stored journal. *)
Lemma wp_transition_stored R id p (Q : unit -> OperationJournalStore -> World -> Prop)
    (E : FcpError -> OperationJournalStore -> World -> Prop) (C : World -> Prop) s w :
  PreOrder R ->
  (jstep (ojs_account_group_id s) (ojs_journal s) (assign id (with_phase p) (ojs_journal s)) ->
   R (ojs_journal s) (assign id (with_phase p) (ojs_journal s))) ->
  stored (ojs_account_group_id s) (ojs_path s) (ojs_journal s) w ->
  (forall o j' w', find_operation id (ojs_journal s) = Some o -> R (ojs_journal s) j' ->
     stored (ojs_account_group_id s) (ojs_path s) j' w' ->
     agree_off (writer_files (ojs_path s)) w w' ->
     find_operation id j' = Some (with_phase p o) ->
     (forall id', id' <> id -> find_operation id' j' = find_operation id' (ojs_journal s)) ->
     Q tt (set_ojs_journal j' s) w') ->
  (forall e s' w', disk_reach R s w w' -> E e s' w') ->
  (forall w', disk_reach R s w w' -> C w') ->
  wp (transition id p) Q E C s w.
Proof.
  intros HR Hstep Hst HQ HE HC. apply wp_transition.
  - intros o Ho Hp. replace s with (set_ojs_journal (ojs_journal s) s) at 1 by (by destruct s).
    eapply HQ; [exact Ho|done|done|apply agree_off_refl| |done]. rewrite Ho. f_equal. subst p. by destruct o.
  - intros o w' j' Ho Hcan -> Hj Ha Hst'.
    eapply HQ; [exact Ho|by apply Hstep|done|done|by apply find_assign_eq|].
    intros id' Hne. by apply find_assign_ne.
  - intros e w' Hd. eapply HE, disk_next_reach; [apply _|exact Hstep|exact Hst|exact Hd].
  - intros w' Hd. eapply HC, disk_next_reach; [apply _|exact Hstep|exact Hst|exact Hd].
Qed.

(** Write-ahead: the binding and the phase [DurabilityUnknown] are on disk. *)
Lemma wp_stage_commit id b (Q : unit -> OperationJournalStore -> World -> Prop)
    (E : FcpError -> OperationJournalStore -> World -> Prop) (C : World -> Prop) s w :
  stored (ojs_account_group_id s) (ojs_path s) (ojs_journal s) w ->
  (forall j' o' w', held_steps (ojs_account_group_id s) id b (ojs_journal s) j' ->
     stored (ojs_account_group_id s) (ojs_path s) j' w' ->
     agree_off (writer_files (ojs_path s)) w w' ->
     find_operation id j' = Some o' -> phase o' = Phase.DurabilityUnknown -> snapshot o' = Some b ->
     Q tt (set_ojs_journal j' s) w') ->
  (forall e s' w', disk_reach (held_steps (ojs_account_group_id s) id b) s w w' -> E e s' w') ->
  (forall w', disk_reach (held_steps (ojs_account_group_id s) id b) s w w' -> C w') ->
  wp (_ ← bind_snapshot id b; transition id Phase.DurabilityUnknown) Q E C s w.
Proof.
  intros Hst HQ HE HC.
  assert (Hmark : forall j1 o1 w1, held_steps (ojs_account_group_id s) id b (ojs_journal s) j1 ->
    stored (ojs_account_group_id s) (ojs_path s) j1 w1 -> agree_off (writer_files (ojs_path s)) w w1 ->
    find_operation id j1 = Some o1 -> snapshot o1 = Some b ->
    wp (transition id Phase.DurabilityUnknown) Q E C (set_ojs_journal j1 s) w1).
  { intros j1 o1 w1 Hr1 Hst1 Ha1 Ho1 Hb1.
    apply (wp_transition_stored (held_steps (ojs_account_group_id s) id b)); [apply _| |exact Hst1| | |].
    - apply held_assign; [done|]. intros o _. split; [by left|done].
    - intros o j' w' Ho Hr Hst' Ha Ho' _. cbn in Ho, Hr, Hst', Ha. simplify_eq.
      eapply HQ; [by etrans|done|by eapply agree_off_trans|exact Ho'|done|done].
    - intros e s' w' Hd. eapply HE, disk_reach_after; [apply _|exact Hr1|exact Ha1|exact Hd].
    - intros w' Hd. eapply HC, disk_reach_after; [apply _|exact Hr1|exact Ha1|exact Hd]. }
  assert (Hbind : jstep (ojs_account_group_id s) (ojs_journal s) (assign id (with_snapshot (Some b)) (ojs_journal s)) ->
    held_steps (ojs_account_group_id s) id b (ojs_journal s) (assign id (with_snapshot (Some b)) (ojs_journal s))).
  { apply held_assign; [done|]. intros o _. split; [by right|done]. }
  apply wp_bind, wp_bind_snapshot.
  - intros o Ho Hb. replace s with (set_ojs_journal (ojs_journal s) s) at 1 by (by destruct s).
    by eapply Hmark.
  - intros o w' j' Ho Hb -> Hj Ha Hst'.
    eapply Hmark; [by apply Hbind|done|done|by apply find_assign_eq|done].
  - intros e w' Hd. eapply HE, disk_next_reach; [apply _|exact Hbind|exact Hst|exact Hd].
  - intros w' Hd. eapply HC, disk_next_reach; [apply _|exact Hbind|exact Hst|exact Hd].
Qed.
End Protocol.

Section Commit.
Context `{UT : UuidText, SH : Sha256, AE : Aead, LS : LocalSecret, SP : Serde VaultPayload,
  JB : Serde BoundRequest, JJ : Serde OperationJournal}.
Context (tx : VaultTransactions) (prepared : PreparedVaultWrite) (id : Uuid) (c : OperationCoordinator) (w : World).

Let jp := ojs_path (oc_journal c).
Let group := ojs_account_group_id (oc_journal c).

(** The files the commit may touch. *)
Definition commit_files (p : Path) : Prop := writer_files (ojs_path (oc_journal c)) p \/ writer_files (vault_path tx) p.

Definition vault_replaced (w' : World) : Prop :=
  file_at w' (vault_path tx) = Some (pv_bytes prepared) /\
  (pv_commit_required prepared = true -> opens_as (vt_group_id tx) (pv_bytes prepared) (pv_dek prepared)).

(** An interrupted commit is recoverable: the vault has its old content and the
    journal on disk a legal state; or the vault has the new content, and the
    journal on disk already binds the operation to it. *)
Definition recoverable (b : SnapshotBinding) (w' : World) : Prop :=
  agree_off commit_files w w' /\
  exists j', stored (ojs_account_group_id (oc_journal c)) (ojs_path (oc_journal c)) j' w' /\
    rtc (jstep (ojs_account_group_id (oc_journal c))) (journal_of c) j' /\
    ((file_at w' (vault_path tx) = file_at w (vault_path tx) /\ held id b (journal_of c) j') \/
     (vault_replaced w' /\ exists o', find_operation id j' = Some o' /\ snapshot o' = Some b /\
        (phase o' = Phase.DurabilityUnknown \/ phase o' = Phase.Committed))).

Hypothesis disjoint : forall p, writer_files jp p -> ~ writer_files (vault_path tx) p.
Hypothesis journal_stored : stored group jp (journal_of c) w.
Hypothesis prepared_group : pv_group_id prepared = vt_group_id tx.
Hypothesis prepared_digest : pv_target_digest prepared = sha256 (pv_bytes prepared).
Hypothesis prepared_unchanged :
  pv_commit_required prepared = false -> file_at w (vault_path tx) = Some (pv_bytes prepared).

Lemma vault_frame w1 w2 : agree_off (writer_files jp) w1 w2 -> file_at w2 (vault_path tx) = file_at w1 (vault_path tx).
Proof using disjoint.
  intros Ha. eapply agree_off_file; [exact Ha|]. intros Hv. apply (disjoint _ Hv). by left.
Qed.

Lemma journal_frame j w1 w2 :
  agree_off (writer_files (vault_path tx)) w1 w2 -> stored group jp j w1 -> stored group jp j w2.
Proof using disjoint.
  intros Ha. eapply stored_frame; [exact Ha|]. intros Hv. eapply disjoint; [|exact Hv]. by left.
Qed.

Lemma reach_recoverable b w' : disk_reach (held_steps group id b) (oc_journal c) w w' -> recoverable b w'.
Proof using disjoint.
  intros [Ha (j' & Hst & Hr & Hh)]. split; [eapply agree_off_weaken; [exact Ha|]; intros p; by left|].
  exists j'. split_and!; [done..|]. left. split; [by apply vault_frame|done].
Qed.

Lemma wp_commit_prepared (Q : Result DurableWriteFailure DurableWriteResult -> unit -> World -> Prop)
    (E : FcpError -> unit -> World -> Prop) (C : World -> Prop) w1 :
  file_at w1 (vault_path tx) = file_at w (vault_path tx) ->
  (forall w', agree_off (writer_files (vault_path tx)) w1 w' -> vault_replaced w' -> Q (Ok DurableWrite.Committed) tt w') ->
  (forall e w', agree_off (writer_files (vault_path tx)) w1 w' -> vault_replaced w' ->
     Q (Err (mkDurableWriteFailure DurableWrite.DurabilityUnknown e)) tt w') ->
  (forall e w', agree_off (writer_files (vault_path tx)) w1 w' ->
     file_at w' (vault_path tx) = file_at w (vault_path tx) ->
     Q (Err (mkDurableWriteFailure DurableWrite.NotCommitted e)) tt w') ->
  (forall w', agree_off (writer_files (vault_path tx)) w1 w' ->
     file_at w' (vault_path tx) = file_at w (vault_path tx) \/ vault_replaced w' -> C w') ->
  wp (commit_prepared tx prepared) Q E C tt w1.
Proof using prepared_group prepared_unchanged.
  intros Hf HC HD HN HX. unfold commit_prepared.
  destruct (pv_commit_required prepared) eqn:Hreq; cbn [negb].
  - rewrite prepared_group.
    assert (Hrep : forall w', file_at w' (vault_path tx) = Some (pv_bytes prepared) /\
      opens_as (vt_group_id tx) (pv_bytes prepared) (pv_dek prepared) -> vault_replaced w').
    { intros w' [? ?]. by split. }
    apply wp_write_prepared.
    + intros [res|[[] e]] w' Ha Ho; cbn in Ho.
      * destruct Ho as [-> Ho]. apply HC; auto.
      * apply HN; [done|]. etrans; [exact Ho|exact Hf].
      * done.
      * apply HD; auto.
    + intros w' Ha [Ho|Ho]; apply HX; [done|left|done|right; auto]. etrans; [exact Ho|exact Hf].
  - apply wp_ret, HC; [apply agree_off_refl|]. split; [|congruence]. by rewrite Hf, prepared_unchanged.
Qed.

(** A transition after the vault was replaced: the journal on disk binds the
    operation at every point. *)
Lemma wp_commit_phase b j1 o1 (Q : unit -> OperationJournalStore -> World -> Prop)
    (E : FcpError -> OperationJournalStore -> World -> Prop) (C : World -> Prop) w1 :
  stored group jp j1 w1 -> find_operation id j1 = Some o1 -> snapshot o1 = Some b ->
  phase o1 = Phase.DurabilityUnknown ->
  (forall j2 w2, stored group jp j2 w2 -> rtc (jstep group) j1 j2 ->
     agree_off (writer_files jp) w1 w2 ->
     find_operation id j2 = Some (with_phase Phase.Committed o1) -> Q tt (set_ojs_journal j2 (oc_journal c)) w2) ->
  (forall e s' w2, (exists j2 o2, stored group jp j2 w2 /\ rtc (jstep group) j1 j2 /\
     find_operation id j2 = Some o2 /\ snapshot o2 = Some b /\
     (phase o2 = Phase.DurabilityUnknown \/ phase o2 = Phase.Committed)) ->
     agree_off (writer_files jp) w1 w2 -> E e s' w2) ->
  (forall w2, (exists j2 o2, stored group jp j2 w2 /\ rtc (jstep group) j1 j2 /\
     find_operation id j2 = Some o2 /\ snapshot o2 = Some b /\
     (phase o2 = Phase.DurabilityUnknown \/ phase o2 = Phase.Committed)) ->
     agree_off (writer_files jp) w1 w2 -> C w2) ->
  wp (transition id Phase.Committed) Q E C (set_ojs_journal j1 (oc_journal c)) w1.
Proof.
  intros Hst Ho Hb Hp HQ HE HX.
  set (j2 := assign id (with_phase Phase.Committed) j1).
  assert (Hj2 : find_operation id j2 = Some (with_phase Phase.Committed o1)) by (by apply find_assign_eq).
  assert (Hnext : forall w2, disk_next (set_ojs_journal j1 (oc_journal c)) j2 w1 w2 ->
    (exists j3 o3, stored group jp j3 w2 /\ rtc (jstep group) j1 j3 /\
      find_operation id j3 = Some o3 /\ snapshot o3 = Some b /\
      (phase o3 = Phase.DurabilityUnknown \/ phase o3 = Phase.Committed)) /\
    agree_off (writer_files jp) w1 w2).
  { intros w2 [Ha [Hf|[Hj Hst2]]]; (split; [|done]).
    - exists j1, o1. split_and!; [by eapply stored_same_file|done..|by left].
    - exists j2, (with_phase Phase.Committed o1). split_and!; [done|by apply rtc_once|done|done|by right]. }
  apply wp_transition.
  - intros o Ho' Hp'. cbn in Ho'. simplify_eq. congruence.
  - intros o w2 j' Ho' Hcan -> Hj Ha Hst2. cbn in Ho'. simplify_eq.
    apply HQ; [done|by apply rtc_once|done|done].
  - intros e w2 Hd. by apply HE; apply Hnext.
  - intros w2 Hd. by apply HX; apply Hnext.
Qed.
(** The verdict on a replaced vault, in the phase the commit leaves behind. *)
Lemma verdict_replaced b o w' :
  sb_target_vault_digest b = pv_target_digest prepared -> vault_replaced w' ->
  recovery_verdict o b (file_at w' (vault_path tx)) = Recovery.Committed.
Proof using prepared_digest.
  intros Hb [Hf _]. unfold recovery_verdict, object_status. rewrite Hf, Hb, prepared_digest.
  by rewrite bool_decide_true.
Qed.

Lemma commit_files_vault w1 w2 : agree_off (writer_files (vault_path tx)) w1 w2 -> agree_off commit_files w1 w2.
Proof. intros Ha. eapply agree_off_weaken; [exact Ha|]. intros p. by right. Qed.

Lemma commit_files_journal w1 w2 : agree_off (writer_files jp) w1 w2 -> agree_off commit_files w1 w2.
Proof. intros Ha. eapply agree_off_weaken; [exact Ha|]. intros p. by left. Qed.

Lemma vault_replaced_frame w1 w2 :
  agree_off (writer_files jp) w1 w2 -> vault_replaced w1 -> vault_replaced w2.
Proof using disjoint. intros Ha [Hf Ho]. split; [|done]. by rewrite (vault_frame _ _ Ha). Qed.

(** The state once the vault has been replaced, with the journal binding it. *)
Definition committed_state (b : SnapshotBinding) (c' : OperationCoordinator) (w' : World) : Prop :=
  agree_off commit_files w w' /\ vault_replaced w' /\
  oc_tagger c' = oc_tagger c /\ oc_profile_id c' = oc_profile_id c /\
  ojs_path (oc_journal c') = jp /\ ojs_account_group_id (oc_journal c') = group /\
  stored group jp (journal_of c') w' /\
  rtc (jstep group) (journal_of c) (journal_of c') /\
  exists o', find_operation id (journal_of c') = Some o' /\ snapshot o' = Some b /\ phase o' = Phase.Committed.

(** The steps of the commit after the write-ahead. *)
Lemma wp_commit_write b o1 j1 (Q : N -> OperationCoordinator -> World -> Prop)
    (E : FcpError -> OperationCoordinator -> World -> Prop) (C : World -> Prop) w1 :
  sb_target_vault_digest b = pv_target_digest prepared ->
  held_steps group id b (journal_of c) j1 -> stored group jp j1 w1 -> agree_off (writer_files jp) w w1 ->
  find_operation id j1 = Some o1 -> phase o1 = Phase.DurabilityUnknown -> snapshot o1 = Some b ->
  (forall c' w', committed_state b c' w' -> Q (pv_vault_sequence prepared) c' w') ->
  (forall e c' w', recoverable b w' -> E e c' w') ->
  (forall w', recoverable b w' -> C w') ->
  wp (written ← io (commit_prepared tx prepared);
      match written with
      | Ok DurableWrite.Committed =>
          _ ← on_journal (transition id Phase.Committed);
          mret (pv_vault_sequence prepared)
      | Ok other => throw (Format ("unexpected successful vault write result " +:+ durable_write_debug other))
      | Err failure =>
          if bool_decide (dwf_result failure = DurableWrite.DurabilityUnknown) then
            classification ← on_journal (recover_vault_phase id (vault_path tx));
            match classification with
            | Recovery.Committed => mret (pv_vault_sequence prepared)
            | Recovery.NotCommitted => throw (dwf_error failure)
            | Recovery.ReconciliationRequired => throw (Format "vault durability could not be classified")
            end
          else
            _ ← on_journal (transition id Phase.NotCommitted);
            throw (dwf_error failure)
      end) Q E C (set_oc_journal (set_ojs_journal j1 (oc_journal c)) c) w1.
Proof using disjoint prepared_group prepared_digest prepared_unchanged.
  intros Hb [Hr1 Hh1] Hst1 Ha1 Ho1 Hp1 Hs1 HQ HE HX.
  assert (Hv1 : file_at w1 (vault_path tx) = file_at w (vault_path tx)) by (by apply vault_frame).
  assert (Hbound : forall w2 w3, agree_off (writer_files (vault_path tx)) w1 w2 -> vault_replaced w2 ->
    (exists j3 o3, stored group jp j3 w3 /\ rtc (jstep group) j1 j3 /\ find_operation id j3 = Some o3 /\
       snapshot o3 = Some b /\ (phase o3 = Phase.DurabilityUnknown \/ phase o3 = Phase.Committed)) ->
    agree_off (writer_files jp) w2 w3 -> recoverable b w3).
  { intros w2 w3 H12 Hrep (j3 & o3 & Hst3 & Hr3 & Ho3 & Hs3 & Hp3) H23. split.
    - eapply agree_off_trans; [by apply commit_files_journal|].
      eapply agree_off_trans; [by apply commit_files_vault|by apply commit_files_journal].
    - exists j3. split_and!; [done|by etrans|]. right. split; [by eapply vault_replaced_frame|]. by exists o3. }
  assert (Hcommitted : forall w2 w3 j3, agree_off (writer_files (vault_path tx)) w1 w2 -> vault_replaced w2 ->
    stored group jp j3 w3 -> rtc (jstep group) j1 j3 -> agree_off (writer_files jp) w2 w3 ->
    find_operation id j3 = Some (with_phase Phase.Committed o1) ->
    committed_state b (set_oc_journal (set_ojs_journal j3 (oc_journal c)) c) w3).
  { intros w2 w3 j3 H12 Hrep Hst3 Hr3 H23 Ho3. split_and!; [|by eapply vault_replaced_frame|done|done|done|done|done|by etrans|].
    - eapply agree_off_trans; [by apply commit_files_journal|].
      eapply agree_off_trans; [by apply commit_files_vault|by apply commit_files_journal].
    - by eexists. }
  apply wp_bind, wp_io, wp_commit_prepared; [done| | | |].
  - intros w2 H12 Hrep. apply wp_bind, wp_zoom. cbn [oc_journal set_oc_journal].
    eapply wp_commit_phase; [by eapply journal_frame|exact Ho1|exact Hs1|exact Hp1| | |].
    + intros j3 w3 Hst3 Hr3 H23 Ho3. apply wp_ret, HQ. by eapply Hcommitted.
    + intros e s' w3 Hd H23. by eapply HE, Hbound.
    + intros w3 Hd H23. by eapply HX, Hbound.
  - intros e w2 H12 Hrep. rewrite bool_decide_true by done.
    apply wp_bind, wp_zoom. cbn [oc_journal set_oc_journal].
    assert (Hst2 : stored group jp j1 w2) by (by eapply journal_frame).
    assert (Hverdict : recovery_verdict o1 b (file_at w2 (vault_path tx)) = Recovery.Committed)
      by (by apply verdict_replaced).
    assert (Hj : recovered_journal id Recovery.Committed o1 j1 = assign id (with_phase Phase.Committed) j1).
    { unfold recovered_journal. rewrite Hp1. done. }
    assert (Ho2 : find_operation id (assign id (with_phase Phase.Committed) j1) = Some (with_phase Phase.Committed o1))
      by (by apply find_assign_eq).
    assert (Hnext : forall w3, disk_next (set_ojs_journal j1 (oc_journal c)) (assign id (with_phase Phase.Committed) j1) w2 w3 ->
      recoverable b w3).
    { intros w3 [H23 Hd]. eapply Hbound; [exact H12|exact Hrep| |exact H23]. destruct Hd as [Hf|[Hstep Hst3]].
      - exists j1, o1. split_and!; [by eapply stored_same_file|done..|by left].
      - eexists _, _. split_and!; [exact Hst3|by apply rtc_once|exact Ho2|done|by right]. }
    eapply wp_recover_vault_phase; [exact Ho1|exact Hs1|exact Hst2| | |]; cbn [ojs_journal set_ojs_journal].
    + intros cl j3 w3 -> -> Hstep H23 Hst3. rewrite Hverdict, Hj in *. apply wp_ret, HQ.
      eapply Hcommitted; [exact H12|exact Hrep|exact Hst3| |exact H23|exact Ho2].
      destruct Hstep as [->|Hstep]; [done|by apply rtc_once].
    + intros e' w3 Hd. rewrite Hverdict, Hj in Hd. by apply HE, Hnext.
    + intros w3 Hd. rewrite Hverdict, Hj in Hd. by apply HX, Hnext.
  - intros e w2 H12 Hf2. rewrite bool_decide_false by done.
    apply wp_bind, wp_zoom. cbn [oc_journal set_oc_journal].
    assert (Hst2 : stored group jp j1 w2) by (by eapply journal_frame).
    assert (Hold : forall j3 w3, agree_off (writer_files jp) w2 w3 -> stored group jp j3 w3 ->
      held_steps group id b j1 j3 -> recoverable b w3).
    { intros j3 w3 H23 Hst3 Hr3. assert (held_steps group id b (journal_of c) j3) as [Hr Hh] by (etrans; [by split|done]). split.
      - eapply agree_off_trans; [by apply commit_files_journal|].
        eapply agree_off_trans; [by apply commit_files_vault|by apply commit_files_journal].
      - exists j3. split_and!; [done..|]. left. split; [|done]. etrans; [by apply vault_frame|done]. }
    apply (wp_transition_stored (held_steps group id b)); [apply _| |exact Hst2| | |].
    + apply held_assign; [done|]. intros o _. split; [by left|done].
    + intros o j3 w3 _ Hr3 Hst3 H23 _ _. apply wp_throw, HE. by eapply Hold.
    + intros e' s' w3 [H23 (j3 & Hst3 & Hr3)]. apply HE. by eapply Hold.
    + intros w3 [H23 (j3 & Hst3 & Hr3)]. apply HX. by eapply Hold.
  - intros w2 H12 Hv2. apply HX.
    assert (Hst2 : stored group jp j1 w2) by (by eapply journal_frame).
    split; [eapply agree_off_trans; [by apply commit_files_journal|by apply commit_files_vault]|].
    exists j1. split_and!; [done..|]. destruct Hv2 as [Hv2|Hrep]; [left; by split|right].
    split; [done|]. exists o1. split_and!; [done..|by left].
Qed.

Lemma wp_commit_snapshot canonical cookie_count (Q : N -> OperationCoordinator -> World -> Prop)
    (E : FcpError -> OperationCoordinator -> World -> Prop) (C : World -> Prop) :
  (forall b c' w', sb_target_vault_digest b = pv_target_digest prepared ->
     sb_target_vault_sequence b = pv_vault_sequence prepared ->
     sb_previous_vault_digest b = pv_previous_digest prepared ->
     committed_state b c' w' -> Q (pv_vault_sequence prepared) c' w') ->
  (forall e c' w', (exists b, sb_target_vault_digest b = pv_target_digest prepared /\
     sb_target_vault_sequence b = pv_vault_sequence prepared /\
     sb_previous_vault_digest b = pv_previous_digest prepared /\ recoverable b w') -> E e c' w') ->
  (forall w', (exists b, sb_target_vault_digest b = pv_target_digest prepared /\
     sb_target_vault_sequence b = pv_vault_sequence prepared /\
     sb_previous_vault_digest b = pv_previous_digest prepared /\ recoverable b w') -> C w') ->
  wp (commit_snapshot id canonical cookie_count prepared tx) Q E C c w.
Proof using disjoint journal_stored prepared_group prepared_digest prepared_unchanged.
  intros HQ HE HX. unfold commit_snapshot.
  set (b0 := mkBinding [] (pv_previous_digest prepared) (pv_target_digest prepared) (pv_vault_sequence prepared) 0 0).
  assert (Hnow : recoverable b0 w).
  { apply reach_recoverable. split; [apply agree_off_refl|]. exists (ojs_journal (oc_journal c)). by split. }
  apply wp_bind, wp_get, wp_bind, wp_ok_or_throw.
  destruct (find_operation id (journal_of c)) as [o|]; [|apply HE; by exists b0].
  apply wp_bind, wp_ok_or_throw.
  destruct (oc_profile_id c) as [profile|] eqn:Hprofile; [|apply HE; by exists b0].
  apply wp_bind, wp_guard_not. destruct (_ <? _); [apply HE; by exists b0|].
  set (b := snapshot_binding c profile o id canonical cookie_count prepared).
  assert (Hb : sb_target_vault_digest b = pv_target_digest prepared /\
    sb_target_vault_sequence b = pv_vault_sequence prepared /\
    sb_previous_vault_digest b = pv_previous_digest prepared) by done.
  destruct Hb as (Hb1 & Hb2 & Hb3).
  assert (Hreach : forall w', disk_reach (held_steps group id b) (oc_journal c) w w' -> exists b, sb_target_vault_digest b = pv_target_digest prepared /\
    sb_target_vault_sequence b = pv_vault_sequence prepared /\
    sb_previous_vault_digest b = pv_previous_digest prepared /\ recoverable b w').
  { intros w' Hd. exists b. split_and!; [done..|]. by apply reach_recoverable. }
  pose proof (wp_stage_commit id b
    (fun _ s' w1 => exists j1 o1, s' = set_ojs_journal j1 (oc_journal c) /\
       held_steps group id b (journal_of c) j1 /\ stored group jp j1 w1 /\ agree_off (writer_files jp) w w1 /\
       find_operation id j1 = Some o1 /\ phase o1 = Phase.DurabilityUnknown /\ snapshot o1 = Some b)
    (fun _ _ w' => disk_reach (held_steps group id b) (oc_journal c) w w')
    (fun w' => disk_reach (held_steps group id b) (oc_journal c) w w') (oc_journal c) w journal_stored) as Hstage.
  unfold wp in Hstage. unfold mbind, M_bind in Hstage.
  specialize (Hstage ltac:(intros j' o' w' **; by exists j', o') ltac:(by intros) ltac:(by intros)).
  apply wp_bind. unfold on_journal at 1, wp at 1, zoom.
  destruct (bind_snapshot id b (oc_journal c) w) as [[] s1 w1|e s1 w1|w1|w1]; cbn [outcome_sat] in Hstage |- *;
    [|by apply HE, Hreach|done|by apply HX, Hreach].
  apply wp_bind. unfold on_journal at 1, wp at 1, zoom. cbn [oc_journal set_oc_journal].
  destruct (transition id Phase.DurabilityUnknown s1 w1) as [[] s2 w2|e s2 w2|w2|w2];
    cbn [outcome_sat] in Hstage |- *; [|by apply HE, Hreach|done|by apply HX, Hreach].
  destruct Hstage as (j1 & o1 & -> & Hr1 & Hst1 & Ha1 & Ho1 & Hp1 & Hs1).
  eapply (wp_commit_write b o1 j1); try done.
  - intros c' w' Hc. by apply (HQ b).
  - intros e c' w' Hrec. apply HE. by exists b.
  - intros w' Hrec. apply HX. by exists b.
Qed.
End Commit.

(** ** Recovery at startup *)

Section Startup.
Context `{SH : Sha256, JB : Serde BoundRequest, JJ : Serde OperationJournal}.
Context (vp : Path).

(** The phase [startup_recover] leaves an operation in, from the vault's content. *)
Definition startup_phase (vault : option bytes) (o : JournalOperation) : OperationPhase :=
  if is_terminal (phase o) then phase o
  else match snapshot o with
  | None => Phase.Aborted
  | Some b =>
      match recovery_verdict o b vault with
      | Recovery.NotCommitted => Phase.Aborted
      | Recovery.Committed => recovery_target_phase Recovery.Committed (phase o)
      | Recovery.ReconciliationRequired => Phase.ReconciliationRequired
      end
  end.

(** What one turn reports. *)
Definition report (vault : option bytes) (id : Uuid) (o : JournalOperation) (r : StartupRecovery) : StartupRecovery :=
  match snapshot o with
  | None => mkStartupRecovery true (committed_operation_id r) (committed_vault_sequence r)
  | Some b =>
      match recovery_verdict o b vault with
      | Recovery.Committed => mkStartupRecovery true (Some id) (Some (sb_target_vault_sequence b))
      | _ => mkStartupRecovery true (committed_operation_id r) (committed_vault_sequence r)
      end
  end.

Definition settled (vault : option bytes) (id : Uuid) (o : JournalOperation) (j j' : OperationJournal) : Prop :=
  find_operation id j' = Some (with_phase (startup_phase vault o) o) /\
  forall id', id' <> id -> find_operation id' j' = find_operation id' j.

Lemma wp_recover_operation id o r (Q : StartupRecovery -> OperationCoordinator -> World -> Prop)
    (E : FcpError -> OperationCoordinator -> World -> Prop) (C : World -> Prop) c w :
  (forall p, writer_files (ojs_path (oc_journal c)) p -> p <> vp) ->
  stored (ojs_account_group_id (oc_journal c)) (ojs_path (oc_journal c)) (journal_of c) w ->
  find_operation id (journal_of c) = Some o -> is_terminal (phase o) = false ->
  (forall j' w', agree_off (writer_files (ojs_path (oc_journal c))) w w' ->
     stored (ojs_account_group_id (oc_journal c)) (ojs_path (oc_journal c)) j' w' ->
     rtc (jstep (ojs_account_group_id (oc_journal c))) (journal_of c) j' ->
     settled (file_at w vp) id o (journal_of c) j' ->
     Q (report (file_at w vp) id o r) (set_oc_journal (set_ojs_journal j' (oc_journal c)) c) w') ->
  (forall e c' w', disk_reach (rtc (jstep (ojs_account_group_id (oc_journal c)))) (oc_journal c) w w' -> E e c' w') ->
  (forall w', disk_reach (rtc (jstep (ojs_account_group_id (oc_journal c)))) (oc_journal c) w w' -> C w') ->
  wp (recover_operation vp id r) Q E C c w.
Proof.
  intros Hdis Hst Ho Hact HQ HE HC. unfold recover_operation, report in *.
  apply wp_bind, wp_zoom, wp_operation. change (ojs_journal (oc_journal c)) with (journal_of c). rewrite Ho.
  replace (set_oc_journal (oc_journal c) c) with c by (by destruct c).
  apply wp_bind. eapply wp_unwrap; [done|].
  destruct (snapshot o) as [b|] eqn:Hs; [rewrite bool_decide_false by done|rewrite bool_decide_true by done].
  2: { apply wp_bind, wp_zoom, (wp_transition_stored (rtc (jstep (ojs_account_group_id (oc_journal c)))));
      [apply _|apply rtc_once|exact Hst| |by auto..].
    intros o' j' w' Ho' Hr Hst' Ha Hf Hne. change (ojs_journal (oc_journal c)) with (journal_of c) in *. simplify_eq.
    apply wp_ret, HQ; [done..|]. split; [|done]. unfold startup_phase. by rewrite Hact, Hs. }
  set (vault := file_at w vp) in *. set (verdict := recovery_verdict o b vault) in *.
  assert (Hsettled : forall j', find_operation id j' = Some (with_phase (startup_phase vault o) o) ->
    (forall id', id' <> id -> find_operation id' j' = find_operation id' (journal_of c)) ->
    settled vault id o (journal_of c) j') by (by split).
  assert (Hphase : startup_phase vault o = match verdict with
      | Recovery.NotCommitted => Phase.Aborted
      | Recovery.Committed => recovery_target_phase Recovery.Committed (phase o)
      | Recovery.ReconciliationRequired => Phase.ReconciliationRequired end)
    by (unfold startup_phase; by rewrite Hact, Hs).
  apply wp_bind, wp_zoom, (wp_recover_vault_phase _ _ o b); [exact Ho|exact Hs|exact Hst| | |].
  2: { intros e w' Hd. eapply HE, disk_next_reach; [apply _|apply rtc_once|exact Hst|exact Hd]. }
  2: { intros w' Hd. eapply HC, disk_next_reach; [apply _|apply rtc_once|exact Hst|exact Hd]. }
  intros verdict' j' w' Hverdict -> Hj Ha Hst'. fold vault verdict in Hverdict. subst verdict'.
  change (ojs_journal (oc_journal c)) with (journal_of c) in *.
  assert (Hr : rtc (jstep (ojs_account_group_id (oc_journal c))) (journal_of c) (recovered_journal id verdict o (journal_of c)))
    by (destruct Hj as [->|Hj]; [done|by apply rtc_once]).
  pose proof (find_recovered id verdict o (journal_of c) Ho) as Hf.
  destruct verdict eqn:Hv.
  - apply wp_bind, wp_zoom, (wp_transition_stored (rtc (jstep (ojs_account_group_id (oc_journal c)))));
      [apply _|apply rtc_once|exact Hst'| | |].
    + intros o' j2 w2 Ho' Hr2 Hst2 Ha2 Hf2 Hne2. cbn in Ho', Hst2, Hr2, Ha2, Hne2. rewrite Hf in Ho'. injection Ho' as <-.
      apply wp_ret.
      replace (set_oc_journal _ (set_oc_journal _ c)) with (set_oc_journal (set_ojs_journal j2 (oc_journal c)) c) by done.
      apply HQ; [by eapply agree_off_trans|done|by etrans|]. apply Hsettled; [by rewrite Hphase|].
      intros id' Hne. rewrite Hne2 by done. by apply find_recovered_ne.
    + intros e s' w2 Hd. eapply HE, disk_reach_after; [apply _|exact Hr|exact Ha|exact Hd].
    + intros w2 Hd. eapply HC, disk_reach_after; [apply _|exact Hr|exact Ha|exact Hd].
  - apply wp_bind, wp_zoom, wp_operation. cbn [oc_journal set_oc_journal ojs_journal set_ojs_journal]. rewrite Hf.
    apply wp_bind. eapply wp_unwrap; [exact Hs|]. apply wp_ret.
    apply HQ; [done..|]. apply Hsettled; [by rewrite Hphase|]. intros id' Hne. by apply find_recovered_ne.
  - apply wp_ret, HQ; [done..|]. apply Hsettled; [by rewrite Hphase|]. intros id' Hne. by apply find_recovered_ne.
Qed.

(** After all turns every operation has its startup phase. *)
Definition all_settled (vault : option bytes) (j j' : OperationJournal) : Prop :=
  forall id o, find_operation id j = Some o ->
    find_operation id j' = Some (with_phase (startup_phase vault o) o).

Fixpoint reports (vault : option bytes) (j : OperationJournal) (ids : list Uuid) (r : StartupRecovery) : StartupRecovery :=
  match ids with
  | [] => r
  | id :: rest =>
      reports vault j rest (match find_operation id j with Some o => report vault id o r | None => r end)
  end.

Lemma wp_recover_operations ids r0 (Q : StartupRecovery -> OperationCoordinator -> World -> Prop)
    (E : FcpError -> OperationCoordinator -> World -> Prop) (C : World -> Prop) c w :
  (forall p, writer_files (ojs_path (oc_journal c)) p -> p <> vp) ->
  stored (ojs_account_group_id (oc_journal c)) (ojs_path (oc_journal c)) (journal_of c) w ->
  NoDup ids ->
  (forall id, id ∈ ids -> exists o, find_operation id (journal_of c) = Some o /\ is_terminal (phase o) = false) ->
  (forall j' w', agree_off (writer_files (ojs_path (oc_journal c))) w w' ->
     stored (ojs_account_group_id (oc_journal c)) (ojs_path (oc_journal c)) j' w' ->
     rtc (jstep (ojs_account_group_id (oc_journal c))) (journal_of c) j' ->
     (forall id o, find_operation id (journal_of c) = Some o ->
        find_operation id j' = Some (if bool_decide (id ∈ ids) then with_phase (startup_phase (file_at w vp) o) o else o)) ->
     Q (reports (file_at w vp) (journal_of c) ids r0) (set_oc_journal (set_ojs_journal j' (oc_journal c)) c) w') ->
  (forall e c' w', disk_reach (rtc (jstep (ojs_account_group_id (oc_journal c)))) (oc_journal c) w w' -> E e c' w') ->
  (forall w', disk_reach (rtc (jstep (ojs_account_group_id (oc_journal c)))) (oc_journal c) w w' -> C w') ->
  wp (recover_operations vp ids r0) Q E C c w.
Proof.
  revert r0 c w; induction ids as [|id ids IH]; intros r0 c w Hdis Hst Hnd Hact HQ HE HC; cbn [recover_operations].
  - apply wp_ret.
    replace c with (set_oc_journal (set_ojs_journal (journal_of c) (oc_journal c)) c) at 1 by (by destruct c as [[] ? ?]).
    apply HQ; [apply agree_off_refl|done|done|]. intros id o Ho. by rewrite bool_decide_false by set_solver.
  - apply NoDup_cons in Hnd as [Hni Hnd].
    destruct (Hact id) as (o & Ho & Hterm); [by apply elem_of_cons; left|].
    apply wp_bind. eapply wp_recover_operation; [exact Hdis|exact Hst|exact Ho|exact Hterm| |done|done].
    intros j1 w1 Ha1 Hst1 Hr1 [Hf1 Hne1].
    assert (Hv1 : file_at w1 vp = file_at w vp).
    { eapply agree_off_file; [exact Ha1|]. intros Hp. by apply (Hdis vp Hp). }
    apply IH; cbn [oc_journal set_oc_journal ojs_path ojs_account_group_id set_ojs_journal journal_of ojs_journal]; [done|done|done| | | |].
    + intros id' Hin. rewrite Hne1 by (intros ->; done). apply Hact. apply elem_of_cons. by right.
    + intros j2 w2 Ha2 Hst2 Hr2 Hall2.
      replace (set_oc_journal _ (set_oc_journal _ c)) with (set_oc_journal (set_ojs_journal j2 (oc_journal c)) c) by done.
      assert (Hrep : reports (file_at w1 vp) j1 ids (report (file_at w vp) id o r0) =
        reports (file_at w vp) (journal_of c) (id :: ids) r0).
      { cbn [reports]. rewrite Ho, Hv1. generalize (report (file_at w vp) id o r0).
        clear -Hne1 Hni. induction ids as [|x ids IH]; intros r; [done|]. cbn [reports].
        apply not_elem_of_cons in Hni as [Hnx Hni]. rewrite Hne1 by done. by apply IH. }
      cbn [journal_of oc_journal set_oc_journal ojs_journal set_ojs_journal] in *. rewrite Hrep.
      apply HQ; [by eapply agree_off_trans|done|by etrans|].
      intros id' o' Ho'. destruct (decide (id' = id)) as [->|Hne].
      * rewrite Ho in Ho'. injection Ho' as <-. rewrite bool_decide_true by (apply elem_of_cons; by left).
        rewrite (Hall2 _ _ Hf1). by rewrite bool_decide_false.
      * rewrite (Hall2 id' o') by (by rewrite Hne1). rewrite Hv1.
        rewrite (bool_decide_ext (id' ∈ id :: ids) (id' ∈ ids)); [done|]. rewrite elem_of_cons. naive_solver.
    + intros e c' w' Hd. eapply HE, disk_reach_after; [apply _|exact Hr1|exact Ha1|exact Hd].
    + intros w' Hd. eapply HC, disk_reach_after; [apply _|exact Hr1|exact Ha1|exact Hd].
Qed.

Lemma find_operation_in j o :
  NoDup (map operation_id (operations j)) -> o ∈ operations j -> find_operation (operation_id o) j = Some o.
Proof.
  unfold find_operation. induction (operations j) as [|x ops IH]; cbn; [set_solver|].
  intros [Hni Hnd]%NoDup_cons [->|Hin]%elem_of_cons; [by rewrite N.eqb_refl|].
  destruct (N.eqb_spec (operation_id x) (operation_id o)) as [Heq|]; [|by apply IH].
  exfalso. apply Hni. rewrite Heq. by apply list_elem_of_fmap_2.
Qed.

Lemma active_ids_spec j id :
  NoDup (map operation_id (operations j)) ->
  id ∈ active_ids j <-> exists o, find_operation id j = Some o /\ is_terminal (phase o) = false.
Proof.
  intros Hnd. unfold active_ids. split.
  - intros Hin. apply list_elem_of_fmap in Hin as (o & -> & Ho). apply list_elem_of_In, filter_In in Ho as [Ho Hact].
    exists o. split; [by apply find_operation_in; [|apply list_elem_of_In]|by apply negb_true_iff].
  - intros (o & Ho & Hact). apply find_operation_Some in Ho as [<- Ho].
    apply list_elem_of_fmap_2, list_elem_of_In, filter_In. split; [by apply list_elem_of_In|by rewrite Hact].
Qed.

Lemma active_ids_nodup j : NoDup (map operation_id (operations j)) -> NoDup (active_ids j).
Proof.
  unfold active_ids. induction (operations j) as [|x ops IH]; cbn; [constructor|].
  intros [Hni Hnd]%NoDup_cons. destruct (negb _); [|by apply IH]. cbn. constructor; [|by apply IH].
  intros Hin. apply Hni. apply list_elem_of_fmap in Hin as (o & -> & Ho).
  apply list_elem_of_In, filter_In in Ho as [Ho _]. apply list_elem_of_fmap_2. by apply list_elem_of_In.
Qed.

Lemma wp_startup_recover (Q : StartupRecovery -> OperationCoordinator -> World -> Prop)
    (E : FcpError -> OperationCoordinator -> World -> Prop) (C : World -> Prop) c w :
  (forall p, writer_files (ojs_path (oc_journal c)) p -> p <> vp) ->
  stored (ojs_account_group_id (oc_journal c)) (ojs_path (oc_journal c)) (journal_of c) w ->
  (forall j' w', agree_off (writer_files (ojs_path (oc_journal c))) w w' ->
     stored (ojs_account_group_id (oc_journal c)) (ojs_path (oc_journal c)) j' w' ->
     rtc (jstep (ojs_account_group_id (oc_journal c))) (journal_of c) j' ->
     all_settled (file_at w vp) (journal_of c) j' ->
     Q (reports (file_at w vp) (journal_of c) (active_ids (journal_of c)) (mkStartupRecovery false None None))
       (set_oc_journal (set_ojs_journal j' (oc_journal c)) c) w') ->
  (forall e c' w', disk_reach (rtc (jstep (ojs_account_group_id (oc_journal c)))) (oc_journal c) w w' -> E e c' w') ->
  (forall w', disk_reach (rtc (jstep (ojs_account_group_id (oc_journal c)))) (oc_journal c) w w' -> C w') ->
  wp (startup_recover vp) Q E C c w.
Proof.
  intros Hdis Hst HQ HE HC. unfold startup_recover. apply wp_bind, wp_get.
  pose proof (vj_ids _ _ (st_valid _ _ _ _ Hst)) as Hnd.
  apply wp_recover_operations; [done|done|by apply active_ids_nodup| | |done|done].
  - intros id Hin. by apply active_ids_spec.
  - intros j' w' Ha Hst' Hr Hall. apply HQ; [done..|]. intros id o Ho. rewrite (Hall _ _ Ho).
    case_bool_decide as Hin; [done|]. f_equal.
    assert (is_terminal (phase o) = true) as Hterm.
    { destruct (is_terminal (phase o)) eqn:Ht; [done|]. exfalso. apply Hin, active_ids_spec; [done|]. by exists o. }
    unfold startup_phase. rewrite Hterm. by destruct o.
Qed.
End Startup.
