(* ===== verification/CommitProtocol.v ===== *)
(** * The commit protocol: journal, vault and restart together

    The properties of [commit_snapshot] and [startup_recover] (Coordinator), and
    of the two composed: what a restart makes of a commit that failed or was cut
    short at any point. *)

From S2P Require Import Prelude World External Examples AtomicFile Config Messages VaultFormat Capability VaultStore Transaction Paths OpModel OpJournal OpRecovery Coordinator.

Section CommitProtocol.
Context `{UT : UuidText, SH : Sha256, AE : Aead, LS : LocalSecret, SP : Serde VaultPayload,
  JB : Serde BoundRequest, JJ : Serde OperationJournal}.

(** The state a commit starts from: a coordinator whose journal is on disk, and
    a write prepared for the vault as it is. *)
Record commit_ready (tx : VaultTransactions) (prepared : PreparedVaultWrite) (c : OperationCoordinator)
    (w : World) : Prop := {
  cr_disjoint : forall p, writer_files (ojs_path (oc_journal c)) p -> ~ writer_files (vault_path tx) p;
  cr_stored : stored (ojs_account_group_id (oc_journal c)) (ojs_path (oc_journal c)) (journal_of c) w;
  cr_prepared : prepared_for tx w prepared;
}.

(** The binding carries the prepared write. *)
Definition binds (prepared : PreparedVaultWrite) (b : SnapshotBinding) : Prop :=
  sb_target_vault_digest b = pv_target_digest prepared /\
  sb_target_vault_sequence b = pv_vault_sequence prepared /\
  sb_previous_vault_digest b = pv_previous_digest prepared.

Definition recoverable_commit (tx : VaultTransactions) (prepared : PreparedVaultWrite) (id : Uuid)
    (c : OperationCoordinator) (w w' : World) : Prop :=
  exists b, binds prepared b /\ recoverable tx prepared id c w b w'.

Lemma stored_unique group path j1 j2 w : stored group path j1 w -> stored group path j2 w -> j1 = j2.
Proof. intros [_ (b1 & Hf1 & _ & Hj1)] [_ (b2 & Hf2 & _ & Hj2)]. congruence. Qed.

(** The digest of the vault's content decides the verdict before the commit. *)
Lemma verdict_old o b vault :
  is_precommit (phase o) = true -> sb_previous_vault_digest b = sha256 <$> vault ->
  sb_previous_vault_digest b <> Some (sb_target_vault_digest b) ->
  recovery_verdict o b vault = Recovery.NotCommitted.
Proof.
  intros Hp Hprev Hne. unfold recovery_verdict, recovery_classification, object_status. rewrite Hp.
  destruct vault as [v|]; cbn in Hprev.
  - rewrite bool_decide_false by congruence. by rewrite bool_decide_true.
  - by rewrite Hprev.
Qed.

(** What the restart concludes from the state of an interrupted commit. *)
Lemma recoverable_startup tx prepared id c w b w1 j1 o :
  commit_ready tx prepared c w -> binds prepared b -> recoverable tx prepared id c w b w1 ->
  find_operation id (journal_of c) = Some o -> snapshot o = None -> is_precommit (phase o) = true ->
  pv_previous_digest prepared <> Some (pv_target_digest prepared) ->
  stored (ojs_account_group_id (oc_journal c)) (ojs_path (oc_journal c)) j1 w1 ->
  exists o1, find_operation id j1 = Some o1 /\
    ((file_at w1 (vault_path tx) = Some (pv_bytes prepared) /\ snapshot o1 = Some b /\
      startup_phase (file_at w1 (vault_path tx)) o1 = Phase.Committed) \/
     (file_at w1 (vault_path tx) = file_at w (vault_path tx) /\
      startup_phase (file_at w1 (vault_path tx)) o1 = Phase.Aborted)).
Proof.
  intros [Hdis Hst [Hpg Hpt Hpp Hpu]] (Hb1 & Hb2 & Hb3) [Ha (j' & Hst' & Hr & Hcase)] Ho Hs Hp Hne Hst1.
  assert (j1 = j') as -> by (by eapply stored_unique).
  destruct (jsteps_progress _ _ _ _ _ Hr Ho) as (o1 & Ho1 & Hprog). exists o1. split; [done|].
  destruct Hcase as [[Hv Hh]|[[Hv _] (o2 & Ho2 & Hs2 & Hp2)]]; [right|left]; (split; [done|]).
  - destruct (Hh _ Ho1) as (o0 & Ho0 & Hs0 & Hp0). rewrite Ho in Ho0. injection Ho0 as <-.
    specialize (Hp0 Hp). unfold startup_phase.
    assert (is_terminal (phase o1) = false) as -> by (by destruct (phase o1)).
    destruct Hs0 as [Hs0| ->]; [by rewrite Hs0, Hs|].
    by rewrite verdict_old; [|done|by rewrite Hb3, Hpp, Hv|rewrite Hb3, Hb1].
  - rewrite Ho1 in Ho2. injection Ho2 as <-. split; [done|]. unfold startup_phase. rewrite Hs2.
    assert (is_terminal (phase o1) = false) as -> by (by destruct Hp2 as [-> | ->]).
    assert (recovery_verdict o1 b (file_at w1 (vault_path tx)) = Recovery.Committed) as ->.
    { unfold recovery_verdict, object_status. rewrite Hv, Hb1, Hpt. by rewrite bool_decide_true. }
    by destruct Hp2 as [-> | ->].
Qed.

(** The facts [startup_recover] establishes of the phases it leaves. *)
Definition phase_agrees (vault : option bytes) (o o' : JournalOperation) : Prop :=
  match phase o' with
  | Phase.NotCommitted | Phase.DurabilityUnknown => False
  | Phase.Committed | Phase.BrowserRemovalPending =>
      exists b v, snapshot o = Some b /\ vault = Some v /\ sha256 v = sb_target_vault_digest b
  | Phase.Aborted =>
      is_terminal (phase o) = true \/ snapshot o = None \/
      exists b, snapshot o = Some b /\ sb_previous_vault_digest b = sha256 <$> vault
  | Phase.ReconciliationRequired | Phase.Completed => True
  end.

Lemma startup_phase_agrees vault o : phase_agrees vault o (with_phase (startup_phase vault o) o).
Proof.
  unfold phase_agrees, startup_phase. cbn.
  destruct (is_terminal (phase o)) eqn:Ht; [destruct (phase o); try done; by left|].
  destruct (snapshot o) as [b|]; [|by right; left].
  unfold recovery_verdict, recovery_classification, object_status.
  destruct vault as [v|]; cbn.
  - destruct (bool_decide (sha256 v = _)) eqn:Hd; cbn.
    + apply bool_decide_eq_true in Hd. destruct (phase o); cbn; try done; by exists b, v.
    + destruct (bool_decide (_ = Some (sha256 v))) eqn:Hq; [|done]. apply bool_decide_eq_true in Hq.
      destruct (is_precommit _); [|done]. right; right. by exists b.
  - destruct (is_precommit _); cbn; [|done]. destruct (bool_decide _) eqn:Hq; [|done].
    apply bool_decide_eq_true in Hq. right; right. by exists b.
Qed.

Lemma startup_phase_stable vault o :
  startup_phase vault (with_phase (startup_phase vault o) o) = startup_phase vault o.
Proof.
  destruct (startup_phase vault o) as [| | | | | |] eqn:Hp; unfold startup_phase; cbn; try done.
  all: unfold startup_phase in Hp; destruct (is_terminal (phase o)) eqn:Ht; [by rewrite Hp in Ht|].
  all: destruct (snapshot o) as [b|] eqn:Hs; [|done].
  all: destruct (recovery_verdict o b vault) eqn:Hv; [done| |done].
  all: replace (recovery_verdict _ b vault) with Recovery.Committed; [by destruct (phase o)|].
  all: unfold recovery_verdict, recovery_classification in *; cbn in *.
  all: destruct (object_status _ _ _); [by destruct (is_precommit _)|done|by destruct (_ && _)|done].
Qed.

(** The committed operation a recovery reports is one it has just found
    committed; it reports one whenever there is any. *)
Lemma reports_committed vault j ids r :
  committed_operation_id (reports vault j ids r) = committed_operation_id r /\
    committed_vault_sequence (reports vault j ids r) = committed_vault_sequence r /\
    (forall id o b, id ∈ ids -> find_operation id j = Some o -> snapshot o = Some b ->
       recovery_verdict o b vault <> Recovery.Committed) \/
  exists id o b, id ∈ ids /\ find_operation id j = Some o /\ snapshot o = Some b /\
    recovery_verdict o b vault = Recovery.Committed /\
    committed_operation_id (reports vault j ids r) = Some id /\
    committed_vault_sequence (reports vault j ids r) = Some (sb_target_vault_sequence b).
Proof.
  revert r; induction ids as [|id ids IH]; intros r; cbn [reports].
  { left. split_and!; [done..|]. intros id o b Hin. by apply elem_of_nil in Hin. }
  set (r1 := match find_operation id j with Some o => report vault id o r | None => r end).
  destruct (IH r1) as [(H1 & H2 & H3)|(id' & o & b & Hin & H)];
    [|right; exists id', o, b; split; [by apply elem_of_cons; right|done]].
  rewrite H1, H2. subst r1. destruct (find_operation id j) as [o|] eqn:Ho.
  - unfold report. destruct (snapshot o) as [b|] eqn:Hb.
    + destruct (recovery_verdict o b vault) eqn:Hv.
      2: { right. exists id, o, b. split; [by apply elem_of_cons; left|done]. }
      all: left; split_and!; [done..|]; intros id' o' b' [-> |Hin]%elem_of_cons; [congruence|by apply H3].
    + left. split_and!; [done..|]. intros id' o' b' [-> |Hin]%elem_of_cons; [congruence|by apply H3].
  - left. split_and!; [done..|]. intros id' o' b' [-> |Hin]%elem_of_cons; [congruence|by apply H3].
Qed.

Lemma reports_needs vault j ids r :
  (forall id, id ∈ ids -> is_Some (find_operation id j)) ->
  needs_reconciliation (reports vault j ids r) = needs_reconciliation r || negb (bool_decide (ids = [])).
Proof.
  revert r; induction ids as [|id ids IH]; intros r Hin; cbn [reports]; [by rewrite bool_decide_true, orb_false_r|].
  rewrite (bool_decide_false (id :: ids = [])), orb_true_r by done.
  destruct (Hin id) as [o Ho]; [by apply elem_of_cons; left|]. rewrite Ho, IH.
  - unfold report. destruct (snapshot o); [by destruct (recovery_verdict _ _ _)|done].
  - intros id' Hid. apply Hin. by apply elem_of_cons; right.
Qed.

Lemma has_unresolved_active c : has_unresolved c = negb (bool_decide (active_ids (journal_of c) = [])).
Proof.
  unfold has_unresolved, active_ids. induction (operations (journal_of c)) as [|o ops IH]; [done|]. cbn.
  by destruct (is_terminal (phase o)).
Qed.

Lemma startup_not_committed vault j id o :
  NoDup (map operation_id (operations j)) ->
  (forall id o b, id ∈ active_ids j -> find_operation id j = Some o -> snapshot o = Some b ->
     recovery_verdict o b vault <> Recovery.Committed) ->
  find_operation id j = Some o ->
  startup_phase vault o <> Phase.Committed /\ startup_phase vault o <> Phase.BrowserRemovalPending.
Proof.
  intros Hnd Hno Ho. unfold startup_phase. destruct (is_terminal (phase o)) eqn:Ht; [by destruct (phase o)|].
  assert (Hin : id ∈ active_ids j) by (apply active_ids_spec; [done|by exists o]).
  destruct (snapshot o) as [b|] eqn:Hb; [|done].
  specialize (Hno _ _ _ Hin Ho Hb). by destruct (recovery_verdict o b vault).
Qed.

(** C2: The commit of a snapshot is atomic and write-ahead: whatever fails or dies,
    if [commit_snapshot] returns, the vault holds exactly the prepared bytes, the
    operation is [Committed] in memory and in the journal on disk, and the
    result is the prepared sequence; if it fails or the process is killed
    anywhere inside, the vault still has its old content and the operation is
    before its commit, or the vault holds the prepared bytes and the journal on
    disk already binds the operation to their digest. No other file changes. *)
Theorem commit_snapshot_atomic tx prepared id c w canonical_snapshot cookie_count :
  commit_ready tx prepared c w ->
  wp (commit_snapshot id canonical_snapshot cookie_count prepared tx)
     (fun seq c' w' => seq = pv_vault_sequence prepared /\
        exists b, binds prepared b /\ committed_state tx prepared id c w b c' w')
     (fun _ _ w' => recoverable_commit tx prepared id c w w')
     (fun w' => recoverable_commit tx prepared id c w w') c w.
Proof.
  intros [Hdis Hst [Hpg Hpt Hpp Hpu]]. apply wp_commit_snapshot; [done..| | |].
  - intros b c' w' H1 H2 H3 Hc. split; [done|]. by exists b.
  - intros e c' w' (b & H1 & H2 & H3 & Hr). by exists b.
  - intros w' (b & H1 & H2 & H3 & Hr). by exists b.
Qed.

(** C4: Restart after an interrupted commit: for a fresh operation and a snapshot
    that changes the vault, start from any state the commit can leave behind
    when it fails or the process dies, and open the journal found on disk; if
    [startup_recover] returns, the operation is [Committed] with its binding and
    the vault holds the prepared bytes, or the operation is [Aborted] and the
    vault is as it was before the commit. The recovery never touches the vault,
    even when it fails. *)
Theorem interrupted_commit_recovers tx prepared id c w w1 c1 o :
  commit_ready tx prepared c w -> recoverable_commit tx prepared id c w w1 ->
  find_operation id (journal_of c) = Some o -> snapshot o = None -> phase o = Phase.NotCommitted ->
  pv_previous_digest prepared <> Some (pv_target_digest prepared) ->
  ojs_account_group_id (oc_journal c1) = ojs_account_group_id (oc_journal c) ->
  ojs_path (oc_journal c1) = ojs_path (oc_journal c) ->
  stored (ojs_account_group_id (oc_journal c)) (ojs_path (oc_journal c)) (journal_of c1) w1 ->
  wp (startup_recover (vault_path tx))
     (fun _ c2 w2 => file_at w2 (vault_path tx) = file_at w1 (vault_path tx) /\
        stored (ojs_account_group_id (oc_journal c)) (ojs_path (oc_journal c)) (journal_of c2) w2 /\
        exists o2, find_operation id (journal_of c2) = Some o2 /\
          ((phase o2 = Phase.Committed /\ file_at w2 (vault_path tx) = Some (pv_bytes prepared) /\
            exists b, binds prepared b /\ snapshot o2 = Some b) \/
           (phase o2 = Phase.Aborted /\ file_at w2 (vault_path tx) = file_at w (vault_path tx))))
     (fun _ _ w2 => file_at w2 (vault_path tx) = file_at w1 (vault_path tx))
     (fun w2 => file_at w2 (vault_path tx) = file_at w1 (vault_path tx)) c1 w1.
Proof.
  intros Hready (b & Hb & Hrec) Ho Hs Hp Hne Hg Hpath Hst1.
  assert (Hp' : is_precommit (phase o) = true) by (by rewrite Hp).
  destruct (recoverable_startup _ _ _ _ _ _ _ _ _ Hready Hb Hrec Ho Hs Hp' Hne Hst1) as (o1 & Ho1 & Hcase).
  pose proof (cr_disjoint _ _ _ _ Hready) as Hdis. rewrite <- Hpath in Hdis. rewrite <- Hg, <- Hpath in Hst1.
  assert (Hvp : forall w2, agree_off (writer_files (ojs_path (oc_journal c1))) w1 w2 ->
    file_at w2 (vault_path tx) = file_at w1 (vault_path tx)).
  { intros w2 Ha. eapply agree_off_file; [exact Ha|]. intros Hin. apply (Hdis _ Hin). by left. }
  apply wp_startup_recover; [|exact Hst1| |by intros e c' w2 [? _]; apply Hvp|by intros w2 [? _]; apply Hvp].
  - intros p Hin ->. apply (Hdis _ Hin). by left.
  - intros j2 w2 Ha Hst2 Hr Hall. rewrite (Hvp _ Ha). split; [done|]. split; [by rewrite <- Hg, <- Hpath|].
    exists (with_phase (startup_phase (file_at w1 (vault_path tx)) o1) o1). split; [by apply Hall|].
    destruct Hcase as [(Hv & Hs1 & ->)|(Hv & ->)]; [left|right]; cbn; [|done].
    split_and!; [done..|]. by exists b.
Qed.

(** C10: Recovery at startup settles every operation: when [startup_recover]
    returns, no operation is left before its commit; an operation is [Committed]
    (or still waits for the browser) only if the vault has the digest its binding
    announces, and has been aborted only if it had no binding or the vault has
    the previous digest; terminal operations and everything else about an
    operation are as before. Running the recovery again would change nothing.
    The recovery reports that the client must reconcile exactly when something
    was unresolved, and a committed operation, with its sequence, exactly when
    there is one. Only the journal's file is written; a failed or killed recovery
    leaves a legal continuation of the journal there. *)
Theorem startup_recover_settles vp c w :
  (forall p, writer_files (ojs_path (oc_journal c)) p -> p <> vp) ->
  stored (ojs_account_group_id (oc_journal c)) (ojs_path (oc_journal c)) (journal_of c) w ->
  wp (startup_recover vp)
     (fun r c' w' => agree_off (writer_files (ojs_path (oc_journal c))) w w' /\
        stored (ojs_account_group_id (oc_journal c)) (ojs_path (oc_journal c)) (journal_of c') w' /\
        (forall id o, find_operation id (journal_of c) = Some o ->
           exists p, find_operation id (journal_of c') = Some (with_phase p o) /\
             phase_agrees (file_at w vp) o (with_phase p o) /\
             (is_terminal (phase o) = true -> p = phase o) /\
             startup_phase (file_at w' vp) (with_phase p o) = p) /\
        needs_reconciliation r = has_unresolved c /\
        match committed_operation_id r with
        | Some id => exists o b, find_operation id (journal_of c') = Some o /\ snapshot o = Some b /\
            committed_vault_sequence r = Some (sb_target_vault_sequence b) /\
            (phase o = Phase.Committed \/ phase o = Phase.BrowserRemovalPending)
        | None => forall id o, find_operation id (journal_of c') = Some o ->
            phase o <> Phase.Committed /\ phase o <> Phase.BrowserRemovalPending \/
            find_operation id (journal_of c) = None
        end)
     (fun _ _ w' => disk_reach (rtc (jstep (ojs_account_group_id (oc_journal c)))) (oc_journal c) w w')
     (fun w' => disk_reach (rtc (jstep (ojs_account_group_id (oc_journal c)))) (oc_journal c) w w') c w.
Proof.
  intros Hdis Hst. apply wp_startup_recover; [done|done| |done|done].
  intros j' w' Ha Hst' Hr Hall. split; [done|]. split; [done|].
  assert (Hv : file_at w' vp = file_at w vp).
  { eapply agree_off_file; [exact Ha|]. intros Hin. by apply (Hdis _ Hin). }
  pose proof (vj_ids _ _ (st_valid _ _ _ _ Hst)) as Hnd.
  assert (Hact : forall id, id ∈ active_ids (journal_of c) ->
    exists o, find_operation id (journal_of c) = Some o /\ is_terminal (phase o) = false)
    by (intros id; by apply active_ids_spec).
  split; [|split].
  - intros id o Ho. exists (startup_phase (file_at w vp) o). split; [by apply Hall|].
    split; [apply startup_phase_agrees|]. split; [by unfold startup_phase; intros ->|].
    rewrite Hv. apply startup_phase_stable.
  - rewrite reports_needs; [by rewrite has_unresolved_active|].
    intros id Hin. destruct (Hact id Hin) as (o & Ho & _). by exists o.
  - destruct (reports_committed (file_at w vp) (journal_of c) (active_ids (journal_of c)) (mkStartupRecovery false None None))
      as [(-> & _ & Hno)|(id & o & b & Hin & Ho & Hb & Hverdict & -> & Hseq)]; cbn.
    + intros id o' Ho'. destruct (find_operation id (journal_of c)) as [o|] eqn:Ho; [left|by right].
      change (find_operation id j' = Some o') in Ho'. rewrite (Hall _ _ Ho) in Ho'. injection Ho' as <-.
      by eapply startup_not_committed; [exact Hnd|exact Hno|exact Ho].
    + destruct (Hact id Hin) as (o' & Ho' & Hterm). rewrite Ho in Ho'. injection Ho' as <-.
      eexists _, b. split; [by apply Hall|]. split_and!; [done..|].
      unfold startup_phase. cbn. rewrite Hterm, Hb, Hverdict. destruct (phase o); auto.
Qed.
End CommitProtocol.

(** ** Examples *)

Section CommitExamples.
#[local] Existing Instances toy_uuid_text toy_sha256 toy_aead toy_payload toy_bound_request toy_journal toy_kek.

Definition example_paths : DataPaths := from_root ["data"].

Definition commit_tx : VaultTransactions :=
  mkTransactions 77 (dp_kek_key example_paths) (dp_vault_groups example_paths) (mkLedger 77 0 0 [] None)
    (capability_path example_paths 77).

Definition commit_coordinator : OperationCoordinator :=
  mkCoordinator (mkJournalStore (operation_journal_path example_paths 77) 77 example_j1)
    (replicate 32 Byte.x11) (Some 3).

Definition commit_world : World :=
  mkWorld {[ operation_journal_path example_paths 77 := File (enc codec_journal example_j1) ]} 0
    (mkEnv (fun _ => NoFault) (fun _ => 7) (fun _ => 0)).

Definition commit_prepared_write : PreparedVaultWrite :=
  match prepare_after_snapshot commit_tx [example_cookie] tt commit_world with
  | Done p _ _ => p
  | _ => mkPrepared 0 [] [] None [] 0 false
  end.

Lemma commit_example_ready : commit_ready commit_tx commit_prepared_write commit_coordinator commit_world.
Proof.
  split.
  - intros p. by apply writer_files_disjoint.
  - split; [eapply jsteps_valid; [apply empty_journal_valid|apply example_j1_reachable]|].
    exists (enc codec_journal example_j1). split_and!; [by vm_compute|done|].
    apply (codec_json_laws codec_journal). done.
  - split; by vm_compute.
Qed.

Lemma commit_snapshot_atomic_witness :
  wp (commit_snapshot 5 (str_bytes "[]") 1 commit_prepared_write commit_tx)
     (fun seq c' w' => seq = pv_vault_sequence commit_prepared_write /\
        exists b, binds commit_prepared_write b /\
          committed_state commit_tx commit_prepared_write 5 commit_coordinator commit_world b c' w')
     (fun _ _ w' => recoverable_commit commit_tx commit_prepared_write 5 commit_coordinator commit_world w')
     (fun w' => recoverable_commit commit_tx commit_prepared_write 5 commit_coordinator commit_world w')
     commit_coordinator commit_world.
Proof. apply commit_snapshot_atomic, commit_example_ready. Defined.

(** Without faults the commit of the example succeeds, with sequence 1. *)
Example commit_example_runs :
  match commit_snapshot 5 (str_bytes "[]") 1 commit_prepared_write commit_tx commit_coordinator commit_world with
  | Done seq _ w' => seq = 1 /\ file_at w' (vault_path commit_tx) = Some (pv_bytes commit_prepared_write)
  | _ => False
  end.
Proof. by vm_compute. Qed.

Lemma commit_example_recoverable :
  recoverable_commit commit_tx commit_prepared_write 5 commit_coordinator commit_world commit_world.
Proof.
  exists (mkBinding [] (pv_previous_digest commit_prepared_write) (pv_target_digest commit_prepared_write)
    (pv_vault_sequence commit_prepared_write) 1 2). split; [by split_and!|]. split; [apply agree_off_refl|].
  exists example_j1. split; [apply (cr_stored _ _ _ _ commit_example_ready)|]. split; [apply rtc_refl|].
  left. split; [reflexivity|]. intros o Ho. exists o. auto.
Qed.

Lemma commit_example_changes :
  pv_previous_digest commit_prepared_write <> Some (pv_target_digest commit_prepared_write).
Proof. assert (pv_previous_digest commit_prepared_write = None) as -> by (by vm_compute). discriminate. Qed.

Lemma interrupted_commit_recovers_witness :
  wp (startup_recover (vault_path commit_tx))
     (fun _ c2 w2 => file_at w2 (vault_path commit_tx) = file_at commit_world (vault_path commit_tx) /\
        stored 77 (operation_journal_path example_paths 77) (journal_of c2) w2 /\
        exists o2, find_operation 5 (journal_of c2) = Some o2 /\
          ((phase o2 = Phase.Committed /\ file_at w2 (vault_path commit_tx) = Some (pv_bytes commit_prepared_write) /\
            exists b, binds commit_prepared_write b /\ snapshot o2 = Some b) \/
           (phase o2 = Phase.Aborted /\ file_at w2 (vault_path commit_tx) = file_at commit_world (vault_path commit_tx))))
     (fun _ _ w2 => file_at w2 (vault_path commit_tx) = file_at commit_world (vault_path commit_tx))
     (fun w2 => file_at w2 (vault_path commit_tx) = file_at commit_world (vault_path commit_tx))
     commit_coordinator commit_world.
Proof.
  apply (interrupted_commit_recovers commit_tx commit_prepared_write 5 commit_coordinator commit_world commit_world
    commit_coordinator (new_operation example_request 1 example_fp)).
  - apply commit_example_ready.
  - apply commit_example_recoverable.
  - vm_compute. reflexivity.
  - reflexivity.
  - reflexivity.
  - apply commit_example_changes.
  - reflexivity.
  - reflexivity.
  - apply (cr_stored _ _ _ _ commit_example_ready).
Defined.

Lemma startup_recover_settles_witness :
  wp (startup_recover (vault_path commit_tx))
     (fun r c' w' => agree_off (writer_files (operation_journal_path example_paths 77)) commit_world w' /\
        stored 77 (operation_journal_path example_paths 77) (journal_of c') w' /\
        (forall id o, find_operation id example_j1 = Some o ->
           exists p, find_operation id (journal_of c') = Some (with_phase p o) /\
             phase_agrees (file_at commit_world (vault_path commit_tx)) o (with_phase p o) /\
             (is_terminal (phase o) = true -> p = phase o) /\
             startup_phase (file_at w' (vault_path commit_tx)) (with_phase p o) = p) /\
        needs_reconciliation r = true /\
        match committed_operation_id r with
        | Some id => exists o b, find_operation id (journal_of c') = Some o /\ snapshot o = Some b /\
            committed_vault_sequence r = Some (sb_target_vault_sequence b) /\
            (phase o = Phase.Committed \/ phase o = Phase.BrowserRemovalPending)
        | None => forall id o, find_operation id (journal_of c') = Some o ->
            phase o <> Phase.Committed /\ phase o <> Phase.BrowserRemovalPending \/
            find_operation id example_j1 = None
        end)
     (fun _ _ w' => disk_reach (rtc (jstep 77)) (oc_journal commit_coordinator) commit_world w')
     (fun w' => disk_reach (rtc (jstep 77)) (oc_journal commit_coordinator) commit_world w')
     commit_coordinator commit_world.
Proof.
  apply (startup_recover_settles (vault_path commit_tx) commit_coordinator commit_world).
  - intros p Hp ->. apply (cr_disjoint _ _ _ _ commit_example_ready _ Hp). by left.
  - apply (cr_stored _ _ _ _ commit_example_ready).
Defined.
End CommitExamples.
