(* ===== verification/AuditLog.v ===== *)
(** * audit.rs: the authenticated audit log

    Entries are JSON lines in one file per day, chained by an HMAC under a key
    that the secret store protects.  An anchor, protected the same way, records
    the last entry, so that truncation shows; a checkpoint replaces the segments
    that have expired.  The [Mutex] around the state serializes the calls of one
    process and is not modelled. *)

From S2P Require Import Prelude World External Examples AtomicFile Config Messages OpRecovery.

(** [Path::display]. *)
Fixpoint path_display (p : Path) : string :=
  match p with [] => EmptyString | c :: p' => "/" +:+ c +:+ path_display p' end.

Definition AUDIT_SCHEMA_VERSION : N := 2.
Definition AUDIT_KEY_BYTES : nat := 32.
Definition ZERO_MAC : bytes := replicate 32 Byte.x00.
Definition AUDIT_RETENTION_DAYS : N := 90.

Record UnsignedAuditEntry := mkUnsignedEntry {
  ue_schema_version : N;
  ue_sequence : N;
  ue_previous_mac : string;
  ue_timestamp_unix_ms : N;
  ue_account_group_id : option Uuid;
  ue_event : string;
  ue_outcome : string;
  ue_operation_id : option Uuid;
  ue_detail_code : option string;
  ue_audit_event_id : option Uuid;
}.

Record AuditEntry := mkAuditEntry {
  ae_schema_version : N;
  ae_sequence : N;
  ae_previous_mac : string;
  ae_timestamp_unix_ms : N;
  ae_account_group_id : option Uuid;
  ae_event : string;
  ae_outcome : string;
  ae_operation_id : option Uuid;
  ae_detail_code : option string;
  ae_audit_event_id : option Uuid;
  ae_mac : string;
}.

Record AuditAnchor := mkAnchor { aa_schema_version : N; aa_sequence : N; aa_mac : string }.

Record AuditCheckpoint := mkCheckpoint {
  acp_schema_version : N;
  acp_sequence : N;
  acp_mac : string;
  acp_archived_through_day : N;
}.

Record AuditOutboxEntry := mkOutboxEntry {
  aob_audit_event_id : Uuid;
  aob_account_group_id : Uuid;
  aob_event : string;
  aob_outcome : string;
  aob_operation_id : option Uuid;
  aob_detail_code : option string;
}.

(** [AuditLogger] with its [AuditState]. *)
Record AuditLogger := mkLogger {
  al_directory : Path;
  al_key : bytes;
  al_sequence : N;
  al_mac : bytes;
  al_recovered_on_open : bool;
}.

Definition set_al_tail (sequence : N) (mac : bytes) (l : AuditLogger) : AuditLogger :=
  mkLogger (al_directory l) (al_key l) sequence mac (al_recovered_on_open l).
Definition set_al_recovered (b : bool) (l : AuditLogger) : AuditLogger :=
  mkLogger (al_directory l) (al_key l) (al_sequence l) (al_mac l) b.

Record VerifiedTail := mkTail { tl_sequence : N; tl_mac : bytes }.

(** ** Names *)

Definition key_path (directory : Path) : Path := path_join directory "audit-key.dpapi".
Definition anchor_path (directory : Path) : Path := path_join directory "audit-anchor.dpapi".
Definition checkpoint_path (directory : Path) : Path := path_join directory "audit-checkpoint.dpapi".
Definition outbox_path (directory : Path) : Path := path_join directory "audit-outbox-v1.json".

(** The file of a day. *)
Definition day_path (directory : Path) (day : N) : Path :=
  path_join directory ("audit-v2-day-" +:+ pretty day +:+ ".jsonl").

(** [str::parse::<u64>]: an optional plus sign and decimal digits. *)
Fixpoint parse_digits (acc : N) (s : string) : option N :=
  match s with
  | EmptyString => if acc <=? u64_max then Some acc else None
  | String c s' =>
      let n := Ascii.N_of_ascii c in
      if (48 <=? n) && (n <=? 57) then parse_digits (acc * 10 + (n - 48)) s' else None
  end.

Definition parse_u64 (s : string) : option N :=
  match s with
  | EmptyString => None
  | String c EmptyString => parse_digits 0 s
  | String c s' => if Ascii.N_of_ascii c =? 43 then parse_digits 0 s' else parse_digits 0 s
  end.

(** [audit_day], on the file name. *)
Definition audit_day (path : Path) : option N :=
  match path_file_name path with
  | Some name =>
      match strip_prefix "audit-v2-day-" name with
      | Some rest => match strip_suffix ".jsonl" rest with Some day => parse_u64 day | None => None end
      | None => None
      end
  | None => None
  end.

Definition is_chain_file (path : Path) : bool :=
  match path_file_name path with
  | Some name => starts_with "audit-v2-day-" name && ends_with ".jsonl" name
  | None => false
  end.

(** [sort_by_key]: a stable sort. *)
Fixpoint insert_by_key {A} (key : A -> N) (a : A) (l : list A) : list A :=
  match l with
  | [] => [a]
  | b :: l' => if key a <=? key b then a :: l else b :: insert_by_key key a l'
  end.
Definition sort_by_key {A} (key : A -> N) (l : list A) : list A := foldr (insert_by_key key) [] l.

(** The directory iterator: every entry can fail. *)
Fixpoint dir_entries (entries : list Path) : IO (list Path) :=
  match entries with
  | [] => mret []
  | p :: rest => _ ← fs_dir_entry p; tail ← dir_entries rest; mret (p :: tail)
  end.

(** [chain_files]. *)
Definition chain_files (directory : Path) : IO (list Path) :=
  entries ← fs_read_dir directory;
  files ← dir_entries entries;
  mret (sort_by_key (fun p => default u64_max (audit_day p)) (List.filter is_chain_file files)).

(** [bytes.split(|b| b == '\n').filter(|line| !line.is_empty())]. *)
Fixpoint split_lines (current b : bytes) : list bytes :=
  match b with
  | [] => match current with [] => [] | _ => [rev current] end
  | Byte.x0a :: b' => match current with [] => split_lines [] b' | _ => rev current :: split_lines [] b' end
  | x :: b' => split_lines (x :: current) b'
  end.
Definition lines (b : bytes) : list bytes := split_lines [] b.

(** ** MACs *)

Section Mac.
Context `{SH : Sha256}.

(** [calculate_mac]. *)
Definition calculate_mac (key b : bytes) : FcpResult bytes :=
  _ ← guard_err (64 <? length key)%nat (Crypto "audit HMAC key exceeds SHA-256 block size");
  let padded_key := key ++ replicate (64 - length key) Byte.x00 in
  let inner_pad := zip_with xor_byte (replicate 64 Byte.x36) padded_key in
  let outer_pad := zip_with xor_byte (replicate 64 Byte.x5c) padded_key in
  Ok (sha256 (outer_pad ++ sha256 (inner_pad ++ b))).

(** [verify_mac]: the bytes are compared without an early exit. *)
Definition mac_difference (actual expected : bytes) : N :=
  foldl (fun difference '(l, r) => N.lor difference (N.lxor (Byte.to_N l) (Byte.to_N r)))
    0 (zip actual expected).

Definition verify_mac (key b expected : bytes) : FcpResult unit :=
  actual ← calculate_mac key b;
  if mac_difference actual expected =? 0 then Ok tt
  else Err (Format "audit HMAC verification failed").
End Mac.

(** [u8::from_str_radix] of two characters, in base 16: a leading plus sign is
    accepted, and digits of either case. *)
Definition hex_value (b : byte) : option N :=
  let n := Byte.to_N b in
  if (48 <=? n) && (n <=? 57) then Some (n - 48)
  else if (97 <=? n) && (n <=? 102) then Some (n - 97 + 10)
  else if (65 <=? n) && (n <=? 70) then Some (n - 65 + 10)
  else None.

Definition radix16 (a b : byte) : option N :=
  if Byte.to_N a =? 43 then hex_value b
  else match hex_value a, hex_value b with Some h, Some l => Some (h * 16 + l) | _, _ => None end.

(** A continuation byte of UTF-8 is not a character boundary. *)
Definition is_continuation (b : byte) : bool := (128 <=? Byte.to_N b) && (Byte.to_N b <=? 191).

(** The loop of [decode_mac]: slicing the string inside a character panics. *)
Fixpoint decode_mac_slots (value : bytes) : IO bytes :=
  match value with
  | a :: b :: rest =>
      _ ← unwrap (match rest with c :: _ => if is_continuation c then None else Some tt | [] => Some tt end);
      x ← ok_or_throw (radix16 a b) (Format "audit MAC is not lowercase hex");
      tail ← decode_mac_slots rest;
      mret (u8_of_N x :: tail)
  | _ => mret []
  end.

Definition decode_mac (value : string) : IO bytes :=
  _ ← guard_not (negb (str_len value =? 64)) (Format "audit MAC has invalid length");
  decoded ← decode_mac_slots (list_byte_of_string value);
  _ ← guard_not (negb (String.eqb (encode_hex decoded) value))
        (Format "audit MAC is not canonical lowercase hex");
  mret decoded.

(** Runs a method on a local logger and returns the logger. *)
Definition run_on {S T} (t0 : T) (m : M T unit) : M S T := fun s w =>
  match m t0 w with
  | Done _ t w' => Done t s w'
  | Failed e _ w' => Failed e s w'
  | Panicked w' => Panicked w'
  | Crashed w' => Crashed w'
  end.

Section Logger.
Context `{UT : UuidText, SH : Sha256, LS : LocalSecret, JU : Serde UnsignedAuditEntry, JE : Serde AuditEntry,
  JA : Serde AuditAnchor, JC : Serde AuditCheckpoint, JO : Serde (list AuditOutboxEntry)}.

(** [persist_protected_file]. *)
Definition persist_protected_file (path : Path) (plaintext : bytes) : IO unit :=
  protected ← protect plaintext;
  write_verified path protected (fun candidate =>
    recovered ← unprotect candidate;
    guard_not (bool_decide (recovered <> plaintext)) (Crypto "DPAPI write verification failed")).

(** [persist_anchor], [persist_checkpoint]. *)
Definition persist_anchor (directory : Path) (sequence : N) (mac : bytes) : IO unit :=
  plaintext ← lift (to_vec (mkAnchor AUDIT_SCHEMA_VERSION sequence (encode_hex mac)));
  persist_protected_file (anchor_path directory) plaintext.

Definition persist_checkpoint (directory : Path) (checkpoint : AuditCheckpoint) : IO unit :=
  plaintext ← lift (to_vec checkpoint);
  persist_protected_file (checkpoint_path directory) plaintext.

(** The part of an entry that its MAC covers. *)
Definition unsigned_of (e : AuditEntry) : UnsignedAuditEntry :=
  mkUnsignedEntry (ae_schema_version e) (ae_sequence e) (ae_previous_mac e) (ae_timestamp_unix_ms e)
    (ae_account_group_id e) (ae_event e) (ae_outcome e) (ae_operation_id e) (ae_detail_code e)
    (ae_audit_event_id e).

(** [record_inner]. *)
Definition record_inner (account_group_id : option Uuid) (event outcome : string) (operation_id : option Uuid)
    (detail_code : option string) (audit_event_id : option Uuid) : M AuditLogger unit :=
  self ← get;
  sequence ← ok_or_throw (checked_add u64_max (al_sequence self) 1) (Format "audit sequence overflow");
  now ← io unix_ms;
  let previous_mac := encode_hex (al_mac self) in
  let unsigned := mkUnsignedEntry AUDIT_SCHEMA_VERSION sequence previous_mac now account_group_id event outcome
                    operation_id detail_code audit_event_id in
  canonical ← lift (to_vec unsigned);
  mac ← lift (calculate_mac (al_key self) canonical);
  let entry := mkAuditEntry (ue_schema_version unsigned) sequence previous_mac now account_group_id event outcome
                 operation_id detail_code audit_event_id (encode_hex mac) in
  let day := now / 86400000 in
  let path := day_path (al_directory self) day in
  line ← lift (to_vec entry);
  let line := line ++ [Byte.x0a] in
  _ ← io (fs_open_append path);
  _ ← io (fs_write_all path line);
  _ ← io (fs_sync path);
  _ ← put (set_al_tail sequence mac self);
  io (persist_anchor (al_directory self) sequence mac).

(** [record], [record_system]. *)
Definition record (account_group_id : Uuid) (event outcome : string) (operation_id : option Uuid)
    (detail_code : option string) : M AuditLogger unit :=
  record_inner (Some account_group_id) event outcome operation_id detail_code None.

Definition record_system (event outcome : string) (detail_code : option string) : M AuditLogger unit :=
  record_inner None event outcome None detail_code None.

(** The search of [record_once]: an entry with the event id. *)
Fixpoint find_event (audit_event_id : Uuid) (ls : list bytes) : FcpResult bool :=
  match ls with
  | [] => Ok false
  | line :: rest =>
      entry ← from_slice line;
      if bool_decide (ae_audit_event_id entry = Some audit_event_id) then Ok true else find_event audit_event_id rest
  end.

Fixpoint find_event_in_files (audit_event_id : Uuid) (files : list Path) : IO bool :=
  match files with
  | [] => mret false
  | path :: rest =>
      b ← fs_read path;
      found ← lift (find_event audit_event_id (lines b));
      if (found : bool) then mret true else find_event_in_files audit_event_id rest
  end.

(** [record_once]. *)
Definition record_once (audit_event_id account_group_id : Uuid) (event outcome : string)
    (operation_id : option Uuid) (detail_code : option string) : M AuditLogger bool :=
  _ ← guard_not (uuid_is_nil audit_event_id) (Protocol "audit event id must not be nil");
  self ← get;
  files ← io (chain_files (al_directory self));
  found ← io (find_event_in_files audit_event_id files);
  if (found : bool) then mret false
  else
    _ ← record_inner (Some account_group_id) event outcome operation_id detail_code (Some audit_event_id);
    mret true.

(** [enqueue_outbox]. *)
Definition enqueue_outbox (directory : Path) (entry : AuditOutboxEntry) : IO unit :=
  let path := outbox_path directory in
  present ← fs_exists path;
  entries ← (if (present : bool) then b ← fs_read path; lift (from_slice b) else mret []);
  let entries :=
    if existsb (fun value => aob_audit_event_id value =? aob_audit_event_id entry) entries then entries
    else entries ++ [entry] in
  b ← lift (to_vec entries);
  write_verified path b (fun persisted =>
    verified ← lift (from_slice persisted);
    guard_not (negb (length (verified : list AuditOutboxEntry) =? length entries)%nat)
      (Format "audit outbox read-back mismatch")).

(** [record_once_deferred]: it never fails. *)
Definition record_once_deferred (audit_event_id account_group_id : Uuid) (event outcome : string)
    (operation_id : option Uuid) (detail_code : option string) : M AuditLogger unit :=
  first ← try_ (record_once audit_event_id account_group_id event outcome operation_id detail_code);
  if is_ok first then mret tt
  else
    second ← try_ (record_once audit_event_id account_group_id event outcome operation_id detail_code);
    if is_ok second then mret tt
    else
      self ← get;
      _ ← try_ (io (enqueue_outbox (al_directory self)
            (mkOutboxEntry audit_event_id account_group_id event outcome operation_id detail_code)));
      mret tt.

(** The loop of [drain_outbox]: the entries that could not be recorded. *)
Fixpoint drain_entries (entries : list AuditOutboxEntry) : M AuditLogger (list AuditOutboxEntry) :=
  match entries with
  | [] => mret []
  | entry :: rest =>
      r ← try_ (record_once (aob_audit_event_id entry) (aob_account_group_id entry) (aob_event entry)
            (aob_outcome entry) (aob_operation_id entry) (aob_detail_code entry));
      remaining ← drain_entries rest;
      mret (if is_ok r then remaining else entry :: remaining)
  end.

(** [drain_outbox]. *)
Definition drain_outbox : M AuditLogger unit :=
  self ← get;
  let path := outbox_path (al_directory self) in
  present ← io (fs_exists path);
  if negb present then mret tt
  else
    b ← io (fs_read path);
    entries ← lift (from_slice b);
    remaining ← drain_entries entries;
    if bool_decide (remaining = []) then io (fs_remove_file path)
    else
      b ← lift (to_vec remaining);
      io (write_verified path b (fun _ => mret tt)).

(** [compact_expired_segments]. *)
Definition compact_expired_segments (directory : Path) : IO unit :=
  now ← unix_ms;
  let current_day := now / 86400000 in
  let cutoff := saturating_sub current_day AUDIT_RETENTION_DAYS in
  files ← chain_files directory;
  let expired := List.filter (fun p => match audit_day p with Some day => day <? cutoff | None => false end) files in
  match list.last expired with
  | None => mret tt
  | Some last =>
      b ← fs_read last;
      tail ← ok_or_throw (list.last (lines b)) (Format "expired audit segment is empty");
      entry ← lift (from_slice tail);
      archived_through_day ← ok_or_throw (audit_day last) (Format "audit day is malformed");
      _ ← persist_checkpoint directory
            (mkCheckpoint AUDIT_SCHEMA_VERSION (ae_sequence entry) (ae_mac entry) archived_through_day);
      for_each expired fs_remove_file
  end.

(** [load_or_create_key]. *)
Definition load_or_create_key (directory : Path) : IO bytes :=
  let path := key_path directory in
  present ← fs_exists path;
  if (present : bool) then
    b ← fs_read path;
    plaintext ← unprotect b;
    _ ← guard_not (negb (length plaintext =? AUDIT_KEY_BYTES)%nat) (Format "audit HMAC key has invalid length");
    mret plaintext
  else
    anchored ← fs_exists (anchor_path directory);
    checkpointed ← (if (anchored : bool) then mret true else fs_exists (checkpoint_path directory));
    material ← (if (checkpointed : bool) then mret true
                else files ← chain_files directory; mret (negb (bool_decide (files = []))));
    _ ← guard_not material (Format "audit HMAC key is missing while authenticated audit material exists");
    key ← fill_random AUDIT_KEY_BYTES;
    _ ← persist_protected_file path key;
    mret key.

(** [load_checkpoint], [load_anchor]. *)
Definition load_checkpoint (directory : Path) : IO (option AuditCheckpoint) :=
  let path := checkpoint_path directory in
  present ← fs_exists path;
  if negb present then mret None
  else
    b ← fs_read path;
    plaintext ← unprotect b;
    checkpoint ← lift (from_slice plaintext);
    malformed ← (if negb (acp_schema_version checkpoint =? AUDIT_SCHEMA_VERSION) then mret true
                 else r ← try_ (decode_mac (acp_mac checkpoint)); mret (negb (is_ok r)));
    _ ← guard_not malformed (Format "audit checkpoint is malformed");
    mret (Some checkpoint).

Definition load_anchor (directory : Path) : IO (option AuditAnchor) :=
  let path := anchor_path directory in
  present ← fs_exists path;
  if negb present then
    files ← chain_files directory;
    _ ← guard_not (negb (bool_decide (files = []))) (Format "audit anchor is missing while authenticated logs exist");
    mret None
  else
    b ← fs_read path;
    plaintext ← unprotect b;
    anchor ← lift (from_slice plaintext);
    malformed ← (if negb (aa_schema_version anchor =? AUDIT_SCHEMA_VERSION) then mret true
                 else r ← try_ (decode_mac (aa_mac anchor)); mret (negb (is_ok r)));
    _ ← guard_not malformed (Format "audit anchor is malformed");
    mret (Some anchor).

(** The variables of the loop of [verify_chain]. *)
Record ChainState := mkChain { cs_expected : N; cs_previous_mac : bytes; cs_anchor_matched : bool }.

Definition anchor_check (anchor : option AuditAnchor) (entry : AuditEntry) (matched : bool) : FcpResult bool :=
  match anchor with
  | Some value =>
      if aa_sequence value =? ae_sequence entry then
        if negb (String.eqb (aa_mac value) (ae_mac entry)) then Err (Format "audit anchor MAC mismatch")
        else Ok true
      else Ok matched
  | None => Ok matched
  end.

Definition verify_line (key : bytes) (anchor : option AuditAnchor) (line : bytes) (c : ChainState) : IO ChainState :=
  entry ← lift (from_slice line);
  _ ← guard_not (negb (ae_schema_version entry =? AUDIT_SCHEMA_VERSION) || negb (ae_sequence entry =? cs_expected c))
        (Format "audit sequence regression or gap detected");
  _ ← guard_not (negb (String.eqb (ae_previous_mac entry) (encode_hex (cs_previous_mac c))))
        (Format "audit previous_mac mismatch");
  canonical ← lift (to_vec (unsigned_of entry));
  actual_mac ← decode_mac (ae_mac entry);
  _ ← lift (verify_mac key canonical actual_mac);
  matched ← lift (anchor_check anchor entry (cs_anchor_matched c));
  expected ← ok_or_throw (checked_add u64_max (cs_expected c) 1) (Format "audit sequence overflow");
  mret (mkChain expected actual_mac matched).

Fixpoint verify_lines (key : bytes) (anchor : option AuditAnchor) (ls : list bytes) (c : ChainState) : IO ChainState :=
  match ls with
  | [] => mret c
  | line :: rest => c ← verify_line key anchor line c; verify_lines key anchor rest c
  end.

Fixpoint verify_files (key : bytes) (anchor : option AuditAnchor) (files : list Path) (c : ChainState) : IO ChainState :=
  match files with
  | [] => mret c
  | path :: rest =>
      b ← fs_read path;
      _ ← guard_not (negb (bool_decide (b = [])) && negb (bool_decide (list.last b = Some Byte.x0a)))
            (Format ("audit log has a truncated final line: " +:+ path_display path));
      c ← verify_lines key anchor (lines b) c;
      verify_files key anchor rest c
  end.

(** [verify_chain]. *)
Definition initial_chain (anchor : option AuditAnchor) (checkpoint : option AuditCheckpoint) : IO ChainState :=
  let expected := match checkpoint with Some value => saturating_add u64_max (acp_sequence value) 1 | None => 1 end in
  previous_mac ← match checkpoint with Some value => decode_mac (acp_mac value) | None => mret ZERO_MAC end;
  let matched :=
    match anchor with
    | Some value => aa_sequence value <=? match checkpoint with Some item => acp_sequence item | None => 0 end
    | None => true
    end in
  mret (mkChain expected previous_mac matched).

Definition verify_chain (directory : Path) (key : bytes) (anchor : option AuditAnchor)
    (checkpoint : option AuditCheckpoint) : IO VerifiedTail :=
  c ← initial_chain anchor checkpoint;
  files ← chain_files directory;
  c ← verify_files key anchor files c;
  let sequence := cs_expected c - 1 in
  _ ← guard_not (match anchor with
                 | Some value => (sequence <? aa_sequence value) || negb (cs_anchor_matched c)
                 | None => false
                 end) (Format "audit log truncation detected by anchor");
  mret (mkTail sequence (cs_previous_mac c)).

(** [open_strict]. *)
Definition open_strict (directory : Path) : IO AuditLogger :=
  _ ← fs_create_dir_all directory;
  key ← load_or_create_key directory;
  anchor ← load_anchor directory;
  checkpoint ← load_checkpoint directory;
  verified ← verify_chain directory key anchor checkpoint;
  let logger := mkLogger directory key (tl_sequence verified) (tl_mac verified) false in
  _ ← (if match anchor with
          | Some value => negb (aa_sequence value =? tl_sequence verified)
                          || negb (String.eqb (aa_mac value) (encode_hex (tl_mac verified)))
          | None => true
          end
       then persist_anchor directory (tl_sequence verified) (tl_mac verified) else mret tt);
  _ ← compact_expired_segments directory;
  run_on logger drain_outbox.

(** [AuditLogger::open]: a log that fails verification is set aside, and a new
    one starts with an alert. *)
Definition open_audit (directory : Path) : IO AuditLogger :=
  opened ← try_ (open_strict directory);
  match opened with
  | Ok logger => mret logger
  | Err original =>
      present ← fs_exists directory;
      empty ← (if negb present then mret true
               else entries ← fs_read_dir directory; mret (bool_decide (entries = [])));
      _ ← guard_not empty original;
      parent ← ok_or_throw (path_parent directory) (Format "audit directory has no parent");
      id ← new_v4;
      let name := default "audit"%string (path_file_name directory) in
      let quarantine := path_join parent (name +:+ "-quarantine-" +:+ uuid_to_string id) in
      _ ← fs_rename_any directory quarantine;
      logger ← open_strict directory;
      run_on (set_al_recovered true logger)
        (record_system "audit_recovery" "high_alert" (Some "integrity_failure_quarantined"%string))
  end.

(** [fs::canonicalize]: a path that exists is its own canonical form. *)
Definition fs_canonicalize (p : Path) : IO Path :=
  with_fault (fs ← get_fs; match fs !! p with Some _ => mret p | None => throw (Io NotFound) end).

Definition path_starts_with (p prefix : Path) : bool := bool_decide (is_Some (strip_path_prefix prefix p)).

Fixpoint read_files (files : list Path) : IO bytes :=
  match files with
  | [] => mret []
  | path :: rest => b ← fs_read path; tail ← read_files rest; mret (b ++ tail)
  end.

(** [export_verified]. *)
Definition export_verified (directory destination : Path) : IO unit :=
  logger ← open_strict directory;
  parent ← ok_or_throw (path_parent destination) (Format "audit export destination has no parent");
  _ ← fs_create_dir_all parent;
  audit_root ← fs_canonicalize directory;
  export_parent ← fs_canonicalize parent;
  present ← fs_exists destination;
  existing ← (if (present : bool) then r ← try_ (fs_canonicalize destination); mret (Some r) else mret None);
  _ ← guard_not (path_starts_with export_parent audit_root
                 || match existing with Some (Ok target) => path_starts_with target audit_root | _ => false end)
        (Format "audit export destination must be outside the live audit directory");
  files ← chain_files (al_directory logger);
  output ← read_files files;
  write_verified destination output (fun candidate =>
    guard_not (bool_decide (candidate <> output)) (Format "audit export write verification failed")).
End Logger.
