(* ===== verification/AuditChain.v ===== *)
(** * The chain of the audit log: what verification accepts, and what recording
    adds *)

From Stdlib Require Import Sorting.Sorted.
From S2P Require Import Prelude World External Examples AtomicFile Config Messages OpRecovery AuditLog.

(** ** MACs and their text *)

Section MacLemmas.
Context `{SH : Sha256}.

Lemma zip_xor_pad pad k : zip_with xor_byte (replicate (length k) pad) k = xor_byte pad <$> k.
Proof. induction k as [|b k IH]; [done|]. cbn. by f_equal. Qed.

Lemma calculate_mac_rfc2104 key b :
  (length key <= 64)%nat -> calculate_mac key b = Ok (rfc2104_hmac sha256 key b).
Proof.
  intros Hlen. unfold calculate_mac, mbind, result_bind, guard_err.
  rewrite (proj2 (Nat.ltb_ge _ _) Hlen). f_equal. unfold rfc2104_hmac.
  set (k := key ++ _). assert (Hk : length k = 64%nat) by (unfold k; rewrite length_app, length_replicate; lia).
  rewrite <- Hk at 1. rewrite zip_xor_pad. rewrite <- Hk at 1. by rewrite zip_xor_pad.
Qed.

Lemma mac_difference_acc acc a b :
  foldl (fun d '(l, r) => N.lor d (N.lxor (Byte.to_N l) (Byte.to_N r))) acc (zip a b) = 0 <->
  acc = 0 /\ forall i x y, a !! i = Some x -> b !! i = Some y -> x = y.
Proof.
  revert acc b; induction a as [|x a IH]; intros acc b; cbn.
  { split; [intros ->; split; [done|]; intros i; by destruct i|by intros [-> _]]. }
  destruct b as [|y b]; cbn.
  { split; [intros ->; split; [done|]; intros i ? ? _; by destruct i|by intros [-> _]]. }
  rewrite IH, N.lor_eq_0_iff, N.lxor_eq_0_iff. split.
  - intros ([-> Hxy] & H). split; [done|]. intros [|i] u v; cbn; [|apply H].
    intros [= <-] [= <-]. by rewrite <- (u8_of_N_to_N x), Hxy, u8_of_N_to_N.
  - intros [-> H]. split; [split; [done|]; by rewrite (H 0%nat x y)|]. intros i u v. apply (H (S i)).
Qed.

Lemma mac_difference_zero a b : length a = length b -> mac_difference a b = 0 <-> a = b.
Proof.
  intros Hlen. unfold mac_difference. rewrite mac_difference_acc. split.
  - intros [_ H]. apply list_eq_same_length with (length a); [done|done|]. intros i x y _ Hx Hy. by eapply H.
  - intros ->. split; [done|]. intros; congruence.
Qed.

Lemma verify_mac_ok `{SL : !Sha256Laws} key b expected :
  length expected = 32%nat -> verify_mac key b expected = Ok tt <-> calculate_mac key b = Ok expected.
Proof.
  intros Hlen. unfold verify_mac, mbind, result_bind.
  destruct (calculate_mac key b) as [actual|e] eqn:Hc; [|done].
  assert (length actual = 32%nat) as Ha.
  { unfold calculate_mac in Hc. res_inv Hc. injection Hc as <-. apply sha256_length. }
  destruct (N.eqb_spec (mac_difference actual expected) 0) as [Hd|Hd].
  - apply mac_difference_zero in Hd as ->; [done|congruence].
  - split; [done|]. intros [= ->]. destruct Hd. by apply mac_difference_zero.
Qed.
End MacLemmas.

(** Two hexadecimal characters and their byte. *)
Lemma hex_pair_byte (x : byte) :
  exists a b, (forall s, list_byte_of_string (String (hex_digit (N.shiftr (Byte.to_N x) 4))
      (String (hex_digit (N.land (Byte.to_N x) 15)) s)) = a :: b :: list_byte_of_string s) /\
    is_continuation a = false /\ radix16 a b = Some (Byte.to_N x).
Proof. destruct x; eexists _, _; (split; [intros s; reflexivity|split; reflexivity]). Qed.

Lemma hex_no_continuation m c rest :
  list_byte_of_string (encode_hex m) = c :: rest -> is_continuation c = false.
Proof.
  destruct m as [|x m]; [done|]. cbn [encode_hex]. destruct (hex_pair_byte x) as (a & b & -> & Ha & _).
  by intros [= <- <-].
Qed.

Lemma decode_mac_slots_hex m w :
  decode_mac_slots (list_byte_of_string (encode_hex m)) tt w = Done m tt w.
Proof.
  induction m as [|x m IH]; [done|]. cbn [encode_hex].
  destruct (hex_pair_byte x) as (a & b & -> & Ha & Hr). cbn [decode_mac_slots].
  erewrite run_bind with (a := tt) (s' := tt) (w' := w).
  2: { destruct (list_byte_of_string (encode_hex m)) as [|c rest] eqn:Hc; [done|].
       by rewrite (hex_no_continuation _ _ _ Hc). }
  rewrite Hr. erewrite run_bind by done. erewrite run_bind by exact IH. cbn. by rewrite u8_of_N_to_N.
Qed.

Lemma decode_mac_hex m w : length m = 32%nat -> decode_mac (encode_hex m) tt w = Done m tt w.
Proof.
  intros Hm. unfold decode_mac. erewrite run_bind.
  2: { apply run_guard_not. rewrite str_len_encode_hex. unfold len. by rewrite Hm. }
  erewrite run_bind by apply decode_mac_slots_hex.
  erewrite run_bind by (apply run_guard_not; by rewrite String.eqb_refl). done.
Qed.

Lemma decode_mac_slots_inv value m st w st' w' :
  decode_mac_slots value st w = Done m st' w' -> w' = w /\ length m = Nat.div2 (length value).
Proof.
  revert m st w st' w'. induction value as [value IH] using (induction_ltof1 _ (@length _)); intros m st w st' w'.
  destruct value as [|a [|b rest]]; cbn [decode_mac_slots]; [by intros [= <- _ <-]|by intros [= <- _ <-]|].
  intros H. run_inv H. apply IH in Hrun1 as [-> Hl]; [|unfold ltof; cbn; lia].
  injection H as <- <-. split; [done|]. cbn. by rewrite Hl.
Qed.

Lemma decode_mac_inv s m st w st' w' :
  decode_mac s st w = Done m st' w' -> w' = w /\ s = encode_hex m /\ length m = 32%nat.
Proof.
  unfold decode_mac. intros H. run_inv H. apply decode_mac_slots_inv in Hrun0 as [-> Hl].
  injection H as -> ->. bool_to_prop. apply String.eqb_eq in Hrun1. split_and!; [done|done|].
  rewrite Hl. unfold str_len in Hrun.
  assert (length (list_byte_of_string s) = 64%nat) as -> by (rewrite length_list_byte_of_string; lia). done.
Qed.

(** ** The chain *)

Section Chain.
Context `{SH : Sha256, HL : !Sha256Laws, JU : Serde UnsignedAuditEntry, JE : Serde AuditEntry}.
Context (key : bytes).

(** A line that continues the chain after sequence [n - 1] with MAC [m]. *)
Record line_follows (n : N) (m line : bytes) (e : AuditEntry) (mac : bytes) : Prop := {
  lf_parses : from_slice line = Ok e;
  lf_version : ae_schema_version e = AUDIT_SCHEMA_VERSION;
  lf_sequence : ae_sequence e = n;
  lf_previous : ae_previous_mac e = encode_hex m;
  lf_mac_text : ae_mac e = encode_hex mac;
  lf_mac_length : length mac = 32%nat;
  lf_mac : exists canonical, to_vec (unsigned_of e) = Ok canonical /\ calculate_mac key canonical = Ok mac;
}.

(** [chain n m ls n' m']: the lines are entries [n], [n + 1], ..., [n' - 1], each
    authentic under the key and linked to the one before, from MAC [m] to [m']. *)
Inductive chain : N -> bytes -> list bytes -> N -> bytes -> Prop :=
  | chain_nil n m : chain n m [] n m
  | chain_cons n m line e mac ls n' m' :
      line_follows n m line e mac -> n + 1 <= u64_max -> chain (n + 1) mac ls n' m' ->
      chain n m (line :: ls) n' m'.

Lemma chain_app n m l1 n1 m1 l2 n2 m2 :
  chain n m l1 n1 m1 -> chain n1 m1 l2 n2 m2 -> chain n m (l1 ++ l2) n2 m2.
Proof. induction 1; [done|]. intros. cbn. eapply chain_cons; eauto. Qed.

Lemma chain_app_inv n m l1 l2 n2 m2 :
  chain n m (l1 ++ l2) n2 m2 -> exists n1 m1, chain n m l1 n1 m1 /\ chain n1 m1 l2 n2 m2.
Proof.
  revert n m; induction l1 as [|line l1 IH]; intros n m; cbn.
  - intros H. exists n, m. split; [constructor|done].
  - inversion 1 as [|? ? ? e mac ? ? ? Hf Hmax Hc]; subst. destruct (IH _ _ Hc) as (n1 & m1 & H1 & H2).
    exists n1, m1. split; [by eapply chain_cons|done].
Qed.

Lemma chain_length n m ls n' m' : chain n m ls n' m' -> n' = n + len ls.
Proof. unfold len. induction 1; cbn; lia. Qed.

(** A chain has one end. *)
Lemma chain_deterministic n m ls n1 m1 n2 m2 :
  chain n m ls n1 m1 -> chain n m ls n2 m2 -> n1 = n2 /\ m1 = m2.
Proof.
  intros H1. revert n2 m2. induction H1 as [|n m line e mac ls n1 m1 Hf Hmax Hc IH]; intros n2 m2 H2.
  - by inversion H2.
  - inversion H2 as [|? ? ? e2 mac2 ? ? ? Hf2 _ Hc2]; subst. apply IH.
    destruct Hf as [P _ _ _ T1 _ [c1 [C1 M1]]], Hf2 as [P2 _ _ _ T2 _ [c2 [C2 M2]]].
    assert (e2 = e) as -> by congruence. assert (c2 = c1) as -> by congruence.
    by assert (mac2 = mac) as <- by congruence.
Qed.

Lemma verify_line_follows anchor line c c' w w' :
  verify_line key anchor line c tt w = Done c' tt w' <->
  w' = w /\ exists e matched, line_follows (cs_expected c) (cs_previous_mac c) line e (cs_previous_mac c') /\
    cs_expected c + 1 <= u64_max /\ cs_expected c' = cs_expected c + 1 /\
    anchor_check anchor e (cs_anchor_matched c) = Ok matched /\ cs_anchor_matched c' = matched.
Proof using HL.
  unfold verify_line. split.
  - intros H. run_inv H. apply decode_mac_inv in Hrun3 as (-> & Hmac & Hlen). injection H as <- <-.
    apply verify_mac_ok in Hrun4; [|done]. apply checked_add_Some in Hrun6 as [-> Hmax].
    apply orb_false_iff in Hrun0 as [H1 H2]. bool_to_prop. apply String.eqb_eq in Hrun1.
    split; [done|]. exists a, a5. split; [|done]. split; try done. by exists a2.
  - intros (-> & e & matched & [Hp Hv Hs Hprev Ht Hl (canonical & Hc & Hm)] & Hmax & He & Ha & Hmat).
    erewrite run_bind by (by apply run_lift).
    erewrite run_bind by (apply run_guard_not; by rewrite Hv, Hs, !N.eqb_refl).
    erewrite run_bind by (apply run_guard_not; by rewrite Hprev, String.eqb_refl).
    erewrite run_bind by (by apply run_lift). rewrite Ht. erewrite run_bind by (by apply decode_mac_hex).
    erewrite run_bind by (apply run_lift; by apply verify_mac_ok).
    erewrite run_bind by (by apply run_lift).
    erewrite run_bind. 2: { apply run_lift. unfold checked_add. by rewrite (proj2 (N.leb_le _ _) Hmax). }
    cbn. destruct c'; cbn in *. by subst.
Qed.

(** Without an anchor, verification accepts exactly the chains. *)
Lemma verify_lines_chain ls c c' w w' :
  verify_lines key None ls c tt w = Done c' tt w' <->
  w' = w /\ chain (cs_expected c) (cs_previous_mac c) ls (cs_expected c') (cs_previous_mac c') /\
    cs_anchor_matched c' = cs_anchor_matched c.
Proof using HL.
  revert c; induction ls as [|line ls IH]; intros c; cbn [verify_lines].
  - split; [intros [= <- <-]; split_and!; [done|constructor|done]|].
    intros (-> & Hc & Hm). inversion Hc. destruct c, c'; cbn in *; by subst.
  - split.
    + intros H. apply run_bind_inv in H as (c1 & [] & w1 & H1 & H2).
      apply verify_line_follows in H1 as (-> & e & matched & Hf & Hmax & He & Ha & Hm1).
      apply IH in H2 as (-> & Hc & Hm2). injection Ha as <-. split_and!; [done| |congruence].
      rewrite He in Hc. by eapply chain_cons.
    + intros (-> & Hc & Hm). inversion Hc as [|? ? ? e mac ? ? ? Hf Hmax Hc']; subst.
      erewrite run_bind; [apply IH|].
      2: { apply (verify_line_follows None line c (mkChain (cs_expected c + 1) mac (cs_anchor_matched c))).
           split; [done|]. exists e, (cs_anchor_matched c). done. }
      done.
Qed.

(** An entry of the lines carries the anchor's sequence and MAC. *)
Definition anchored (a : AuditAnchor) (ls : list bytes) : Prop :=
  exists line e, line ∈ ls /\ from_slice line = Ok e /\ ae_sequence e = aa_sequence a /\ ae_mac e = aa_mac a.

Lemma verify_lines_sound anchor ls c c' w w' :
  verify_lines key anchor ls c tt w = Done c' tt w' ->
  w' = w /\ chain (cs_expected c) (cs_previous_mac c) ls (cs_expected c') (cs_previous_mac c') /\
    forall a, anchor = Some a -> cs_anchor_matched c' = true -> cs_anchor_matched c = true \/ anchored a ls.
Proof using HL.
  revert c; induction ls as [|line ls IH]; intros c; cbn [verify_lines].
  - intros [= <- <-]. split_and!; [done|constructor|auto].
  - intros H. apply run_bind_inv in H as (c1 & [] & w1 & H1 & H2).
    apply verify_line_follows in H1 as (-> & e & matched & Hf & Hmax & He & Ha & Hm1).
    apply IH in H2 as (-> & Hc & Hm2). split_and!; [done|rewrite He in Hc; by eapply chain_cons|].
    intros a -> Hmat. destruct (Hm2 a eq_refl Hmat) as [Hm|(l & e' & Hin & Hrest)].
    2: { right. exists l, e'. split; [by apply elem_of_cons; right|done]. }
    cbn in Ha. destruct (N.eqb_spec (aa_sequence a) (ae_sequence e)) as [Hseq|]; [|left; congruence].
    destruct (String.eqb_spec (aa_mac a) (ae_mac e)) as [Hmac|]; [|done].
    right. exists line, e. split; [by apply elem_of_cons; left|]. split; [apply Hf|done].
Qed.

(** The content of the files, one after the other. *)
Definition complete_lines (b : bytes) : Prop := b = [] \/ list.last b = Some Byte.x0a.

Definition holds (w : World) (files : list Path) (contents : list bytes) : Prop :=
  Forall2 (fun p b => file_at w p = Some b) files contents.

Lemma verify_files_sound anchor files c c' w w' :
  verify_files key anchor files c tt w = Done c' tt w' ->
  w_fs w' = w_fs w /\ exists contents, holds w files contents /\ Forall complete_lines contents /\
    chain (cs_expected c) (cs_previous_mac c) (concat (lines <$> contents)) (cs_expected c') (cs_previous_mac c') /\
    forall a, anchor = Some a -> cs_anchor_matched c' = true ->
      cs_anchor_matched c = true \/ anchored a (concat (lines <$> contents)).
Proof using HL.
  revert c w; induction files as [|p files IH]; intros c w; cbn [verify_files].
  - intros [= <- <-]. split; [done|]. exists []. split_and!; [constructor..|auto].
  - intros H. apply run_bind_inv in H as (b & [] & w1 & H1 & H). apply run_fs_read_inv in H1 as [Hb Hfs].
    apply run_bind_inv in H as (u & s1 & w2 & H1 & H). apply run_guard_not_inv in H1 as (Hg & -> & ->).
    apply run_bind_inv in H as (c1 & [] & w3 & H1 & H).
    apply verify_lines_sound in H1 as (-> & Hc1 & Ha1).
    destruct (IH _ _ H) as (Hfs' & contents & Hh & Hcl & Hc2 & Ha2). split; [congruence|].
    exists (b :: contents). split_and!.
    + constructor; [done|]. unfold holds, file_at in *. by rewrite Hfs in Hh.
    + constructor; [|done]. unfold complete_lines.
      apply andb_false_iff in Hg as [Hg|Hg]; bool_to_prop; auto.
    + cbn. by eapply chain_app.
    + intros a Ha Hm. cbn. destruct (Ha2 a Ha Hm) as [Hm1|(l & e & Hin & Hrest)].
      * destruct (Ha1 a Ha Hm1) as [|(l & e & Hin & Hrest)]; [by left|right].
        exists l, e. split; [apply elem_of_app; by left|done].
      * right. exists l, e. split; [apply elem_of_app; by right|done].
Qed.
End Chain.

(** ** The files of the log *)

Definition file_day (p : Path) : N := default u64_max (audit_day p).

(** The log files of a directory, in the order of their days. *)
Record log_files (directory : Path) (w : World) (files : list Path) : Prop := {
  lgf_complete : forall p, p ∈ files <-> path_parent p = Some directory /\ is_Some (w_fs w !! p) /\ is_chain_file p = true;
  lgf_sorted : Sorted (fun p q => file_day p <= file_day q) files;
}.

Lemma insert_by_key_elem {A} (key : A -> N) a l x : x ∈ insert_by_key key a l <-> x = a \/ x ∈ l.
Proof.
  induction l as [|b l IH]; cbn; [rewrite list_elem_of_singleton; set_solver|].
  destruct (key a <=? key b); rewrite ?elem_of_cons, ?IH; tauto.
Qed.

Lemma sort_by_key_elem {A} (key : A -> N) l x : x ∈ sort_by_key key l <-> x ∈ l.
Proof. unfold sort_by_key. induction l as [|a l IH]; cbn; [done|]. by rewrite insert_by_key_elem, elem_of_cons, IH. Qed.

Lemma insert_by_key_sorted {A} (key : A -> N) a l :
  Sorted (fun x y => key x <= key y) l -> Sorted (fun x y => key x <= key y) (insert_by_key key a l).
Proof.
  induction l as [|b l IH]; intros Hs; cbn; [by repeat constructor|].
  destruct (N.leb_spec (key a) (key b)); [constructor; [done|by constructor]|].
  apply Sorted_inv in Hs as [Hs Hr]. constructor; [by apply IH|].
  destruct l as [|c l]; cbn; [constructor; lia|]. inversion Hr.
  destruct (key a <=? key c); constructor; lia.
Qed.

Lemma sort_by_key_sorted {A} (key : A -> N) l : Sorted (fun x y => key x <= key y) (sort_by_key key l).
Proof. unfold sort_by_key. induction l; cbn; [constructor|by apply insert_by_key_sorted]. Qed.

Lemma run_dir_entries_inv entries files w w' :
  dir_entries entries tt w = Done files tt w' -> w_fs w' = w_fs w /\ files = entries.
Proof.
  revert files w w'; induction entries as [|p rest IH]; intros files w w'; cbn [dir_entries]; [by intros [= <- <-]|].
  intros H. apply run_bind_inv in H as ([] & [] & w1 & H1 & H).
  apply run_bind_inv in H as (tail & [] & w2 & H2 & H). apply IH in H2 as [Hfs ->].
  injection H as <- <-. split; [|done]. rewrite Hfs.
  unfold fs_dir_entry, with_fault, io_step, mbind, M_bind in H1. destruct (env_fault _ _); cbn in H1; [|done..].
  by injection H1 as <-.
Qed.

Lemma run_chain_files_inv directory files w w' :
  chain_files directory tt w = Done files tt w' -> w_fs w' = w_fs w /\ log_files directory w files.
Proof.
  unfold chain_files. intros H. apply run_bind_inv in H as (entries & [] & w1 & H1 & H).
  apply run_bind_inv in H as (files1 & [] & w2 & H2 & H). apply run_dir_entries_inv in H2 as [Hfs2 ->].
  injection H as <- <-.
  unfold fs_read_dir, with_fault, io_step, get_fs, mbind, M_bind in H1.
  destruct (env_fault _ _); cbn in H1; [|done..]. injection H1 as <- <-. split; [done|]. split.
  - intros p. rewrite sort_by_key_elem, !list_elem_of_In, !filter_In, bool_decide_eq_true, <- list_elem_of_In, list_elem_of_fmap.
    split.
    + intros [[([q n] & -> & Hin) Hp] Hc]. apply elem_of_map_to_list in Hin. split_and!; [done|by exists n|done].
    + intros (Hp & [n Hn] & Hc). split; [|done]. split; [|done]. exists (p, n). split; [done|]. by apply elem_of_map_to_list.
  - apply sort_by_key_sorted.
Qed.

(** ** Properties *)

(** Where the chain starts: after the checkpoint, if there is one. *)
Definition chain_start (checkpoint : option AuditCheckpoint) (n : N) (m : bytes) : Prop :=
  match checkpoint with
  | Some value => n = N.min u64_max (acp_sequence value + 1) /\ acp_mac value = encode_hex m /\ length m = 32%nat
  | None => n = 1 /\ m = ZERO_MAC
  end.

(** C13: A log that verifies is authentic and complete: when [verify_chain] returns,
    the lines of all log files, in the order of their days, are consecutive
    entries from the checkpoint on, each with the HMAC of its own content under
    the key and the MAC of its predecessor; the last one is the tail it returns;
    and the entry the anchor names is among them, with the anchor's MAC, unless
    the checkpoint covers it, so that entries up to the anchor cannot have been
    cut off, changed, reordered or inserted without the key. *)
Theorem verify_chain_sound `{SH : Sha256, HL : !Sha256Laws, JU : Serde UnsignedAuditEntry, JE : Serde AuditEntry}
    directory key anchor checkpoint w tail w' :
  verify_chain directory key anchor checkpoint tt w = Done tail tt w' ->
  exists files contents n m, log_files directory w files /\ holds w files contents /\
    Forall complete_lines contents /\ chain_start checkpoint n m /\
    chain key n m (concat (lines <$> contents)) (tl_sequence tail + 1) (tl_mac tail) /\
    forall a, anchor = Some a -> aa_sequence a <= tl_sequence tail /\
      (aa_sequence a <= match checkpoint with Some value => acp_sequence value | None => 0 end \/
       anchored a (concat (lines <$> contents))).
Proof.
  unfold verify_chain. intros H. apply run_bind_inv in H as (c & [] & w1 & H1 & H).
  apply run_bind_inv in H as (files & [] & w2 & H2 & H). apply run_chain_files_inv in H2 as [Hfs2 Hlog].
  apply run_bind_inv in H as (c' & [] & w3 & H3 & H).
  apply verify_files_sound in H3 as (Hfs3 & contents & Hh & Hcl & Hc & Ha).
  apply run_bind_inv in H as (u & s1 & w4 & H4 & H). apply run_guard_not_inv in H4 as (Hg & -> & ->).
  injection H as <- <-. cbn [tl_sequence tl_mac].
  assert (w_fs w1 = w_fs w /\ chain_start checkpoint (cs_expected c) (cs_previous_mac c) /\ 1 <= cs_expected c /\
    forall a, anchor = Some a -> cs_anchor_matched c =
      (aa_sequence a <=? match checkpoint with Some item => acp_sequence item | None => 0 end))
    as (Hfs1 & Hstart & Hpos & Hmat).
  { unfold initial_chain in H1. apply run_bind_inv in H1 as (m & [] & w5 & H5 & H1). injection H1 as <- <-.
    destruct checkpoint as [cp|]; cbn in *.
    - apply decode_mac_inv in H5 as (-> & Hm & Hl). unfold saturating_add. split_and!; try done; [unfold u64_max; lia|].
      by intros a ->.
    - injection H5 as <- <-. split_and!; try done. by intros a ->. }
  pose proof (chain_length _ _ _ _ _ _ Hc) as Hlen.
  exists files, contents, (cs_expected c), (cs_previous_mac c). split_and!.
  - destruct Hlog as [Hl1 Hl2]. split; [|done]. intros p. by rewrite Hl1, Hfs1.
  - unfold holds, file_at in *. by rewrite Hfs2, Hfs1 in Hh.
  - done.
  - done.
  - by replace (cs_expected c' - 1 + 1) with (cs_expected c') by lia.
  - intros a ->. apply orb_false_iff in Hg as [Hg1 Hg2]. bool_to_prop. split; [done|].
    destruct (Ha a eq_refl Hg2) as [Hm|Hm]; [left|by right]. rewrite (Hmat a eq_refl) in Hm. by bool_to_prop.
Qed.

(** ** Recording *)

(** A serialized entry is one line: [serde_json] escapes line breaks. *)
Class OneLine (A : Type) `{Serde A} : Prop :=
  one_line (a : A) b : to_vec a = Ok b -> b <> [] /\ Byte.x0a ∉ b.

Lemma split_lines_line current line rest :
  Byte.x0a ∉ line -> current ++ line <> [] ->
  split_lines current (line ++ Byte.x0a :: rest) = (rev current ++ line) :: lines rest.
Proof.
  revert current; induction line as [|x line IH]; intros current Hn Hne; cbn [app].
  - rewrite app_nil_r in *. cbn. by destruct current.
  - apply not_elem_of_cons in Hn as [Hx Hn].
    assert (split_lines current (x :: line ++ Byte.x0a :: rest) =
      split_lines (x :: current) (line ++ Byte.x0a :: rest)) as -> by (by destruct x).
    rewrite IH; [|done|done]. cbn. by rewrite <- app_assoc.
Qed.

Lemma split_lines_app current a b :
  complete_lines a -> a <> [] -> split_lines current (a ++ b) = split_lines current a ++ lines b.
Proof.
  intros Hc Hne. destruct Hc as [|Hl]; [done|]. apply list.last_Some in Hl as [l ->]. clear Hne.
  rewrite <- app_assoc. cbn [app]. revert current; induction l as [|x l IH]; intros current; cbn [app].
  - destruct current; cbn; done.
  - destruct (decide (x = Byte.x0a)) as [->|Hx].
    + cbn. destruct current; cbn; by rewrite IH.
    + assert (forall t, split_lines current (x :: t) = split_lines (x :: current) t) as Hs by (intros t; by destruct x).
      by rewrite !Hs, IH.
Qed.

Lemma lines_snoc old line :
  complete_lines old -> line <> [] -> Byte.x0a ∉ line -> lines (old ++ line ++ [Byte.x0a]) = lines old ++ [line].
Proof.
  intros Hc Hne Hn. assert (Hl : lines (line ++ [Byte.x0a]) = [line]) by (by apply (split_lines_line [])).
  destruct (decide (old = [])) as [->|]; [done|].
  unfold lines at 1. rewrite split_lines_app by done. by rewrite Hl.
Qed.

Section Record.
Context `{SH : Sha256, HL : !Sha256Laws, LS : LocalSecret, LL : !LocalSecretLaws,
  JU : Serde UnsignedAuditEntry, JE : Serde AuditEntry, EL : !SerdeLaws AuditEntry, EO : !OneLine AuditEntry,
  JA : Serde AuditAnchor}.

Lemma persist_protected_frame path plaintext : io_frame (writer_files path) (persist_protected_file path plaintext).
Proof using LL.
  intros w. unfold persist_protected_file. apply wp_bind.
  assert (Hnone : forall w', agree_off (fun _ => False) w w' -> agree_off (writer_files path) w w').
  { intros w'. by apply same_files_off. }
  eapply wp_mono; [apply (protect_frame plaintext)| |by intros e [] w'; apply Hnone|by intros w'; apply Hnone].
  cbn beta. intros protected [] w1 H1. apply Hnone in H1.
  assert (Htouched : forall w', agree_off (touched path (fun _ => False)) w1 w' -> agree_off (writer_files path) w w').
  { intros w' Ha. eapply agree_off_trans; [exact H1|]. eapply agree_off_weaken; [exact Ha|]. by intros p [|]. }
  apply (wp_write_verified _ _ _ (fun _ => False) True); [done| |intros; by apply Htouched..].
  intros w0. apply wp_bind. eapply wp_mono; [apply unprotect_frame| |done|done].
  cbn beta. intros recovered [] w2 H2. apply wp_guard_not. by case_match.
Qed.

Lemma wp_fs_open_append p (Q : unit -> unit -> World -> Prop) (E : FcpError -> unit -> World -> Prop) (C : World -> Prop) w :
  (forall w', later w w' -> w_fs w' !! p = Some (File (default [] (file_at w p))) ->
     (forall q, q <> p -> file_at w' q = file_at w q) -> Q tt tt w') ->
  (forall e, E e tt (tick w)) -> C w -> wp (fs_open_append p) Q E C tt w.
Proof.
  intros HQ HE HC. unfold fs_open_append. run_io; [|done..].
  unfold file_at in *. destruct (w_fs w !! p) as [[b|]|] eqn:Hp; cbn; [|done|].
  - apply HQ; [done|done|done].
  - apply HQ; cbn; [done|by rewrite lookup_insert_eq|]. intros q Hq. by rewrite lookup_insert_ne.
Qed.

Lemma wp_fs_append p c b (Q : unit -> unit -> World -> Prop) (E : FcpError -> unit -> World -> Prop) (C : World -> Prop) w :
  w_fs w !! p = Some (File c) ->
  (forall w', file_at w' p = Some (c ++ b) -> agree_off (eq p) w w' -> Q tt tt w') ->
  (forall n w', file_at w' p = Some (c ++ take n b) -> agree_off (eq p) w w' -> E (Io OtherIo) tt w') ->
  (forall n w', file_at w' p = Some (c ++ take n b) -> agree_off (eq p) w w' -> C w') ->
  wp (fs_write_all p b) Q E C tt w.
Proof.
  intros Hp HQ HE HC. unfold fs_write_all, wp. rewrite Hp.
  assert (Hoff : forall d w0, later w w0 -> agree_off (eq p) w (set_fs (<[p := File d]> (w_fs w)) w0)).
  { intros d w0 He. split; [done|]. intros q Hq. by apply file_at_set_insert_ne. }
  destruct (env_fault (w_env w) (w_step w)) as [|n|n]; cbn.
  - apply HQ; [apply file_at_set_insert_eq|by apply Hoff].
  - apply (HE n); [apply file_at_set_insert_eq|by apply Hoff].
  - apply (HC n); [apply file_at_set_insert_eq|by apply Hoff].
Qed.

(** The log file the next record goes to, and what it may touch. *)
Definition record_day (w : World) : N := N.div (env_clock_ms (w_env w) (w_step w) `mod` 2 ^ 64) 86400000.
Definition record_path (l : AuditLogger) (w : World) : Path := day_path (al_directory l) (record_day w).
Definition record_files (l : AuditLogger) (w : World) (p : Path) : Prop :=
  p = record_path l w \/ writer_files (anchor_path (al_directory l)) p.

(** What is to be recorded. *)
Context (group : option Uuid) (event outcome : string) (op : option Uuid) (detail : option string) (id : option Uuid).

(** The one line that may be added: it follows the logger's last entry in the chain,
    up to the MAC [mac], and says what is to be recorded, and when. *)
Definition next_line (l : AuditLogger) (w : World) (line mac : bytes) : Prop :=
  line <> [] /\ (Byte.x0a ∉ line) /\
  chain (al_key l) (al_sequence l + 1) (al_mac l) [line] (al_sequence l + 2) mac /\
  exists e, from_slice line = Ok e /\ ae_account_group_id e = group /\ ae_event e = event /\ ae_outcome e = outcome /\
    ae_operation_id e = op /\ ae_detail_code e = detail /\ ae_audit_event_id e = id /\
    ae_timestamp_unix_ms e = env_clock_ms (w_env w) (w_step w) `mod` 2 ^ 64.

(** [l'] is the logger after one more entry, and the entry is on disk. *)
Definition recorded (l : AuditLogger) (w : World) (l' : AuditLogger) (w' : World) : Prop :=
  al_directory l' = al_directory l /\ al_key l' = al_key l /\ al_sequence l' = al_sequence l + 1 /\
  exists line, next_line l w line (al_mac l') /\
    file_at w' (record_path l w) = Some (default [] (file_at w (record_path l w)) ++ line ++ [Byte.x0a]).

(** Of the line and its line feed, at most a prefix was appended. *)
Definition torn (l : AuditLogger) (w w' : World) : Prop :=
  default [] (file_at w' (record_path l w)) = default [] (file_at w (record_path l w)) \/
  exists line mac n, next_line l w line mac /\
    file_at w' (record_path l w) = Some (default [] (file_at w (record_path l w)) ++ take n (line ++ [Byte.x0a])).

Lemma anchor_not_day directory day : ~ writer_files (anchor_path directory) (day_path directory day).
Proof.
  unfold writer_files, temporary_path, path_file_name, anchor_path, day_path, path_join, with_file_name.
  rewrite list.last_snoc, removelast_last.
  intros [Heq|[= Heq]]; apply app_inv_head in Heq; discriminate Heq.
Qed.

Lemma wp_record_inner (Q : unit -> AuditLogger -> World -> Prop)
    (E : FcpError -> AuditLogger -> World -> Prop) (C : World -> Prop) l w :
  al_sequence l + 2 <= u64_max ->
  (forall l' w', recorded l w l' w' -> agree_off (record_files l w) w w' -> Q tt l' w') ->
  (forall e l' w', agree_off (record_files l w) w w' -> (l' = l /\ torn l w w') \/ recorded l w l' w' -> E e l' w') ->
  (forall w', agree_off (record_files l w) w w' -> torn l w w' \/ (exists l', recorded l w l' w') -> C w') ->
  wp (record_inner group event outcome op detail id) Q E C l w.
Proof using HL LL EL EO.
  intros Hmax HQ HE HC. unfold record_inner.
  assert (Hsame : forall w', agree_off (record_files l w) w w' -> file_at w' (record_path l w) = file_at w (record_path l w) ->
    forall e, E e l w').
  { intros w' Ha Hf e. apply HE; [done|]. left. split; [done|]. left. by rewrite Hf. }
  apply wp_bind, wp_get, wp_bind, wp_ok_or_throw.
  assert (checked_add u64_max (al_sequence l) 1 = Some (al_sequence l + 1)) as ->
    by (unfold checked_add; by rewrite (proj2 (N.leb_le _ _)) by lia).
  apply wp_bind, wp_io. unfold unix_ms, wp at 1.
  destruct (env_fault (w_env w) (w_step w)); cbn [outcome_sat]; [|by apply Hsame|apply HC; [done|left; by left]].
  set (now := env_clock_ms _ _ `mod` _). set (unsigned := mkUnsignedEntry _ _ _ _ _ _ _ _ _ _).
  apply wp_bind, wp_lift. destruct (to_vec unsigned) as [canonical|] eqn:Hcan; [|by apply Hsame].
  apply wp_bind, wp_lift. destruct (calculate_mac (al_key l) canonical) as [mac|] eqn:Hmac; [|by apply Hsame].
  set (entry := mkAuditEntry _ _ _ _ _ _ _ _ _ _ _).
  apply wp_bind, wp_lift. destruct (to_vec entry) as [line|] eqn:Hline; [|by apply Hsame].
  change (day_path (al_directory l) (now / 86400000)) with (record_path l w).
  assert (Hmaclen : length mac = 32%nat).
  { unfold calculate_mac in Hmac. res_inv Hmac. injection Hmac as <-. apply sha256_length. }
  destruct (one_line _ _ Hline) as [Hne Hnl].
  assert (Hnext : next_line l w line mac).
  { split_and!; [done..| |exists entry; split_and!; [by apply from_slice_to_vec|done..]].
    replace (al_sequence l + 2) with (al_sequence l + 1 + 1) by lia.
    eapply chain_cons with (e := entry) (mac := mac); [|lia|constructor].
    split; [by apply from_slice_to_vec|done..|]. by exists canonical. }
  assert (Hrec : forall w', file_at w' (record_path l w) = Some (default [] (file_at w (record_path l w)) ++ line ++ [Byte.x0a]) ->
    recorded l w (set_al_tail (al_sequence l + 1) mac l) w').
  { intros w' Hf. split_and!; [done..|]. by exists line. }
  apply wp_bind, wp_io, wp_fs_open_append.
  2: { intros e. by apply Hsame. }
  2: { apply HC; [done|left; by left]. }
  intros w1 Henv1 Hf1 Hother1.
  assert (Ha1 : agree_off (record_files l w) w w1).
  { split; [done|]. intros p Hp. apply Hother1. intros ->. apply Hp. by left. }
  assert (Hcomb : forall w2, agree_off (eq (record_path l w)) w1 w2 -> agree_off (record_files l w) w w2).
  { intros w2 Ha. eapply agree_off_trans; [exact Ha1|]. eapply agree_off_weaken; [exact Ha|]. intros p <-. by left. }
  apply wp_bind, wp_io. eapply wp_fs_append; [exact Hf1| |intros n w2 Hf2 Ha2|intros n w2 Hf2 Ha2].
  2: { apply HE; [by apply Hcomb|]. left. split; [done|]. right. by exists line, mac, n. }
  2: { apply HC; [by apply Hcomb|]. left. right. by exists line, mac, n. }
  intros w2 Hf2 Ha2. apply Hcomb in Ha2.
  assert (Hfull : torn l w w2).
  { right. exists line, mac, (length (line ++ [Byte.x0a])). by rewrite take_ge. }
  apply wp_bind, wp_io, wp_fs_sync; [|apply HE; [done|by left]|apply HC; [done|by left]].
  apply wp_bind, wp_put, wp_io. unfold persist_anchor. apply wp_bind, wp_lift.
  assert (Hrec2 : recorded l w (set_al_tail (al_sequence l + 1) mac l) w2) by (by apply Hrec).
  destruct (to_vec (mkAnchor _ _ _)) as [pt|]; [|apply HE; [done|by right]].
  assert (Hafter : forall w3, agree_off (writer_files (anchor_path (al_directory l))) (tick w2) w3 ->
    agree_off (record_files l w) w w3 /\ recorded l w (set_al_tail (al_sequence l + 1) mac l) w3).
  { intros w3 Ha3. split.
    - eapply agree_off_trans; [exact (agree_off_tick _ _ _ Ha2)|]. eapply agree_off_weaken; [exact Ha3|]. intros p Hp. by right.
    - apply Hrec. rewrite (agree_off_file _ _ _ _ Ha3) by apply anchor_not_day. exact Hf2. }
  eapply wp_mono; [apply persist_protected_frame|..]; cbn beta.
  - intros [] [] w3 Ha3. destruct (Hafter _ Ha3). by apply HQ.
  - intros e [] w3 Ha3. destruct (Hafter _ Ha3). apply HE; [done|by right].
  - intros w3 Ha3. destruct (Hafter _ Ha3) as [Ha Hr]. apply HC; [done|]. right. eexists. exact Hr.
Qed.
End Record.

(** C14: Recording continues the chain: let the log up to the current day's file be
    a chain that ends in the logger's sequence and MAC. Then, if recording
    succeeds, the day's file is the old one plus one whole line, which says what was
    to be recorded; the log is still a chain, and it ends in the new sequence and MAC of
    the logger. If it fails, or the process dies in it, the logger is either as before,
    and what was appended is a prefix (none, or even all) of that one next line of the
    chain and its line feed; or it has advanced with the whole line on disk. Nothing
    but the day's file and the anchor is touched. *)
Theorem audit_record_extends `{SH : Sha256, HL : !Sha256Laws, LS : LocalSecret, LL : !LocalSecretLaws,
    JU : Serde UnsignedAuditEntry, JE : Serde AuditEntry, EL : !SerdeLaws AuditEntry, EO : !OneLine AuditEntry,
    JA : Serde AuditAnchor} group event outcome op detail id l w n m prior :
  let old := default [] (file_at w (record_path l w)) in
  al_sequence l + 2 <= u64_max -> complete_lines old ->
  chain (al_key l) n m (prior ++ lines old) (al_sequence l + 1) (al_mac l) ->
  wp (record_inner group event outcome op detail id)
     (fun _ l' w' => agree_off (record_files l w) w w' /\ al_sequence l' = al_sequence l + 1 /\
        exists line, next_line group event outcome op detail id l w line (al_mac l') /\
        exists new, new = old ++ line ++ [Byte.x0a] /\ file_at w' (record_path l w) = Some new /\ complete_lines new /\
          chain (al_key l) n m (prior ++ lines new) (al_sequence l' + 1) (al_mac l'))
     (fun _ l' w' => agree_off (record_files l w) w w' /\ ((l' = l /\ torn group event outcome op detail id l w w') \/ recorded group event outcome op detail id l w l' w'))
     (fun w' => agree_off (record_files l w) w w' /\ (torn group event outcome op detail id l w w' \/ exists l', recorded group event outcome op detail id l w l' w')) l w.
Proof.
  intros old Hmax Hcl Hc. apply wp_record_inner; [done| |by auto..].
  intros l' w' (_ & _ & Hs & line & Hnext & Hf) Ha. pose proof Hnext as (Hne & Hnl & Hch & _). fold old in Hf.
  split; [done|]. split; [done|]. exists line. split; [done|]. exists (old ++ line ++ [Byte.x0a]). split_and!; [done..| |].
  - right. by rewrite app_assoc, list.last_snoc.
  - rewrite lines_snoc by done. rewrite app_assoc. eapply chain_app; [exact Hc|].
    by replace (al_sequence l' + 1) with (al_sequence l + 2) by lia.
Qed.

(** A MAC is accepted exactly when it is the RFC 2104 HMAC of the content. *)
Theorem verify_mac_exact `{SH : Sha256, HL : !Sha256Laws} key b expected :
  (length key <= 64)%nat -> length expected = 32%nat ->
  verify_mac key b expected = Ok tt <-> expected = rfc2104_hmac sha256 key b.
Proof.
  intros Hk He. rewrite verify_mac_ok by done. rewrite calculate_mac_rfc2104 by done. split; congruence.
Qed.

(** The text of a MAC is canonical: [decode_mac] returns a value exactly for the
    64 lower-case hexadecimal characters that spell it. *)
Theorem mac_text_canonical s mac w :
  decode_mac s tt w = Done mac tt w <-> s = encode_hex mac /\ length mac = 32%nat.
Proof.
  split; [by intros (_ & -> & ?)%decode_mac_inv|]. intros [-> Hl]. by apply decode_mac_hex.
Qed.

(** A failing flush desynchronizes the log: if recording fails after the whole
    line was appended and leaves the logger as it was, the next record that
    succeeds on the same day reuses the sequence number, and the log that results
    is not a chain from any start the old log had; verification then rejects it. *)
Theorem audit_failed_sync_breaks_log `{SH : Sha256, HL : !Sha256Laws, LS : LocalSecret, LL : !LocalSecretLaws,
    JU : Serde UnsignedAuditEntry, JE : Serde AuditEntry, EL : !SerdeLaws AuditEntry, EO : !OneLine AuditEntry,
    JA : Serde AuditAnchor} group1 event1 outcome1 op1 detail1 id1 group2 event2 outcome2 op2 detail2 id2
    l l' w w1 w2 e line n m n' m' mac prior :
  let old := default [] (file_at w (record_path l w)) in
  al_sequence l + 2 <= u64_max -> complete_lines old ->
  record_inner group1 event1 outcome1 op1 detail1 id1 l w = Failed e l w1 ->
  file_at w1 (record_path l w) = Some (old ++ line ++ [Byte.x0a]) -> line <> [] -> Byte.x0a ∉ line ->
  record_day w1 = record_day w ->
  record_inner group2 event2 outcome2 op2 detail2 id2 l w1 = Done tt l' w2 ->
  chain (al_key l) n m (prior ++ lines old ++ [line]) (al_sequence l + 2) mac ->
  ~ chain (al_key l) n m (prior ++ lines (default [] (file_at w2 (record_path l w)))) n' m'.
Proof.
  intros old Hmax Hcl _ Hf1 Hne Hnl Hday Hrun Hchain Hbad.
  pose proof (wp_record_inner group2 event2 outcome2 op2 detail2 id2
    (fun _ l' w' => recorded group2 event2 outcome2 op2 detail2 id2 l w1 l' w') (fun _ _ _ => True) (fun _ => True) l w1 Hmax) as Hwp.
  unfold wp in Hwp. rewrite Hrun in Hwp. cbn [outcome_sat] in Hwp.
  destruct Hwp as (_ & _ & Hseq & line2 & (Hne2 & Hnl2 & Hc2 & _) & Hf2); [by auto..|].
  assert (Hpath : record_path l w1 = record_path l w) by (unfold record_path; by rewrite Hday).
  rewrite Hpath, Hf1 in Hf2. cbn [default] in Hf2. rewrite Hf2 in Hbad. cbn [default] in Hbad.
  assert (Hcl' : complete_lines (old ++ line ++ [Byte.x0a])) by (right; by rewrite app_assoc, list.last_snoc).
  unfold from_option, id in Hbad. rewrite (lines_snoc _ line2 Hcl' Hne2 Hnl2), (lines_snoc _ line Hcl Hne Hnl) in Hbad.
  rewrite app_assoc in Hbad.
  apply chain_app_inv in Hbad as (n1 & m1 & Hb1 & Hb2).
  destruct (chain_deterministic _ _ _ _ _ _ _ _ Hb1 Hchain) as [-> ->].
  inversion Hb2 as [|? ? ? e1 ? ? ? ? [P1 _ S1 _ _ _ _] _ _]; subst.
  inversion Hc2 as [|? ? ? e2 ? ? ? ? [P2 _ S2 _ _ _ _] _ _]; subst.
  assert (e1 = e2) as -> by congruence. lia.
Qed.

(** A MAC that is not ASCII can stop the host: on some 64-byte UTF-8 text,
    [decode_mac] cuts a character in two and panics, where it should report a
    malformed MAC. *)
Theorem decode_mac_panics w :
  exists s, is_utf8 (list_byte_of_string s) = true /\ str_len s = 64 /\ decode_mac s tt w = Panicked w.
Proof.
  exists (string_of_list_byte ([Byte.x30; Byte.xc3; Byte.xa9] ++ replicate 61 Byte.x30)).
  split_and!; [by vm_compute|by vm_compute|reflexivity].
Qed.

(** ** Examples *)

(** A codec whose encodings are hexadecimal text. *)
Definition line_json {A} (c : Codec A) : Serde A := {|
  to_vec a := Ok (Byte.x7b :: list_byte_of_string (encode_hex (enc c a)));
  from_slice b :=
    match b with
    | Byte.x7b :: hex =>
        match decode_nonce_slots (Nat.div2 (length hex)) (string_of_list_byte hex) with
        | Ok x => match dec c x with Some (a, []) => Ok a | _ => Err Json end
        | Err _ => Err Json
        end
    | _ => Err Json
    end;
|}.

Lemma line_json_laws {A} (c : Codec A) : @SerdeLaws A (line_json c).
Proof.
  intros a b [= <-]. cbn. rewrite string_of_list_byte_of_string, length_list_byte_of_string.
  assert (String.length (encode_hex (enc c a)) = (2 * length (enc c a))%nat) as ->.
  { pose proof (str_len_encode_hex (enc c a)). unfold str_len, len in *. lia. }
  rewrite Nat.div2_double, decode_nonce_slots_hex, <- (app_nil_r (enc c a)). by rewrite dec_enc.
Qed.

Lemma line_json_one_line {A} (c : Codec A) : @OneLine A (line_json c).
Proof.
  intros a b [= <-]. split; [done|]. intros [Hx|Hx]%elem_of_cons; [done|].
  induction (enc c a) as [|x m IH]; [by apply elem_of_nil in Hx|]. cbn [encode_hex] in Hx.
  apply IH. clear IH.
  assert (forall s, Byte.x0a ∈ list_byte_of_string (String (hex_digit (N.shiftr (Byte.to_N x) 4))
    (String (hex_digit (N.land (Byte.to_N x) 15)) s)) -> Byte.x0a ∈ list_byte_of_string s) as H.
  { intros s. destruct x; (intros [Hy|[Hy|Hy]%elem_of_cons]%elem_of_cons; [discriminate Hy|discriminate Hy|exact Hy]). }
  by apply H.
Qed.

Definition codec_unsigned_entry : Codec UnsignedAuditEntry.
Proof.
  refine (codec_iso
    (fun e => (ue_schema_version e, (ue_sequence e, (ue_previous_mac e, (ue_timestamp_unix_ms e,
       (ue_account_group_id e, (ue_event e, (ue_outcome e, (ue_operation_id e, (ue_detail_code e, ue_audit_event_id e))))))))))
    (fun '(a, (b, (c, (d, (e, (f, (g, (h, (i, j))))))))) => mkUnsignedEntry a b c d e f g h i j) _
    (codec_pair codec_N (codec_pair codec_N (codec_pair codec_string (codec_pair codec_N
      (codec_pair (codec_option codec_N) (codec_pair codec_string (codec_pair codec_string
      (codec_pair (codec_option codec_N) (codec_pair (codec_option codec_string) (codec_option codec_N))))))))))).
  by intros [].
Defined.

Definition codec_audit_entry : Codec AuditEntry.
Proof.
  refine (codec_iso
    (fun e => (unsigned_of e, ae_mac e))
    (fun '(u, m) => mkAuditEntry (ue_schema_version u) (ue_sequence u) (ue_previous_mac u) (ue_timestamp_unix_ms u)
       (ue_account_group_id u) (ue_event u) (ue_outcome u) (ue_operation_id u) (ue_detail_code u) (ue_audit_event_id u) m) _
    (codec_pair codec_unsigned_entry codec_string)).
  by intros [].
Defined.

Definition codec_anchor : Codec AuditAnchor.
Proof.
  refine (codec_iso (fun a => (aa_schema_version a, (aa_sequence a, aa_mac a))) (fun '(a, (b, c)) => mkAnchor a b c) _
    (codec_pair codec_N (codec_pair codec_N codec_string))).
  by intros [].
Defined.

Definition codec_checkpoint : Codec AuditCheckpoint.
Proof.
  refine (codec_iso (fun a => (acp_schema_version a, (acp_sequence a, (acp_mac a, acp_archived_through_day a))))
    (fun '(a, (b, (c, d))) => mkCheckpoint a b c d) _
    (codec_pair codec_N (codec_pair codec_N (codec_pair codec_string codec_N)))).
  by intros [].
Defined.

Definition codec_outbox_entry : Codec AuditOutboxEntry.
Proof.
  refine (codec_iso
    (fun e => (aob_audit_event_id e, (aob_account_group_id e, (aob_event e, (aob_outcome e, (aob_operation_id e, aob_detail_code e))))))
    (fun '(a, (b, (c, (d, (e, f))))) => mkOutboxEntry a b c d e f) _
    (codec_pair codec_N (codec_pair codec_N (codec_pair codec_string (codec_pair codec_string
      (codec_pair (codec_option codec_N) (codec_option codec_string))))))).
  by intros [].
Defined.

Definition toy_unsigned_entry : Serde UnsignedAuditEntry := line_json codec_unsigned_entry.
Definition toy_audit_entry : Serde AuditEntry := line_json codec_audit_entry.
Definition toy_anchor : Serde AuditAnchor := line_json codec_anchor.
Definition toy_checkpoint : Serde AuditCheckpoint := line_json codec_checkpoint.
Definition toy_outbox : Serde (list AuditOutboxEntry) := line_json (codec_list codec_outbox_entry).

Section AuditExamples.
#[local] Existing Instances toy_uuid_text toy_sha256 toy_sha256_laws toy_local_secret toy_local_secret_laws
  toy_unsigned_entry toy_audit_entry toy_anchor toy_checkpoint toy_outbox.
#[local] Instance toy_audit_entry_laws : SerdeLaws AuditEntry := line_json_laws codec_audit_entry.
#[local] Instance toy_audit_entry_one_line : OneLine AuditEntry := line_json_one_line codec_audit_entry.

Definition audit_example_world (fault : nat -> Fault) (clock : nat -> N) : World :=
  mkWorld {[ ["d"] := Dir ]} 0 (mkEnv fault (fun _ => 7) clock).

Definition fault_at (k n : nat) : Fault := if Nat.eqb n k then IoFault 0 else NoFault.

Definition example_logger : AuditLogger := mkLogger ["d"] (replicate 32 Byte.x11) 0 ZERO_MAC false.

Definition example_record : M AuditLogger unit := record_inner (Some 77) "inject" "success" None None None.

Lemma audit_record_extends_witness :
  let w := audit_example_world (fun _ => NoFault) (fun _ => 1700000000000) in
  wp example_record
     (fun _ l' w' => agree_off (record_files example_logger w) w w' /\ al_sequence l' = 1 /\
        exists line, next_line (Some 77) "inject" "success" None None None example_logger w line (al_mac l') /\
        exists new, new = [] ++ line ++ [Byte.x0a] /\ file_at w' (record_path example_logger w) = Some new /\ complete_lines new /\
          chain (replicate 32 Byte.x11) 1 ZERO_MAC ([] ++ lines new) (al_sequence l' + 1) (al_mac l'))
     (fun _ l' w' => agree_off (record_files example_logger w) w w' /\
        ((l' = example_logger /\ torn (Some 77) "inject" "success" None None None example_logger w w') \/ recorded (Some 77) "inject" "success" None None None example_logger w l' w'))
     (fun w' => agree_off (record_files example_logger w) w w' /\
        (torn (Some 77) "inject" "success" None None None example_logger w w' \/ exists l', recorded (Some 77) "inject" "success" None None None example_logger w l' w')) example_logger w.
Proof.
  intros w. apply (audit_record_extends (Some 77) "inject" "success" None None None example_logger w 1 ZERO_MAC []).
  - by vm_compute.
  - by left.
  - constructor.
Defined.

(** A log with one entry, and what its verification returns. *)
Definition one_entry_world : World :=
  outcome_world (example_record example_logger (audit_example_world (fun _ => NoFault) (fun _ => 1700000000000))).

Definition one_entry_check : Outcome unit VerifiedTail :=
  verify_chain ["d"] (replicate 32 Byte.x11) None None tt one_entry_world.

Definition one_entry_result : VerifiedTail * World :=
  (outcome_value (mkTail 0 []) one_entry_check, outcome_world one_entry_check).

Lemma verify_chain_sound_witness :
  exists files contents n m, log_files ["d"] one_entry_world files /\ holds one_entry_world files contents /\
    Forall complete_lines contents /\ chain_start None n m /\
    chain (replicate 32 Byte.x11) n m (concat (lines <$> contents)) (tl_sequence one_entry_result.1 + 1)
      (tl_mac one_entry_result.1) /\
    forall a, None = Some a -> aa_sequence a <= tl_sequence one_entry_result.1 /\
      (aa_sequence a <= 0 \/ anchored a (concat (lines <$> contents))).
Proof.
  apply (verify_chain_sound ["d"] (replicate 32 Byte.x11) None None one_entry_world one_entry_result.1 one_entry_result.2).
  vm_compute. reflexivity.
Defined.

Lemma verify_mac_exact_witness :
  verify_mac (replicate 32 Byte.x11) (str_bytes "abc") (replicate 32 Byte.x00) = Ok tt <->
  replicate 32 Byte.x00 = rfc2104_hmac sha256 (replicate 32 Byte.x11) (str_bytes "abc").
Proof. apply verify_mac_exact; [cbn; lia|reflexivity]. Defined.

(** The flush of the first record fails; the second record succeeds. *)
Definition sync_world : World := audit_example_world (fault_at 3) (fun _ => 1700000000000).

Definition sync_first : World := outcome_world (example_record example_logger sync_world).

Definition sync_second : AuditLogger * World :=
  let o := example_record example_logger sync_first in (outcome_state example_logger o, outcome_world o).

Definition sync_line : bytes :=
  hd [] (lines (default [] (file_at sync_first (record_path example_logger sync_world)))).

Definition sync_mac : bytes :=
  tl_mac (outcome_value (mkTail 0 []) (verify_chain ["d"] (replicate 32 Byte.x11) None None tt sync_first)).

Lemma sync_line_chain : chain (replicate 32 Byte.x11) 1 ZERO_MAC [sync_line] 2 sync_mac.
Proof.
  apply (verify_lines_chain (replicate 32 Byte.x11) [sync_line] (mkChain 1 ZERO_MAC true) (mkChain 2 sync_mac true)
    sync_world sync_world).
  vm_compute. reflexivity.
Qed.

Lemma audit_failed_sync_breaks_log_witness :
  ~ chain (replicate 32 Byte.x11) 1 ZERO_MAC
      ([] ++ lines (default [] (file_at sync_second.2 (record_path example_logger sync_world)))) 3 sync_mac.
Proof.
  apply (audit_failed_sync_breaks_log (Some 77) "inject" "success" None None None (Some 77) "inject" "success" None None None
    example_logger sync_second.1 sync_world sync_first sync_second.2 (Io OtherIo) sync_line 1 ZERO_MAC 3 sync_mac sync_mac []).
  - vm_compute. discriminate.
  - left. vm_compute. reflexivity.
  - vm_compute. reflexivity.
  - vm_compute. reflexivity.
  - vm_compute. discriminate.
  - apply (bool_decide_unpack _). vm_compute. exact I.
  - vm_compute. reflexivity.
  - vm_compute. reflexivity.
  - exact sync_line_chain.
Defined.
End AuditExamples.
