(* ===== verification/Protocol.v ===== *)
(** * protocol/envelope.rs and protocol/framing.rs: the wire

    Envelopes carry the protocol version, the connection's nonce and a sequence
    number; frames carry an envelope as JSON after its length.  The pipe is the
    input that is left and the output written so far. *)

From S2P Require Import Prelude World External Examples Config Messages.

Definition LEGACY_PROTOCOL_VERSION : N := 6.
Definition PROTOCOL_VERSION : N := 7.

Definition supported_protocol (version : N) : bool :=
  (version =? LEGACY_PROTOCOL_VERSION) || (version =? PROTOCOL_VERSION).

Record Envelope := mkEnvelope {
  env_v : N;
  env_conn_nonce : bytes;
  env_seq : N;
  env_id : Uuid;
  env_message : Message;
}.

(** [Envelope::validate]. *)
Definition validate_envelope (self : Envelope) (expected_nonce : bytes) (previous_sequence : N) : FcpResult unit :=
  _ ← guard_err (negb (supported_protocol (env_v self)))
        (Protocol ("unsupported protocol version " +:+ pretty (env_v self)));
  _ ← guard_err (bool_decide (env_conn_nonce self <> expected_nonce)) (Protocol "connection nonce mismatch");
  expected_sequence ← ok_or (checked_add u64_max previous_sequence 1) (Protocol "sequence overflow");
  _ ← guard_err (negb (env_seq self =? expected_sequence))
        (Protocol ("expected sequence " +:+ pretty expected_sequence +:+ ", got " +:+ pretty (env_seq self)));
  guard_err (uuid_is_nil (env_id self)) (Protocol "message id must not be nil").

(** ** Frames *)

Definition MAX_FRAME_BYTES : N := 1024 * 1024.

Record Pipe := mkPipe { pipe_input : bytes; pipe_output : bytes }.

(** [reader.read_exact(..)] of [n] bytes: the end of the input is an error, and
    what was there is consumed. *)
Definition read_exact (n : nat) : M Pipe bytes := fun p w =>
  match env_fault (w_env w) (w_step w) with
  | NoFault =>
      if (n <=? length (pipe_input p))%nat
      then Done (take n (pipe_input p)) (mkPipe (drop n (pipe_input p)) (pipe_output p)) (tick w)
      else Failed (Io OtherIo) (mkPipe [] (pipe_output p)) (tick w)
  | IoFault _ => Failed (Io OtherIo) p (tick w)
  | Killed _ => Crashed w
  end.

(** [writer.write_all(..)]: a failing write may have written a prefix. *)
Definition pipe_write (b : bytes) : M Pipe unit := fun p w =>
  match env_fault (w_env w) (w_step w) with
  | NoFault => Done tt (mkPipe (pipe_input p) (pipe_output p ++ b)) (tick w)
  | IoFault n => Failed (Io OtherIo) (mkPipe (pipe_input p) (pipe_output p ++ take n b)) (tick w)
  | Killed _ => Crashed w
  end.

Definition pipe_flush : M Pipe unit := fun p w =>
  match env_fault (w_env w) (w_step w) with
  | NoFault => Done tt p (tick w)
  | IoFault _ => Failed (Io OtherIo) p (tick w)
  | Killed _ => Crashed w
  end.

(** The one-byte read that starts a frame: [None] at the end of the input. *)
Definition read_first : M Pipe (option byte) := fun p w =>
  match env_fault (w_env w) (w_step w) with
  | NoFault =>
      match pipe_input p with
      | [] => Done None p (tick w)
      | b :: rest => Done (Some b) (mkPipe rest (pipe_output p)) (tick w)
      end
  | IoFault _ => Failed (Io OtherIo) p (tick w)
  | Killed _ => Crashed w
  end.

Definition frame_length_error (length : N) : FcpError :=
  Protocol ("native message length " +:+ pretty length +:+ " is outside 1..=" +:+ pretty MAX_FRAME_BYTES).

Section Framing.
Context `{JE : Serde Envelope}.

(** [read_envelope]. *)
Definition read_envelope : M Pipe (option Envelope) :=
  first ← read_first;
  match first with
  | None => mret None
  | Some b0 =>
      length_rest ← read_exact 3;
      let length := le_value (b0 :: length_rest) in
      _ ← guard_not ((length =? 0) || (MAX_FRAME_BYTES <? length)) (frame_length_error length);
      body ← read_exact (N.to_nat length);
      envelope ← lift (from_slice body);
      mret (Some envelope)
  end.

(** [write_envelope]. *)
Definition write_envelope (envelope : Envelope) : M Pipe unit :=
  body ← lift (to_vec envelope);
  _ ← guard_not (bool_decide (body = []) || (MAX_FRAME_BYTES <? len body)) (frame_length_error (len body));
  _ ← guard_not (u32_max <? len body) (Protocol "native message length exceeds u32");
  _ ← pipe_write (le_bytes 4 (len body));
  _ ← pipe_write body;
  pipe_flush.
End Framing.

(** ** Lemmas *)

Definition frame (body : bytes) : bytes := le_bytes 4 (len body) ++ body.

Lemma run_read_exact p w a rest :
  no_faults w -> pipe_input p = a ++ rest ->
  read_exact (length a) p w = Done a (mkPipe rest (pipe_output p)) (tick w).
Proof.
  intros Hw Hp. unfold read_exact. rewrite Hw, Hp, length_app.
  rewrite (proj2 (Nat.leb_le _ _)) by lia. by rewrite take_length_app, drop_length_app.
Qed.

(** ** Properties *)

(** What the host writes it can read: without faults, an envelope whose JSON has
    between 1 byte and 1 MiB is written as one frame after what was written
    before, and reading from a pipe that starts with that frame gives the
    envelope that is read from the JSON (the same one, but for the numbers of
    cookies, see VaultFormat) and leaves exactly the rest. *)
Theorem frame_round_trip `{JE : Serde Envelope} e e' body input output rest w :
  no_faults w -> to_vec e = Ok body -> from_slice body = Ok e' -> 0 < len body -> len body <= MAX_FRAME_BYTES ->
  write_envelope e (mkPipe input output) w =
    Done tt (mkPipe input (output ++ frame body)) (tick (tick (tick w))) /\
  read_envelope (mkPipe (frame body ++ rest) output) w =
    Done (Some e') (mkPipe rest output) (tick (tick (tick w))).
Proof.
  intros Hw Hb He Hpos Hmax.
  assert (Hw1 : no_faults (tick w)) by exact Hw. assert (Hw2 : no_faults (tick (tick w))) by exact Hw.
  assert (Hlen : len body < 2 ^ 32) by (eapply N.le_lt_trans; [exact Hmax|reflexivity]).
  split.
  - unfold write_envelope. erewrite run_bind by (by apply run_lift).
    erewrite run_bind.
    2: { apply run_guard_not. rewrite bool_decide_false by (intros ->; discriminate Hpos).
         by rewrite (proj2 (N.ltb_ge _ _)). }
    erewrite run_bind by (apply run_guard_not, N.ltb_ge; eapply N.le_trans; [exact Hmax|discriminate]).
    erewrite run_bind by (unfold pipe_write; by rewrite Hw).
    erewrite run_bind by (unfold pipe_write; by rewrite Hw).
    unfold pipe_flush. cbn [tick w_env]. rewrite Hw. cbn. unfold frame. by rewrite <- app_assoc.
  - unfold read_envelope, frame. rewrite <- app_assoc.
    destruct (le_bytes 4 (len body)) as [|b0 l] eqn:Hl; [done|].
    assert (length l = 3%nat) as Hl3.
    { pose proof (length_le_bytes 4 (len body)) as Hln. rewrite Hl in Hln. by injection Hln. }
    erewrite run_bind by (unfold read_first; by rewrite Hw). cbv iota beta.
    rewrite <- Hl3. erewrite run_bind by (by apply run_read_exact). cbv zeta.
    assert (le_value (b0 :: l) = len body) as -> by (rewrite <- Hl; by apply le_value_le_bytes).
    erewrite run_bind.
    2: { apply run_guard_not. rewrite (proj2 (N.eqb_neq _ _)) by lia. by rewrite (proj2 (N.ltb_ge _ _)). }
    unfold len at 1. rewrite Nat2N.id. erewrite run_bind by (by apply run_read_exact).
    erewrite run_bind by (by apply run_lift). done.
Qed.

(** An envelope is accepted exactly when its version is supported, its nonce is
    the connection's, its sequence number is the next one (and fits 64 bits) and
    its id is not nil. *)
Theorem validate_envelope_exact e nonce previous :
  validate_envelope e nonce previous = Ok tt <->
  (env_v e = LEGACY_PROTOCOL_VERSION \/ env_v e = PROTOCOL_VERSION) /\ env_conn_nonce e = nonce /\
  env_seq e = previous + 1 /\ env_seq e <= u64_max /\ env_id e <> 0.
Proof.
  unfold validate_envelope, supported_protocol, uuid_is_nil. split.
  - intros H. res_inv H. apply negb_false_iff, orb_true_iff in Hr as Hr. apply checked_add_Some in Hr1 as [-> Hle].
    apply bool_decide_eq_false, dec_stable in Hr0. bool_to_prop. rewrite !N.eqb_eq in Hr. split_and!; try done. congruence.
  - intros (Hv & -> & Hs & Hmax & Hid). unfold mbind, result_bind, guard_err.
    assert ((env_v e =? LEGACY_PROTOCOL_VERSION) || (env_v e =? PROTOCOL_VERSION) = true) as ->
      by (by rewrite orb_true_iff, !N.eqb_eq).
    cbn [negb]. rewrite bool_decide_false by auto. unfold checked_add. rewrite (proj2 (N.leb_le _ _)) by congruence.
    cbn. by rewrite Hs, N.eqb_refl, (proj2 (N.eqb_neq _ _)).
Qed.

(** ** Example *)

Definition codec_poll_envelope : Codec (N * (bytes * (N * (Uuid * N)))) :=
  codec_pair codec_N (codec_pair codec_bytes (codec_pair codec_N (codec_pair codec_N codec_N))).

(** Envelopes of one kind of message; no other is encoded. *)
Definition toy_envelope : Serde Envelope := {|
  to_vec e := match env_message e with
              | Msg.MonitorPoll p =>
                  Ok (enc codec_poll_envelope (env_v e, (env_conn_nonce e, (env_seq e, (env_id e, mp_max_events p)))))
              | _ => Err Json
              end;
  from_slice b := match dec codec_poll_envelope b with
                  | Some ((v, (nonce, (seq, (id, max)))), []) => Ok (mkEnvelope v nonce seq id (Msg.MonitorPoll (mkMonitorPoll max)))
                  | _ => Err Json
                  end;
|}.

Definition example_poll : Envelope := mkEnvelope 7 (replicate 32 Byte.x07) 2 5 (Msg.MonitorPoll (mkMonitorPoll 3)).
Definition poll_body : bytes := match @to_vec _ toy_envelope example_poll with Ok b => b | Err _ => [] end.
Definition frame_world : World := mkWorld ∅ 0 (mkEnv (fun _ => NoFault) (fun _ => 0) (fun _ => 0)).

Lemma frame_round_trip_witness :
  @write_envelope toy_envelope example_poll (mkPipe [] [Byte.x00]) frame_world =
    Done tt (mkPipe [] ([Byte.x00] ++ frame poll_body)) (tick (tick (tick frame_world))) /\
  @read_envelope toy_envelope (mkPipe (frame poll_body ++ [Byte.x09]) [Byte.x00]) frame_world =
    Done (Some example_poll) (mkPipe [Byte.x09] [Byte.x00]) (tick (tick (tick frame_world))).
Proof.
  apply (@frame_round_trip toy_envelope); [intros n; reflexivity|vm_compute; reflexivity|vm_compute; reflexivity|reflexivity|].
  vm_compute. discriminate.
Defined.
