(* ===== verification/Group.v ===== *)
(** * dispatcher.rs, the part of one group: [GroupRuntime] and its handlers

    A handler runs on the group's runtime, the shared audit log and the shared
    authorizer ([&mut self], [&AuditLogger], [&mut Option<Authorizer>]).  The
    audit log and the authorizer are interfaces: [AuditSink] here, which
    [AuditLogger] implements (AuditSinkImpl), and [PlatformAuthorizer]
    (Capability). *)

From S2P Require Import Prelude World External Examples AtomicFile Config Messages VaultFormat Capability LeaseMeta VaultStore Transaction Paths OpModel OpJournal OpRecovery Coordinator Protocol.

(** ** The audit log, as the handlers see it *)

Class AuditSink (L : Type) := {
  sink_directory : L -> Path;
  sink_open : Path -> IO L;
  sink_recovered_on_open : L -> bool;
  sink_record : Uuid -> string -> string -> option Uuid -> option string -> M L unit;
  sink_record_system : string -> string -> option string -> M L unit;
  sink_record_once_deferred : Uuid -> Uuid -> string -> string -> option Uuid -> option string -> M L unit;
}.

(** The files of a directory. *)
Definition in_directory (d : Path) (p : Path) : Prop := removelast p = d.

(** The log keeps to its directory (which it may have to create), and a deferred
    record never fails. *)
Class AuditSinkLaws (L : Type) `{AuditSink L} : Prop := {
  sink_record_frame g ev out op det l w :
    wp (sink_record g ev out op det)
       (fun _ l' w' => sink_directory l' = sink_directory l /\ agree_off (in_directory (sink_directory l)) w w')
       (fun _ l' w' => sink_directory l' = sink_directory l /\ agree_off (in_directory (sink_directory l)) w w')
       (fun w' => agree_off (in_directory (sink_directory l)) w w') l w;
  sink_system_frame ev out det l w :
    wp (sink_record_system ev out det)
       (fun _ l' w' => sink_directory l' = sink_directory l /\ agree_off (in_directory (sink_directory l)) w w')
       (fun _ l' w' => sink_directory l' = sink_directory l /\ agree_off (in_directory (sink_directory l)) w w')
       (fun w' => agree_off (in_directory (sink_directory l)) w w') l w;
  sink_record_nodes p g ev out op det l w :
    removelast p <> sink_directory l -> ~ p `prefix_of` sink_directory l ->
    wp (sink_record g ev out op det) (fun _ _ w' => w_fs w' !! p = w_fs w !! p)
       (fun _ _ w' => w_fs w' !! p = w_fs w !! p) (fun w' => w_fs w' !! p = w_fs w !! p) l w;
  sink_deferred_frame id g ev out op det l w :
    wp (sink_record_once_deferred id g ev out op det)
       (fun _ l' w' => sink_directory l' = sink_directory l /\ agree_off (in_directory (sink_directory l)) w w')
       (fun _ _ _ => False)
       (fun w' => agree_off (in_directory (sink_directory l)) w w') l w;
}.

(** ** Data *)

Definition COOKIE_CHUNK_TARGET_BYTES : N := 400 * 1024.
Definition MAX_SNAPSHOT_BYTES : N := 32 * 1024 * 1024.
Definition MAX_SNAPSHOT_COOKIES : N := 100000.

Module PKind.
Inductive PendingKind := Enrollment | Eviction | Reconciliation.
End PKind.
Abbreviation PendingKind := PKind.PendingKind.

#[export] Instance pending_kind_eq_dec : EqDecision PendingKind.
Proof. solve_decision. Defined.

Record PendingOperation := mkPending {
  pd_kind : PendingKind;
  pd_operation_id : Uuid;
  pd_lease_id : option Uuid;
  pd_confirmed : bool;
  pd_snapshot_cookie_count : option N;
  pd_snapshot_chunk_count : option N;
  pd_snapshot_next_chunk : N;
  pd_snapshot_cookies : list CookieRecord;
  pd_snapshot_bytes : N;
  pd_operation_sequence : N;
  pd_attempt_id : option Uuid;
  pd_snapshot_chunk_digests : gmap N bytes;
}.

(** The pending operation every handler starts with. *)
Definition new_pending (kind : PendingKind) (operation_id : Uuid) (lease_id : option Uuid) (sequence : N)
    (attempt : option Uuid) : PendingOperation :=
  mkPending kind operation_id lease_id false None None 0 [] 0 sequence attempt ∅.

Definition set_pd_confirmed v (p : PendingOperation) := mkPending (pd_kind p) (pd_operation_id p) (pd_lease_id p) v (pd_snapshot_cookie_count p) (pd_snapshot_chunk_count p) (pd_snapshot_next_chunk p) (pd_snapshot_cookies p) (pd_snapshot_bytes p) (pd_operation_sequence p) (pd_attempt_id p) (pd_snapshot_chunk_digests p).
Definition set_pd_cookie_count v (p : PendingOperation) := mkPending (pd_kind p) (pd_operation_id p) (pd_lease_id p) (pd_confirmed p) v (pd_snapshot_chunk_count p) (pd_snapshot_next_chunk p) (pd_snapshot_cookies p) (pd_snapshot_bytes p) (pd_operation_sequence p) (pd_attempt_id p) (pd_snapshot_chunk_digests p).
Definition set_pd_cookies v (p : PendingOperation) := mkPending (pd_kind p) (pd_operation_id p) (pd_lease_id p) (pd_confirmed p) (pd_snapshot_cookie_count p) (pd_snapshot_chunk_count p) (pd_snapshot_next_chunk p) v (pd_snapshot_bytes p) (pd_operation_sequence p) (pd_attempt_id p) (pd_snapshot_chunk_digests p).
Definition set_pd_digests v (p : PendingOperation) := mkPending (pd_kind p) (pd_operation_id p) (pd_lease_id p) (pd_confirmed p) (pd_snapshot_cookie_count p) (pd_snapshot_chunk_count p) (pd_snapshot_next_chunk p) (pd_snapshot_cookies p) (pd_snapshot_bytes p) (pd_operation_sequence p) (pd_attempt_id p) v.

(** The progress of the snapshot: chunk total, next chunk, bytes and cookies. *)
Definition set_pd_progress (count : option N) (next : N) (b : N) (cookies : list CookieRecord) (p : PendingOperation) :=
  mkPending (pd_kind p) (pd_operation_id p) (pd_lease_id p) (pd_confirmed p) (pd_snapshot_cookie_count p) count next cookies b (pd_operation_sequence p) (pd_attempt_id p) (pd_snapshot_chunk_digests p).

Record GroupRuntime := mkRuntime {
  rt_id : Uuid;
  rt_policy : PolicyLevel;
  rt_transactions : VaultTransactions;
  rt_lease_store : Path;
  rt_lease : LeaseMetadata;
  rt_coordinator : OperationCoordinator;
  rt_pending : option PendingOperation;
}.

Definition set_rt_transactions v (r : GroupRuntime) := mkRuntime (rt_id r) (rt_policy r) v (rt_lease_store r) (rt_lease r) (rt_coordinator r) (rt_pending r).
Definition set_rt_lease v (r : GroupRuntime) := mkRuntime (rt_id r) (rt_policy r) (rt_transactions r) (rt_lease_store r) v (rt_coordinator r) (rt_pending r).
Definition set_rt_coordinator v (r : GroupRuntime) := mkRuntime (rt_id r) (rt_policy r) (rt_transactions r) (rt_lease_store r) (rt_lease r) v (rt_pending r).
Definition set_rt_pending v (r : GroupRuntime) := mkRuntime (rt_id r) (rt_policy r) (rt_transactions r) (rt_lease_store r) (rt_lease r) (rt_coordinator r) v.
Definition set_rt_policy v (r : GroupRuntime) := mkRuntime (rt_id r) v (rt_transactions r) (rt_lease_store r) (rt_lease r) (rt_coordinator r) (rt_pending r).

(** What a handler runs on. *)
Record HandlerState (L A : Type) := mkHandler {
  hd_group : GroupRuntime;
  hd_audit : L;
  hd_authorizer : option A;
}.
Arguments mkHandler {L A} _ _ _.
Arguments hd_group {L A} _.
Arguments hd_audit {L A} _.
Arguments hd_authorizer {L A} _.

(** [SecureCookies]: the encoders of one cookie and of a list of cookies. *)
Class CookieSerde := {
  cookie_to_vec : CookieRecord -> FcpResult bytes;
  cookies_to_vec : list CookieRecord -> FcpResult bytes;
}.

(** ** Access to the parts of the runtime *)

Section Access.
Context {L A : Type}.
Abbreviation H := (M (HandlerState L A)).

Definition set_hd_group (g : GroupRuntime) (s : HandlerState L A) : HandlerState L A :=
  mkHandler g (hd_audit s) (hd_authorizer s).
Definition set_hd_audit (l : L) (s : HandlerState L A) : HandlerState L A :=
  mkHandler (hd_group s) l (hd_authorizer s).
Definition set_hd_authorizer (a : option A) (s : HandlerState L A) : HandlerState L A :=
  mkHandler (hd_group s) (hd_audit s) a.

(** A call on the group, on the audit log, on the coordinator and on the
    transactions. *)
Definition on_group {T} (m : M GroupRuntime T) : H T := zoom hd_group set_hd_group m.
Definition on_audit {T} (m : M L T) : H T := zoom hd_audit set_hd_audit m.
Definition on_coordinator {T} (m : M OperationCoordinator T) : M GroupRuntime T :=
  zoom rt_coordinator set_rt_coordinator m.
Definition on_transactions {T} (m : M VaultTransactions T) : M GroupRuntime T :=
  zoom rt_transactions set_rt_transactions m.

(** Assignments to the lease and to the pending operation. *)
Definition update_lease (f : LeaseMetadata -> LeaseMetadata) : M GroupRuntime unit :=
  modify (fun self => set_rt_lease (f (rt_lease self)) self).
Definition set_pending (p : option PendingOperation) : M GroupRuntime unit := modify (set_rt_pending p).

(** [self.lease.advance_transition()?; self.lease_store.persist(&self.lease)?]. *)
Definition advance_lease : M GroupRuntime unit :=
  self ← get;
  lease ← lift (advance_transition (rt_lease self));
  update_lease (fun _ => lease).
Definition persist_own_lease `{SM : Serde LeaseMetadata} : M GroupRuntime unit :=
  self ← get;
  io (persist_lease (rt_lease_store self) (rt_lease self)).
End Access.

(** ** Pure helpers *)

Definition wire_kind (kind : OperationKindWire) : OperationKind :=
  match kind with
  | WireKind.Enrollment => Kind.Enrollment
  | WireKind.Eviction => Kind.Eviction
  | WireKind.Reconciliation => Kind.Reconciliation
  end.

Definition pending_kind (kind : OperationKind) : PendingKind :=
  match kind with
  | Kind.Enrollment => PKind.Enrollment
  | Kind.Eviction => PKind.Eviction
  | Kind.Reconciliation => PKind.Reconciliation
  end.

Definition lease_deny (self : GroupRuntime) (reason : string) : Message :=
  Msg.LeaseDeny (mkLeaseDeny (rt_id self) reason).

Definition inject_failure_code (value : string) : string :=
  if String.eqb value "logged_out" then "health_logged_out"
  else if String.eqb value "invalid_session" then "health_invalid_session"
  else if String.eqb value "invalid_health_response" then "health_invalid_response"
  else if String.eqb value "cookie_disappeared_before_health" then "cookie_disappeared"
  else if bool_decide (value ∈ ["cookie_roundtrip_failed"; "no_relevant_tab"; "inject_execution_failed";
    "cookie_set_failed"; "cookie_set_permission"; "cookie_set_domain"; "cookie_set_samesite";
    "cookie_set_secure"; "cookie_set_path"; "cookie_set_partition_key"; "cookie_set_store"; "cookie_set_url";
    "cookie_set_invalid_cookie"; "cookie_set_no_result"; "cookie_set_unknown"; "health_tab_query_failed";
    "health_execution_failed"; "inject_cleanup_failed"; "navigation_gate_redirect_failed"]) then value
  else "health_unrecognized_result".

(** [message_group_id]. *)
Definition message_group_id (message : Message) : option Uuid :=
  match message with
  | Msg.LeaseRequest v => Some (lr_account_group_id v)
  | Msg.InjectResult v => Some (ir_account_group_id v)
  | Msg.EvictRequest v => Some (er_account_group_id v)
  | Msg.CookiesSnapshotChunk v => Some (csc_account_group_id v)
  | Msg.EvictResult v => Some (eres_account_group_id v)
  | Msg.OperationBegin v => Some (ob_account_group_id v)
  | Msg.OperationStatusQuery v => Some (osq_account_group_id v)
  | Msg.EvictRemovePrepare v => Some (erp_account_group_id v)
  | Msg.SessionInvalidate v => Some (si_account_group_id v)
  | Msg.AuthCacheClear v => Some (acc_account_group_id v)
  | Msg.MonitorEvent v => me_account_group_id v
  | _ => None
  end.

(** [semantic_status]. *)
Definition required_action (p : OperationPhase) : OperationRequiredAction :=
  match p with
  | Phase.NotCommitted => Required.SendSnapshot
  | Phase.DurabilityUnknown => Required.ClassifyDurability
  | Phase.Committed | Phase.BrowserRemovalPending => Required.PrepareRemoval
  | Phase.Completed | Phase.Aborted => Required.Completed
  | Phase.ReconciliationRequired => Required.ReconciliationRequired
  end.

Definition semantic_status (self : GroupRuntime) (o : JournalOperation) : Message :=
  Msg.OperationStatus (mkOperationStatus (rt_id self) (operation_id o) (sequence o) (op_lease_id o)
    (to_ascii_lowercase (phase_debug (phase o))) (required_action (phase o))).

(** [chunk_cookie_records]: the loop, then the last chunk. *)
Fixpoint chunk_cookies `{CS : CookieSerde} (cookies current : list CookieRecord) (current_bytes : N)
    : FcpResult (list (list CookieRecord)) :=
  match cookies with
  | [] => Ok [current]
  | cookie :: rest =>
      b ← cookie_to_vec cookie;
      let cookie_bytes := len b + (if bool_decide (current = []) then 0 else 1) in
      _ ← guard_err (COOKIE_CHUNK_TARGET_BYTES <? cookie_bytes)
            (Protocol "one cookie exceeds the chunk byte limit");
      if negb (bool_decide (current = [])) && (COOKIE_CHUNK_TARGET_BYTES <? current_bytes + cookie_bytes)
      then chunks ← chunk_cookies rest [cookie] (2 + cookie_bytes); Ok (current :: chunks)
      else chunk_cookies rest (current ++ [cookie]) (current_bytes + cookie_bytes)
  end.

Definition chunk_cookie_records `{CS : CookieSerde} (cookies : list CookieRecord)
    : FcpResult (list (list CookieRecord)) :=
  if bool_decide (cookies = []) then Ok [[]] else chunk_cookies cookies [] 2.

(** The chunk messages of [begin_inject], with the index kept to 32 bits. *)
Fixpoint inject_chunks (group lease : Uuid) (count cookie_count index : N) (chunks : list (list CookieRecord))
    : FcpResult (list Message) :=
  match chunks with
  | [] => Ok []
  | cookies :: rest =>
      _ ← guard_err (u32_max <? index) (Protocol "inject chunk index exceeds u32");
      messages ← inject_chunks group lease count cookie_count (index + 1) rest;
      Ok (Msg.CookiesInjectChunk (mkCookiesInjectChunk group lease index count cookie_count cookies) :: messages)
  end.
