(* ===== verification/Handlers.v ===== *)
(** * dispatcher.rs: the message handlers of a group

    Every method of [GroupRuntime], from the lease request to the removal of the
    cookies from the browser, and the dispatch of [handle]. *)

From S2P Require Import Prelude World External Examples AtomicFile Config Messages VaultFormat Capability LeaseMeta VaultStore Transaction Paths OpModel OpJournal OpRecovery Coordinator Protocol Group.

Section Handlers.
Context `{UT : UuidText, SH : Sha256, AE : Aead, LS : LocalSecret, SP : Serde VaultPayload,
  SL : Serde CapabilityLedger, SM : Serde LeaseMetadata, KB : KekBackend,
  JB : Serde BoundRequest, JJ : Serde OperationJournal, CS : CookieSerde}.
Context {L A : Type} `{AS : AuditSink L} `{PA : PlatformAuthorizer A}.
Abbreviation H := (M (HandlerState L A)).

(** [record_operation_audit]: the event identifier is derived from the event. *)
Definition audit_event_id (group_id operation_id : Uuid) (event outcome : string) : Uuid :=
  let digest := sha256 (str_bytes "FCP-AUDIT-EVENT-1" ++ uuid_as_bytes group_id ++ uuid_as_bytes operation_id ++
                        str_bytes event ++ str_bytes outcome) in
  let set_version b := u8_of_N (N.lor (N.land (Byte.to_N b) 15) 64) in
  let set_variant b := u8_of_N (N.lor (N.land (Byte.to_N b) 63) 128) in
  uuid_from_bytes (alter set_variant 8%nat (alter set_version 6%nat (take 16 digest))).

Definition record_operation_audit (group_id operation_id : Uuid) (event outcome : string)
    (detail : option string) : H unit :=
  on_audit (sink_record_once_deferred (audit_event_id group_id operation_id event outcome) group_id
              event outcome (Some operation_id) detail).

Definition group_state : H GroupRuntime := on_group get.

(** [self.lease.state = Uninitialized] with no lease and no pending operation. *)
Definition release_lease (state : GroupState) (m : LeaseMetadata) : LeaseMetadata :=
  set_lm_pending_operation_id None (clear_lease (set_lm_state state m)).

Definition grant_lease (lease_id : Uuid) (now expiry : N) (m : LeaseMetadata) : LeaseMetadata :=
  set_lm_expires_at (Some expiry) (set_lm_granted_at (Some now) (set_lm_lease_id (Some lease_id) m)).

Definition enrolled_or_present : M GroupRuntime bool :=
  self ← get;
  if bool_decide (lm_state (rt_lease self) <> GState.Uninitialized) then mret true
  else io (vault_exists (rt_transactions self)).

(** [grant_enrollment_v7]. *)
Definition grant_enrollment_v7 (duration_ms : N) : H (list Message) :=
  self ← group_state;
  refused ← on_group enrolled_or_present;
  if (refused : bool) then mret [lease_deny self "group_already_enrolled"]
  else
    now ← io unix_ms;
    expiry ← ok_or_throw (checked_add u64_max now duration_ms) (Protocol "lease expiry overflow");
    lease_id ← io new_v4;
    _ ← on_group (update_lease (grant_lease lease_id now expiry));
    _ ← on_group advance_lease;
    _ ← on_group persist_own_lease;
    mret [Msg.LeaseGrant (mkLeaseGrant (rt_id self) lease_id expiry None)].

(** [begin_enrollment]. *)
Definition begin_enrollment (duration_ms : N) : H (list Message) :=
  self ← group_state;
  refused ← on_group enrolled_or_present;
  if (refused : bool) then mret [lease_deny self "group_already_enrolled"]
  else
    now ← io unix_ms;
    expiry ← ok_or_throw (checked_add u64_max now duration_ms) (Protocol "lease expiry overflow");
    lease_id ← io new_v4;
    operation_id ← io new_v4;
    _ ← on_group (on_coordinator (begin_v6 operation_id Kind.Enrollment (Some lease_id) "initial_enrollment"
                                    (lm_vault_sequence (rt_lease self))));
    _ ← on_group (update_lease (fun m => set_lm_pending_operation_id (Some operation_id)
                    (grant_lease lease_id now expiry (set_lm_state GState.Evicting m))));
    _ ← on_group advance_lease;
    _ ← on_group persist_own_lease;
    _ ← on_group (set_pending (Some (new_pending PKind.Enrollment operation_id (Some lease_id) 0 None)));
    _ ← record_operation_audit (rt_id self) operation_id "enrollment" "started" None;
    mret [Msg.LeaseGrant (mkLeaseGrant (rt_id self) lease_id expiry None);
          Msg.EvictRequest (mkEvictRequest (rt_id self) (Some lease_id) operation_id EvictPh.SnapshotRequired
                              "initial_enrollment")].

(** The authorization of [begin_inject]: at most one retry, and only when the
    platform re-enrolled the credential. *)
Definition authorize (authorizer : A) (hello_credential : Path) : H ConsumedCapability :=
  authorization ← try_ (on_group (on_transactions (authorize_inject authorizer)));
  match authorization with
  | Ok value => mret value
  | Err error =>
      recovered ← io (recover_if_credential_vanished authorizer error hello_credential);
      let '(again, authorizer) := recovered in
      _ ← modify (set_hd_authorizer (Some authorizer));
      if (again : bool) then on_group (on_transactions (authorize_inject authorizer))
      else throw error
  end.

Definition ensure_authorizer (hello_credential : Path) : H A :=
  s ← get;
  match hd_authorizer s with
  | Some authorizer => mret authorizer
  | None =>
      authorizer ← io (open_or_create hello_credential);
      _ ← modify (set_hd_authorizer (Some authorizer));
      mret authorizer
  end.

(** [begin_inject]. *)
Definition begin_inject (duration_ms : N) (hello_credential : Path) : H (list Message) :=
  self ← group_state;
  sealed ← (if bool_decide (lm_state (rt_lease self) = GState.Sealed)
            then io (vault_exists (rt_transactions self)) else mret false);
  if negb sealed then mret [lease_deny self "group_not_sealed"]
  else
    now ← io unix_ms;
    authorizer ← ensure_authorizer hello_credential;
    authorization ← authorize authorizer hello_credential;
    let capability_sequence := cc_monotonic_sequence authorization in
    self ← group_state;
    payload ← io (read_for_inject (rt_transactions self) authorization);
    expiry ← ok_or_throw (checked_add u64_max now duration_ms) (Protocol "lease expiry overflow");
    lease_id ← io new_v4;
    _ ← on_group (update_lease (fun m => set_lm_vault_sequence (pl_vault_sequence payload)
           (set_lm_pending_operation_id None (grant_lease lease_id now expiry (set_lm_state GState.Leased m)))));
    _ ← on_group advance_lease;
    _ ← on_group persist_own_lease;
    _ ← on_audit (sink_record (rt_id self) "inject" "authorized" None (Some "user_verified"));
    _ ← guard_not (u32_max <? len (pl_cookies payload)) (Protocol "inject cookie count exceeds u32");
    let cookie_count := len (pl_cookies payload) in
    chunks ← lift (chunk_cookie_records (pl_cookies payload));
    _ ← guard_not (u32_max <? len chunks) (Protocol "inject chunk count exceeds u32");
    messages ← lift (inject_chunks (rt_id self) lease_id (len chunks) cookie_count 0 chunks);
    mret (Msg.LeaseGrant (mkLeaseGrant (rt_id self) lease_id expiry (Some capability_sequence)) :: messages).

(** [handle_lease_request]. *)
Definition handle_lease_request (request : LeaseRequest) (hello_credential : Path) (negotiated_protocol : N)
    : H (list Message) :=
  self ← group_state;
  let policy := policy_parameters (rt_policy self) in
  if bool_decide (is_Some (rt_pending self)) then mret [lease_deny self "operation_pending"]
  else if has_unresolved (rt_coordinator self) then mret [lease_deny self "operation_recovery_required"]
  else if monitoring_only policy then mret [lease_deny self "monitoring_policy_has_no_lease"]
  else
    match lr_purpose request with
    | Purpose.Enroll =>
        if negotiated_protocol =? PROTOCOL_VERSION then grant_enrollment_v7 (lease_duration_ms policy)
        else begin_enrollment (lease_duration_ms policy)
    | Purpose.Inject => begin_inject (lease_duration_ms policy) hello_credential
    end.

(** [handle_inject_result]. *)
Definition handle_inject_result (result : InjectResult) : H (list Message) :=
  self ← group_state;
  _ ← guard_not (bool_decide (lm_state (rt_lease self) <> GState.Leased) ||
                 bool_decide (lm_lease_id (rt_lease self) <> Some (ir_lease_id result)))
        (Protocol "inject result lease mismatch");
  if ir_success result && String.eqb (ir_health_check result) "restored" then
    _ ← on_audit (sink_record (rt_id self) "inject" "success" None None);
    mret []
  else
    _ ← on_audit (sink_record (rt_id self) "inject" "failed" None
                    (Some (inject_failure_code (ir_health_check result))));
    _ ← on_group (update_lease (set_lm_state GState.Degraded));
    _ ← on_group advance_lease;
    _ ← on_group persist_own_lease;
    mret [].

Definition invalidation_detail (reason : SessionInvalidationReason) : string :=
  match reason with
  | Invalidation.ExternalLogout => "external_logout"
  | Invalidation.RestoreRejected => "restore_rejected"
  | Invalidation.ScopeEmpty => "scope_empty"
  end.

(** [invalidate_session]. *)
Definition invalidate_session (reason : SessionInvalidationReason) : H (list Message) :=
  self ← group_state;
  _ ← io (invalidate (rt_transactions self));
  _ ← on_group (update_lease (fun m => set_lm_vault_sequence 0 (release_lease GState.Uninitialized m)));
  _ ← on_group advance_lease;
  _ ← on_group persist_own_lease;
  _ ← on_audit (sink_record (rt_id self) "session_invalidation" "success" None (Some (invalidation_detail reason)));
  mret [Msg.SessionInvalidated (mkSessionInvalidated (rt_id self) reason)].

(** [handle_session_invalidate]. *)
Definition handle_session_invalidate (request : SessionInvalidate) : H (list Message) :=
  self ← group_state;
  _ ← guard_not (bool_decide (is_Some (rt_pending self)))
        (Protocol "session invalidation refused while an operation is pending");
  if bool_decide (lm_state (rt_lease self) = GState.Uninitialized)
  then mret [Msg.SessionInvalidated (mkSessionInvalidated (rt_id self) (si_reason request))]
  else
    _ ← guard_not (bool_decide (is_Some (si_lease_id request)) &&
                   bool_decide (si_lease_id request <> lm_lease_id (rt_lease self)))
          (Protocol "session invalidation lease mismatch");
    invalidate_session (si_reason request).

(** [handle_auth_cache_clear]. *)
Definition handle_auth_cache_clear (request : AuthCacheClear) : H (list Message) :=
  self ← group_state;
  _ ← guard_not (negb (String.eqb (acc_reason request) "locked") &&
                 negb (String.eqb (acc_reason request) "policy_changed"))
        (Protocol "unsupported auth cache clear reason");
  _ ← on_audit (sink_record (rt_id self) "auth_cache" "cleared" None (Some "lock_or_policy"));
  mret [].

(** [handle_evict_begin]. *)
Definition is_reconciliation (request : EvictRequest) (m : LeaseMetadata) : bool :=
  String.eqb (er_reason request) "startup_reconciliation" &&
  bool_decide (lm_state m <> GState.Uninitialized).
Definition is_active_lease (request : EvictRequest) (m : LeaseMetadata) : bool :=
  bool_decide (lm_state m = GState.Leased) && bool_decide (lm_lease_id m = er_lease_id request) &&
  bool_decide (is_Some (er_lease_id request)).
Definition is_sealed_recreation (request : EvictRequest) (m : LeaseMetadata) : bool :=
  bool_decide (lm_state m = GState.Sealed) && bool_decide (er_lease_id request = None) &&
  String.eqb (er_reason request) "site_cookie_recreated".
Definition is_degraded_recovery (request : EvictRequest) (m : LeaseMetadata) : bool :=
  bool_decide (lm_state m = GState.Degraded) && bool_decide (lm_lease_id m = er_lease_id request) &&
  bool_decide (is_Some (er_lease_id request)) && String.eqb (er_reason request) "degraded_cookie_detected".

Definition handle_evict_begin (request : EvictRequest) : H (list Message) :=
  self ← group_state;
  _ ← guard_not (bool_decide (er_phase request <> EvictPh.Begin))
        (Protocol "extension may send only evict.request phase=begin");
  _ ← guard_not (bool_decide (is_Some (rt_pending self))) (Protocol "another operation is pending for group");
  let lease := rt_lease self in
  let reconciliation := is_reconciliation request lease in
  _ ← guard_not (negb reconciliation && negb (is_active_lease request lease) &&
                 negb (is_sealed_recreation request lease) && negb (is_degraded_recovery request lease))
        (Protocol "eviction request is not valid for current group lease");
  _ ← (if reconciliation
       then on_group (on_coordinator (prepare_for_v6_reconciliation (vault_path (rt_transactions self))))
       else guard_not (has_unresolved (rt_coordinator self))
              (Protocol "operation recovery is required before a new eviction"));
  let kind := if reconciliation then Kind.Reconciliation else Kind.Eviction in
  _ ← on_group (on_coordinator (begin_v6 (er_operation_id request) kind (er_lease_id request)
                                  (er_reason request) (lm_vault_sequence lease)));
  _ ← on_group (update_lease (fun m => set_lm_pending_operation_id (Some (er_operation_id request))
                                         (set_lm_state GState.Evicting m)));
  _ ← on_group advance_lease;
  _ ← on_group persist_own_lease;
  _ ← on_group (set_pending (Some (new_pending (pending_kind kind) (er_operation_id request)
                                     (er_lease_id request) 0 None)));
  _ ← record_operation_audit (rt_id self) (er_operation_id request)
        (if reconciliation then "reconciliation" else "eviction") "started" None;
  mret [Msg.EvictRequest (mkEvictRequest (rt_id self) (er_lease_id request) (er_operation_id request)
                            EvictPh.SnapshotRequired (er_reason request))].

(** ** Snapshots *)

(** The checks and updates of [handle_snapshot_chunk] on the pending operation;
    the result tells whether the last chunk has arrived. *)
Definition accept_chunk (snapshot : CookiesSnapshotChunk) : M PendingOperation bool :=
  pending ← get;
  _ ← guard_not (negb (pd_operation_id pending =? csc_operation_id snapshot) ||
                 bool_decide (pd_lease_id pending <> csc_lease_id snapshot))
        (Protocol "snapshot operation binding mismatch");
  _ ← guard_not (pd_confirmed pending) (Protocol "duplicate snapshot received");
  _ ← guard_not ((csc_chunk_count snapshot =? 0) || (65536 <? csc_chunk_count snapshot))
        (Protocol "snapshot chunk count is out of range");
  _ ← guard_not (MAX_SNAPSHOT_COOKIES <? csc_cookie_count snapshot)
        (Protocol "snapshot cookie count is out of range");
  _ ← guard_not (negb (csc_chunk_index snapshot =? pd_snapshot_next_chunk pending))
        (Protocol "snapshot chunk is missing or out of order");
  _ ← guard_not (match pd_snapshot_chunk_count pending with
                 | Some value => negb (value =? csc_chunk_count snapshot)
                 | None => false
                 end) (Protocol "snapshot chunk total changed");
  _ ← guard_not ((csc_chunk_index snapshot + 1 <? csc_chunk_count snapshot) &&
                 bool_decide (csc_cookies snapshot = [])) (Protocol "non-final snapshot chunk is empty");
  b ← lift (cookies_to_vec (csc_cookies snapshot));
  aggregate_bytes ← ok_or_throw (checked_add u64_max (pd_snapshot_bytes pending) (len b))
                      (Protocol "snapshot byte count overflow");
  _ ← guard_not (MAX_SNAPSHOT_BYTES <? aggregate_bytes) (Protocol "snapshot exceeds aggregate byte limit");
  aggregate_count ← ok_or_throw (checked_add u64_max (len (pd_snapshot_cookies pending)) (len (csc_cookies snapshot)))
                      (Protocol "snapshot cookie count overflow");
  _ ← guard_not (csc_cookie_count snapshot <? aggregate_count)
        (Protocol "snapshot contains more cookies than declared");
  let next := pd_snapshot_next_chunk pending + 1 in
  _ ← put (set_pd_progress (Some (csc_chunk_count snapshot)) next aggregate_bytes
             (pd_snapshot_cookies pending ++ csc_cookies snapshot) pending);
  if next <? csc_chunk_count snapshot then mret false
  else
    _ ← guard_not (negb (aggregate_count =? csc_cookie_count snapshot))
          (Protocol "snapshot cookie total does not match declaration");
    mret true.

(** A call on the pending operation, [e] when there is none. *)
Definition on_pending {T} (e : FcpError) (m : M PendingOperation T) : M GroupRuntime T :=
  self ← get;
  pending ← ok_or_throw (rt_pending self) e;
  zoom (fun _ => pending) (fun p => set_rt_pending (Some p)) m.

(** [Err(error) => { self.pending = Some(pending); return Err(error) }]. *)
Definition or_restore {T} (pending : PendingOperation) (m : M GroupRuntime T) : M GroupRuntime T :=
  r ← try_ m;
  match r with
  | Ok value => mret value
  | Err error => _ ← set_pending (Some pending); throw error
  end.

(** The enrollment of an empty scope. *)
Definition abort_empty_enrollment (id : Uuid) : H (list Message) :=
  self ← group_state;
  _ ← on_group (on_coordinator (abort id));
  _ ← on_group (update_lease (release_lease GState.Uninitialized));
  _ ← on_group advance_lease;
  _ ← on_group persist_own_lease;
  _ ← record_operation_audit (rt_id self) id "enrollment" "aborted" (Some "scope_empty");
  mret [Msg.SessionInvalidated (mkSessionInvalidated (rt_id self) Invalidation.ScopeEmpty)].

(** From the complete snapshot to the vault: the part of [handle_snapshot_chunk]
    that prepares and commits. *)
Definition commit_cookies (pending : PendingOperation) (id : Uuid) (cookies : list CookieRecord)
    : M GroupRuntime (N * N) :=
  _ ← guard_not (u32_max <? len cookies) (Protocol "snapshot cookie count exceeds u32");
  canonical_snapshot ← lift (cookies_to_vec cookies);
  self ← get;
  prepared ← or_restore pending (io (prepare_after_snapshot (rt_transactions self) cookies));
  vault_sequence ← or_restore pending (on_coordinator
      (commit_snapshot id canonical_snapshot (len cookies) prepared (rt_transactions self)));
  mret (len cookies, vault_sequence).

(** The rest: the lease, the audit record and the journal. *)
Definition confirm_snapshot (pending : PendingOperation) (snapshot : CookiesSnapshotChunk)
    (cookie_count vault_sequence : N) : H (list Message) :=
  let pending := set_pd_cookie_count (Some cookie_count) (set_pd_confirmed true pending) in
  let id := csc_operation_id snapshot in
  _ ← on_group (update_lease (fun m => set_lm_pending_operation_id (Some id) (set_lm_vault_sequence vault_sequence m)));
  _ ← on_group (or_restore pending persist_own_lease);
  self ← group_state;
  _ ← record_operation_audit (rt_id self) id "vault_snapshot" "verified" None;
  _ ← on_group (or_restore pending (on_coordinator (mark_external_result_pending id)));
  _ ← on_group (set_pending (Some pending));
  mret [Msg.EvictConfirmed (mkEvictConfirmed (rt_id self) (csc_lease_id snapshot) id vault_sequence
          (if bool_decide (pd_kind pending = PKind.Enrollment) then Disposition.RetainLeased else Disposition.Remove)
          None None)].

(** [handle_snapshot_chunk]. *)
Definition handle_snapshot_chunk (snapshot : CookiesSnapshotChunk) : H (list Message) :=
  complete ← on_group (on_pending (Protocol "snapshot chunk received without pending eviction")
                         (accept_chunk snapshot));
  if negb complete then mret []
  else
    self ← group_state;
    pending ← unwrap (rt_pending self);
    _ ← on_group (set_pending None);
    let cookies := pd_snapshot_cookies pending in
    let pending := set_pd_cookies [] pending in
    if bool_decide (pd_kind pending = PKind.Enrollment) && bool_decide (cookies = [])
    then abort_empty_enrollment (csc_operation_id snapshot)
    else
      committed ← on_group (commit_cookies pending (csc_operation_id snapshot) cookies);
      let '(cookie_count, vault_sequence) := committed in
      confirm_snapshot pending snapshot cookie_count vault_sequence.

(** ** The end of an operation *)

Definition finish_event (kind : PendingKind) : string :=
  match kind with
  | PKind.Enrollment => "enrollment"
  | PKind.Eviction => "eviction"
  | PKind.Reconciliation => "reconciliation"
  end.

(** [handle_evict_result]. *)
Definition handle_evict_result (result : EvictResult) : H (list Message) :=
  self ← group_state;
  pending ← ok_or_throw (rt_pending self) (Protocol "evict result has no pending operation");
  let id := eres_operation_id result in
  _ ← guard_not (negb (pd_operation_id pending =? id) ||
                 bool_decide (pd_lease_id pending <> eres_lease_id result) || negb (pd_confirmed pending))
        (Protocol "evict result operation mismatch");
  _ ← on_group (set_pending None);
  if bool_decide (pd_kind pending = PKind.Enrollment) && eres_success result &&
     bool_decide (pd_snapshot_cookie_count pending = Some (eres_remaining_cookie_count result)) &&
     (0 <? eres_remaining_cookie_count result)
  then
    _ ← on_group (on_coordinator (complete id));
    _ ← on_group (update_lease (fun m => set_lm_pending_operation_id None (set_lm_state GState.Leased m)));
    _ ← on_group advance_lease;
    _ ← on_group persist_own_lease;
    _ ← record_operation_audit (rt_id self) id "enrollment" "success" None;
    mret []
  else if bool_decide (pd_kind pending <> PKind.Enrollment) && eres_success result &&
          (eres_remaining_cookie_count result =? 0)
  then
    _ ← on_group (on_coordinator (complete id));
    _ ← on_group (update_lease (release_lease GState.Sealed));
    _ ← on_group advance_lease;
    _ ← on_group persist_own_lease;
    _ ← record_operation_audit (rt_id self) id (finish_event (pd_kind pending)) "success" None;
    mret []
  else
    _ ← on_group (on_coordinator (require_reconciliation id));
    _ ← on_group (update_lease (fun m => set_lm_pending_operation_id None (set_lm_state GState.Degraded m)));
    _ ← on_group advance_lease;
    _ ← on_group persist_own_lease;
    _ ← (if bool_decide (pd_kind pending = PKind.Enrollment)
         then record_operation_audit (rt_id self) id "enrollment" "failed" (Some "retained_cookie_count_mismatch")
         else record_operation_audit (rt_id self) id "eviction" "failed" (Some "cookies_remain"));
    mret [].

(** ** Protocol version 7 *)

(** [handle_operation_begin]. *)
Definition begin_allowed (kind : OperationKindWire) (lease_id : option Uuid) (m : LeaseMetadata) : bool :=
  match kind with
  | WireKind.Enrollment => bool_decide (lm_state m = GState.Uninitialized)
  | WireKind.Eviction =>
      bool_decide (lm_state m = GState.Leased) && bool_decide (lm_lease_id m = lease_id) &&
      bool_decide (is_Some lease_id)
  | WireKind.Reconciliation => bool_decide (lm_state m <> GState.Uninitialized)
  end.

Definition handle_operation_begin (request : OperationBegin) : M GroupRuntime (list Message) :=
  self ← get;
  _ ← guard_not (negb (ob_account_group_id request =? rt_id self) || uuid_is_nil (ob_attempt_id request))
        (Protocol "operation begin identity is invalid");
  match operation_by_attempt (rt_coordinator self) (ob_attempt_id request) with
  | Some existing =>
      _ ← guard_not (bool_decide (op_kind existing <> wire_kind (ob_kind request)) ||
                     bool_decide (op_lease_id existing <> ob_lease_id request) ||
                     negb (String.eqb (reason_code existing) (ob_reason request)))
            (Protocol "operation attempt was reused with different payload");
      if bool_decide (phase existing = Phase.NotCommitted)
      then mret [Msg.OperationSnapshotRequired (mkOperationSnapshotRequired (rt_id self) (operation_id existing)
                   (sequence existing) (op_lease_id existing) (ob_attempt_id request))]
      else mret [semantic_status self existing]
  | None =>
      _ ← guard_not (negb (begin_allowed (ob_kind request) (ob_lease_id request) (rt_lease self)) ||
                     bool_decide (is_Some (rt_pending self)))
            (Protocol "operation begin is invalid for current lease");
      operation ← on_coordinator (issue_v7 (ob_attempt_id request) (wire_kind (ob_kind request))
                    (ob_lease_id request) (ob_reason request) (lm_vault_sequence (rt_lease self)));
      _ ← update_lease (fun m => set_lm_operation_sequence_high_water (sequence operation)
             (set_lm_pending_operation_id (Some (operation_id operation)) (set_lm_state GState.Evicting m)));
      _ ← advance_lease;
      _ ← persist_own_lease;
      _ ← set_pending (Some (new_pending (pending_kind (wire_kind (ob_kind request))) (operation_id operation)
             (ob_lease_id request) (sequence operation) (Some (ob_attempt_id request))));
      mret [Msg.OperationSnapshotRequired (mkOperationSnapshotRequired (rt_id self) (operation_id operation)
              (sequence operation) (ob_lease_id request) (ob_attempt_id request))]
  end.

(** [handle_operation_status]: it rebuilds the pending operation of a journal
    operation that is still active. *)
Definition pending_of_operation (o : JournalOperation) : PendingOperation :=
  set_pd_cookie_count (sb_cookie_count <$> snapshot o)
    (set_pd_confirmed (match phase o with Phase.Committed | Phase.BrowserRemovalPending => true | _ => false end)
       (new_pending (pending_kind (op_kind o)) (operation_id o) (op_lease_id o) (sequence o) (attempt_id o))).

Definition handle_operation_status (request : OperationStatusQuery) : M GroupRuntime (list Message) :=
  self ← get;
  _ ← guard_not (negb (osq_account_group_id request =? rt_id self)) (Protocol "operation status group mismatch");
  operation ← ok_or_throw (coordinator_operation (rt_coordinator self) (osq_operation_id request))
                (Protocol "unknown operation id");
  _ ← guard_not (negb (sequence operation =? osq_operation_sequence request) ||
                 bool_decide (op_lease_id operation <> osq_lease_id request))
        (Protocol "operation status binding mismatch");
  _ ← (if bool_decide (rt_pending self = None) && negb (is_terminal (phase operation))
       then set_pending (Some (pending_of_operation operation)) else mret tt);
  mret [semantic_status self operation].

(** [append_v7_chunk]. *)
Definition append_v7_chunk (snapshot : CookiesSnapshotChunkV7) : M PendingOperation unit :=
  pending ← get;
  _ ← guard_not ((csc7_chunk_count snapshot =? 0) || (65536 <? csc7_chunk_count snapshot) ||
                 (MAX_SNAPSHOT_COOKIES <? csc7_cookie_count snapshot))
        (Protocol "snapshot chunk metadata is out of range");
  encoded ← lift (cookies_to_vec (csc7_cookies snapshot));
  let digest := sha256 encoded in
  if csc7_chunk_index snapshot <? pd_snapshot_next_chunk pending then
    guard_not (bool_decide (pd_snapshot_chunk_digests pending !! csc7_chunk_index snapshot <> Some digest))
      (Protocol "duplicate snapshot chunk payload conflict")
  else
    _ ← guard_not (negb (csc7_chunk_index snapshot =? pd_snapshot_next_chunk pending) ||
                   match pd_snapshot_chunk_count pending with
                   | Some value => negb (value =? csc7_chunk_count snapshot)
                   | None => false
                   end) (Protocol "snapshot chunk binding or order mismatch");
    next_bytes ← ok_or_throw (checked_add u64_max (pd_snapshot_bytes pending) (len encoded))
                   (Protocol "snapshot byte count overflow");
    next_count ← ok_or_throw (checked_add u64_max (len (pd_snapshot_cookies pending)) (len (csc7_cookies snapshot)))
                   (Protocol "snapshot cookie count overflow");
    _ ← guard_not ((MAX_SNAPSHOT_BYTES <? next_bytes) || (csc7_cookie_count snapshot <? next_count))
          (Protocol "snapshot aggregate declaration exceeded");
    let next := pd_snapshot_next_chunk pending + 1 in
    _ ← put (set_pd_progress (Some (csc7_chunk_count snapshot)) next next_bytes
               (pd_snapshot_cookies pending ++ csc7_cookies snapshot)
               (set_pd_digests (<[csc7_chunk_index snapshot := digest]> (pd_snapshot_chunk_digests pending)) pending));
    guard_not ((next =? csc7_chunk_count snapshot) && negb (next_count =? csc7_cookie_count snapshot))
      (Protocol "snapshot cookie total does not match declaration").

(** [handle_remove_prepare]. *)
Definition handle_remove_prepare (request : EvictRemovePrepare) : M GroupRuntime (list Message) :=
  self ← get;
  pending ← ok_or_throw (rt_pending self) (Protocol "removal prepare has no active operation");
  _ ← guard_not (negb (erp_account_group_id request =? rt_id self) ||
                 negb (pd_operation_id pending =? erp_operation_id request) ||
                 negb (pd_operation_sequence pending =? erp_operation_sequence request) ||
                 bool_decide (pd_lease_id pending <> erp_lease_id request) ||
                 bool_decide (pd_attempt_id pending <> Some (erp_attempt_id request)) ||
                 negb (pd_confirmed pending)) (Protocol "removal prepare binding mismatch");
  _ ← set_pending (Some (set_pd_cookie_count None (set_pd_progress None 0 0 [] (set_pd_digests ∅ pending))));
  mret [].

(** [handle_removal_snapshot_chunk]. *)
Definition handle_removal_snapshot_chunk (snapshot : CookiesSnapshotChunkV7) : M GroupRuntime (list Message) :=
  _ ← on_pending (Protocol "removal snapshot has no active operation") (append_v7_chunk snapshot);
  self ← get;
  pending ← unwrap (rt_pending self);
  if pd_snapshot_next_chunk pending <? csc7_chunk_count snapshot then mret []
  else
    canonical ← lift (cookies_to_vec (pd_snapshot_cookies pending));
    matches ← lift (verify_snapshot (rt_coordinator self) (csc7_operation_id snapshot)
                      (csc7_operation_sequence snapshot) (csc7_attempt_id snapshot) canonical);
    if negb matches then
      _ ← on_coordinator (require_reconciliation (csc7_operation_id snapshot));
      _ ← update_lease (set_lm_state GState.Degraded);
      _ ← advance_lease;
      _ ← persist_own_lease;
      _ ← set_pending None;
      mret [Msg.OperationCompleted (mkOperationCompleted (rt_id self) (csc7_operation_id snapshot)
              (csc7_operation_sequence snapshot) (csc7_lease_id snapshot) false)]
    else
      mret [Msg.EvictRemoveAuthorized (mkEvictRemoveAuthorized (rt_id self) (csc7_operation_id snapshot)
              (csc7_operation_sequence snapshot) (csc7_lease_id snapshot) (csc7_attempt_id snapshot))].

(** [handle_snapshot_chunk_v7]. *)
Definition with_v7_binding (operation_sequence attempt_id : N) (message : Message) : Message :=
  match message with
  | Msg.EvictConfirmed value =>
      Msg.EvictConfirmed (mkEvictConfirmed (ec_account_group_id value) (ec_lease_id value)
        (ec_operation_id value) (ec_vault_sequence value) (ec_cookie_disposition value)
        (Some operation_sequence) (Some attempt_id))
  | other => other
  end.

Definition handle_snapshot_chunk_v7 (snapshot : CookiesSnapshotChunkV7) : H (list Message) :=
  self ← group_state;
  pending ← ok_or_throw (rt_pending self) (Protocol "snapshot has no active operation");
  _ ← guard_not (negb (csc7_account_group_id snapshot =? rt_id self) ||
                 negb (pd_operation_id pending =? csc7_operation_id snapshot) ||
                 negb (pd_operation_sequence pending =? csc7_operation_sequence snapshot) ||
                 bool_decide (pd_lease_id pending <> csc7_lease_id snapshot) ||
                 bool_decide (pd_attempt_id pending <> Some (csc7_attempt_id snapshot)))
        (Protocol "v7 snapshot operation/sequence/attempt binding mismatch");
  b ← lift (cookies_to_vec (csc7_cookies snapshot));
  let chunk_digest := sha256 b in
  match pd_snapshot_chunk_digests pending !! csc7_chunk_index snapshot with
  | Some existing =>
      _ ← guard_not (bool_decide (existing <> chunk_digest)) (Protocol "duplicate snapshot chunk payload conflict");
      mret []
  | None =>
      _ ← on_group (set_pending (Some (set_pd_digests
             (<[csc7_chunk_index snapshot := chunk_digest]> (pd_snapshot_chunk_digests pending)) pending)));
      if String.eqb (csc7_purpose snapshot) "removal_precheck"
      then on_group (handle_removal_snapshot_chunk snapshot)
      else
        _ ← guard_not (negb (String.eqb (csc7_purpose snapshot) "commit")) (Protocol "unknown snapshot purpose");
        output ← handle_snapshot_chunk
          (mkCookiesSnapshotChunk (csc7_account_group_id snapshot) (csc7_lease_id snapshot)
             (csc7_operation_id snapshot) (csc7_chunk_index snapshot) (csc7_chunk_count snapshot)
             (csc7_cookie_count snapshot) (csc7_cookies snapshot) None None None);
        mret (with_v7_binding (csc7_operation_sequence snapshot) (csc7_attempt_id snapshot) <$> output)
  end.

(** [handle_evict_result_v7]. *)
Definition handle_evict_result_v7 (result : EvictResultV7) : H (list Message) :=
  self ← group_state;
  pending ← ok_or_throw (rt_pending self) (Protocol "evict result has no active operation");
  _ ← guard_not (negb (er7_account_group_id result =? rt_id self) ||
                 negb (pd_operation_sequence pending =? er7_operation_sequence result) ||
                 bool_decide (pd_attempt_id pending <> Some (er7_attempt_id result)))
        (Protocol "v7 evict result binding mismatch");
  let completion_success := er7_success result &&
    (if bool_decide (pd_kind pending = PKind.Enrollment)
     then 0 <? er7_remaining_cookie_count result else er7_remaining_cookie_count result =? 0) in
  _ ← handle_evict_result (mkEvictResult (er7_account_group_id result) (er7_lease_id result)
        (er7_operation_id result) (er7_success result) (er7_remaining_cookie_count result) None None);
  mret [Msg.OperationCompleted (mkOperationCompleted (rt_id self) (er7_operation_id result)
          (er7_operation_sequence result) (er7_lease_id result) completion_success)].

(** ** [GroupRuntime::handle] *)

Definition handle (message : Message) (hello_credential : Path) (negotiated_protocol : N) : H (list Message) :=
  let v7 := negotiated_protocol =? PROTOCOL_VERSION in
  let refused := throw (Protocol "message direction is host-to-extension only") in
  match message with
  | Msg.LeaseRequest request => handle_lease_request request hello_credential negotiated_protocol
  | Msg.InjectResult result => handle_inject_result result
  | Msg.EvictRequest request => handle_evict_begin request
  | Msg.CookiesSnapshotChunk snapshot =>
      if v7 then
        sequence ← ok_or_throw (csc_operation_sequence snapshot) (Protocol "v7 snapshot lacks operation sequence");
        attempt ← ok_or_throw (csc_attempt_id snapshot) (Protocol "v7 snapshot lacks attempt id");
        purpose ← ok_or_throw (csc_purpose snapshot) (Protocol "v7 snapshot lacks purpose");
        handle_snapshot_chunk_v7
          (mkCookiesSnapshotChunkV7 (csc_account_group_id snapshot) (csc_operation_id snapshot) sequence
             (csc_lease_id snapshot) attempt purpose (csc_chunk_index snapshot) (csc_chunk_count snapshot)
             (csc_cookie_count snapshot) (csc_cookies snapshot))
      else handle_snapshot_chunk snapshot
  | Msg.EvictResult result =>
      if v7 then
        sequence ← ok_or_throw (eres_operation_sequence result) (Protocol "v7 result lacks operation sequence");
        attempt ← ok_or_throw (eres_attempt_id result) (Protocol "v7 result lacks attempt id");
        handle_evict_result_v7
          (mkEvictResultV7 (eres_account_group_id result) (eres_operation_id result) sequence
             (eres_lease_id result) attempt (eres_success result) (eres_remaining_cookie_count result))
      else handle_evict_result result
  | Msg.OperationBegin request => if v7 then on_group (handle_operation_begin request) else refused
  | Msg.OperationStatusQuery request => if v7 then on_group (handle_operation_status request) else refused
  | Msg.EvictRemovePrepare request => if v7 then on_group (handle_remove_prepare request) else refused
  | Msg.SessionInvalidate request => handle_session_invalidate request
  | Msg.AuthCacheClear request => handle_auth_cache_clear request
  | _ => refused
  end.
End Handlers.
