(* ===== verification/Confirm.v ===== *)
(** * When the host tells the browser that a snapshot is safe

    [handle_snapshot_chunk] from the last chunk to [EvictConfirmed]: the
    composition of the preparation (Transaction), the commit (Coordinator), the
    lease file and the audit log. *)

From S2P Require Import Prelude World External Examples AtomicFile Config Messages VaultFormat Capability LeaseMeta VaultStore Transaction Paths OpModel OpJournal OpRecovery Coordinator CommitProtocol Protocol Group Handlers.

Section Confirm.
Context `{UT : UuidText, SH : Sha256, AE : Aead, AL : !AeadLaws, LS : LocalSecret, SP : Serde VaultPayload,
  JF : JsonF64, PL : !PayloadLaws, SL : Serde CapabilityLedger, SM : Serde LeaseMetadata, KB : KekBackend, KL : !KekLaws,
  JB : Serde BoundRequest, JJ : Serde OperationJournal, CS : CookieSerde}.
Context {L A : Type} `{AS : AuditSink L, ASL : !AuditSinkLaws L, PA : PlatformAuthorizer A}.

(** ** The files of a group *)

Definition journal_file (g : GroupRuntime) : Path := ojs_path (oc_journal (rt_coordinator g)).
Definition vault_file (g : GroupRuntime) : Path := vault_path (rt_transactions g).
Definition journal_group (g : GroupRuntime) : Uuid := ojs_account_group_id (oc_journal (rt_coordinator g)).

(** The files the handlers write besides the journal's and the vault's. *)
Definition side_files (g : GroupRuntime) (audit : Path) (p : Path) : Prop :=
  writer_files (rt_lease_store g) p \/ in_directory audit p \/ kek_files (vt_kek (rt_transactions g)) p.

(** The group's files are apart, and its journal is on disk. *)
Record group_ready (g : GroupRuntime) (audit : Path) (w : World) : Prop := {
  gr_group : vt_group_id (rt_transactions g) < 2 ^ 128;
  gr_apart : forall p, writer_files (journal_file g) p -> ~ writer_files (vault_file g) p;
  gr_side_vault : ~ side_files g audit (vault_file g);
  gr_side_journal : ~ side_files g audit (journal_file g);
  gr_stored : stored (journal_group g) (journal_file g) (journal_of (rt_coordinator g)) w;
}.

(** The vault holds the prepared write, and the journal on disk binds the
    operation to it, in a phase satisfying [P]. *)
Definition bound_on_disk (P : OperationPhase -> Prop) (g : GroupRuntime) (id : Uuid) (p : PreparedVaultWrite)
    (w : World) : Prop :=
  file_at w (vault_file g) = Some (pv_bytes p) /\
  exists j o b, stored (journal_group g) (journal_file g) j w /\ find_operation id j = Some o /\
    snapshot o = Some b /\ binds p b /\ P (phase o).

(** The prepared write holds the snapshot: see [prepare_after_snapshot_next]. *)
Definition prepared_snapshot (g : GroupRuntime) (w : World) (cookies : list CookieRecord) (p : PreparedVaultWrite) : Prop :=
  prepared_seeing (seen_file w (vault_file g)) (rt_transactions g) w p /\
  prepared_content (rt_transactions g) (seen_file w (vault_file g)) cookies p.

(** No snapshot is lost: the vault is as it was, or holds the new snapshot with
    the journal binding it. *)
Definition snapshot_kept (g : GroupRuntime) (id : Uuid) (cookies : list CookieRecord) (w w' : World) : Prop :=
  file_at w' (vault_file g) = file_at w (vault_file g) \/
  exists p, prepared_snapshot g w cookies p /\ bound_on_disk (fun _ => True) g id p w'.

(** What is written from the preparation of a snapshot to its confirmation. *)
Definition confirm_files (g : GroupRuntime) (audit : Path) (p : Path) : Prop :=
  writer_files (journal_file g) p \/ writer_files (vault_file g) p \/ writer_files (rt_lease_store g) p \/
  in_directory audit p.

(** The write was verified: what is written opens. *)
Definition write_opens (g : GroupRuntime) (p : PreparedVaultWrite) : Prop :=
  pv_commit_required p = true -> opens_as (vt_group_id (rt_transactions g)) (pv_bytes p) (pv_dek p).

(** The run of the preparation that [p] is from, before [w']. *)
Definition prepared_run (F : Path -> Prop) (g : GroupRuntime) (w : World) (cookies : list CookieRecord)
    (p : PreparedVaultWrite) (w' : World) : Prop :=
  exists w1, prepare_after_snapshot (rt_transactions g) cookies tt w = Done p tt w1 /\ agree_off F w1 w'.

Lemma prepared_run_later F F' g w cookies p w' w2 :
  (forall q, F q -> F' q) -> prepared_run F g w cookies p w' -> agree_off F' w' w2 -> prepared_run F' g w cookies p w2.
Proof.
  intros HF (w1 & Hrun & Ha) Ha2. exists w1. split; [done|]. eapply agree_off_trans; [|exact Ha2]. by eapply agree_off_weaken.
Qed.

Lemma bound_on_disk_frame P F g id p w w' :
  agree_off F w w' -> ~ F (vault_file g) -> ~ F (journal_file g) ->
  bound_on_disk P g id p w -> bound_on_disk P g id p w'.
Proof.
  intros Ha Hv Hj [Hf (j & o & b & Hst & H)]. split; [by rewrite (agree_off_file _ _ _ _ Ha Hv)|].
  exists j, o, b. split; [by eapply stored_frame|done].
Qed.

Lemma bound_on_disk_weaken (P Q : OperationPhase -> Prop) g id p w :
  (forall x, P x -> Q x) -> bound_on_disk P g id p w -> bound_on_disk Q g id p w.
Proof. intros H [Hf (j & o & b & Hst & Ho & Hs & Hb & Hp)]. split; [done|]. exists j, o, b. split_and!; auto. Qed.

Lemma wp_or_restore {T} pending (m : M GroupRuntime T) (Q : T -> GroupRuntime -> World -> Prop)
    (E : FcpError -> GroupRuntime -> World -> Prop) (C : World -> Prop) g w :
  wp m Q (fun e g' w' => E e (set_rt_pending (Some pending) g') w') C g w -> wp (or_restore pending m) Q E C g w.
Proof. unfold wp, or_restore, mbind, M_bind, try_. by destruct (m g w). Qed.

(** The binding of an operation stays when its phase moves. *)
Definition binding_kept (id : Uuid) (j j' : OperationJournal) : Prop :=
  forall o b, find_operation id j = Some o -> snapshot o = Some b ->
    exists o', find_operation id j' = Some o' /\ snapshot o' = Some b.

#[export] Instance binding_kept_preorder id : PreOrder (binding_kept id).
Proof.
  split; [intros j o b; eauto|]. intros j1 j2 j3 H12 H23 o b Ho Hb.
  destruct (H12 _ _ Ho Hb) as (o2 & Ho2 & Hb2). eauto.
Qed.

Lemma binding_kept_phase id p j : binding_kept id j (assign id (with_phase p) j).
Proof.
  intros o b Ho Hb. exists (with_phase p o). split; [by apply find_assign_eq|done].
Qed.

(** The journal's move to [BrowserRemovalPending] keeps the snapshot. *)
Lemma wp_mark_external id p g (Q : unit -> GroupRuntime -> World -> Prop)
    (E : FcpError -> GroupRuntime -> World -> Prop) (C : World -> Prop) audit w :
  group_ready g audit w -> bound_on_disk (fun _ => True) g id p w ->
  (forall g' w', agree_off (writer_files (journal_file g)) w w' ->
     rt_pending g' = rt_pending g -> rt_id g' = rt_id g -> rt_lease g' = rt_lease g ->
     bound_on_disk (eq Phase.BrowserRemovalPending) g id p w' ->
     coordinator_operation (rt_coordinator g') id <> None -> Q tt g' w') ->
  (forall e g' w', bound_on_disk (fun _ => True) g id p w' -> E e g' w') ->
  (forall w', bound_on_disk (fun _ => True) g id p w' -> C w') ->
  wp (on_coordinator (mark_external_result_pending id)) Q E C g w.
Proof.
  intros [Hg Hap Hsv Hsj Hst] [Hv (j & o & b & Hst' & Ho & Hs & Hb & _)] HQ HE HC.
  assert (Hj : journal_of (rt_coordinator g) = j) by (by eapply stored_unique).
  assert (Hvault : forall w', agree_off (writer_files (journal_file g)) w w' ->
    file_at w' (vault_file g) = Some (pv_bytes p)).
  { intros w' Ha. rewrite (agree_off_file _ _ _ _ Ha); [done|]. intros Hin. apply (Hap _ Hin). by left. }
  assert (Hreach : forall w', disk_reach (binding_kept id) (oc_journal (rt_coordinator g)) w w' ->
    bound_on_disk (fun _ => True) g id p w').
  { intros w' [Ha (j' & Hst1 & Hr)]. split; [by apply Hvault|].
    destruct (Hr o b) as (o' & Ho' & Hs'); [by rewrite <- Hj in Ho|done|]. by exists j', o', b. }
  apply wp_zoom. unfold mark_external_result_pending. apply wp_zoom.
  apply (wp_transition_stored (binding_kept id)); [apply _|by intros _; apply binding_kept_phase|exact Hst| | |].
  - intros o1 j' w' Ho1 Hr Hst1 Ha Ho' _. apply HQ; [done..| |by unfold coordinator_operation, journal_of; cbn; rewrite Ho'].
    change (find_operation id (journal_of (rt_coordinator g)) = Some o1) in Ho1. rewrite Hj, Ho in Ho1. injection Ho1 as <-.
    split; [by apply Hvault|]. by exists j', (with_phase Phase.BrowserRemovalPending o), b.
  - intros e s' w' Hd. by apply HE, Hreach.
  - intros w' Hd. by apply HC, Hreach.
Qed.

(** ** From the snapshot to the vault *)

Lemma snapshot_kept_recoverable g id cookies p w0 w w' audit :
  group_ready g audit w0 -> agree_off (kek_files (vt_kek (rt_transactions g))) w0 w ->
  prepared_snapshot g w0 cookies p ->
  recoverable_commit (rt_transactions g) p id (rt_coordinator g) w w' -> snapshot_kept g id cookies w0 w'.
Proof.
  intros Hready Ha0 Hp (b & Hb & Ha & j' & Hst & _ & [[Hf _]|[[Hf _] (o & Ho & Hs & _)]]).
  - left. change (file_at w' (vault_file g) = file_at w (vault_file g)) in Hf. rewrite Hf.
    eapply agree_off_file; [exact Ha0|]. intros Hk. apply (gr_side_vault _ _ _ Hready). by right; right.
  - right. exists p. split; [done|]. split; [done|]. by exists j', o, b.
Qed.

(** The handlers only read the parts of the runtime that name files. *)
Definition same_files_of (g g' : GroupRuntime) : Prop :=
  rt_id g' = rt_id g /\ rt_transactions g' = rt_transactions g /\ rt_lease_store g' = rt_lease_store g /\
  journal_file g' = journal_file g /\ journal_group g' = journal_group g.

Lemma wp_commit_cookies pending id cookies g (Q : N * N -> GroupRuntime -> World -> Prop)
    (E : FcpError -> GroupRuntime -> World -> Prop) (C : World -> Prop) audit w :
  group_ready g audit w ->
  (forall p g' w', prepared_snapshot g w cookies p -> write_opens g p -> prepared_run (confirm_files g audit) g w cookies p w' ->
     same_files_of g g' -> rt_lease g' = rt_lease g ->
     group_ready g' audit w' -> bound_on_disk (fun _ => True) g' id p w' ->
     Q (len cookies, pv_vault_sequence p) g' w') ->
  (forall e g' w', snapshot_kept g id cookies w w' -> E e g' w') ->
  (forall w', snapshot_kept g id cookies w w' -> C w') ->
  wp (commit_cookies pending id cookies) Q E C g w.
Proof.
  intros Hready HQ HE HC. unfold commit_cookies.
  assert (Hnow : snapshot_kept g id cookies w w) by by left.
  apply wp_bind, wp_guard_not. destruct (_ <? _); [by apply HE|].
  apply wp_bind, wp_lift. destruct (cookies_to_vec cookies) as [canonical|e]; [|by apply HE].
  apply wp_bind, wp_get, wp_bind, wp_or_restore, wp_io.
  pose proof Hready as [Hg Hap Hsv Hsj Hst].
  assert (Hkv : forall w', agree_off (kek_files (vt_kek (rt_transactions g))) w w' ->
    file_at w' (vault_file g) = file_at w (vault_file g)).
  { intros w' Ha. eapply agree_off_file; [exact Ha|]. intros Hk. apply Hsv. by right; right. }
  apply wp_known_run, wp_prepare_after_snapshot; [done| | |].
  2: { intros e w' Ha _. apply HE. left. by apply Hkv. }
  2: { intros w' Ha. apply HC. left. by apply Hkv. }
  intros p w1 Ha1 Hpf Hpc Hrun. assert (Hp : prepared_snapshot g w cookies p) by done.
  assert (Hst1 : stored (journal_group g) (journal_file g) (journal_of (rt_coordinator g)) w1).
  { eapply stored_frame; [exact Ha1| |exact Hst]. intros Hk. apply Hsj. by right; right. }
  pose proof (Hkv _ Ha1) as Hv1. destruct Hpf as [Hpf1 Hpf2 Hpf3 Hpf4].
  assert (Hrec : forall b w', binds p b ->
    recoverable (rt_transactions g) p id (rt_coordinator g) w1 b w' -> snapshot_kept g id cookies w w').
  { intros b w' Hb Hr. eapply snapshot_kept_recoverable; [exact Hready|exact Ha1|exact Hp|by exists b]. }
  apply wp_bind, wp_or_restore, wp_zoom. apply wp_commit_snapshot; [done|exact Hst1|done|done| | | |].
  - intros Hno. change (file_at w1 (vault_file g) = Some (pv_bytes p)). rewrite Hv1. by apply Hpf4.
  - intros b c' w2 Hb1 Hb2 Hb3 (Ha2 & [Hvr Hop] & Htag & Hprof & Hs1 & Hs2 & Hst2 & Hrtc & o' & Ho' & Hs' & Hp').
    apply wp_ret, HQ; [done|exact Hop| |by split_and!|done| |].
    + exists w1. split; [exact Hrun|]. eapply agree_off_weaken; [exact Ha2|]. intros q [Hq|Hq]; [by left|by right; left].
    + split; [done|by unfold journal_file; cbn; rewrite Hs1|done| |].
      * unfold journal_file; cbn. by rewrite Hs1.
      * unfold journal_file, journal_group; cbn. by rewrite Hs1, Hs2.
    + split; [done|]. exists (journal_of c'), o', b. unfold journal_file, journal_group; cbn. rewrite Hs1, Hs2.
      by split_and!.
  - intros e c' w2 (b & Hb1 & Hb2 & Hb3 & Hr). by eapply HE, Hrec.
  - intros w2 (b & Hb1 & Hb2 & Hb3 & Hr). by eapply HC, Hrec.
Qed.

Lemma bound_on_disk_same P g g' id p w : same_files_of g g' -> bound_on_disk P g id p w -> bound_on_disk P g' id p w.
Proof. intros (_ & Ht & _ & Hj & Hg) H. unfold bound_on_disk, vault_file. by rewrite Ht, Hj, Hg. Qed.

Lemma group_ready_frame g g' audit w w' F :
  same_files_of g g' -> journal_of (rt_coordinator g') = journal_of (rt_coordinator g) ->
  agree_off F w w' -> ~ F (journal_file g) -> group_ready g audit w -> group_ready g' audit w'.
Proof.
  intros (_ & Ht & Hl & Hj & Hg) Hjo Ha HF [H1 H2 H3 H4 H5].
  split; unfold vault_file, side_files; rewrite ?Ht, ?Hl, ?Hj, ?Hg, ?Hjo; [done..|]. by eapply stored_frame.
Qed.

(** The lease may change as long as the files stay. *)
Lemma same_files_lease f g : same_files_of g (set_rt_lease f g).
Proof. done. Qed.

(** Persisting the lease keeps the bound snapshot. *)
Lemma wp_persist_own_lease g (Q : unit -> GroupRuntime -> World -> Prop)
    (E : FcpError -> GroupRuntime -> World -> Prop) (C : World -> Prop) w :
  (forall w', agree_off (writer_files (rt_lease_store g)) w w' ->
     disk_lease (rt_lease_store g) w' = Some (rt_lease g) -> Q tt g w') ->
  (forall e w', agree_off (writer_files (rt_lease_store g)) w w' -> E e g w') ->
  (forall w', agree_off (writer_files (rt_lease_store g)) w w' -> C w') ->
  wp persist_own_lease Q E C g w.
Proof. intros HQ HE HC. apply wp_bind, wp_get, wp_io, wp_persist_lease; auto. Qed.

(** A deferred audit record keeps the bound snapshot. *)
Lemma wp_record_operation_audit gid id event outcome detail (s : HandlerState L A) (Q : unit -> HandlerState L A -> World -> Prop)
    (E : FcpError -> HandlerState L A -> World -> Prop) (C : World -> Prop) w :
  (forall l' w', sink_directory l' = sink_directory (hd_audit s) ->
     agree_off (in_directory (sink_directory (hd_audit s))) w w' -> Q tt (set_hd_audit l' s) w') ->
  (forall w', agree_off (in_directory (sink_directory (hd_audit s))) w w' -> C w') ->
  wp (record_operation_audit gid id event outcome detail) Q E C s w.
Proof using ASL.
  intros HQ HC. apply wp_zoom. eapply wp_mono; [apply sink_deferred_frame|..]; cbn beta.
  - intros [] l' w' [Hd Ha]. by apply HQ.
  - done.
  - done.
Qed.

Definition confirmed_pending (pending : PendingOperation) (n : N) : PendingOperation :=
  set_pd_cookie_count (Some n) (set_pd_confirmed true pending).

Lemma wp_confirm_snapshot pending snapshot n p s (Q : list Message -> HandlerState L A -> World -> Prop)
    (E : FcpError -> HandlerState L A -> World -> Prop) (C : World -> Prop) w :
  let g := hd_group s in
  let id := csc_operation_id snapshot in
  group_ready g (sink_directory (hd_audit s)) w -> bound_on_disk (fun _ => True) g id p w ->
  (forall s' w', rt_pending (hd_group s') = Some (confirmed_pending pending n) ->
     agree_off (confirm_files g (sink_directory (hd_audit s))) w w' ->
     bound_on_disk (eq Phase.BrowserRemovalPending) g id p w' ->
     Q [Msg.EvictConfirmed (mkEvictConfirmed (rt_id g) (csc_lease_id snapshot) id (pv_vault_sequence p)
          (if bool_decide (pd_kind pending = PKind.Enrollment) then Disposition.RetainLeased else Disposition.Remove)
          None None)] s' w') ->
  (forall e s' w', bound_on_disk (fun _ => True) g id p w' -> E e s' w') ->
  (forall w', bound_on_disk (fun _ => True) g id p w' -> C w') ->
  wp (confirm_snapshot pending snapshot n (pv_vault_sequence p)) Q E C s w.
Proof using ASL.
  intros g id Hready Hb HQ HE HC. unfold confirm_snapshot. fold (confirmed_pending pending n). fold id.
  pose proof Hready as [Hg Hap Hsv Hsj Hst].
  apply wp_bind, wp_zoom, wp_modify, wp_bind, wp_zoom, wp_or_restore. cbn [hd_group set_hd_group].
  set (m := set_lm_pending_operation_id _ _). fold g.
  assert (Hlease : forall w1, agree_off (writer_files (rt_lease_store g)) w w1 -> bound_on_disk (fun _ => True) g id p w1).
  { intros w1 Ha. eapply bound_on_disk_frame; [exact Ha| | |exact Hb]; intros Hin; [apply Hsv|apply Hsj]; by left. }
  apply wp_persist_own_lease; [|intros e w1 Ha; by apply HE, Hlease|intros w1 Ha; by apply HC, Hlease].
  intros w1 Ha1 _. apply wp_bind, wp_zoom, wp_get. cbn [hd_group set_hd_group].
  assert (Hready1 : group_ready (set_rt_lease m g) (sink_directory (hd_audit s)) w1).
  { eapply (group_ready_frame g); [done|done|exact Ha1| |exact Hready]. intros Hin. apply Hsj. by left. }
  apply wp_bind, wp_record_operation_audit; cbn [hd_audit set_hd_group set_hd_audit].
  2: { intros w2 Ha2. apply HC. eapply bound_on_disk_frame; [exact Ha2| | |by apply Hlease]; intros Hin;
       [apply Hsv|apply Hsj]; by right; left. }
  intros l' w2 Hdir Ha2.
  assert (Hb2 : bound_on_disk (fun _ => True) g id p w2).
  { eapply bound_on_disk_frame; [exact Ha2| | |by apply Hlease]; intros Hin; [apply Hsv|apply Hsj]; by right; left. }
  assert (Hready2 : group_ready (set_rt_lease m g) (sink_directory (hd_audit s)) w2).
  { eapply (group_ready_frame (set_rt_lease m g)); [done|done|exact Ha2| |exact Hready1].
    intros Hin. apply Hsj. by right; left. }
  apply wp_bind, wp_zoom, wp_or_restore. cbn [hd_group set_hd_group set_hd_audit].
  eapply wp_mark_external; [exact Hready2|exact Hb2| |intros e g' w3; apply HE|apply HC].
  intros g' w3 Ha3 _ Hid _ Hb3 _. apply wp_bind, wp_zoom, wp_modify, wp_ret. cbn [rt_id set_rt_lease] in *.
  apply HQ; [done| |done].
  eapply agree_off_trans; [eapply agree_off_weaken; [exact Ha1|by right; right; left]|].
  eapply agree_off_trans; [eapply agree_off_weaken; [exact Ha2|by right; right; right]|].
  eapply agree_off_weaken; [exact Ha3|by left].
Qed.

(** ** One chunk *)

(** What [accept_chunk] guarantees when it accepts a chunk. *)
Record accepted (snapshot : CookiesSnapshotChunk) (p : PendingOperation) (complete : bool) (p' : PendingOperation) : Prop := {
  ac_operation : pd_operation_id p = csc_operation_id snapshot;
  ac_lease : pd_lease_id p = csc_lease_id snapshot;
  ac_unconfirmed : pd_confirmed p = false;
  ac_index : csc_chunk_index snapshot = pd_snapshot_next_chunk p;
  ac_count : 0 < csc_chunk_count snapshot <= 65536;
  ac_total : pd_snapshot_chunk_count p = None \/ pd_snapshot_chunk_count p = Some (csc_chunk_count snapshot);
  ac_filled : csc_chunk_index snapshot + 1 < csc_chunk_count snapshot -> csc_cookies snapshot <> [];
  ac_result : exists b, cookies_to_vec (csc_cookies snapshot) = Ok b /\
    p' = set_pd_progress (Some (csc_chunk_count snapshot)) (pd_snapshot_next_chunk p + 1)
           (pd_snapshot_bytes p + len b) (pd_snapshot_cookies p ++ csc_cookies snapshot) p;
  ac_bytes : pd_snapshot_bytes p' <= MAX_SNAPSHOT_BYTES;
  ac_cookies : len (pd_snapshot_cookies p') <= csc_cookie_count snapshot <= MAX_SNAPSHOT_COOKIES;
  ac_complete : complete = negb (pd_snapshot_next_chunk p' <? csc_chunk_count snapshot);
  ac_all : complete = true -> len (pd_snapshot_cookies p') = csc_cookie_count snapshot;
}.

Lemma wp_accept_chunk snapshot p (Q : bool -> PendingOperation -> World -> Prop)
    (E : FcpError -> PendingOperation -> World -> Prop) (C : World -> Prop) w :
  (forall complete p', accepted snapshot p complete p' -> Q complete p' w) ->
  (forall e p', E e p' w) ->
  wp (accept_chunk snapshot) Q E C p w.
Proof.
  intros HQ HE. unfold accept_chunk. apply wp_bind, wp_get.
  do 7 (let H := fresh "Hg" in wp_guard_case H; [by apply HE|]).
  apply wp_bind, wp_lift. destruct (cookies_to_vec _) as [b|e] eqn:Hb; [|by apply HE].
  apply wp_bind, wp_ok_or_throw. destruct (checked_add _ _ (len b)) as [nb|] eqn:Hnb; [|by apply HE].
  apply checked_add_Some in Hnb as [-> _].
  wp_guard_case Hmb; [by apply HE|].
  apply wp_bind, wp_ok_or_throw. destruct (checked_add _ _ _) as [nc|] eqn:Hnc; [|by apply HE].
  apply checked_add_Some in Hnc as [-> _].
  wp_guard_case Hmc; [by apply HE|].
  apply wp_bind, wp_put.
  apply orb_false_iff in Hg as [Hg Hg'], Hg1 as [Hg1 Hg1'].
  apply negb_false_iff, N.eqb_eq in Hg. apply negb_false_iff, N.eqb_eq in Hg3.
  apply bool_decide_eq_false, dec_stable in Hg'. apply N.eqb_neq in Hg1. apply N.ltb_ge in Hg1', Hg2, Hmb, Hmc.
  assert (Hacc : forall complete,
    complete = negb (pd_snapshot_next_chunk p + 1 <? csc_chunk_count snapshot) ->
    (complete = true -> len (pd_snapshot_cookies p) + len (csc_cookies snapshot) = csc_cookie_count snapshot) ->
    accepted snapshot p complete (set_pd_progress (Some (csc_chunk_count snapshot)) (pd_snapshot_next_chunk p + 1)
      (pd_snapshot_bytes p + len b) (pd_snapshot_cookies p ++ csc_cookies snapshot) p)).
  { intros complete Hc1 Hc2. split; try done; cbn; rewrite ?len_app; try done.
    - lia.
    - destruct (pd_snapshot_chunk_count p) as [n|]; [right|by left]. f_equal.
      by apply negb_false_iff, N.eqb_eq in Hg4.
    - intros Hlt%N.ltb_lt. rewrite Hlt in Hg5. by apply bool_decide_eq_false in Hg5.
    - by exists b. }
  destruct (pd_snapshot_next_chunk p + 1 <? csc_chunk_count snapshot) eqn:Hlast.
  - apply wp_ret, HQ, Hacc; [done|by intros].
  - wp_guard_case Htot.
    + apply HE.
    + apply negb_false_iff, N.eqb_eq in Htot. apply wp_ret, HQ, Hacc; done.
Qed.

(** ** The whole handler *)

(** The cookies of the snapshot once the chunk is added. *)
Definition collected (g : GroupRuntime) (snapshot : CookiesSnapshotChunk) : list CookieRecord :=
  match rt_pending g with Some p => pd_snapshot_cookies p | None => [] end ++ csc_cookies snapshot.

(** The enrollment of an empty scope leaves the vault alone. *)
Lemma wp_abort_empty_enrollment id (s : HandlerState L A) (Q : list Message -> HandlerState L A -> World -> Prop)
    (E : FcpError -> HandlerState L A -> World -> Prop) (C : World -> Prop) w :
  let g := hd_group s in
  group_ready g (sink_directory (hd_audit s)) w ->
  (forall s' w', file_at w' (vault_file g) = file_at w (vault_file g) ->
     Q [Msg.SessionInvalidated (mkSessionInvalidated (rt_id g) Invalidation.ScopeEmpty)] s' w') ->
  (forall e s' w', file_at w' (vault_file g) = file_at w (vault_file g) -> E e s' w') ->
  (forall w', file_at w' (vault_file g) = file_at w (vault_file g) -> C w') ->
  wp (abort_empty_enrollment id) Q E C s w.
Proof using ASL.
  intros g [Hg Hap Hsv Hsj Hst] HQ HE HC. unfold abort_empty_enrollment.
  assert (Hframe : forall F w1 w2, agree_off F w1 w2 -> ~ F (vault_file g) ->
    file_at w1 (vault_file g) = file_at w (vault_file g) -> file_at w2 (vault_file g) = file_at w (vault_file g)).
  { intros F w1 w2 Ha HF <-. by eapply agree_off_file. }
  assert (Hvj : ~ writer_files (journal_file g) (vault_file g)).
  { intros Hin. apply (Hap _ Hin). by left. }
  apply wp_bind, wp_zoom, wp_get. apply wp_bind, wp_zoom, wp_zoom. cbn [hd_group set_hd_group]. fold g.
  apply wp_zoom. apply (wp_transition_stored (fun _ _ => True)); [by split|done|exact Hst| | |].
  2: { intros e j' w1 [Ha _]. by eapply HE, Hframe. }
  2: { intros w1 [Ha _]. by eapply HC, Hframe. }
  intros o j' w1 _ _ _ Ha1 _ _.
  assert (Hv1 : file_at w1 (vault_file g) = file_at w (vault_file g)) by (by eapply Hframe).
  apply wp_bind, wp_zoom, wp_modify. apply wp_bind, wp_zoom. unfold advance_lease.
  apply wp_bind, wp_get, wp_bind, wp_lift. destruct (advance_transition _) as [m|e]; [|by apply HE].
  apply wp_modify. apply wp_bind, wp_zoom. cbn [hd_group set_hd_group].
  assert (Hlease : ~ writer_files (rt_lease_store g) (vault_file g)) by (intros Hin; apply Hsv; by left).
  apply wp_persist_own_lease; cbn [rt_lease_store set_rt_lease set_rt_coordinator].
  2: { intros e w2 Ha2. by eapply HE, Hframe. }
  2: { intros w2 Ha2. by eapply HC, Hframe. }
  intros w2 Ha2 _. assert (Hv2 : file_at w2 (vault_file g) = file_at w (vault_file g)) by (by eapply Hframe).
  assert (Haudit : ~ in_directory (sink_directory (hd_audit s)) (vault_file g)) by (intros Hin; apply Hsv; by right; left).
  apply wp_bind, wp_record_operation_audit; cbn [hd_audit set_hd_group].
  - intros l' w3 _ Ha3. apply wp_ret, HQ. by eapply Hframe.
  - intros w3 Ha3. by eapply HC, Hframe.
Qed.

Lemma wp_handle_snapshot_chunk snapshot (s : HandlerState L A) (Q : list Message -> HandlerState L A -> World -> Prop)
    (E : FcpError -> HandlerState L A -> World -> Prop) (C : World -> Prop) w :
  let g := hd_group s in let id := csc_operation_id snapshot in
  group_ready g (sink_directory (hd_audit s)) w ->
  (forall messages s' w', file_at w' (vault_file g) = file_at w (vault_file g) ->
     messages = [] \/
     messages = [Msg.SessionInvalidated (mkSessionInvalidated (rt_id g) Invalidation.ScopeEmpty)] ->
     Q messages s' w') ->
  (forall pending p s' w', rt_pending g = Some pending -> pd_operation_id pending = id ->
     pd_lease_id pending = csc_lease_id snapshot -> pd_confirmed pending = false ->
     len (collected g snapshot) = csc_cookie_count snapshot ->
     prepared_snapshot g w (collected g snapshot) p -> write_opens g p ->
     prepared_run (confirm_files g (sink_directory (hd_audit s))) g w (collected g snapshot) p w' ->
     bound_on_disk (eq Phase.BrowserRemovalPending) g id p w' ->
     Q [Msg.EvictConfirmed (mkEvictConfirmed (rt_id g) (csc_lease_id snapshot) id (pv_vault_sequence p)
          (if bool_decide (pd_kind pending = PKind.Enrollment) then Disposition.RetainLeased else Disposition.Remove)
          None None)] s' w') ->
  (forall e s' w', snapshot_kept g id (collected g snapshot) w w' -> E e s' w') ->
  (forall w', snapshot_kept g id (collected g snapshot) w w' -> C w') ->
  wp (handle_snapshot_chunk snapshot) Q E C s w.
Proof using AL PL KL ASL.
  intros g id Hready HQ1 HQ2 HE HC. unfold handle_snapshot_chunk.
  assert (Hnow : snapshot_kept g id (collected g snapshot) w w) by by left.
  apply wp_bind, wp_zoom. unfold on_pending. apply wp_bind, wp_get, wp_bind, wp_ok_or_throw. fold g.
  destruct (rt_pending g) as [p0|] eqn:Hpend; [|by apply HE].
  apply wp_zoom, wp_accept_chunk; [|by intros; apply HE].
  intros complete p1 Hac. pose proof Hac as [Hop Hlease Hun _ _ _ _ (b & _ & Hp1) _ _ _ Hall].
  destruct complete; cbn [negb]; [|by apply wp_ret, HQ1; [|left]].
  assert (Hcol : pd_snapshot_cookies p1 = collected g snapshot) by (unfold collected; by rewrite Hp1, Hpend).
  assert (Hkind : pd_kind p1 = pd_kind p0) by (by rewrite Hp1).
  apply wp_bind, wp_zoom, wp_get. apply wp_bind. cbn [hd_group set_hd_group]. eapply wp_unwrap; [done|].
  apply wp_bind, wp_zoom, wp_modify. cbn [hd_group set_hd_group]. rewrite Hcol.
  assert (Hready' : group_ready (set_rt_pending None (set_rt_pending (Some p1) g)) (sink_directory (hd_audit s)) w).
  { eapply (group_ready_frame g); [done|done|apply (agree_off_refl (fun _ => False))|by intros []|exact Hready]. }
  destruct (_ && _).
  { apply wp_abort_empty_enrollment; cbn [hd_group hd_audit set_hd_group]; [exact Hready'| | |].
    - intros s' w' Hf. apply HQ1; [exact Hf|by right].
    - intros e s' w' Hf. apply HE. by left.
    - intros w' Hf. apply HC. by left. }
  apply wp_bind, wp_zoom. cbn [hd_group set_hd_group].
  apply (wp_commit_cookies _ _ _ _ _ _ _ _ _ Hready').
  - intros p g' w1 Hp Hwo Hpr Hsame _ Hready1 Hb. cbn beta iota.
    apply wp_confirm_snapshot; cbn [hd_group hd_audit set_hd_group]; [exact Hready1|exact Hb| | |].
    + intros s' w' _ Ha' Hb'. destruct Hsame as (Hid & Hsame). rewrite Hid. cbn [pd_kind set_pd_cookies].
      rewrite Hkind. apply (HQ2 p0 p); try done.
      * rewrite <- Hcol. by apply Hall.
      * destruct Hsame as (H1 & H2 & H3 & H4). unfold confirm_files, vault_file in Ha'. rewrite H1, H2, H3 in Ha'.
        by eapply (prepared_run_later _ (confirm_files g (sink_directory (hd_audit s)))); [|exact Hpr|exact Ha'].
      * eapply bound_on_disk_same; [|exact Hb']. destruct Hsame as (H1 & H2 & H3 & H4). by split_and!.
    + intros e s' w' Hb'. apply HE. right. exists p. split; [done|].
      eapply bound_on_disk_same; [|exact Hb']. destruct Hsame as (H0 & H1 & H2 & H3 & H4). by split_and!.
    + intros w' Hb'. apply HC. right. exists p. split; [done|].
      eapply bound_on_disk_same; [|exact Hb']. destruct Hsame as (H0 & H1 & H2 & H3 & H4). by split_and!.
  - intros e g' w' Hk. by apply HE.
  - intros w' Hk. by apply HC.
Qed.

(** ** The check before the removal *)

(** The cookies that are checked once a chunk is in: those collected so far and those
    of the chunk, unless a chunk with its number had been taken before. *)
Definition checked_cookies (index : N) (cookies : list CookieRecord) (p : PendingOperation) : list CookieRecord :=
  if index <? pd_snapshot_next_chunk p then pd_snapshot_cookies p else pd_snapshot_cookies p ++ cookies.

Lemma wp_append_v7_chunk snapshot p (Q : unit -> PendingOperation -> World -> Prop)
    (E : FcpError -> PendingOperation -> World -> Prop) (C : World -> Prop) w :
  (forall p', pd_snapshot_cookies p' = checked_cookies (csc7_chunk_index snapshot) (csc7_cookies snapshot) p -> Q tt p' w) ->
  (forall e p', E e p' w) -> wp (append_v7_chunk snapshot) Q E C p w.
Proof.
  intros HQ HE. unfold append_v7_chunk. apply wp_bind, wp_get. wp_guard_case Hg; [by apply HE|].
  apply wp_bind, wp_lift. destruct (cookies_to_vec _) as [b|e]; [|by apply HE].
  unfold checked_cookies in HQ. destruct (csc7_chunk_index snapshot <? pd_snapshot_next_chunk p).
  { apply wp_guard_not. match goal with |- if ?b then _ else _ => destruct b end; auto. }
  wp_guard_case Hg1; [by apply HE|].
  apply wp_bind, wp_ok_or_throw. destruct (checked_add _ _ (len b)); [|by apply HE].
  apply wp_bind, wp_ok_or_throw. destruct (checked_add _ _ _); [|by apply HE].
  wp_guard_case Hg2; [by apply HE|]. apply wp_bind, wp_put, wp_guard_not.
  match goal with |- if ?b then _ else _ => destruct b end; auto.
Qed.

(** What an authorization says of the snapshot: its tag is the one the journal
    binds the operation to. *)
Definition tag_matches (c : OperationCoordinator) (pending : PendingOperation) (id seq attempt : N) : Prop :=
  exists o b profile canonical, find_operation id (journal_of c) = Some o /\ snapshot o = Some b /\
    sequence o = seq /\ attempt_id o = Some attempt /\ oc_profile_id c = Some profile /\
    cookies_to_vec (pd_snapshot_cookies pending) = Ok canonical /\
    sb_snapshot_tag b = tag (oc_tagger c) (tag_context c profile id seq (base_vault_sequence o)) canonical.

Lemma verify_snapshot_true c id seq attempt canonical :
  verify_snapshot c id seq attempt canonical = Ok true ->
  exists o b profile, find_operation id (journal_of c) = Some o /\ snapshot o = Some b /\
    sequence o = seq /\ attempt_id o = Some attempt /\ oc_profile_id c = Some profile /\
    sb_snapshot_tag b = tag (oc_tagger c) (tag_context c profile id seq (base_vault_sequence o)) canonical.
Proof.
  unfold verify_snapshot. intros H. res_inv H.
  bool_to_prop. injection H as H. bool_to_prop. eexists _, _, _. split_and!; try done. by apply dec_stable.
Qed.

Lemma wp_handle_removal_snapshot_chunk snapshot g audit (Q : list Message -> GroupRuntime -> World -> Prop)
    (E : FcpError -> GroupRuntime -> World -> Prop) (C : World -> Prop) w :
  group_ready g audit w ->
  (forall g', Q [] g' w) ->
  (forall g' p pending, rt_coordinator g' = rt_coordinator g -> rt_pending g = Some p -> rt_pending g' = Some pending ->
     pd_snapshot_cookies pending = checked_cookies (csc7_chunk_index snapshot) (csc7_cookies snapshot) p ->
     tag_matches (rt_coordinator g) pending (csc7_operation_id snapshot) (csc7_operation_sequence snapshot)
       (csc7_attempt_id snapshot) ->
     Q [Msg.EvictRemoveAuthorized (mkEvictRemoveAuthorized (rt_id g) (csc7_operation_id snapshot)
          (csc7_operation_sequence snapshot) (csc7_lease_id snapshot) (csc7_attempt_id snapshot))] g' w) ->
  (forall m g' w', file_at w' (vault_file g) = file_at w (vault_file g) -> oc_success m = false ->
     Q [Msg.OperationCompleted m] g' w') ->
  (forall e g' w', file_at w' (vault_file g) = file_at w (vault_file g) -> E e g' w') ->
  (forall w', file_at w' (vault_file g) = file_at w (vault_file g) -> C w') ->
  wp (handle_removal_snapshot_chunk snapshot) Q E C g w.
Proof.
  intros [Hg Hap Hsv Hsj Hst] HQ1 HQ2 HQ3 HE HC. unfold handle_removal_snapshot_chunk.
  apply wp_bind. unfold on_pending. apply wp_bind, wp_get, wp_bind, wp_ok_or_throw.
  destruct (rt_pending g) as [p|] eqn:Hpend; [|by apply HE].
  apply wp_zoom, wp_append_v7_chunk; [|by intros; apply HE]. intros p' Hchecked.
  apply wp_bind, wp_get, wp_bind. eapply wp_unwrap; [done|].
  match goal with |- wp (if ?b then _ else _) _ _ _ _ _ => destruct b end; [by apply wp_ret|].
  apply wp_bind, wp_lift. destruct (cookies_to_vec _) as [canonical|e] eqn:Hcan; [|by apply HE].
  apply wp_bind, wp_lift. cbn [rt_coordinator set_rt_pending].
  destruct (verify_snapshot _ _ _ _ _) as [[]|e] eqn:Hver; cbn [negb]; [| |by apply HE].
  - apply wp_ret. eapply HQ2; [done..|exact Hchecked|].
    destruct (verify_snapshot_true _ _ _ _ _ Hver) as (o & b & profile & H1 & H2 & H3 & H4 & H5 & H6).
    exists o, b, profile, canonical. by split_and!.
  - apply wp_bind, wp_zoom, wp_zoom. cbn [rt_coordinator set_rt_pending].
    assert (Hvj : ~ writer_files (journal_file g) (vault_file g)) by (intros Hin; apply (Hap _ Hin); by left).
    apply (wp_transition_stored (fun _ _ => True)); [by split|done|exact Hst| | |].
    2: { intros e j' w1 [Ha _]. by eapply HE, agree_off_file. }
    2: { intros w1 [Ha _]. by eapply HC, agree_off_file. }
    intros o j' w1 _ _ _ Ha1 _ _. assert (Hv1 : file_at w1 (vault_file g) = file_at w (vault_file g)) by (by eapply agree_off_file).
    apply wp_bind, wp_modify, wp_bind. unfold advance_lease.
    apply wp_bind, wp_get, wp_bind, wp_lift. destruct (advance_transition _) as [m|e]; [|by apply HE].
    apply wp_modify, wp_bind.
    assert (Hl : forall w2, agree_off (writer_files (rt_lease_store g)) w1 w2 ->
      file_at w2 (vault_file g) = file_at w (vault_file g)).
    { intros w2 Ha. rewrite <- Hv1. eapply agree_off_file; [exact Ha|]. intros Hin. apply Hsv. by left. }
    apply wp_persist_own_lease; cbn [rt_lease_store set_rt_lease set_rt_coordinator].
    2: { intros e w2 Ha2. by apply HE, Hl. }
    2: { intros w2 Ha2. by apply HC, Hl. }
    intros w2 Ha2 _. apply wp_bind, wp_modify, wp_ret. apply HQ3; [by apply Hl|done].
Qed.

(** ** [CookiesSnapshotChunk], in either protocol *)

Definition v7_chunk (snapshot : CookiesSnapshotChunk) : CookiesSnapshotChunk :=
  mkCookiesSnapshotChunk (csc_account_group_id snapshot) (csc_lease_id snapshot) (csc_operation_id snapshot)
    (csc_chunk_index snapshot) (csc_chunk_count snapshot) (csc_cookie_count snapshot) (csc_cookies snapshot)
    None None None.

(** The answer to a chunk: nothing was promised and the vault is as it was; or
    the snapshot is confirmed; or its removal is authorized. *)
Definition chunk_answer (audit : L) (g : GroupRuntime) (snapshot : CookiesSnapshotChunk) (w : World) (messages : list Message)
    (s' : HandlerState L A) (w' : World) : Prop :=
  let id := csc_operation_id snapshot in
  (file_at w' (vault_file g) = file_at w (vault_file g) /\
   (messages = [] \/ messages = [Msg.SessionInvalidated (mkSessionInvalidated (rt_id g) Invalidation.ScopeEmpty)] \/
    exists m, messages = [Msg.OperationCompleted m] /\ oc_success m = false)) \/
  (exists p confirmed, messages = [Msg.EvictConfirmed confirmed] /\ ec_operation_id confirmed = id /\
     ec_vault_sequence confirmed = pv_vault_sequence p /\
     len (collected g snapshot) = csc_cookie_count snapshot /\
     prepared_snapshot g w (collected g snapshot) p /\ write_opens g p /\
     prepared_run (confirm_files g (sink_directory audit)) g w (collected g snapshot) p w' /\
     bound_on_disk (eq Phase.BrowserRemovalPending) g id p w') \/
  (exists a before pending, messages = [Msg.EvictRemoveAuthorized a] /\ era_operation_id a = id /\ w' = w /\
     rt_pending g = Some before /\ rt_pending (hd_group s') = Some pending /\
     pd_snapshot_cookies pending = checked_cookies (csc_chunk_index snapshot) (csc_cookies snapshot) before /\
     tag_matches (rt_coordinator g) pending id (era_operation_sequence a) (era_attempt_id a)).

Lemma wp_handle_chunk snapshot hello_credential negotiated (s : HandlerState L A) w :
  group_ready (hd_group s) (sink_directory (hd_audit s)) w ->
  wp (handle (Msg.CookiesSnapshotChunk snapshot) hello_credential negotiated)
     (chunk_answer (hd_audit s) (hd_group s) snapshot w)
     (fun _ _ w' => snapshot_kept (hd_group s) (csc_operation_id snapshot) (collected (hd_group s) snapshot) w w')
     (fun w' => snapshot_kept (hd_group s) (csc_operation_id snapshot) (collected (hd_group s) snapshot) w w') s w.
Proof using AL PL KL ASL.
  intros Hready. unfold handle.
  assert (Hnow : snapshot_kept (hd_group s) (csc_operation_id snapshot) (collected (hd_group s) snapshot) w w) by by left.
  destruct (negotiated =? PROTOCOL_VERSION).
  - apply wp_bind, wp_ok_or_throw. destruct (csc_operation_sequence snapshot) as [seq|]; [|done].
    apply wp_bind, wp_ok_or_throw. destruct (csc_attempt_id snapshot) as [attempt|]; [|done].
    apply wp_bind, wp_ok_or_throw. destruct (csc_purpose snapshot) as [purpose|]; [|done].
    unfold handle_snapshot_chunk_v7. cbn [csc7_account_group_id csc7_operation_id csc7_operation_sequence csc7_lease_id
      csc7_attempt_id csc7_purpose csc7_chunk_index csc7_chunk_count csc7_cookie_count csc7_cookies].
    apply wp_bind, wp_zoom, wp_get. apply wp_bind, wp_ok_or_throw. cbn [hd_group set_hd_group].
    destruct (rt_pending (hd_group s)) as [p0|] eqn:Hpend; [|done].
    wp_guard_case Hbinding; [done|]. apply wp_bind, wp_lift.
    destruct (cookies_to_vec (csc_cookies snapshot)) as [b|e]; [|done]. cbv zeta.
    destruct (pd_snapshot_chunk_digests p0 !! _) as [d|].
    { wp_guard_case Hdup; [done|]. apply wp_ret. left. split; [done|by left]. }
    apply wp_bind, wp_zoom, wp_modify.
    set (p1 := set_pd_digests _ p0). set (g1 := set_rt_pending (Some p1) (hd_group s)).
    assert (Hcol : collected g1 snapshot = collected (hd_group s) snapshot) by (unfold collected; cbn; by rewrite Hpend).
    assert (Hready1 : group_ready g1 (sink_directory (hd_audit s)) w).
    { eapply (group_ready_frame (hd_group s)); [done|done|apply (agree_off_refl (fun _ => False))|by intros []|exact Hready]. }
    destruct (String.eqb purpose "removal_precheck").
    + apply wp_zoom. cbn [hd_group set_hd_group]. eapply wp_handle_removal_snapshot_chunk; [exact Hready1|..].
      * intros g'. left. split; [done|by left].
      * intros g' p pending Hc Hp0 Hp Hchecked Htag. right; right. injection Hp0 as <-. by eexists _, p0, pending.
      * intros m g' w' Hf Hsucc. left. split; [exact Hf|]. right; right. by exists m.
      * intros e g' w' Hf. by left.
      * intros w' Hf. by left.
    + wp_guard_case Hpurpose; [done|]. fold (v7_chunk snapshot). apply wp_bind, wp_handle_snapshot_chunk;
        cbn [hd_group hd_audit set_hd_group]; change (set_rt_pending (Some p1) (hd_group s)) with g1;
        change (collected g1 (v7_chunk snapshot)) with (collected g1 snapshot); rewrite ?Hcol;
        [exact Hready1|..].
      * intros messages s' w' Hf Hmsg. apply wp_ret. left. split; [exact Hf|].
        destruct Hmsg as [-> | ->]; [by left|by right; left].
      * intros pending p s' w' _ _ _ _ Hlen Hp Hop Hpr Hb. apply wp_ret. right; left. eexists p, _. split; [done|].
        split_and!; [done..|]. exact Hb.
      * intros e s' w' Hk. exact Hk.
      * intros w' Hk. exact Hk.
  - apply wp_handle_snapshot_chunk; [exact Hready|..].
    + intros messages s' w' Hf Hmsg. left. split; [exact Hf|]. destruct Hmsg as [-> | ->]; [by left|by right; left].
    + intros pending p s' w' _ _ _ _ Hlen Hp Hop Hpr Hb. right; left. by eexists p, _.
    + done.
    + done.
Qed.

(** ** The result of a removal *)

(** What the result makes of the lease and of the operation. *)
Definition result_outcome (p : PendingOperation) (result : EvictResult) : GroupState * OperationPhase :=
  if bool_decide (pd_kind p = PKind.Enrollment) then
    if eres_success result && bool_decide (pd_snapshot_cookie_count p = Some (eres_remaining_cookie_count result)) &&
       (0 <? eres_remaining_cookie_count result)
    then (GState.Leased, Phase.Completed) else (GState.Degraded, Phase.ReconciliationRequired)
  else if eres_success result && (eres_remaining_cookie_count result =? 0)
  then (GState.Sealed, Phase.Completed) else (GState.Degraded, Phase.ReconciliationRequired).

(** The operation and then the lease have moved, in memory and on disk; the
    vault is as it was. *)
Definition settled_result (g : GroupRuntime) (id : Uuid) (state : GroupState) (ph : OperationPhase) (w : World)
    (s' : HandlerState L A) (w' : World) : Prop :=
  lm_state (rt_lease (hd_group s')) = state /\ lm_pending_operation_id (rt_lease (hd_group s')) = None /\
  disk_lease (rt_lease_store g) w' = Some (rt_lease (hd_group s')) /\
  file_at w' (vault_file g) = file_at w (vault_file g) /\
  stored (journal_group g) (journal_file g) (journal_of (rt_coordinator (hd_group s'))) w' /\
  exists o, find_operation id (journal_of (rt_coordinator (hd_group s'))) = Some o /\ phase o = ph.

Lemma advance_transition_same m m' :
  advance_transition m = Ok m' -> lm_state m' = lm_state m /\ lm_pending_operation_id m' = lm_pending_operation_id m.
Proof. unfold advance_transition. intros H. res_inv H. by injection H as <-. Qed.

Lemma wp_finish gid id ph state f event outcome detail (s : HandlerState L A)
    (Q : list Message -> HandlerState L A -> World -> Prop)
    (E : FcpError -> HandlerState L A -> World -> Prop) (C : World -> Prop) w :
  let g := hd_group s in
  group_ready g (sink_directory (hd_audit s)) w -> ~ in_directory (sink_directory (hd_audit s)) (rt_lease_store g) ->
  (forall m, lm_state (f m) = state /\ lm_pending_operation_id (f m) = None) ->
  (forall s' w', rt_pending (hd_group s') = rt_pending g -> settled_result g id state ph w s' w' -> Q [] s' w') ->
  (forall e s' w', file_at w' (vault_file g) = file_at w (vault_file g) -> E e s' w') ->
  (forall w', file_at w' (vault_file g) = file_at w (vault_file g) -> C w') ->
  wp (_ ← on_group (on_coordinator (on_journal (transition id ph)));
      _ ← on_group (update_lease f);
      _ ← on_group advance_lease;
      _ ← on_group persist_own_lease;
      _ ← record_operation_audit gid id event outcome detail;
      mret []) Q E C s w.
Proof using ASL.
  intros g [Hg Hap Hsv Hsj Hst] Hla Hf HQ HE HC.
  assert (Hframe : forall F w1 w2, agree_off F w1 w2 -> ~ F (vault_file g) ->
    file_at w1 (vault_file g) = file_at w (vault_file g) -> file_at w2 (vault_file g) = file_at w (vault_file g)).
  { intros F w1 w2 Ha HF <-. by eapply agree_off_file. }
  assert (Hvj : ~ writer_files (journal_file g) (vault_file g)) by (intros Hin; apply (Hap _ Hin); by left).
  assert (Hvl : ~ writer_files (rt_lease_store g) (vault_file g)) by (intros Hin; apply Hsv; by left).
  assert (Hva : ~ in_directory (sink_directory (hd_audit s)) (vault_file g)) by (intros Hin; apply Hsv; by right; left).
  apply wp_bind, wp_zoom, wp_zoom, wp_zoom.
  apply (wp_transition_stored (fun _ _ => True)); [by split|done|exact Hst| | |].
  2: { intros e j' w1 [Ha _]. by eapply HE, Hframe. }
  2: { intros w1 [Ha _]. by eapply HC, Hframe. }
  intros o j' w1 _ _ Hst1 Ha1 Ho _.
  assert (Hv1 : file_at w1 (vault_file g) = file_at w (vault_file g)) by (by eapply Hframe).
  apply wp_bind, wp_zoom, wp_modify. apply wp_bind, wp_zoom. unfold advance_lease.
  apply wp_bind, wp_get, wp_bind, wp_lift. cbn [hd_group set_hd_group rt_lease set_rt_lease set_rt_coordinator].
  destruct (advance_transition _) as [m|e] eqn:Hadv; [|by apply HE]. apply advance_transition_same in Hadv as [Hm1 Hm2].
  destruct (Hf (rt_lease (hd_group s))) as [Hf1 Hf2].
  apply wp_modify. apply wp_bind, wp_zoom.
  apply wp_persist_own_lease; cbn [hd_group set_hd_group rt_lease_store rt_lease set_rt_lease set_rt_coordinator].
  2: { intros e w2 Ha2. by eapply HE, Hframe. }
  2: { intros w2 Ha2. by eapply HC, Hframe. }
  intros w2 Ha2 Hd. assert (Hv2 : file_at w2 (vault_file g) = file_at w (vault_file g)) by (by eapply Hframe).
  assert (Hst2 : stored (journal_group g) (journal_file g) j' w2).
  { eapply stored_frame; [exact Ha2| |exact Hst1]. intros Hin. apply Hsj. by left. }
  apply wp_bind, wp_record_operation_audit; cbn [hd_audit set_hd_group].
  - intros l' w3 _ Ha3. apply wp_ret, HQ; [done|].
    assert (Hd3 : disk_lease (rt_lease_store g) w3 = disk_lease (rt_lease_store g) w2).
    { unfold disk_lease. by rewrite (agree_off_file _ _ _ _ Ha3 Hla). }
    split_and!; cbn; [congruence|congruence|by rewrite Hd3|by eapply Hframe| |by exists (with_phase ph o)].
    eapply stored_frame; [exact Ha3| |exact Hst2]. intros Hin. apply Hsj. by right; left.
  - intros w3 Ha3. by eapply HC, Hframe.
Qed.

Lemma wp_handle_evict_result result (s : HandlerState L A) (Q : list Message -> HandlerState L A -> World -> Prop)
    (E : FcpError -> HandlerState L A -> World -> Prop) (C : World -> Prop) w :
  let g := hd_group s in
  group_ready g (sink_directory (hd_audit s)) w -> ~ in_directory (sink_directory (hd_audit s)) (rt_lease_store g) ->
  (forall p s' w', rt_pending g = Some p -> pd_operation_id p = eres_operation_id result ->
     pd_lease_id p = eres_lease_id result -> pd_confirmed p = true -> rt_pending (hd_group s') = None ->
     settled_result g (eres_operation_id result) (result_outcome p result).1 (result_outcome p result).2 w s' w' ->
     Q [] s' w') ->
  (forall e s' w', file_at w' (vault_file g) = file_at w (vault_file g) -> E e s' w') ->
  (forall w', file_at w' (vault_file g) = file_at w (vault_file g) -> C w') ->
  wp (handle_evict_result result) Q E C s w.
Proof using ASL.
  intros g Hready Hla HQ HE HC. unfold handle_evict_result.
  apply wp_bind, wp_zoom, wp_get. apply wp_bind, wp_ok_or_throw. cbn [hd_group set_hd_group]. fold g.
  destruct (rt_pending g) as [p|] eqn:Hpend; [|by apply HE].
  wp_guard_case Hb; [by apply HE|]. bool_to_prop. match goal with H : ~ (pd_lease_id _ <> _) |- _ => apply dec_stable in H end.
  apply wp_bind, wp_zoom, wp_modify. cbn [hd_group set_hd_group].
  assert (Hready' : group_ready (set_rt_pending None g) (sink_directory (hd_audit s)) w).
  { eapply (group_ready_frame g); [done|done|apply (agree_off_refl (fun _ => False))|by intros []|exact Hready]. }
  assert (Hdone : forall state ph s' w', rt_pending (hd_group s') = None ->
    settled_result (set_rt_pending None g) (eres_operation_id result) state ph w s' w' ->
    (state, ph) = result_outcome p result -> Q [] s' w').
  { intros state ph s' w' Hn Hset Heq. eapply HQ; [done..|]. by rewrite <- Heq. }
  unfold result_outcome in Hdone.
  destruct (bool_decide (pd_kind p = PKind.Enrollment)) eqn:Hk.
  - assert (bool_decide (pd_kind p <> PKind.Enrollment) = false) as -> by (bool_to_prop; by rewrite bool_decide_false; auto).
    cbn [andb] in Hdone |- *. destruct (_ && _ && _).
    all: eapply wp_finish; [exact Hready'|exact Hla|intros m; cbn; split; reflexivity| |exact HE|exact HC]; intros s' w' Hn Hset; by eapply Hdone.
  - assert (bool_decide (pd_kind p <> PKind.Enrollment) = true) as -> by (bool_to_prop; by rewrite bool_decide_true).
    cbn [andb] in Hdone |- *. destruct (_ && _).
    all: eapply wp_finish; [exact Hready'|exact Hla|intros m; cbn; split; reflexivity| |exact HE|exact HC]; intros s' w' Hn Hset; by eapply Hdone.
Qed.
End Confirm.
