(* ===== verification/Chunks.v ===== *)
(** * Snapshots in pieces

    The chunks of a snapshot, assembled by [handle_snapshot_chunk], and the
    chunks of an injection, cut by [chunk_cookie_records]. *)

From S2P Require Import Prelude World External Examples Messages VaultFormat Protocol Group Handlers Confirm.

(** ** Receiving *)

Section Receiving.
Context `{CS : CookieSerde}.

(** The chunks received so far, and the pending operation they have made of a
    new one. *)
Inductive receiving (p0 : PendingOperation) : list CookiesSnapshotChunk -> PendingOperation -> Prop :=
  | receiving_start : receiving p0 [] p0
  | receiving_chunk chunks p snapshot w p' w' :
      receiving p0 chunks p -> accept_chunk snapshot p w = Done false p' w' ->
      receiving p0 (chunks ++ [snapshot]) p'.

Lemma accept_chunk_inv snapshot p w complete p' w' :
  accept_chunk snapshot p w = Done complete p' w' -> accepted snapshot p complete p' /\ w' = w.
Proof.
  intros Hrun.
  assert (wp (accept_chunk snapshot) (fun c q v => accepted snapshot p c q /\ v = w) (fun _ _ _ => True)
    (fun _ => True) p w) as Hwp by (by apply wp_accept_chunk).
  unfold wp in Hwp. by rewrite Hrun in Hwp.
Qed.

(** The size of the encoded chunks. *)
Definition encoded_size (chunks : list CookiesSnapshotChunk) : N :=
  foldr N.add 0 ((fun c => match cookies_to_vec (csc_cookies c) with Ok b => len b | Err _ => 0 end) <$> chunks).

Lemma encoded_size_snoc chunks c b :
  cookies_to_vec (csc_cookies c) = Ok b -> encoded_size (chunks ++ [c]) = encoded_size chunks + len b.
Proof.
  intros Hb. unfold encoded_size. rewrite fmap_app, foldr_app. cbn. rewrite Hb, N.add_0_r.
  induction (_ <$> chunks) as [|x l IH]; cbn; lia.
Qed.

(** What has been collected from the chunks. *)
Record collected_from (chunks : list CookiesSnapshotChunk) (p : PendingOperation) : Prop := {
  cf_cookies : pd_snapshot_cookies p = concat (csc_cookies <$> chunks);
  cf_next : pd_snapshot_next_chunk p = len chunks;
  cf_bytes : pd_snapshot_bytes p = encoded_size chunks;
  cf_count : forall c, c ∈ chunks -> pd_snapshot_chunk_count p = Some (csc_chunk_count c);
  cf_none : chunks = [] -> pd_snapshot_chunk_count p = None;
  cf_index : csc_chunk_index <$> chunks = N.of_nat <$> seq 0 (length chunks);
  cf_operation : forall c, c ∈ chunks ->
    csc_operation_id c = pd_operation_id p /\ csc_lease_id c = pd_lease_id p;
}.

Lemma accepted_collects chunks p snapshot complete p' :
  collected_from chunks p -> accepted snapshot p complete p' -> collected_from (chunks ++ [snapshot]) p'.
Proof.
  intros [Hck Hn Hb Hc Hnone Hi Ho] [Hop Hl _ Hix _ Htot _ (b & Hbs & ->) _ _ _ _].
  assert (Hall : forall c, c ∈ chunks -> csc_chunk_count c = csc_chunk_count snapshot).
  { intros c Hin. pose proof (Hc _ Hin) as Hcc. destruct Htot; congruence. }
  split; cbn.
  - rewrite fmap_app, concat_app, Hck. cbn. by rewrite app_nil_r.
  - rewrite len_app, Hn. done.
  - rewrite (encoded_size_snoc _ _ _ Hbs). by rewrite Hb.
  - intros c [Hin| ->%list_elem_of_singleton]%elem_of_app; [|done]. by rewrite (Hall c Hin).
  - intros Hnil. by apply app_nil in Hnil as [_ ?].
  - rewrite fmap_app, length_app, seq_app, fmap_app, Hi. cbn. by rewrite Hix, Hn.
  - intros c [Hin| ->%list_elem_of_singleton]%elem_of_app; [by apply Ho|done].
Qed.

Lemma receiving_collects p0 chunks p :
  collected_from [] p0 -> receiving p0 chunks p ->
  collected_from chunks p /\ (chunks <> [] -> forall c, c ∈ chunks -> len chunks < csc_chunk_count c).
Proof.
  intros H0 Hr. induction Hr as [|chunks p snapshot w p' w' Hr [IHc IHn] Hrun]; [done|].
  apply accept_chunk_inv in Hrun as [Hac _]. pose proof (accepted_collects _ _ _ _ _ IHc Hac) as Hcf.
  split; [done|]. intros _ c Hin.
  assert (csc_chunk_count c = csc_chunk_count snapshot) as ->.
  { pose proof (cf_count _ _ Hcf c Hin) as H1. assert (Hs : snapshot ∈ chunks ++ [snapshot]) by set_solver.
    pose proof (cf_count _ _ Hcf _ Hs). congruence. }
  pose proof (ac_complete _ _ _ _ Hac) as Hc. symmetry in Hc. apply negb_false_iff, N.ltb_lt in Hc.
  by rewrite (cf_next _ _ Hcf) in Hc.
Qed.

Lemma new_pending_collects kind id lease seq attempt : collected_from [] (new_pending kind id lease seq attempt).
Proof. split; try done; intros c Hin; by apply not_elem_of_nil in Hin. Qed.

(** C19: A snapshot is complete exactly when all of its chunks have arrived once and
    in order: from a new operation, if the chunks received were accepted without
    completing and the next one completes, then the chunks are numbered from 0,
    all announce their number as the chunk count (at most 65536), all name the
    operation and its lease, the cookies collected are those of the chunks in
    order, as many as the last chunk declares and at most 100000, and together
    they take at most 32 MiB. *)
Theorem snapshot_assembly kind id lease seq0 attempt chunks p snapshot w p' w' :
  receiving (new_pending kind id lease seq0 attempt) chunks p ->
  accept_chunk snapshot p w = Done true p' w' ->
  let all := chunks ++ [snapshot] in
  csc_chunk_index <$> all = N.of_nat <$> seq 0 (length all) /\
  (forall c, c ∈ all -> csc_chunk_count c = len all /\ csc_operation_id c = id /\ csc_lease_id c = lease) /\
  len all <= 65536 /\
  pd_snapshot_cookies p' = concat (csc_cookies <$> all) /\
  len (pd_snapshot_cookies p') = csc_cookie_count snapshot /\ csc_cookie_count snapshot <= MAX_SNAPSHOT_COOKIES /\
  encoded_size all <= MAX_SNAPSHOT_BYTES.
Proof.
  intros Hr Hrun all. assert (Hid : forall q, receiving (new_pending kind id lease seq0 attempt) chunks q ->
    pd_operation_id q = id /\ pd_lease_id q = lease).
  { clear. intros q Hq. induction Hq as [|chunks q c w q' w' _ IH Hrun]; [done|].
    apply accept_chunk_inv in Hrun as [[_ _ _ _ _ _ _ (b & _ & ->) _ _ _ _] _]. done. }
  destruct (Hid _ Hr) as [Hop Hl].
  destruct (receiving_collects _ _ _ (new_pending_collects _ _ _ _ _) Hr) as [Hcf Hlt].
  apply accept_chunk_inv in Hrun as [Hac _]. pose proof (accepted_collects _ _ _ _ _ Hcf Hac) as Hcf'. fold all in Hcf'.
  assert (Hcount : csc_chunk_count snapshot = len all).
  { pose proof (ac_complete _ _ _ _ Hac) as Hc. symmetry in Hc. apply negb_true_iff, N.ltb_ge in Hc.
    rewrite (cf_next _ _ Hcf') in Hc. apply N.le_antisymm; [done|]. unfold all. rewrite len_app. change (len [snapshot]) with 1.
    destruct chunks as [|c0 chunks]; [pose proof (ac_count _ _ _ _ Hac); change (len (@nil CookiesSnapshotChunk)) with 0; lia|].
    assert (Hc0 : c0 ∈ c0 :: chunks) by set_solver. pose proof (Hlt ltac:(done) c0 Hc0) as Hl0.
    assert (csc_chunk_count c0 = csc_chunk_count snapshot) as <-; [|lia].
    pose proof (cf_count _ _ Hcf _ Hc0) as H1. destruct (ac_total _ _ _ _ Hac); congruence. }
  split_and!; [by apply cf_index in Hcf'| |rewrite <- Hcount; apply (ac_count _ _ _ _ Hac)|by apply cf_cookies| | |].
  - intros c Hin. rewrite <- Hcount. split.
    + assert (Hs : snapshot ∈ all) by (unfold all; set_solver).
      pose proof (cf_count _ _ Hcf' _ Hin). pose proof (cf_count _ _ Hcf' _ Hs). congruence.
    + destruct (cf_operation _ _ Hcf' c Hin) as [-> ->].
      destruct (ac_result _ _ _ _ Hac) as (b & _ & ->). by cbn.
  - by apply (ac_all _ _ _ _ Hac).
  - apply (ac_cookies _ _ _ _ Hac).
  - rewrite <- (cf_bytes _ _ Hcf'). apply (ac_bytes _ _ _ _ Hac).
Qed.
End Receiving.

(** ** Sending *)

(** [serde_json] writes an array of values between brackets, with commas. *)
Class CookieSerdeLaws `{CookieSerde} : Prop :=
  cookies_to_vec_length cookies b : cookies_to_vec cookies = Ok b ->
    exists bs, collect_results cookie_to_vec cookies = Ok bs /\
      len b = 2 + foldr N.add 0 (len <$> bs) + (len cookies - 1).

Section Sending.
Context `{CS : CookieSerde, CSL : !CookieSerdeLaws}.

(** The room the loop counts for the chunk it is filling: brackets, cookies and
    commas. *)
Definition counted (cookies : list CookieRecord) (n : N) : Prop :=
  exists bs, collect_results cookie_to_vec cookies = Ok bs /\ 2 + foldr N.add 0 (len <$> bs) + (len cookies - 1) <= n.

Definition fits (chunk : list CookieRecord) : Prop := chunk <> [] /\ counted chunk (COOKIE_CHUNK_TARGET_BYTES + 2).

Lemma collect_results_snoc {X Y} (f : X -> FcpResult Y) l x ys y :
  collect_results f l = Ok ys -> f x = Ok y -> collect_results f (l ++ [x]) = Ok (ys ++ [y]).
Proof.
  revert ys. induction l as [|a l IH]; intros ys H Hx.
  - injection H as <-. cbn. by rewrite Hx.
  - cbn in H |- *. destruct (f a) as [b|]; [|done]. cbn in H |- *.
    destruct (collect_results f l) as [bs|]; [|done]. cbn in H |- *. injection H as <-. by rewrite (IH bs).
Qed.

Lemma foldr_add_snoc l x : foldr N.add 0 (l ++ [x]) = foldr N.add 0 l + x.
Proof. induction l as [|y l IH]; cbn; [lia|]. rewrite IH. lia. Qed.

Lemma counted_snoc cookies n c b m :
  counted cookies n -> cookie_to_vec c = Ok b ->
  len b + (if bool_decide (cookies = []) then 0 else 1) <= m -> counted (cookies ++ [c]) (n + m).
Proof.
  intros (bs & Hbs & Hn) Hb Hm. exists (bs ++ [b]). split; [by apply collect_results_snoc|].
  rewrite fmap_app. change (len <$> [b]) with [len b]. rewrite foldr_add_snoc, len_app. change (len [c]) with 1.
  destruct (bool_decide (cookies = [])) eqn:Hc; [apply bool_decide_eq_true in Hc as ->; change (len (@nil CookieRecord)) with 0 in *; lia|].
  apply bool_decide_eq_false in Hc.
  assert (0 < len cookies) by (destruct cookies; [done|unfold len; cbn; lia]). lia.
Qed.

Lemma counted_weaken cookies n m : counted cookies n -> n <= m -> counted cookies m.
Proof. intros (bs & Hbs & Hn) Hm. exists bs. split; [done|lia]. Qed.

Lemma chunk_cookies_spec cookies current n chunks :
  chunk_cookies cookies current n = Ok chunks -> counted current n -> (current <> [] -> fits current) ->
  (current = [] -> n = 2 /\ cookies <> []) -> 
  concat chunks = current ++ cookies /\ (forall chunk, chunk ∈ chunks -> fits chunk).
Proof.
  revert current n chunks. induction cookies as [|c cookies IH]; intros current n chunks H Hcount Hfits Hempty.
  - injection H as <-. cbn. split; [done|]. intros chunk ->%list_elem_of_singleton.
    apply Hfits. intros Hnil. by destruct (Hempty Hnil).
  - cbn in H. res_inv H. apply N.ltb_ge in Hr0.
    assert (Hone : counted [c] (2 + (len r + (if bool_decide (current = []) then 0 else 1)))).
    { exists [r]. cbn [collect_results]. rewrite Hr. split; [done|].
      change (foldr N.add 0 (len <$> [r])) with (len r + 0). change (len [c]) with 1. destruct (bool_decide _); lia. }
    destruct (bool_decide (current = [])) eqn:Hcur.
    + apply bool_decide_eq_true in Hcur as ->. cbn in H. destruct (Hempty eq_refl) as [-> _].
      destruct (IH [c] _ _ H) as [Hcat Hall]; [exact Hone| |done|].
      * intros _. split; [done|]. eapply counted_weaken; [exact Hone|]. lia.
      * by split.
    + apply bool_decide_eq_false in Hcur. cbn in H. destruct (_ <? _) eqn:Hfull.
      * res_inv H. injection H as <-. destruct (IH _ _ _ Hr1) as [Hcat Hall]; [exact Hone| |done|].
        { intros _. split; [done|]. eapply counted_weaken; [exact Hone|]. lia. }
        cbn. rewrite Hcat. split; [done|]. intros chunk [->|Hin]%elem_of_cons; [by apply Hfits|by apply Hall].
      * apply N.ltb_ge in Hfull.
        assert (Hsnoc : counted (current ++ [c]) (n + (len r + 1))).
        { eapply counted_snoc; [exact Hcount|exact Hr|]. by rewrite bool_decide_false. }
        destruct (IH _ _ _ H) as [Hcat Hall]; [exact Hsnoc| |by intros Hnil%app_nil; destruct Hnil|].
        { intros _. split; [by intros Hnil%app_nil; destruct Hnil|]. eapply counted_weaken; [exact Hsnoc|]. lia. }
        split; [|done]. by rewrite Hcat, <- app_assoc.
Qed.

(** C40: The chunks of an injection are exactly the vault's cookies, in order and
    without an empty chunk (an empty vault is one empty chunk), and each chunk's
    JSON takes at most two bytes more than the target of 400 KiB. *)
Theorem chunk_cookie_records_exact cookies chunks :
  chunk_cookie_records cookies = Ok chunks ->
  concat chunks = cookies /\
  (if bool_decide (cookies = []) then chunks = [[]] else forall chunk, chunk ∈ chunks -> chunk <> []) /\
  (forall chunk b, chunk ∈ chunks -> chunk <> [] -> cookies_to_vec chunk = Ok b ->
     len b <= COOKIE_CHUNK_TARGET_BYTES + 2).
Proof.
  unfold chunk_cookie_records. case_bool_decide as Hc.
  - intros [= <-]. subst. split; [done|]. split; [done|]. by intros chunk b ->%list_elem_of_singleton.
  - intros H. destruct (chunk_cookies_spec _ _ _ _ H) as [Hcat Hall]; [|done|done|].
    { exists []. split; [done|]. discriminate. }
    split; [done|]. split; [intros chunk Hin; by apply Hall|].
    intros chunk b Hin _ Hb. destruct (Hall _ Hin) as [_ (bs & Hbs & Hn)].
    destruct (cookies_to_vec_length _ _ Hb) as (bs' & Hbs' & ->). congruence.
Qed.
End Sending.

(** ** Examples *)

(** Cookies as an array: brackets, and commas between the encoded cookies. *)
Fixpoint toy_items (l : list CookieRecord) : bytes :=
  match l with
  | [] => []
  | [c] => enc codec_cookie c
  | c :: l' => enc codec_cookie c ++ Byte.x2c :: toy_items l'
  end.

Definition toy_cookies : CookieSerde := {|
  cookie_to_vec c := Ok (enc codec_cookie c);
  cookies_to_vec l := Ok (Byte.x5b :: toy_items l ++ [Byte.x5d]);
|}.

Lemma len_toy_items l :
  len (toy_items l) = foldr N.add 0 (len <$> (enc codec_cookie <$> l)) + (len l - 1).
Proof.
  induction l as [|c [|d l] IH]; [done| |].
  - cbn [toy_items fmap list_fmap foldr]. change (len [c]) with 1. lia.
  - change (toy_items (c :: d :: l)) with (enc codec_cookie c ++ Byte.x2c :: toy_items (d :: l)).
    rewrite len_app. change (Byte.x2c :: toy_items (d :: l)) with ([Byte.x2c] ++ toy_items (d :: l)).
    rewrite len_app, IH. change (len [Byte.x2c]) with 1.
    change (foldr N.add 0 (len <$> (enc codec_cookie <$> c :: d :: l)))
      with (len (enc codec_cookie c) + foldr N.add 0 (len <$> (enc codec_cookie <$> d :: l))).
    assert (Hl : forall x (t : list CookieRecord), len (x :: t) = len t + 1) by (intros; unfold len; cbn [length]; lia).
    rewrite !Hl. lia.
Qed.

Lemma toy_cookies_laws : @CookieSerdeLaws toy_cookies.
Proof.
  intros cookies b [= <-]. exists (enc codec_cookie <$> cookies). split.
  - induction cookies as [|c l IH]; [done|]. cbn -[codec_cookie] in IH |- *. by rewrite IH.
  - change (Byte.x5b :: toy_items cookies ++ [Byte.x5d]) with ([Byte.x5b] ++ toy_items cookies ++ [Byte.x5d]).
    rewrite !len_app, len_toy_items. change (len [Byte.x5b]) with 1. change (len [Byte.x5d]) with 1. lia.
Qed.

Section ChunkExamples.
#[local] Existing Instances toy_cookies toy_cookies_laws.

Lemma chunk_cookie_records_exact_witness :
  concat [[example_cookie; example_cookie]] = [example_cookie; example_cookie] /\
  (if bool_decide ([example_cookie; example_cookie] = []) then [[example_cookie; example_cookie]] = [[]]
   else forall chunk, chunk ∈ [[example_cookie; example_cookie]] -> chunk <> []) /\
  (forall chunk b, chunk ∈ [[example_cookie; example_cookie]] -> chunk <> [] -> cookies_to_vec chunk = Ok b ->
     len b <= COOKIE_CHUNK_TARGET_BYTES + 2).
Proof. apply chunk_cookie_records_exact. vm_compute. reflexivity. Defined.

Definition example_chunk (index : N) : CookiesSnapshotChunk :=
  mkCookiesSnapshotChunk 77 None 5 index 2 2 [example_cookie] None None None.
Definition example_half : PendingOperation :=
  outcome_state (new_pending PKind.Eviction 5 None 1 None)
    (accept_chunk (example_chunk 0) (new_pending PKind.Eviction 5 None 1 None) quiet_world).

Lemma snapshot_assembly_witness :
  exists p', let all := [example_chunk 0; example_chunk 1] in
  csc_chunk_index <$> all = N.of_nat <$> seq 0 (length all) /\
  (forall c, c ∈ all -> csc_chunk_count c = len all /\ csc_operation_id c = 5 /\ csc_lease_id c = None) /\
  len all <= 65536 /\
  pd_snapshot_cookies p' = concat (csc_cookies <$> all) /\
  len (pd_snapshot_cookies p') = 2 /\ 2 <= MAX_SNAPSHOT_COOKIES /\
  encoded_size all <= MAX_SNAPSHOT_BYTES.
Proof.
  exists (outcome_state example_half (accept_chunk (example_chunk 1) example_half quiet_world)).
  apply (snapshot_assembly PKind.Eviction 5 None 1 None [example_chunk 0] example_half (example_chunk 1) quiet_world _ quiet_world).
  - apply (receiving_chunk _ [] (new_pending PKind.Eviction 5 None 1 None) (example_chunk 0) quiet_world _ quiet_world);
      [constructor|]. vm_compute. reflexivity.
  - vm_compute. reflexivity.
Defined.
End ChunkExamples.
