(* ===== verification/Delivery.v ===== *)
(** * What the handlers promise the browser

    The properties of the handlers (Handlers) about confirming, authorizing and
    completing, with runs of the handlers on concrete services. *)

From S2P Require Import Prelude World External Examples AtomicFile Config Messages VaultFormat Capability LeaseMeta VaultStore Transaction Paths OpModel OpJournal OpRecovery Coordinator CommitProtocol Protocol Group Handlers Confirm Chunks.

Section Delivery.
Context `{UT : UuidText, SH : Sha256, AE : Aead, AL : !AeadLaws, LS : LocalSecret, SP : Serde VaultPayload,
  JF : JsonF64, PL : !PayloadLaws, SL : Serde CapabilityLedger, SM : Serde LeaseMetadata, KB : KekBackend, KL : !KekLaws,
  JB : Serde BoundRequest, JJ : Serde OperationJournal, CS : CookieSerde}.
Context {L A : Type} `{AS : AuditSink L, ASL : !AuditSinkLaws L, PA : PlatformAuthorizer A}.


(** C11: Removal is authorized for exactly the bound snapshot. If the answer to a
    chunk contains [EvictRemoveAuthorized], then nothing was written, the operation
    named in it has that sequence and attempt, and the tag the journal binds it to is
    the keyed tag, for this profile, group, operation and base vault, of the cookies
    that the pending operation had collected before the chunk, followed by those of
    the chunk (unless one with its number had been taken before). [EvictRemovePrepare]
    starts this collection anew, without writing: it is accepted only for the
    confirmed operation, and leaves it with no cookies and waiting for chunk 0. (That
    it was sent at all is not required: [removal_authorized_uncommitted].) *)
Theorem removal_authorized_bound snapshot request hello_credential negotiated (s : HandlerState L A) w :
  let g := hd_group s in
  group_ready g (sink_directory (hd_audit s)) w ->
  wp (handle (Msg.CookiesSnapshotChunk snapshot) hello_credential negotiated)
     (fun messages s' w' => forall a, Msg.EvictRemoveAuthorized a ∈ messages ->
        w' = w /\ era_operation_id a = csc_operation_id snapshot /\
        exists before pending, rt_pending g = Some before /\ rt_pending (hd_group s') = Some pending /\
          pd_snapshot_cookies pending = checked_cookies (csc_chunk_index snapshot) (csc_cookies snapshot) before /\
          tag_matches (rt_coordinator g) pending (era_operation_id a) (era_operation_sequence a) (era_attempt_id a))
     (fun _ _ _ => True) (fun _ => True) s w /\
  wp (handle (Msg.EvictRemovePrepare request) hello_credential negotiated)
     (fun messages s' w' => messages = [] /\ w' = w /\
        exists before pending, rt_pending g = Some before /\ rt_pending (hd_group s') = Some pending /\
          pd_operation_id before = erp_operation_id request /\ pd_confirmed before = true /\
          pd_operation_id pending = erp_operation_id request /\
          pd_snapshot_cookies pending = [] /\ pd_snapshot_next_chunk pending = 0)
     (fun _ _ w' => w' = w) (fun _ => False) s w.
Proof using AL PL KL ASL.
  intros g Hready. split.
  - eapply wp_mono; [by apply wp_handle_chunk|cbn beta|done|done].
    intros messages s' w' [[_ H]|[(p & c & -> & _)|(a' & p & p' & -> & H1 & -> & H2 & H3 & H4 & H5)]] a Hin.
    + destruct H as [->|[->|(m & -> & _)]]; set_solver.
    + set_solver.
    + apply list_elem_of_singleton in Hin. injection Hin as ->. rewrite H1. split_and!; [done..|]. by exists p, p'.
  - unfold handle. destruct (negotiated =? PROTOCOL_VERSION); [|by apply wp_throw].
    apply wp_zoom. unfold handle_remove_prepare. apply wp_bind, wp_get, wp_bind, wp_ok_or_throw. fold g.
    destruct (rt_pending g) as [p|] eqn:Hp; [|done]. wp_guard_case Hg; [done|]. apply wp_bind, wp_modify, wp_ret.
    repeat match goal with H : _ || _ = false |- _ => apply orb_false_iff in H as [H ?] end.
    repeat match goal with H : negb _ = false |- _ => apply negb_false_iff in H end. bool_to_prop.
    split_and!; [done..|]. eexists p, _. split_and!; done.
Qed.

(** C12: The result of a removal settles the operation, on every branch: the result is
    taken only for the pending operation, with its lease and after its
    confirmation; the operation is then [Completed] - with the lease [Leased] for an
    enrollment whose browser kept exactly the snapshot's non-zero number of
    cookies, [Sealed] for an eviction that left none - and otherwise
    [ReconciliationRequired] with the lease [Degraded]. Journal and lease are on
    disk when it returns. The vault is never touched, even when it fails. *)
Theorem evict_result_settles result (s : HandlerState L A) w :
  let g := hd_group s in
  group_ready g (sink_directory (hd_audit s)) w -> ~ in_directory (sink_directory (hd_audit s)) (rt_lease_store g) ->
  wp (handle_evict_result result)
     (fun messages s' w' => messages = [] /\ rt_pending (hd_group s') = None /\
        exists p, rt_pending g = Some p /\ pd_operation_id p = eres_operation_id result /\
          pd_lease_id p = eres_lease_id result /\ pd_confirmed p = true /\
          settled_result g (eres_operation_id result) (result_outcome p result).1 (result_outcome p result).2 w s' w')
     (fun _ _ w' => file_at w' (vault_file g) = file_at w (vault_file g))
     (fun w' => file_at w' (vault_file g) = file_at w (vault_file g)) s w.
Proof using ASL.
  intros g Hready Hla. apply wp_handle_evict_result; [exact Hready|exact Hla| |done|done].
  intros p s' w' H1 H2 H3 H4 H5 H6. split_and!; [done..|]. by exists p.
Qed.

(** A version 7 enrollment result is reported as successful even when the
    operation fails: if the browser kept some cookies but not as many as the
    snapshot had, the handler answers [OperationCompleted] with [success], while the operation needs
    reconciliation and the lease is [Degraded]. *)
Theorem mismatch_reported_as_success result p n (s : HandlerState L A) w :
  let g := hd_group s in
  group_ready g (sink_directory (hd_audit s)) w -> ~ in_directory (sink_directory (hd_audit s)) (rt_lease_store g) ->
  rt_pending g = Some p -> pd_kind p = PKind.Enrollment -> pd_snapshot_cookie_count p = Some n ->
  er7_success result = true -> 0 < er7_remaining_cookie_count result -> er7_remaining_cookie_count result <> n ->
  wp (handle_evict_result_v7 result)
     (fun messages s' w' =>
        messages = [Msg.OperationCompleted (mkOperationCompleted (rt_id g) (er7_operation_id result)
          (er7_operation_sequence result) (er7_lease_id result) true)] /\
        settled_result g (er7_operation_id result) GState.Degraded Phase.ReconciliationRequired w s' w')
     (fun _ _ w' => file_at w' (vault_file g) = file_at w (vault_file g))
     (fun w' => file_at w' (vault_file g) = file_at w (vault_file g)) s w.
Proof using ASL.
  intros g Hready Hla Hp Hk Hn Hsucc Hpos Hne. unfold handle_evict_result_v7.
  apply wp_bind, wp_zoom, wp_get. apply wp_bind, wp_ok_or_throw. cbn [hd_group set_hd_group]. fold g. rewrite Hp.
  wp_guard_case Hb; [done|]. rewrite Hk, Hsucc. cbn [bool_decide andb].
  apply wp_bind, wp_handle_evict_result; [exact Hready|exact Hla| |done|done].
  intros p' s' w' Hp' _ _ _ _ Hset. apply wp_ret. cbn [hd_group set_hd_group] in Hp'. fold g in Hp'.
  assert (p' = p) as -> by congruence.
  rewrite (proj2 (N.ltb_lt _ _) Hpos). split; [done|].
  unfold result_outcome in Hset. cbn [eres_success eres_remaining_cookie_count eres_operation_id] in Hset.
  rewrite Hk, Hn in Hset. rewrite (bool_decide_false (Some n = _)) in Hset by congruence. exact Hset.
Qed.
End Delivery.

(** ** Concrete services *)

Definition codec_state : Codec GroupState.
Proof.
  refine (codec_iso
    (fun s => match s with GState.Uninitialized => 0 | GState.Sealed => 1 | GState.Unlocking => 2
              | GState.Leased => 3 | GState.Evicting => 4 | GState.Degraded => 5 end)
    (fun n => match n with 0 => GState.Uninitialized | 1 => GState.Sealed | 2 => GState.Unlocking
              | 3 => GState.Leased | 4 => GState.Evicting | _ => GState.Degraded end) _ codec_N).
  by intros [].
Defined.

Definition codec_lease : Codec LeaseMetadata.
Proof.
  refine (codec_iso
    (fun m => (lm_version m, (lm_account_group_id m, (lm_state m, (lm_lease_id m, (lm_granted_at_unix_ms m,
       (lm_expires_at_unix_ms m, (lm_pending_operation_id m, (lm_vault_sequence m, (lm_transition_sequence m,
       (lm_protocol_floor m, lm_operation_sequence_high_water m)))))))))))
    (fun '(a, (b, (c, (d, (e, (f, (g, (h, (i, (j, k)))))))))) => mkLease a b c d e f g h i j k) _
    (codec_pair codec_N (codec_pair codec_N (codec_pair codec_state (codec_pair (codec_option codec_N)
      (codec_pair (codec_option codec_N) (codec_pair (codec_option codec_N) (codec_pair (codec_option codec_N)
      (codec_pair codec_N (codec_pair codec_N (codec_pair codec_N codec_N))))))))))).
  by intros [].
Defined.

Definition toy_lease : Serde LeaseMetadata := codec_json codec_lease.

(** A log that records nothing, in a directory. *)
Definition silent_sink : AuditSink Path := {|
  sink_directory l := l;
  sink_open d := mret d;
  sink_recovered_on_open _ := false;
  sink_record _ _ _ _ _ := mret tt;
  sink_record_system _ _ _ := mret tt;
  sink_record_once_deferred _ _ _ _ _ _ := mret tt;
|}.

Lemma silent_sink_laws : @AuditSinkLaws Path silent_sink.
Proof. split; intros; first [done|split; [done|apply agree_off_refl]]. Qed.

Section DeliveryExamples.
#[local] Existing Instances toy_uuid_text toy_sha256 toy_aead toy_f64 toy_payload toy_payload_laws toy_bound_request toy_journal toy_kek toy_ledger
  toy_lease toy_cookies toy_authorizer silent_sink.

(** A fresh group, nothing on disk but its empty journal. *)
Definition fresh_runtime : GroupRuntime :=
  mkRuntime 77 Policy.Balanced commit_tx (lease_path example_paths 77) (initial_lease 77 false)
    (mkCoordinator (mkJournalStore (operation_journal_path example_paths 77) 77 (empty_journal 77))
       (replicate 32 Byte.x11) (Some 3)) None.

Definition fresh_state : HandlerState Path unit := mkHandler fresh_runtime (dp_audit_directory example_paths) None.

Definition faulty_at (k : nat) (n : nat) : Fault := if (n =? k)%nat then IoFault 0 else NoFault.

Definition fresh_world (fault : nat -> Fault) : World :=
  mkWorld {[ operation_journal_path example_paths 77 := File (enc codec_journal (empty_journal 77)) ]} 0
    (mkEnv fault (fun n => N.of_nat n + 5) (fun _ => 0)).

(** The host serves messages one after the other; a failing one is answered with
    its error. *)
Fixpoint serve (messages : list Message) : M (HandlerState Path unit) (list (FcpResult (list Message))) :=
  match messages with
  | [] => mret []
  | message :: rest =>
      answer ← try_ (handle message [] PROTOCOL_VERSION);
      answers ← serve rest;
      mret (answer :: answers)
  end.

Definition begin_message : Message :=
  Msg.OperationBegin (mkOperationBegin 77 None 9 WireKind.Enrollment "enroll").
Definition chunk_message (id : Uuid) (purpose : string) (index count : N) (cookies : list CookieRecord) : Message :=
  Msg.CookiesSnapshotChunk (mkCookiesSnapshotChunk 77 None id index count (len cookies) cookies (Some 1) (Some 9) (Some purpose)).

Lemma fresh_ready : group_ready fresh_runtime (dp_audit_directory example_paths) (fresh_world (fun _ => NoFault)).
Proof.
  split.
  - done.
  - intros p. by apply writer_files_disjoint.
  - intros [H|[H|H]]; [by apply writer_files_dir in H|done|]. destruct H as [H|(n & [= <-] & H)]; done.
  - intros [H|[H|H]]; [by apply writer_files_dir in H|done|]. destruct H as [H|(n & [= <-] & H)]; done.
  - split; [apply empty_journal_valid|]. exists (enc codec_journal (empty_journal 77)).
    split_and!; [by vm_compute|done|]. apply (codec_json_laws codec_journal). done.
Qed.

#[local] Existing Instances toy_aead_laws toy_kek_laws silent_sink_laws.

Definition whole_chunk (purpose : string) : CookiesSnapshotChunk :=
  mkCookiesSnapshotChunk 77 None 5 0 1 1 [example_cookie] (Some 1) (Some 9) (Some purpose).
Definition prepare_message : Message := Msg.EvictRemovePrepare (mkEvictRemovePrepare 77 5 1 None 9).
Definition result_message (remaining : N) : Message :=
  Msg.EvictResult (mkEvictResult 77 None 5 true remaining (Some 1) (Some 9)).

(** The group and its files after some messages, on a working machine. *)
Definition commit_message : Message := Msg.CookiesSnapshotChunk (whole_chunk "commit").
Definition served (messages : list Message) : HandlerState Path unit * World :=
  let run := serve messages fresh_state (fresh_world (fun _ => NoFault)) in (outcome_state fresh_state run, outcome_world run).
Definition begun : HandlerState Path unit * World := Eval vm_compute in served [begin_message].
Definition confirmed : HandlerState Path unit * World := Eval vm_compute in served [begin_message; commit_message].
Definition prepared : HandlerState Path unit * World :=
  Eval vm_compute in served [begin_message; commit_message; prepare_message].

(** It is enough to read the journal that is on disk. *)
Lemma served_ready g w :
  same_files_of fresh_runtime g -> validate_journal (journal_of (rt_coordinator g)) 77 = Ok tt ->
  file_at w (journal_file fresh_runtime) = Some (enc codec_journal (journal_of (rt_coordinator g))) ->
  group_ready g (dp_audit_directory example_paths) w.
Proof.
  intros (_ & Ht & Hl & Hj & Hjg) Hval Hfile. pose proof fresh_ready as [H1 H2 H3 H4 _].
  split; unfold vault_file, side_files; rewrite ?Ht, ?Hl, ?Hj, ?Hjg; [done..|].
  split; [by apply validate_journal_valid|]. exists (enc codec_journal (journal_of (rt_coordinator g))).
  split_and!; [done..|]. by apply (codec_json_laws codec_journal).
Qed.

Lemma begun_ready : group_ready (hd_group begun.1) (sink_directory (hd_audit begun.1)) begun.2.
Proof. apply served_ready; [split_and!|..]; vm_compute; reflexivity. Qed.
Lemma confirmed_ready : group_ready (hd_group confirmed.1) (sink_directory (hd_audit confirmed.1)) confirmed.2.
Proof. apply served_ready; [split_and!|..]; vm_compute; reflexivity. Qed.
Lemma prepared_ready : group_ready (hd_group prepared.1) (sink_directory (hd_audit prepared.1)) prepared.2.
Proof. apply served_ready; [split_and!|..]; vm_compute; reflexivity. Qed.


(** The removal of what was confirmed is authorized, after it was prepared. *)
Lemma removal_authorized_bound_witness :
  let s := prepared.1 in let w := prepared.2 in
  exists a s', handle (Msg.CookiesSnapshotChunk (whole_chunk "removal_precheck")) [] PROTOCOL_VERSION s w =
      Done [Msg.EvictRemoveAuthorized a] s' w /\ era_operation_id a = 5 /\
    exists before pending, rt_pending (hd_group s) = Some before /\ rt_pending (hd_group s') = Some pending /\
      pd_snapshot_cookies pending = checked_cookies 0 [example_cookie] before /\
      tag_matches (rt_coordinator (hd_group s)) pending (era_operation_id a) (era_operation_sequence a) (era_attempt_id a).
Proof.
  intros s w.
  destruct (wp_done _ _ _ _ _ _ [Msg.EvictRemoveAuthorized (mkEvictRemoveAuthorized 77 5 1 None 9)]
    (proj1 (removal_authorized_bound (whole_chunk "removal_precheck") (mkEvictRemovePrepare 77 5 1 None 9) []
       PROTOCOL_VERSION s w prepared_ready))) as (s' & w' & Hrun & H).
  - vm_compute. reflexivity.
  - destruct (H _ (list_elem_of_here _ _)) as (-> & H1 & H2). eexists _, s'. split; [exact Hrun|]. split; [exact H1|exact H2].
Defined.

Lemma evict_result_settles_witness :
  let s := confirmed.1 in let w := confirmed.2 in
  exists s' w', handle_evict_result (mkEvictResult 77 None 5 true 1 None None) s w = Done [] s' w' /\
    rt_pending (hd_group s') = None /\
    settled_result (hd_group s) 5 GState.Leased Phase.Completed w s' w'.
Proof.
  intros s w.
  assert (Hlease : ~ in_directory (sink_directory (hd_audit s)) (rt_lease_store (hd_group s))) by (intros Hl; by vm_compute in Hl).
  assert (Hout : (fun p => result_outcome p (mkEvictResult 77 None 5 true 1 None None)) <$> rt_pending (hd_group s) =
    Some (GState.Leased, Phase.Completed)) by (vm_compute; reflexivity).
  destruct (wp_done _ _ _ _ _ _ [] (evict_result_settles (mkEvictResult 77 None 5 true 1 None None) s w confirmed_ready Hlease))
    as (s' & w' & Hrun & H).
  - vm_compute. reflexivity.
  - destruct H as (_ & Hp & p & Hpend & _ & _ & _ & Hs). exists s', w'. split; [exact Hrun|]. split; [exact Hp|].
    rewrite Hpend in Hout. injection Hout as Hout. rewrite Hout in Hs. exact Hs.
Defined.

(** Without faults: begin, commit, prepare the removal, check, authorize. *)
Definition removal_messages : list Message :=
  [begin_message; chunk_message 5 "commit" 0 1 [example_cookie]; prepare_message;
   chunk_message 5 "removal_precheck" 0 1 [example_cookie]].

Definition answered (o : Outcome (HandlerState Path unit) (list (FcpResult (list Message)))) : option (FcpResult (list Message)) :=
  list.last (outcome_value [] o).
Definition operation_phase (o : Outcome (HandlerState Path unit) (list (FcpResult (list Message)))) : option OperationPhase :=
  phase <$> find_operation 5 (journal_of (rt_coordinator (hd_group (outcome_state fresh_state o)))).
Definition removal_authorized : Message := Msg.EvictRemoveAuthorized (mkEvictRemoveAuthorized 77 5 1 None 9).

Example removal_runs :
  let run := serve removal_messages fresh_state (fresh_world (fun _ => NoFault)) in
  answered run = Some (Ok [removal_authorized]) /\ operation_phase run = Some Phase.BrowserRemovalPending.
Proof. by vm_compute. Qed.

(** The pending operation of a confirmed enrollment, on the fresh journal. *)
Definition example_confirmed : PendingOperation :=
  confirmed_pending (new_pending PKind.Enrollment 5 None 1 (Some 9)) 2.
Definition confirmed_state : HandlerState Path unit :=
  mkHandler (set_rt_pending (Some example_confirmed) fresh_runtime) (dp_audit_directory example_paths) None.

Lemma example_confirmed_ready :
  group_ready (hd_group confirmed_state) (dp_audit_directory example_paths) (fresh_world (fun _ => NoFault)).
Proof.
  eapply (group_ready_frame fresh_runtime); [done|done|apply (agree_off_refl (fun _ => False))|by intros []|apply fresh_ready].
Qed.

Lemma mismatch_reported_as_success_witness :
  wp (handle_evict_result_v7 (mkEvictResultV7 77 5 1 None 9 true 1))
     (fun messages s' w' =>
        messages = [Msg.OperationCompleted (mkOperationCompleted 77 5 1 None true)] /\
        settled_result (hd_group confirmed_state) 5 GState.Degraded Phase.ReconciliationRequired
          (fresh_world (fun _ => NoFault)) s' w')
     (fun _ _ w' => file_at w' (vault_file (hd_group confirmed_state)) =
        file_at (fresh_world (fun _ => NoFault)) (vault_file (hd_group confirmed_state)))
     (fun w' => file_at w' (vault_file (hd_group confirmed_state)) =
        file_at (fresh_world (fun _ => NoFault)) (vault_file (hd_group confirmed_state)))
     confirmed_state (fresh_world (fun _ => NoFault)).
Proof.
  apply (mismatch_reported_as_success (mkEvictResultV7 77 5 1 None 9 true 1) example_confirmed 2 confirmed_state);
    [apply example_confirmed_ready|intros H; discriminate H|reflexivity|reflexivity|reflexivity|reflexivity|reflexivity|].
  discriminate.
Defined.

(** The whole version 7 enrollment on a working machine. *)
Example enrollment_completes :
  operation_phase (serve [begin_message; chunk_message 5 "commit" 0 1 [example_cookie]; result_message 1]
    fresh_state (fresh_world (fun _ => NoFault))) = Some Phase.Completed.
Proof. by vm_compute. Qed.

(** The check before a removal does not ask whether the snapshot was committed.
    When the vault write fails (I/O step 37 of this run) the operation is
    [NotCommitted] and there is no vault file, yet a [removal_precheck] chunk numbered
    after the chunks of the failed commit is authorized: the browser is told to delete
    cookies that are stored nowhere. *)
Theorem removal_authorized_uncommitted :
  let run := serve [begin_message; chunk_message 5 "commit" 0 1 [example_cookie];
                    chunk_message 5 "removal_precheck" 1 1 [example_cookie]]
               fresh_state (fresh_world (faulty_at 37)) in
  answered run = Some (Ok [removal_authorized]) /\
  file_at (outcome_world run) (vault_file fresh_runtime) = None /\
  operation_phase run = Some Phase.NotCommitted.
Proof. vm_compute. done. Qed.

(** A snapshot chunk whose commit failed is acknowledged when it is sent again
    and never committed: its digest was recorded before it was processed. After
    the failing vault write the same chunk is answered with an empty success,
    the status still asks for the snapshot, and there is no vault file. *)
Theorem failed_chunk_acknowledged :
  let run := serve [begin_message; chunk_message 5 "commit" 0 1 [example_cookie];
                    chunk_message 5 "commit" 0 1 [example_cookie]] fresh_state (fresh_world (faulty_at 37)) in
  answered run = Some (Ok []) /\
  file_at (outcome_world run) (vault_file fresh_runtime) = None /\
  operation_phase run = Some Phase.NotCommitted /\
  (required_action <$> operation_phase run) = Some Required.SendSnapshot.
Proof. vm_compute. done. Qed.
End DeliveryExamples.
