(* ===== verification/AuditSinkImpl.v ===== *)
(** * The audit log implements the interface of the handlers

    [AuditLogger] (AuditLog) as an [AuditSink] (Group), and the laws of that
    interface: a record stays within the directory of the log, whatever happens,
    and a deferred record never fails. [stays inv d m] follows the text of the
    program, as [kept] does. *)

From S2P Require Import Prelude World External Frames Examples AtomicFile Nodes Config Messages OpRecovery AuditLog AuditChain Group.

(** Between the two worlds only files of [d] changed, and [d] itself may have
    been created. *)
Definition within (d : Path) (w w' : World) : Prop :=
  agree_off (in_directory d) w w' /\
  forall p, removelast p <> d -> ~ p `prefix_of` d -> w_fs w' !! p = w_fs w !! p.

Definition stays {S A} (inv : S -> Prop) (d : Path) (m : M S A) : Prop := forall s w,
  inv s -> wp m (fun _ s' w' => inv s' /\ within d w w') (fun _ s' w' => inv s' /\ within d w w')
             (within d w) s w.

(** For a computation without a local object. *)
Abbreviation io_stays := (stays (fun _ : unit => True)).

Create HintDb stays.

Lemma within_refl d w : within d w w.
Proof. by split. Qed.

Lemma within_trans d w1 w2 w3 : within d w1 w2 -> within d w2 w3 -> within d w1 w3.
Proof.
  intros [Ha Hn] [Ha' Hn']. split; [by eapply agree_off_trans|].
  intros p H1 H2. by rewrite Hn', Hn.
Qed.

Lemma untouched_within d w w' : untouched w w' -> within d w w'.
Proof. intros H. split; [by apply untouched_frame|]. intros p _ _. by rewrite (proj1 H). Qed.

Lemma untouched_node w w' p : untouched w w' -> w_fs w' !! p = w_fs w !! p.
Proof. by intros [-> _]. Qed.

Section Stays.
Context {S : Type} (inv : S -> Prop) (d : Path).

Lemma stays_ret {A} (a : A) : stays inv d (mret a).
Proof. intros s w Hs. split; [done|apply within_refl]. Qed.

Lemma stays_throw {A} e : stays inv d (throw e : M S A).
Proof. intros s w Hs. split; [done|apply within_refl]. Qed.

Lemma stays_bind {A B} (m : M S A) (f : A -> M S B) :
  stays inv d m -> (forall a, stays inv d (f a)) -> stays inv d (m ≫= f).
Proof.
  intros Hm Hf s w Hs. apply wp_bind. eapply wp_mono; [by apply Hm|cbn beta..]; [|done|done].
  intros a s1 w1 [Hs1 H1]. eapply wp_mono; [by apply Hf|cbn beta..].
  - intros b s2 w2 [Hs2 H2]. split; [done|by eapply within_trans].
  - intros e s2 w2 [Hs2 H2]. split; [done|by eapply within_trans].
  - intros w2 H2. by eapply within_trans.
Qed.

(** What is read from the local object satisfies the invariant. *)
Lemma stays_get_bind {B} (f : S -> M S B) : (forall s, inv s -> stays inv d (f s)) -> stays inv d (get ≫= f).
Proof. intros Hf s w Hs. apply wp_bind, wp_get. by apply Hf. Qed.

Lemma stays_put s0 : inv s0 -> stays inv d (put s0).
Proof. intros H s w Hs. split; [done|apply within_refl]. Qed.

Lemma stays_lift {A} (r : FcpResult A) : stays inv d (lift r).
Proof. destruct r; [apply stays_ret|apply stays_throw]. Qed.

Lemma stays_guard b e : stays inv d (guard_not b e).
Proof. destruct b; [apply stays_throw|apply stays_ret]. Qed.

Lemma stays_ok_or {A} (o : option A) e : stays inv d (ok_or_throw o e).
Proof. apply stays_lift. Qed.

Lemma stays_try {A} (m : M S A) : stays inv d m -> stays inv d (try_ m).
Proof. intros Hm s w Hs. by apply wp_try, Hm. Qed.

Lemma stays_io {A} (m : IO A) : io_stays d m -> stays inv d (io m).
Proof.
  intros Hm s w Hs. apply wp_io. eapply wp_mono; [by apply Hm|cbn beta..]; [| |done].
  - by intros a [] w' [_ H].
  - by intros e [] w' [_ H].
Qed.
End Stays.

(** From the file frame and the node frame. *)
Lemma stays_frames {A} d (m : IO A) :
  io_frame (in_directory d) m -> (forall p, removelast p <> d -> ~ p `prefix_of` d -> kept p m) -> io_stays d m.
Proof.
  intros Hf Hk [] w _. specialize (Hf w). assert (Hk' : forall p, removelast p <> d -> ~ p `prefix_of` d ->
    wp m (fun _ _ w' => w_fs w' !! p = w_fs w !! p) (fun _ _ w' => w_fs w' !! p = w_fs w !! p)
      (fun w' => w_fs w' !! p = w_fs w !! p) tt w) by (intros p H1 H2; by apply (Hk p H1 H2)).
  clear Hk. unfold wp, within in *. by destruct (m tt w).
Qed.

Lemma stays_untouched {A} d (m : IO A) : io_untouched m -> io_stays d m.
Proof.
  intros Hm [] w _. eapply wp_mono; [apply Hm|..]; cbn beta; intros; [split; [done|]..|]; by apply untouched_within.
Qed.

Section Primitives.
Context (d : Path).

Lemma stays_exists p : io_stays d (fs_exists p).
Proof. apply stays_untouched. intros w. by apply wp_fs_exists. Qed.
Lemma stays_read p : io_stays d (fs_read p).
Proof. apply stays_untouched. intros w. by apply wp_fs_read. Qed.
Lemma stays_sync p : io_stays d (fs_sync p).
Proof. apply stays_untouched. intros w. by apply wp_fs_sync. Qed.
Lemma stays_dir_entry p : io_stays d (fs_dir_entry p).
Proof. apply stays_untouched. intros w. by apply wp_fs_dir_entry. Qed.
Lemma stays_read_dir p : io_stays d (fs_read_dir p).
Proof. apply stays_untouched. intros w. by apply wp_fs_read_dir. Qed.
Lemma stays_clock : io_stays d unix_ms.
Proof. apply stays_untouched. intros w. unfold wp, unix_ms. by destruct (env_fault _ _). Qed.

(** A file of the directory. *)
Lemma in_directory_other p q : removelast p = d -> removelast q <> d -> q <> p.
Proof. by intros H1 H2 ->. Qed.

Lemma stays_open_append p : removelast p = d -> io_stays d (fs_open_append p).
Proof.
  intros Hp. apply stays_frames.
  - intros w. apply wp_fs_open_append; [|done..].
    intros w' He _ Hf. split; [done|]. intros q Hq. apply Hf. intros ->. by apply Hq.
  - intros q H1 _. by apply kept_open_append, (in_directory_other p).
Qed.

Lemma stays_write_all p b : removelast p = d -> io_stays d (fs_write_all p b).
Proof.
  intros Hp. apply stays_frames; [|intros q H1 _; by apply kept_write_all, (in_directory_other p)].
  assert (Hw : forall w w', agree_off (eq p) w w' -> agree_off (in_directory d) w w').
  { intros w w' Ha. eapply agree_off_weaken; [exact Ha|]. by intros q <-. }
  intros w. unfold wp, fs_write_all. destruct (env_fault _ _); cbn; apply Hw; split; try done;
    intros q Hq; unfold file_at; cbn; by rewrite lookup_insert_ne.
Qed.

(** The verified writer, at a file of the directory. *)
Lemma stays_write_verified p b (verify : bytes -> IO unit) :
  removelast p = d -> p <> [] -> (forall c, io_untouched (verify c)) -> io_stays d (write_verified p b verify).
Proof.
  intros Hp Hne Hv.
  assert (Hin : forall q, writer_files p q -> removelast q = d).
  { intros q Hq. destruct p as [|c p _] using rev_ind; [done|]. rewrite removelast_last in Hp. subst.
    by eapply writer_files_dir. }
  apply stays_frames.
  - intros w. assert (Ht : forall w', agree_off (touched p (fun _ => False)) w w' -> agree_off (in_directory d) w w').
    { intros w' Ha. eapply agree_off_weaken; [exact Ha|]. intros q [Hq|[]]. by apply Hin. }
    apply (wp_write_verified _ _ _ (fun _ => False) True); [done| |intros; by apply Ht..].
    intros w0. eapply wp_mono; [apply Hv|..]; cbn beta; intros;
      [split; [by apply untouched_frame|done]|by apply untouched_frame..].
  - intros q H1 H2. apply kept_write_verified.
    + intros c [] w. eapply wp_mono; [apply Hv|..]; cbn beta; intros; by apply untouched_node.
    + intros Hq. by apply H1, Hin.
    + intros parent Hparent. assert (parent = d) as -> by (unfold path_parent in Hparent; destruct p; [done|]; unfold path_parent in *; injection Hparent as <-; exact Hp). done.
Qed.
End Primitives.

#[export] Hint Resolve stays_ret stays_throw stays_lift stays_guard stays_ok_or stays_try stays_io stays_exists stays_read
  stays_sync stays_dir_entry stays_read_dir stays_clock stays_open_append stays_write_all stays_put : stays.

(** Follows the text of a program. *)
Ltac stays_step :=
  match goal with
  | |- stays _ _ (get ≫= _) => apply stays_get_bind; intros ? ?
  | |- stays _ _ (_ ≫= _) => apply stays_bind; [|intros ?]
  | |- stays _ _ (let '(_, _) := ?x in _) => destruct x
  | |- stays _ _ (match ?x with _ => _ end) => destruct x
  | |- stays _ _ (io _) => apply stays_io
  | |- stays _ _ (try_ _) => apply stays_try
  | |- stays _ _ _ => solve [eauto with stays]
  end.
Ltac stays_tac := repeat (stays_step; cbn beta zeta).

(** ** The operations of the logger *)

(** A logger of the directory [d]. *)
Definition logs_to (d : Path) (l : AuditLogger) : Prop := al_directory l = d.

Section Logger.
Context `{UT : UuidText, SH : Sha256, LS : LocalSecret, LL : !LocalSecretLaws,
  JU : Serde UnsignedAuditEntry, JE : Serde AuditEntry, JA : Serde AuditAnchor, JC : Serde AuditCheckpoint,
  JO : Serde (list AuditOutboxEntry)} (d : Path).

Lemma removelast_join name : removelast (path_join d name) = d.
Proof. apply removelast_last. Qed.

Hint Resolve removelast_join : stays.
Hint Extern 1 (logs_to _ _) => assumption : stays.

Lemma path_join_nonempty name : path_join d name <> [].
Proof. by destruct d. Qed.

Lemma untouched_check {A} (m : IO A) (f : A -> IO unit) :
  io_untouched m -> (forall a, io_untouched (f a)) -> io_untouched (m ≫= f).
Proof.
  intros Hm Hf w. apply wp_bind. eapply wp_mono; [apply Hm|cbn beta..]; [|done|done].
  intros a [] w1 H1. eapply wp_mono; [apply Hf|..]; cbn beta; intros; by eapply untouched_trans.
Qed.

Lemma untouched_guard b e : io_untouched (guard_not b e).
Proof. intros w. by destruct b. Qed.

Lemma stays_persist_protected name b : io_stays d (persist_protected_file (path_join d name) b).
Proof using LL.
  unfold persist_protected_file. apply stays_bind; [apply stays_untouched, protect_untouched|]. intros protected.
  apply stays_write_verified; [apply removelast_join|apply path_join_nonempty|]. intros c.
  apply untouched_check; [apply unprotect_untouched|]. intros r. apply untouched_guard.
Qed.
Hint Resolve stays_persist_protected : stays.

Lemma stays_dir_entries ps : io_stays d (dir_entries ps).
Proof. induction ps; cbn; stays_tac. Qed.
Hint Resolve stays_dir_entries : stays.

Lemma stays_chain_files q : io_stays d (chain_files q).
Proof. unfold chain_files. stays_tac. Qed.
Hint Resolve stays_chain_files : stays.

Lemma stays_find_event id ps : io_stays d (find_event_in_files id ps).
Proof. induction ps; cbn; stays_tac. Qed.
Hint Resolve stays_find_event : stays.

Lemma stays_record_inner g ev out op det id : stays (logs_to d) d (record_inner g ev out op det id).
Proof using LL.
  unfold record_inner. apply stays_get_bind. intros l Hl. red in Hl. rewrite Hl. unfold day_path, persist_anchor, anchor_path.
  stays_tac.
Qed.
Hint Resolve stays_record_inner : stays.

Lemma stays_record_once id g ev out op det : stays (logs_to d) d (record_once id g ev out op det).
Proof using LL. unfold record_once. stays_tac. Qed.

Lemma stays_enqueue_outbox e : io_stays d (enqueue_outbox d e).
Proof.
  unfold enqueue_outbox. stays_tac. apply stays_write_verified; [apply removelast_join|apply path_join_nonempty|].
  intros c. apply untouched_check; [|intros; apply untouched_guard]. intros w. by destruct (from_slice c).
Qed.

(** The deferred record: both attempts and the outbox may fail, the call does not. *)
Lemma deferred_never_fails id g ev out op det l w :
  logs_to d l ->
  wp (record_once_deferred id g ev out op det) (fun _ l' w' => logs_to d l' /\ within d w w')
    (fun _ _ _ => False) (within d w) l w.
Proof using LL.
  intros Hl. unfold record_once_deferred. set (attempt := record_once _ _ _ _ _ _).
  assert (Htry : forall l0 w0, logs_to d l0 -> within d w w0 ->
    wp (try_ attempt) (fun _ l' w' => logs_to d l' /\ within d w w') (fun _ _ _ => False) (within d w) l0 w0).
  { intros l0 w0 Hl0 H0. apply wp_try. eapply wp_mono; [by apply stays_record_once|cbn beta..].
    - intros _ l1 w1 [Hl1 H1]. split; [done|by eapply within_trans].
    - intros _ l1 w1 [Hl1 H1]. split; [done|by eapply within_trans].
    - intros w1 H1. by eapply within_trans. }
  apply wp_bind. eapply wp_mono; [apply Htry; [done|apply within_refl]|cbn beta..]; [|done|done].
  intros r1 l1 w1 [Hl1 H1]. destruct (is_ok r1); [by split|].
  apply wp_bind. eapply wp_mono; [by apply Htry|cbn beta..]; [|done|done].
  intros r2 l2 w2 [Hl2 H2]. destruct (is_ok r2); [by split|].
  apply wp_bind, wp_get, wp_bind, wp_try, wp_io. rewrite Hl2.
  eapply wp_mono; [by apply stays_enqueue_outbox|cbn beta..]; intros; try split;
    try match goal with H : _ /\ _ |- _ => destruct H end; try done; by eapply within_trans.
Qed.
End Logger.

(** ** The instance *)

Section Instance.
Context `{UT : UuidText, SH : Sha256, LS : LocalSecret,
  JU : Serde UnsignedAuditEntry, JE : Serde AuditEntry, JA : Serde AuditAnchor, JC : Serde AuditCheckpoint,
  JO : Serde (list AuditOutboxEntry)}.

Definition audit_logger_sink : AuditSink AuditLogger := {|
  sink_directory := al_directory;
  sink_open := open_audit;
  sink_recovered_on_open := al_recovered_on_open;
  sink_record := record;
  sink_record_system := record_system;
  sink_record_once_deferred := record_once_deferred;
|}.

Lemma audit_logger_sink_laws `{LL : !LocalSecretLaws} : @AuditSinkLaws AuditLogger audit_logger_sink.
Proof.
  split; cbn -[record record_system record_once_deferred].
  - intros. eapply wp_mono; [by apply (stays_record_inner (al_directory l))|..]; cbn beta; unfold within; tauto.
  - intros. eapply wp_mono; [by apply (stays_record_inner (al_directory l))|..]; cbn beta; unfold within; tauto.
  - intros p g ev out op det l w H1 H2.
    eapply wp_mono; [by apply (stays_record_inner (al_directory l))|..]; cbn beta.
    + intros _ l' w' (_ & _ & Hn). by apply Hn.
    + intros _ l' w' (_ & _ & Hn). by apply Hn.
    + intros w' (_ & Hn). by apply Hn.
  - intros. eapply wp_mono; [by apply (deferred_never_fails (al_directory l))|..]; cbn beta; unfold within; tauto.
Qed.

(** C30: The audit log keeps the promise the handlers rely on: whatever fails and
    wherever the process dies, a record changes no regular file outside the
    directory of the log and no node that is neither in the directory nor on the
    way to it, the directory stays the same, and a deferred record never fails. *)
Theorem audit_logger_implements_sink `{LL : !LocalSecretLaws} : @AuditSinkLaws AuditLogger audit_logger_sink.
Proof. exact audit_logger_sink_laws. Qed.
End Instance.

Lemma audit_logger_implements_sink_witness :
  @AuditSinkLaws AuditLogger
    (@audit_logger_sink toy_uuid_text toy_sha256 toy_local_secret toy_unsigned_entry toy_audit_entry toy_anchor
       toy_checkpoint toy_outbox).
Proof. exact (@audit_logger_implements_sink _ _ _ _ _ _ _ _ toy_local_secret_laws). Defined.
