(* ===== verification/Monitor.v ===== *)
(** * monitor/mod.rs: monitor events

    The bounded queue of host events, the events the extension reports, and the
    poll that hands the queue over. In the Windows build the process observer
    (ProcessObserver) adds to the queue too; here is the part of every build. *)

From S2P Require Import Prelude World External Messages Group Delivery.

Definition MAX_PENDING_EVENTS : nat := 128.
Definition MAX_POLL_EVENTS : N := 64.
Definition MAX_ACCEPTED_EVENT_IDS : nat := 512.

(** [MonitorEngine]: the queue, the set of the accepted identifiers and their
    order of arrival. *)
Record MonitorEngine := mkMonitor {
  mon_pending : list MonitorEvent;
  mon_accepted_event_ids : gset Uuid;
  mon_accepted_event_order : list Uuid;
}.

Definition set_mon_pending v (m : MonitorEngine) := mkMonitor v (mon_accepted_event_ids m) (mon_accepted_event_order m).

(** [MonitorEngine::new] and [start]. *)
Definition new_monitor : MonitorEngine := mkMonitor [] ∅ [].

(** [supports_monitoring]: Windows only. *)
Definition supports_monitoring : bool := false.

(** [enqueue_bounded]. *)
Definition overflow_event (event_id : Uuid) (now : N) : MonitorEvent :=
  mkMonitorEvent event_id now Source.NativeHost Signal.MonitorQueueOverflow
    (severity Signal.MonitorQueueOverflow) None 1.

Definition pop_front : M MonitorEngine unit := modify (fun m => set_mon_pending (tail (mon_pending m)) m).
Definition push_back (event : MonitorEvent) : M MonitorEngine unit :=
  modify (fun m => set_mon_pending (mon_pending m ++ [event]) m).

Definition enqueue_bounded (event : MonitorEvent) : M MonitorEngine unit :=
  self ← get;
  _ ← (if bool_decide (length (mon_pending self) = MAX_PENDING_EVENTS) then
         _ ← pop_front;
         if bool_decide (me_signal event <> Signal.MonitorQueueOverflow) then
           event_id ← io new_v4;
           now ← io unix_ms;
           _ ← push_back (overflow_event event_id now);
           pop_front
         else mret tt
       else mret tt);
  push_back event.

(** [enqueue_host_event]. *)
Definition enqueue_host_event (event : MonitorEvent) : M MonitorEngine unit :=
  _ ← lift (validate_event event);
  _ ← guard_not (bool_decide (me_source event <> Source.NativeHost))
        (Protocol "native monitor event has invalid source");
  enqueue_bounded event.

(** [remember_event]. *)
Definition remember_event (event_id : Uuid) (m : MonitorEngine) : MonitorEngine :=
  let m :=
    if bool_decide (size (mon_accepted_event_ids m) = MAX_ACCEPTED_EVENT_IDS) then
      match mon_accepted_event_order m with
      | oldest :: order => mkMonitor (mon_pending m) (mon_accepted_event_ids m ∖ {[oldest]}) order
      | [] => m
      end
    else m in
  mkMonitor (mon_pending m) ({[event_id]} ∪ mon_accepted_event_ids m) (mon_accepted_event_order m ++ [event_id]).

Section Engine.
Context {L : Type} `{AS : AuditSink L}.

(** The engine and the audit log it is handed. *)
Abbreviation Mon := (M (MonitorEngine * L)).
Definition on_engine {T} (m : M MonitorEngine T) : Mon T := zoom fst (fun e s => (e, snd s)) m.
Definition on_log {T} (m : M L T) : Mon T := zoom snd (fun l s => (fst s, l)) m.

(** [audit_event]. *)
Definition severity_outcome (s : MonitorSeverity) : string :=
  match s with Severity.Info => "info" | Severity.Medium => "warning" | Severity.High => "high" end.

Definition audit_event (event : MonitorEvent) : M L unit :=
  let outcome := severity_outcome (me_severity event) in
  match me_account_group_id event with
  | Some group_id => sink_record group_id "monitor" outcome (Some (me_event_id event)) (Some (audit_code (me_signal event)))
  | None => sink_record_system "monitor" outcome (Some (audit_code (me_signal event)))
  end.

(** [accept_extension_event]. *)
Definition accept_extension_event (event : MonitorEvent) : Mon (list Message) :=
  _ ← lift (validate_event event);
  _ ← guard_not (bool_decide (me_source event <> Source.Extension))
        (Protocol "extension monitor event has invalid source");
  self ← on_engine get;
  if bool_decide (me_event_id event ∈ mon_accepted_event_ids self) then mret [Msg.MonitorAlert (mkMonitorAlert event)]
  else
    _ ← on_log (audit_event event);
    _ ← on_engine (modify (remember_event (me_event_id event)));
    mret [Msg.MonitorAlert (mkMonitorAlert event)].

(** [poll]: the loop, then the whole. *)
Fixpoint poll_events (n : nat) : Mon (list Message) :=
  match n with
  | O => mret []
  | S n' =>
      self ← on_engine get;
      match mon_pending self with
      | [] => mret []
      | event :: rest =>
          _ ← on_engine (put (set_mon_pending rest self));
          _ ← on_log (audit_event event);
          messages ← poll_events n';
          mret (Msg.MonitorAlert (mkMonitorAlert event) :: messages)
      end
  end.

Definition poll (request : MonitorPoll) : Mon (list Message) :=
  _ ← guard_not ((mp_max_events request =? 0) || (MAX_POLL_EVENTS <? mp_max_events request))
        (Protocol "monitor poll max_events is out of range");
  poll_events (N.to_nat (mp_max_events request)).
End Engine.

(** ** Properties *)

(** The engine is bounded: at most 128 events wait, and the accepted identifiers
    are the at most 512 of the order, each once. *)
Record monitor_ok (m : MonitorEngine) : Prop := {
  mo_pending : (length (mon_pending m) <= MAX_PENDING_EVENTS)%nat;
  mo_ids : mon_accepted_event_ids m = list_to_set (mon_accepted_event_order m);
  mo_nodup : NoDup (mon_accepted_event_order m);
  mo_order : (length (mon_accepted_event_order m) <= MAX_ACCEPTED_EVENT_IDS)%nat;
}.

Lemma new_monitor_ok : monitor_ok new_monitor.
Proof. split; cbn; [unfold MAX_PENDING_EVENTS; lia|done|constructor|unfold MAX_ACCEPTED_EVENT_IDS; lia]. Qed.

Lemma monitor_ok_pending m q : monitor_ok m -> (length q <= MAX_PENDING_EVENTS)%nat -> monitor_ok (set_mon_pending q m).
Proof. intros [_ H2 H3 H4] Hq. by split. Qed.

Lemma remember_event_ok id m : id ∉ mon_accepted_event_ids m -> monitor_ok m -> monitor_ok (remember_event id m).
Proof.
  intros Hid [H1 H2 H3 H4]. unfold remember_event. rewrite H2 in *.
  rewrite (size_list_to_set _ H3). rewrite elem_of_list_to_set in Hid.
  case_bool_decide as Hs.
  - destruct (mon_accepted_event_order m) as [|oldest order]; [done|].
    apply NoDup_cons in H3 as [Ho H3]. apply not_elem_of_cons in Hid as [Hne Hid].
    split; cbn [mon_pending mon_accepted_event_ids mon_accepted_event_order]; [done| | |].
    + rewrite list_to_set_app_L, list_to_set_cons. cbn. rewrite (union_comm_L {[oldest]}), difference_union_distr_l_L, difference_diag_L.
      assert (list_to_set order ∖ {[oldest]} = (list_to_set order : gset Uuid)) as ->; [|set_solver].
      apply difference_disjoint_L. set_solver.
    + apply NoDup_app. split; [done|]. split; [|apply NoDup_singleton]. intros x Hx ->%list_elem_of_singleton. done.
    + rewrite length_app. cbn in *. lia.
  - split; cbn [mon_pending mon_accepted_event_ids mon_accepted_event_order]; [done| | |].
    + rewrite list_to_set_app_L. cbn. set_solver.
    + apply NoDup_app. split; [done|]. split; [|apply NoDup_singleton]. intros x Hx ->%list_elem_of_singleton. done.
    + rewrite length_app. cbn in *. unfold MAX_ACCEPTED_EVENT_IDS in *. lia.
Qed.

(** The queue after an event: the overflow marker and the event take the places
    of the two oldest events. *)
Definition enqueued (event : MonitorEvent) (queue queue' : list MonitorEvent) : Prop :=
  if bool_decide (length queue = MAX_PENDING_EVENTS) then
    if bool_decide (me_signal event = Signal.MonitorQueueOverflow) then queue' = tail queue ++ [event]
    else exists id now, queue' = tail (tail queue) ++ [overflow_event id now; event]
  else queue' = queue ++ [event].

Lemma wp_unix_ms (Q : N -> unit -> World -> Prop) (E : FcpError -> unit -> World -> Prop) (C : World -> Prop) w :
  (forall now, Q now tt (tick w)) -> (forall e, E e tt (tick w)) -> C w -> wp unix_ms Q E C tt w.
Proof. intros HQ HE HC. unfold wp, unix_ms. destruct (env_fault _ _); cbn; [apply HQ|apply HE|done]. Qed.

Lemma wp_enqueue_bounded event (m : MonitorEngine) (Q : unit -> MonitorEngine -> World -> Prop)
    (E : FcpError -> MonitorEngine -> World -> Prop) (C : World -> Prop) w :
  (length (mon_pending m) <= MAX_PENDING_EVENTS)%nat ->
  (forall queue w', enqueued event (mon_pending m) queue -> (length queue <= MAX_PENDING_EVENTS)%nat ->
     Q tt (set_mon_pending queue m) w') ->
  (forall e w', E e (set_mon_pending (tail (mon_pending m)) m) w') -> (forall w', C w') ->
  wp (enqueue_bounded event) Q E C m w.
Proof.
  intros Hlen HQ HE HC. unfold enqueue_bounded. apply wp_bind, wp_get. unfold enqueued in HQ.
  destruct (bool_decide (length (mon_pending m) = MAX_PENDING_EVENTS)) eqn:Hfull.
  - apply bool_decide_eq_true in Hfull. apply wp_bind, wp_bind, wp_modify.
    destruct (mon_pending m) as [|e1 [|e2 queue]] eqn:Hq; [done|done|]. cbn [tail] in *.
    destruct (bool_decide (me_signal event = Signal.MonitorQueueOverflow)) eqn:Hs.
    + apply bool_decide_eq_true in Hs. rewrite (bool_decide_false (_ <> _)) by auto.
      apply wp_ret, wp_modify, HQ; [done|]. rewrite length_app. cbn in *. lia.
    + apply bool_decide_eq_false in Hs. rewrite bool_decide_true by done.
      apply wp_bind, wp_io. unfold wp, new_v4. cbn [outcome_sat].
      apply wp_bind, wp_io, wp_unix_ms; [|intros e; apply HE|done].
      intros now. apply wp_bind, wp_modify, wp_modify, wp_modify. cbn [mon_pending set_mon_pending tail app].
      rewrite <- app_assoc. apply HQ; [by eexists _, _|]. rewrite length_app. cbn in *. lia.
  - apply bool_decide_eq_false in Hfull. apply wp_bind, wp_ret, wp_modify, HQ; [done|].
    rewrite length_app. cbn. lia.
Qed.

Section MonitorProperties.
Context {L : Type} `{AS : AuditSink L, ASL : !AuditSinkLaws L}.

Lemma wp_audit_event event (l : L) (Q : unit -> L -> World -> Prop) (E : FcpError -> L -> World -> Prop) (C : World -> Prop) w :
  (forall l' w', Q tt l' w') -> (forall e l' w', E e l' w') -> (forall w', C w') -> wp (audit_event event) Q E C l w.
Proof using ASL.
  intros HQ HE HC. unfold audit_event. destruct (me_account_group_id event).
  - eapply wp_mono; [apply sink_record_frame|cbn; intros []; auto|cbn; auto|cbn; auto].
  - eapply wp_mono; [apply sink_system_frame|cbn; intros []; auto|cbn; auto|cbn; auto].
Qed.

Lemma wp_poll_events n (s : MonitorEngine * L) (Q : list Message -> MonitorEngine * L -> World -> Prop)
    (E : FcpError -> MonitorEngine * L -> World -> Prop) (C : World -> Prop) w :
  (forall k l w', k = Nat.min n (length (mon_pending (fst s))) ->
     Q ((fun e => Msg.MonitorAlert (mkMonitorAlert e)) <$> take k (mon_pending (fst s)))
       (set_mon_pending (drop k (mon_pending (fst s))) (fst s), l) w') ->
  (forall e k l w', (k <= n)%nat -> E e (set_mon_pending (drop k (mon_pending (fst s))) (fst s), l) w') ->
  (forall w', C w') ->
  wp (poll_events n) Q E C s w.
Proof using ASL.
  revert s w Q. induction n as [|n IH]; intros [m l] w Q HQ HE HC.
  - apply wp_ret. specialize (HQ 0%nat l w eq_refl). cbn in HQ. by destruct m.
  - cbn [poll_events]. apply wp_bind, wp_zoom, wp_get. cbn [fst snd].
    destruct (mon_pending m) as [|event rest] eqn:Hq.
    + apply wp_ret. specialize (HQ 0%nat l w). cbn in HQ. rewrite Hq in HQ. specialize (HQ eq_refl).
      destruct m as [p a o]. cbn in Hq, HQ |- *. by rewrite Hq.
    + apply wp_bind, wp_zoom, wp_put. apply wp_bind, wp_zoom. cbn [fst snd].
      apply wp_audit_event; [| |done].
      2: { intros e l' w'. specialize (HE e 1%nat l' w' ltac:(lia)). cbn in HE. by rewrite Hq in HE. }
      intros l' w'. apply wp_bind. apply IH; cbn [fst snd mon_pending set_mon_pending]; [| |done].
      * intros k l'' w'' ->. apply wp_ret. specialize (HQ (S (Nat.min n (length rest))) l'' w''). cbn [fst] in HQ.
        rewrite Hq in HQ. by apply HQ.
      * intros e k l'' w'' Hk. specialize (HE e (S k) l'' w'' ltac:(lia)). cbn [fst] in HE. by rewrite Hq in HE.
Qed.

(** The calls of the engine. *)
Inductive MonitorCall :=
  | CallAccept (event : MonitorEvent)
  | CallEnqueue (event : MonitorEvent)
  | CallPoll (request : MonitorPoll).

Definition run_monitor_call (c : MonitorCall) : M (MonitorEngine * L) (list Message) :=
  match c with
  | CallAccept event => accept_extension_event event
  | CallEnqueue event => _ ← on_engine (enqueue_host_event event); mret []
  | CallPoll request => poll request
  end.

(** C39: The monitor keeps its bounds under every call, failing ones included: the
    queue never holds more than 128 events, and the accepted identifiers are
    always the identifiers in their order of arrival, each once and at most 512. *)
Theorem monitor_bounded call (s : MonitorEngine * L) w :
  monitor_ok (fst s) ->
  wp (run_monitor_call call) (fun _ s' _ => monitor_ok (fst s')) (fun _ s' _ => monitor_ok (fst s')) (fun _ => True) s w.
Proof using ASL.
  intros Hok. destruct s as [m l]. destruct call as [event|event|request]; cbn [run_monitor_call fst] in *.
  - unfold accept_extension_event. apply wp_bind, wp_lift. destruct (validate_event event); [|done].
    wp_guard_case Hs; [done|]. apply wp_bind, wp_zoom, wp_get. cbn [fst snd].
    wp_if_case Hin; [by apply wp_ret|]. apply bool_decide_eq_false in Hin.
    apply wp_bind, wp_zoom, wp_audit_event; [|done|done]. intros l' w'. cbn [fst snd].
    apply wp_bind, wp_zoom, wp_modify, wp_ret. by apply remember_event_ok.
  - apply wp_bind, wp_zoom. unfold enqueue_host_event. apply wp_bind, wp_lift. destruct (validate_event event); [|done].
    wp_guard_case Hs; [done|]. apply wp_enqueue_bounded; [apply Hok| | |done].
    + intros queue w' _ Hq. apply wp_ret. by apply monitor_ok_pending.
    + intros e w'. apply monitor_ok_pending; [done|]. etrans; [|apply (mo_pending _ Hok)].
      cbn [fst]. destruct (mon_pending m); [apply le_n|apply Nat.le_succ_diag_r].
  - unfold poll. wp_guard_case Hs; [done|].
    apply wp_poll_events; [| |done]; intros; apply monitor_ok_pending; try done; cbn [fst]; rewrite length_drop;
      (etrans; [apply Nat.le_sub_l|apply (mo_pending _ Hok)]).
Qed.

(** A poll hands over the oldest waiting events, in order and at most as many as asked
    for (1 to 64), and removes exactly those; if auditing one of them fails, the
    events taken so far are lost without having been delivered. *)
Theorem poll_hands_over request (s : MonitorEngine * L) w :
  wp (poll request)
     (fun messages s' _ => 0 < mp_max_events request <= MAX_POLL_EVENTS /\
        let n := Nat.min (N.to_nat (mp_max_events request)) (length (mon_pending (fst s))) in
        messages = (fun e => Msg.MonitorAlert (mkMonitorAlert e)) <$> take n (mon_pending (fst s)) /\
        mon_pending (fst s') = drop n (mon_pending (fst s)))
     (fun _ s' _ => exists lost, (lost <= N.to_nat (mp_max_events request))%nat /\
        mon_pending (fst s') = drop lost (mon_pending (fst s)))
     (fun _ => True) s w.
Proof using ASL.
  unfold poll. wp_guard_case Hs; [exists 0%nat; split; [lia|done]|]. bool_to_prop.
  apply wp_poll_events; [| |done].
  - intros k l w' ->. split; [lia|]. by split.
  - intros e k l w' Hk. by exists k.
Qed.
End MonitorProperties.

Section MonitorExample.
#[local] Existing Instances silent_sink silent_sink_laws.

Definition example_event : MonitorEvent :=
  mkMonitorEvent 4 1700000000000 Source.Extension Signal.HostDisconnect Severity.Info None 1.
Definition waiting_monitor : MonitorEngine := mkMonitor [example_event; example_event] ∅ [].
Definition monitor_world : World := mkWorld ∅ 0 (mkEnv (fun _ => NoFault) (fun _ => 7) (fun _ => 0)).

Lemma monitor_bounded_witness :
  wp (run_monitor_call (CallAccept example_event)) (fun _ s' _ => monitor_ok (fst s')) (fun _ s' _ => monitor_ok (fst s'))
    (fun _ => True) (new_monitor, ["audit"%string]) monitor_world.
Proof. apply monitor_bounded. apply new_monitor_ok. Defined.

Lemma poll_hands_over_witness :
  wp (poll (mkMonitorPoll 1))
     (fun messages s' _ => 0 < 1 <= MAX_POLL_EVENTS /\
        let n := Nat.min (N.to_nat 1) (length (mon_pending waiting_monitor)) in
        messages = (fun e => Msg.MonitorAlert (mkMonitorAlert e)) <$> take n (mon_pending waiting_monitor) /\
        mon_pending (fst s') = drop n (mon_pending waiting_monitor))
     (fun _ s' _ => exists lost, (lost <= N.to_nat 1)%nat /\ mon_pending (fst s') = drop lost (mon_pending waiting_monitor))
     (fun _ => True) (waiting_monitor, ["audit"%string]) monitor_world.
Proof. apply (poll_hands_over (mkMonitorPoll 1) (waiting_monitor, ["audit"%string])). Defined.
End MonitorExample.
