(* ===== verification/App.v ===== *)
(** * dispatcher.rs, the part of the whole host: [NativeHostApp]

    Opening the host, the handshake, the recovery of a sibling profile, and the
    administration of the groups (add, remove, set policy) with the write of the
    configuration. The messages of one group go to its runtime (Handlers). *)

From S2P Require Import Prelude World External Examples AtomicFile Config Messages VaultFormat Capability LeaseMeta VaultStore Transaction Paths OpModel OpJournal OpRecovery Coordinator AuditLog Protocol Group Handlers Monitor.

(** ** Constants *)

Definition CARGO_PKG_VERSION : string := "0.6.0".
Definition PRODUCT_EXTENSION_ID : string := "ibjddphkjppgkdbegjibddbjkagdlaea".
Definition MIN_EXTENSION_VERSION : string := "0.4.1".
Definition WIKIPEDIA_ACCOUNT_GROUP_ID : Uuid := 0x7a1446773f5c4a86a76716fd3ca315b8.

Definition PROTOCOL_CAPABILITIES : list string :=
  ["chunked_cookies"; "request_correlation"; "config_v3"; "audit_recovery"; "profile_namespace";
   "durable_operations_v7"; "guarded_cookie_removal"; "semantic_operation_status"; "profile_recovery_v1"]%string.
Definition V7_REQUIRED_CAPABILITIES : list string :=
  ["chunked_cookies"; "request_correlation"; "config_v3"; "audit_recovery"; "profile_namespace";
   "durable_operations_v7"; "guarded_cookie_removal"; "semantic_operation_status"]%string.
Definition V6_PROTOCOL_CAPABILITIES : list string :=
  ["chunked_cookies"; "request_correlation"; "config_v3"; "audit_recovery"; "profile_namespace"]%string.
Definition PROCESS_MONITORING_CAPABILITY : string := "process_monitoring".

Definition advertised_capabilities (protocol_version : N) : list string :=
  (if protocol_version =? PROTOCOL_VERSION then PROTOCOL_CAPABILITIES else V6_PROTOCOL_CAPABILITIES)
  ++ (if supports_monitoring then [PROCESS_MONITORING_CAPABILITY] else []).

Definition required_capabilities (protocol_version : N) : list string :=
  if protocol_version =? PROTOCOL_VERSION then V7_REQUIRED_CAPABILITIES else V6_PROTOCOL_CAPABILITIES.

(** ** [BTreeMap]: the entries in the order of their keys *)

Abbreviation BTreeMap V := (list (Uuid * V)).

Fixpoint bt_get {V} (k : Uuid) (m : BTreeMap V) : option V :=
  match m with
  | [] => None
  | (k', v) :: rest => if k =? k' then Some v else bt_get k rest
  end.

Fixpoint bt_insert {V} (k : Uuid) (v : V) (m : BTreeMap V) : BTreeMap V :=
  match m with
  | [] => [(k, v)]
  | (k', v') :: rest =>
      if k =? k' then (k, v) :: rest
      else if k <? k' then (k, v) :: m
      else (k', v') :: bt_insert k v rest
  end.

Definition bt_remove {V} (k : Uuid) (m : BTreeMap V) : BTreeMap V :=
  List.filter (fun e => negb (e.1 =? k)) m.

(** [for value in map.values_mut() { body }]. *)
Fixpoint values_mut {V} (body : M V unit) (m : BTreeMap V) (w : World) : Outcome (BTreeMap V) unit :=
  match m with
  | [] => Done tt [] w
  | (k, v) :: rest =>
      match body v w with
      | Done _ v' w' =>
          match values_mut body rest w' with
          | Done a rest' w'' => Done a ((k, v') :: rest') w''
          | Failed e rest' w'' => Failed e ((k, v') :: rest') w''
          | Panicked w'' => Panicked w''
          | Crashed w'' => Crashed w''
          end
      | Failed e v' w' => Failed e ((k, v') :: rest) w'
      | Panicked w' => Panicked w'
      | Crashed w' => Crashed w'
      end
  end.

(** A block on a mutable local variable, with [?] on its result. *)
Definition run_local {S T A} (t0 : T) (m : M T A) : M S (A * T) :=
  done ← with_local t0 m;
  let '(r, t) := (done : FcpResult A * T) in
  a ← lift r;
  mret (a, t).

(** ** Text *)

(** One character (its UTF-8 bytes) is Unicode white space. *)
Definition white_space (c : list N) : bool :=
  match c with
  | [x] => ((9 <=? x) && (x <=? 13)) || (x =? 32)
  | [x; y] => (x =? 194) && ((y =? 133) || (y =? 160))
  | [x; y; z] =>
      ((x =? 225) && (y =? 154) && (z =? 128))
      || ((x =? 226) && (y =? 128)
          && (((128 <=? z) && (z <=? 138)) || (z =? 168) || (z =? 169) || (z =? 175)))
      || ((x =? 226) && (y =? 129) && (z =? 159))
      || ((x =? 227) && (y =? 128) && (z =? 128))
  | _ => false
  end.

Definition is_space_bytes (b : bytes) : bool := white_space (Byte.to_N <$> b).

Fixpoint trim_start_bytes (fuel : nat) (b : bytes) : bytes :=
  match fuel with
  | O => b
  | S fuel' =>
      if is_space_bytes (take 1 b) then trim_start_bytes fuel' (drop 1 b)
      else if is_space_bytes (take 2 b) then trim_start_bytes fuel' (drop 2 b)
      else if is_space_bytes (take 3 b) then trim_start_bytes fuel' (drop 3 b)
      else b
  end.

Fixpoint trim_end_bytes (fuel : nat) (b : bytes) : bytes :=
  match fuel with
  | O => b
  | S fuel' =>
      let n := length b in
      if is_space_bytes (drop (n - 1) b) then trim_end_bytes fuel' (take (n - 1) b)
      else if is_space_bytes (drop (n - 2) b) then trim_end_bytes fuel' (take (n - 2) b)
      else if is_space_bytes (drop (n - 3) b) then trim_end_bytes fuel' (take (n - 3) b)
      else b
  end.

(** [str::trim]. *)
Definition trim_text (s : string) : string :=
  let b := str_bytes s in
  let b := trim_start_bytes (length b) b in
  string_of_list_byte (trim_end_bytes (length b) b).

(** [compare_versions]: [None] when one of them is not three numbers. *)
Definition version_parts (value : string) : option (N * N * N) :=
  match mapM (M := option) parse_u64 (split_dots value) with
  | Some [a; b; c] => Some (a, b, c)
  | _ => None
  end.

Definition compare_parts (l r : N * N * N) : comparison :=
  let '(l1, l2, l3) := l in
  let '(r1, r2, r3) := r in
  match l1 ?= r1 with
  | Eq => match l2 ?= r2 with Eq => l3 ?= r3 | o => o end
  | o => o
  end.

Definition compare_versions (left right : string) : option comparison :=
  l ← version_parts left;
  r ← version_parts right;
  Some (compare_parts l r).

(** [.is_none_or(|ordering| ordering.is_lt())]. *)
Definition below_minimum (o : option comparison) : bool :=
  match o with None | Some Lt => true | _ => false end.

Definition config_rejection_code (error : FcpError) : string :=
  match error with
  | Format message =>
      if str_contains "overlap" message then "scope_overlaps_existing"
      else if str_contains "scope is invalid" message then "scope_invalid"
      else if str_contains "outside bounds" message then "group_limit_reached"
      else "config_invalid"
  | _ => "config_invalid"
  end.

(** ** State *)

(** The fields of the connection, and the rest: the groups, the audit log, the
    configuration and the monitor. *)
Record NativeHostApp (L A : Type) := mkApp {
  app_groups : BTreeMap GroupRuntime;
  app_audit : L;
  app_paths : DataPaths;
  app_config : AccountGroupsConfig;
  app_config_digest : string;
  app_handshake_complete : bool;
  app_last_message_group : option Uuid;
  app_hello_authorizer : option A;
  app_monitor : MonitorEngine;
  app_negotiated_protocol : N;
  app_connection_profile_id : option Uuid;
}.
Arguments mkApp {L A} _ _ _ _ _ _ _ _ _ _ _.
Arguments app_groups {L A} _.
Arguments app_audit {L A} _.
Arguments app_paths {L A} _.
Arguments app_config {L A} _.
Arguments app_config_digest {L A} _.
Arguments app_handshake_complete {L A} _.
Arguments app_last_message_group {L A} _.
Arguments app_hello_authorizer {L A} _.
Arguments app_monitor {L A} _.
Arguments app_negotiated_protocol {L A} _.
Arguments app_connection_profile_id {L A} _.

(** [serde_json::to_vec_pretty] of the configuration. *)
Class ConfigPretty := config_to_vec_pretty : AccountGroupsConfig -> FcpResult bytes.

(** ** File metadata *)

(** [fs::metadata(p)]: the node and its time ([created()] or [modified()]) in
    milliseconds since 1970, 0 for an earlier one; the environment decides the
    time. [None] when the call fails. *)
Definition fs_metadata (p : Path) : IO (option (FsNode * N)) := fun s w =>
  match env_fault (w_env w) (w_step w) with
  | NoFault =>
      Done ((fun node => (node, N.min (env_clock_ms (w_env w) (w_step w)) u64_max)) <$> w_fs w !! p) s (tick w)
  | IoFault _ => Done None s (tick w)
  | Killed _ => Crashed w
  end.

(** [Path::is_file]: an error counts as [false]. *)
Definition path_is_file (p : Path) : IO bool :=
  faulty ← io_step;
  if (faulty : bool) then mret false else fs ← get_fs; mret (is_file (fs !! p)).

Definition profile_created_unix_ms (path : Path) : IO N :=
  metadata ← fs_metadata path; mret (match metadata with Some (_, time) => time | None => 0 end).

(** [visit] of [profile_last_used_unix_ms]; each level takes one unit of fuel. *)
Fixpoint visit (fuel : nat) (path : Path) (latest : N) : IO N :=
  match fuel with
  | O => mret latest
  | S fuel' =>
      metadata ← fs_metadata path;
      match metadata with
      | None => mret latest
      | Some (File _, time) => mret (N.max latest time)
      | Some (Dir, time) =>
          let latest := N.max latest time in
          entries ← try_ (fs_read_dir path);
          match entries with
          | Err _ => mret latest
          | Ok entries =>
              (fix visit_entries (entries : list Path) (latest : N) : IO N :=
                 match entries with
                 | [] => mret latest
                 | entry :: rest =>
                     readable ← try_ (fs_dir_entry entry);
                     seen ← (if is_ok readable then visit fuel' entry latest else mret latest);
                     visit_entries rest seen
                 end) entries latest
          end
      end
  end.

Definition profile_last_used_unix_ms (path : Path) : IO N :=
  fs ← get_fs;
  visit (S (size fs)) path 0.

(** [sort_by] with a comparison: a stable sort. *)
Fixpoint insert_by {T} (le : T -> T -> bool) (x : T) (l : list T) : list T :=
  match l with
  | [] => [x]
  | y :: rest => if le x y then x :: l else y :: insert_by le x rest
  end.
Definition sort_by {T} (le : T -> T -> bool) (l : list T) : list T := foldr (insert_by le) [] l.

(** Newest first, then by name. *)
Definition candidate_le (l r : RecoveryCandidate) : bool :=
  match rc_last_used_unix_ms r ?= rc_last_used_unix_ms l with
  | Lt => true
  | Gt => false
  | Eq => match String.compare (rc_display_name l) (rc_display_name r) with Gt => false | _ => true end
  end.

Section App.
Context `{UT : UuidText, SH : Sha256, AE : Aead, LS : LocalSecret, SP : Serde VaultPayload,
  SL : Serde CapabilityLedger, SM : Serde LeaseMetadata, KB : KekBackend,
  JB : Serde BoundRequest, JJ : Serde OperationJournal, CS : CookieSerde,
  PSL : Psl, SV : Serde JsonValue, JP : JsonPretty, SC : Serde AccountGroupsConfig, CP : ConfigPretty}.
Context {L A : Type} `{AS : AuditSink L} `{PA : PlatformAuthorizer A}.

Abbreviation NHA := (NativeHostApp L A).
Abbreviation App := (M (NativeHostApp L A)).

Definition set_groups v (s : NHA) : NHA := mkApp v (app_audit s) (app_paths s) (app_config s) (app_config_digest s) (app_handshake_complete s) (app_last_message_group s) (app_hello_authorizer s) (app_monitor s) (app_negotiated_protocol s) (app_connection_profile_id s).
Definition set_audit v (s : NHA) : NHA := mkApp (app_groups s) v (app_paths s) (app_config s) (app_config_digest s) (app_handshake_complete s) (app_last_message_group s) (app_hello_authorizer s) (app_monitor s) (app_negotiated_protocol s) (app_connection_profile_id s).
Definition set_config c d (s : NHA) : NHA := mkApp (app_groups s) (app_audit s) (app_paths s) c d (app_handshake_complete s) (app_last_message_group s) (app_hello_authorizer s) (app_monitor s) (app_negotiated_protocol s) (app_connection_profile_id s).
Definition set_connection p id (s : NHA) : NHA := mkApp (app_groups s) (app_audit s) (app_paths s) (app_config s) (app_config_digest s) true (app_last_message_group s) (app_hello_authorizer s) (app_monitor s) p (Some id).
Definition set_last_message_group v (s : NHA) : NHA := mkApp (app_groups s) (app_audit s) (app_paths s) (app_config s) (app_config_digest s) (app_handshake_complete s) v (app_hello_authorizer s) (app_monitor s) (app_negotiated_protocol s) (app_connection_profile_id s).
Definition set_authorizer v (s : NHA) : NHA := mkApp (app_groups s) (app_audit s) (app_paths s) (app_config s) (app_config_digest s) (app_handshake_complete s) (app_last_message_group s) v (app_monitor s) (app_negotiated_protocol s) (app_connection_profile_id s).
Definition set_monitor v (s : NHA) : NHA := mkApp (app_groups s) (app_audit s) (app_paths s) (app_config s) (app_config_digest s) (app_handshake_complete s) (app_last_message_group s) (app_hello_authorizer s) v (app_negotiated_protocol s) (app_connection_profile_id s).

(** ** Opening a group and the host *)

(** [repair_lease_v1_projection]. *)
Definition completed_lease (completed : JournalOperation) (lease : LeaseMetadata) : LeaseMetadata :=
  let lease :=
    match op_kind completed with
    | Kind.Enrollment => set_lm_lease_id (op_lease_id completed) (set_lm_state GState.Leased lease)
    | Kind.Eviction | Kind.Reconciliation => clear_lease (set_lm_state GState.Sealed lease)
    end in
  let lease := set_lm_pending_operation_id None lease in
  match snapshot completed with
  | Some s => set_lm_vault_sequence (sb_target_vault_sequence s) lease
  | None => lease
  end.

Definition degraded_lease (recovery : StartupRecovery) (lease : LeaseMetadata) : LeaseMetadata :=
  let lease := set_lm_pending_operation_id (committed_operation_id recovery) (set_lm_state GState.Degraded lease) in
  match committed_vault_sequence recovery with
  | Some sequence => set_lm_vault_sequence sequence lease
  | None => lease
  end.

Definition store_lease (lease_store : Path) (lease : LeaseMetadata) : M LeaseMetadata unit :=
  _ ← put lease;
  lease ← lift (advance_transition lease);
  _ ← put lease;
  io (persist_lease lease_store lease).

Definition repair_lease_v1_projection (lease_store : Path) (coordinator : OperationCoordinator)
    (recovery : StartupRecovery) (vault_exists : bool) : M LeaseMetadata unit :=
  lease ← get;
  match lm_pending_operation_id lease ≫= completed_projection coordinator with
  | Some completed => store_lease lease_store (completed_lease completed lease)
  | None =>
      if needs_reconciliation recovery
         && (bool_decide (lm_state lease <> GState.Uninitialized) || vault_exists)
      then store_lease lease_store (degraded_lease recovery lease)
      else mret tt
  end.

(** [build_group_runtime]. *)
Definition build_group_runtime (paths : DataPaths) (definition : AccountGroup) : IO GroupRuntime :=
  let id := ag_id definition in
  vault_exists ← fs_exists (path_for (dp_vault_groups paths) id);
  transactions ← open_transactions id (dp_kek_key paths) (dp_vault_groups paths) (capability_path paths id);
  let lease_store := lease_path paths id in
  lease ← load_or_initialize_lease lease_store id vault_exists;
  operation_coordinator ← open_coordinator paths id;
  recovered ← run_local operation_coordinator (startup_recover (vault_path transactions));
  let '(startup_recovery, operation_coordinator) := (recovered : StartupRecovery * OperationCoordinator) in
  repaired ← run_local lease
    (repair_lease_v1_projection lease_store operation_coordinator startup_recovery vault_exists);
  let '(_, lease) := (repaired : unit * LeaseMetadata) in
  mret (mkRuntime id (ag_policy_level definition) transactions lease_store lease operation_coordinator None).

Fixpoint build_groups (paths : DataPaths) (definitions : list AccountGroup) (groups : BTreeMap GroupRuntime)
    : IO (BTreeMap GroupRuntime) :=
  match definitions with
  | [] => mret groups
  | definition :: rest =>
      runtime ← build_group_runtime paths definition;
      build_groups paths rest (bt_insert (ag_id definition) runtime groups)
  end.

(** The groups that own a vault: all but the monitored ones. *)
Definition vault_owners (config : AccountGroupsConfig) : gset Uuid :=
  list_to_set (ag_id <$> List.filter (fun g => bool_decide (ag_policy_level g <> Policy.Monitor)) (cfg_groups config)).

(** [NativeHostApp::open], of a release build: the configuration and the staged
    deletions first, then the groups, the audit log and the monitor. *)
Definition host_event (signal : MonitorSignal) : IO MonitorEvent :=
  event_id ← new_v4;
  now ← unix_ms;
  mret (mkMonitorEvent event_id now Source.NativeHost signal Severity.High None 1).

Definition open_vaults (paths : DataPaths) : IO LoadedConfig :=
  loaded ← load_config (dp_account_groups_config paths);
  _ ← migrate_phase5_group paths WIKIPEDIA_ACCOUNT_GROUP_ID;
  _ ← recover_staged_deletions (dp_vault_groups paths) (vault_owners (lc_config loaded));
  mret loaded.

Definition open_app (paths : DataPaths) : IO NHA :=
  loaded ← open_vaults paths;
  groups ← build_groups paths (cfg_groups (lc_config loaded)) [];
  audit ← sink_open (dp_audit_directory paths);
  monitor ← (if sink_recovered_on_open audit
             then event ← host_event Signal.AuditIntegrityRecovered;
                  enqueued ← run_local new_monitor (enqueue_host_event event);
                  mret (snd enqueued)
             else mret new_monitor);
  mret (mkApp groups audit paths (lc_config loaded) (lc_digest loaded) false None None monitor
          LEGACY_PROTOCOL_VERSION None).

(** ** Access *)

Definition app_record (group_id : Uuid) (event outcome : string) (operation_id : option Uuid)
    (detail : option string) : App unit :=
  zoom app_audit set_audit (sink_record group_id event outcome operation_id detail).

Definition on_monitor {T} (m : M (MonitorEngine * L) T) : App T :=
  zoom (fun s => (app_monitor s, app_audit s)) (fun e s => set_audit e.2 (set_monitor e.1 s)) m.

(** [self.groups.get(&id)]. *)
Definition runtime_of (id : Uuid) : App (option GroupRuntime) := s ← get; mret (bt_get id (app_groups s)).

(** A call on the entry of a group, with the audit log and the authorizer. *)
Definition with_hd (id : Uuid) (h : HandlerState L A) (s : NHA) : NHA :=
  set_authorizer (hd_authorizer h) (set_audit (hd_audit h) (set_groups (bt_insert id (hd_group h) (app_groups s)) s)).

Definition on_runtime {T} (id : Uuid) (m : M (HandlerState L A) T) : App T :=
  found ← runtime_of id;
  runtime ← ok_or_throw found (Protocol "unknown account group");
  zoom (fun s => mkHandler runtime (app_audit s) (app_hello_authorizer s)) (with_hd id) m.

(** A call on the runtime alone. *)
Definition on_entry {T} (id : Uuid) (runtime : GroupRuntime) (m : M GroupRuntime T) : App T :=
  zoom (fun _ => runtime) (fun runtime s => set_groups (bt_insert id runtime (app_groups s)) s) m.

(** [group_states]. *)
Definition group_state_of (runtime : GroupRuntime) : HandshakeGroupState :=
  let lease := rt_lease runtime in
  mkHandshakeGroupState (rt_id runtime) (lm_state lease)
    (bool_decide (lm_state lease ∈ [GState.Unlocking; GState.Evicting; GState.Degraded]))
    (lm_lease_id lease) (lm_expires_at_unix_ms lease).

Definition group_states (s : NHA) : list HandshakeGroupState := group_state_of ∘ snd <$> app_groups s.

(** [deny_for_error], [error_group_id]. *)
Definition deny_for_error (s : NHA) : Message :=
  let group_id :=
    default WIKIPEDIA_ACCOUNT_GROUP_ID
      (match app_last_message_group s with Some g => Some g | None => fst <$> head (app_groups s) end) in
  Msg.LeaseDeny (mkLeaseDeny group_id "host_error_fail_closed").

Definition error_group_id (s : NHA) : option Uuid := app_last_message_group s.

(** ** Profiles that can be recovered *)

(** The time of creation of each root: the keys of the sort. *)
Fixpoint with_created (roots : list (Uuid * Path)) : IO (list (N * (Uuid * Path))) :=
  match roots with
  | [] => mret []
  | (id, root) :: rest =>
      created ← profile_created_unix_ms root;
      keyed ← with_created rest;
      mret ((created, (id, root)) :: keyed)
  end.

(** The loop over the sorted roots, with the index of the next one. *)
Fixpoint collect_candidates (current : Uuid) (index : N) (roots : list (Uuid * Path)) : IO (list RecoveryCandidate) :=
  match roots with
  | [] => mret []
  | (profile_id, root) :: rest =>
      if profile_id =? current then collect_candidates current (index + 1) rest
      else
        let candidate_paths := from_root root in
        has_config ← path_is_file (dp_account_groups_config candidate_paths);
        complete ← (if (has_config : bool) then path_is_file (dp_hello_credential candidate_paths) else mret false);
        if negb complete then collect_candidates current (index + 1) rest
        else
          loaded ← try_ (load_config (dp_account_groups_config candidate_paths));
          match loaded with
          | Err _ => collect_candidates current (index + 1) rest
          | Ok loaded =>
              if bool_decide (cfg_groups (lc_config loaded) = []) then collect_candidates current (index + 1) rest
              else
                last_used ← profile_last_used_unix_ms root;
                candidates ← collect_candidates current (index + 1) rest;
                mret (mkRecoveryCandidate profile_id ("Chrome Profile " +:+ pretty (index + 1)) "Chrome" last_used
                        (len (cfg_groups (lc_config loaded))) :: candidates)
          end
  end.

(** [recovery_candidates]. *)
Definition recovery_candidates (self : NHA) (current_profile_id : Uuid) : IO (list RecoveryCandidate) :=
  if negb (bool_decide (cfg_groups (app_config self) = [])) then mret []
  else
    roots ← try_ (sibling_profile_roots (app_paths self));
    match roots with
    | Err _ => mret []
    | Ok roots =>
        keyed ← with_created roots;
        candidates ← collect_candidates current_profile_id 0 (snd <$> sort_by_key fst keyed);
        mret (sort_by candidate_le candidates)
    end.

(** ** The configuration on disk *)

Definition verify_config_bytes (persisted : bytes) : FcpResult unit :=
  parsed ← from_slice persisted; validate_config parsed.

(** [config_digest_of]. *)
Definition config_digest_of (b : bytes) : string := encode_hex (sha256 b).

(** [commit_config]. *)
Definition commit_config (candidate : AccountGroupsConfig) : App unit :=
  b ← lift (config_to_vec_pretty candidate);
  self ← get;
  _ ← io (write_verified (dp_account_groups_config (app_paths self)) b
            (fun persisted => lift (verify_config_bytes persisted)));
  modify (set_config candidate (config_digest_of b)).

(** [config_updated_message]. *)
Definition config_updated_message (s : NHA) : Message :=
  Msg.ConfigUpdated (mkConfigUpdated (app_config_digest s) (app_config s) (group_states s)).

Definition config_updated : App (list Message) := s ← get; mret [config_updated_message s].

Definition config_rejected (reason : string) : list Message := [Msg.ConfigRejected (mkConfigRejected reason)].

(** ** The handshake *)

(** The turn of one group: [set_profile_id], then the activation of version 7. *)
Definition join_profile (profile_id : Uuid) (protocol_version : N) : M GroupRuntime unit :=
  _ ← on_coordinator (set_profile_id profile_id);
  if protocol_version =? PROTOCOL_VERSION then
    self ← get;
    activated ← lift (activate_protocol_v7 (journal_high_water (rt_coordinator self)) (rt_lease self));
    let '(changed, lease) := (activated : bool * LeaseMetadata) in
    _ ← update_lease (fun _ => lease);
    if (changed : bool) then _ ← advance_lease; persist_own_lease else mret tt
  else mret tt.

Definition handshake_group (handshake : Handshake) : M GroupRuntime unit :=
  self ← get;
  _ ← guard_not ((hs_protocol_version handshake =? LEGACY_PROTOCOL_VERSION)
                 && (PROTOCOL_VERSION <=? lm_protocol_floor (rt_lease self)))
        (Protocol "upgrade_required: profile protocol floor is v7");
  join_profile (hs_profile_id handshake) (hs_protocol_version handshake).

(** The guards of [handle_handshake]. *)
Definition check_handshake (handshake : Handshake) : FcpResult unit :=
  let v := hs_protocol_version handshake in
  _ ← guard_err (negb ((v =? LEGACY_PROTOCOL_VERSION) || (v =? PROTOCOL_VERSION)))
        (Protocol "handshake protocol version mismatch");
  _ ← guard_err (negb (String.eqb (hs_extension_id handshake) PRODUCT_EXTENSION_ID))
        (Protocol "unexpected extension id");
  _ ← guard_err (below_minimum (compare_versions (hs_extension_version handshake) MIN_EXTENSION_VERSION))
        (Protocol "extension version is below host minimum");
  _ ← guard_err (below_minimum (compare_versions CARGO_PKG_VERSION (hs_min_host_version handshake)))
        (Protocol "host version is below extension minimum");
  guard_err (negb (forallb (fun required => bool_decide (required ∈ hs_capabilities handshake))
                     (required_capabilities v)))
    (Protocol "extension capability mismatch").

(** [handle_handshake]. *)
Definition handle_handshake (handshake : Handshake) : App (list Message) :=
  let extension_build_detail :=
    if String.eqb (hs_extension_version handshake) CARGO_PKG_VERSION
    then "extension_current"%string else "extension_legacy"%string in
  _ ← lift (check_handshake handshake);
  _ ← zoom app_groups set_groups (values_mut (handshake_group handshake));
  _ ← modify (set_connection (hs_protocol_version handshake) (hs_profile_id handshake));
  self ← get;
  candidates ← (if hs_protocol_version handshake =? PROTOCOL_VERSION
                then io (recovery_candidates self (hs_profile_id handshake)) else mret []);
  _ ← for_each (fst <$> app_groups self)
        (fun group_id => app_record group_id "handshake" "success" None (Some extension_build_detail));
  mret [Msg.HandshakeAck (mkHandshakeAck (hs_protocol_version handshake) (app_config_digest self)
    (app_config self) (group_states self) CARGO_PKG_VERSION MIN_EXTENSION_VERSION
    (advertised_capabilities (hs_protocol_version handshake)) candidates)].

(** [handle_recovery_adopt]. *)
Definition handle_recovery_adopt (request : RecoveryAdopt) : App (list Message) :=
  self ← get;
  _ ← guard_not (negb (app_negotiated_protocol self =? PROTOCOL_VERSION)
                 || negb (bool_decide (cfg_groups (app_config self) = [])))
        (Protocol "profile recovery requires an empty v7 profile");
  current_profile_id ← ok_or_throw (app_connection_profile_id self)
                         (Protocol "profile recovery requires an authenticated profile");
  candidates ← io (recovery_candidates self current_profile_id);
  _ ← guard_not (negb (existsb (fun c => rc_profile_id c =? ra_profile_id request) candidates))
        (Protocol "unknown recovery candidate");
  candidate_paths ← lift (sibling_profile (app_paths self) (ra_profile_id request));
  authorizer ← io (open_existing (A := A) (dp_hello_credential candidate_paths));
  now ← io unix_ms;
  nonce ← io (fill_random 32);
  _ ← io (sign authorizer (mkCapabilityPayload (ra_profile_id request) CapOp.RecoverProfile
            (saturating_add u64_max now 60000) (N.max now 1) nonce));
  mret [Msg.RecoveryAdopted (mkRecoveryAdopted (ra_profile_id request))].

(** ** Administration of the groups *)

Definition set_cfg_groups (groups : list AccountGroup) (c : AccountGroupsConfig) : AccountGroupsConfig :=
  mkConfig (cfg_version c) (cfg_compatibility_version c) groups.

Definition requested_group (id : Uuid) (request : GroupAdd) : AccountGroup :=
  let scope := to_ascii_lowercase (trim_start_dots (trim_text (ga_scope request))) in
  let display_name := trim_text (ga_display_name request) in
  mkAccountGroup id (if String.eqb display_name "" then scope else display_name) scope
    (ga_policy_level request) Store.NormalProfile.

(** [handle_group_add]; the new group is the last of the candidate. *)
Definition handle_group_add (request : GroupAdd) : App (list Message) :=
  self ← get;
  id ← io new_v4;
  let added := requested_group id request in
  let candidate := set_cfg_groups (cfg_groups (app_config self) ++ [added]) (app_config self) in
  match validate_config candidate with
  | Err error => mret (config_rejected (config_rejection_code error))
  | Ok _ =>
      runtime ← io (build_group_runtime (app_paths self) added);
      profile_id ← ok_or_throw (app_connection_profile_id self)
                     (Protocol "group addition requires an authenticated profile");
      joined ← run_local runtime (join_profile profile_id (app_negotiated_protocol self));
      let '(_, runtime) := (joined : unit * GroupRuntime) in
      _ ← commit_config candidate;
      _ ← modify (fun s => set_groups (bt_insert (ag_id added) runtime (app_groups s)) s);
      _ ← app_record (ag_id added) "config" "success" None (Some "group_added"%string);
      config_updated
  end.

(** [handle_group_remove]. *)
Definition group_removed : FcpError := Protocol "group disappeared during removal".

(** The branches after the write of the configuration failed and succeeded. *)
Definition undo_removal (id : Uuid) (error : FcpError) : App (list Message) :=
  found ← runtime_of id;
  runtime ← ok_or_throw found group_removed;
  _ ← io (rollback_staged_invalidation (rt_transactions runtime));
  throw error.

Definition finish_removal (id : Uuid) : App (list Message) :=
  found ← runtime_of id;
  runtime ← ok_or_throw found group_removed;
  _ ← io (commit_staged_invalidation (rt_transactions runtime));
  _ ← modify (fun s => set_groups (bt_remove id (app_groups s)) s);
  self ← get;
  _ ← try_ (io (remove_group_projections (app_paths self) id));
  _ ← try_ (app_record id "config" "success" None (Some "group_removed"%string));
  config_updated.

Definition handle_group_remove (request : GroupRemove) : App (list Message) :=
  let id := gr_account_group_id request in
  found ← runtime_of id;
  match found with
  | None => mret (config_rejected "unknown_group")
  | Some runtime =>
      _ ← io (stage_invalidation (rt_transactions runtime));
      self ← get;
      let candidate := set_cfg_groups (List.filter (fun g => negb (ag_id g =? id)) (cfg_groups (app_config self)))
                         (app_config self) in
      _ ← lift (validate_config candidate);
      committed ← try_ (commit_config candidate);
      match committed with
      | Err error => undo_removal id error
      | Ok _ => finish_removal id
      end
  end.

(** [handle_group_set_policy]; [find] on the candidate's groups is an update of
    the first with the identifier. *)
Fixpoint set_group_policy (id : Uuid) (policy : PolicyLevel) (groups : list AccountGroup)
    : option (list AccountGroup) :=
  match groups with
  | [] => None
  | g :: rest =>
      if ag_id g =? id
      then Some (mkAccountGroup (ag_id g) (ag_display_name g) (ag_scope g) policy (ag_store_policy g) :: rest)
      else cons g <$> set_group_policy id policy rest
  end.

Definition monitored_lease (m : LeaseMetadata) : LeaseMetadata :=
  set_lm_vault_sequence 0 (set_lm_pending_operation_id None (clear_lease (set_lm_state GState.Uninitialized m))).

(** The change of the live runtime after the configuration was written. *)
Definition apply_policy (policy : PolicyLevel) (entering_monitor : bool) : M GroupRuntime unit :=
  _ ← modify (set_rt_policy policy);
  if entering_monitor then
    self ← get;
    _ ← io (commit_staged_invalidation (rt_transactions self));
    _ ← update_lease monitored_lease;
    _ ← advance_lease;
    persist_own_lease
  else mret tt.

Definition handle_group_set_policy (request : GroupSetPolicy) : App (list Message) :=
  let id := gsp_account_group_id request in
  let policy := gsp_policy_level request in
  found ← runtime_of id;
  match found with
  | None => mret (config_rejected "unknown_group")
  | Some runtime =>
      if bool_decide (is_Some (rt_pending runtime)) || has_unresolved (rt_coordinator runtime)
      then mret (config_rejected "operation_pending")
      else
        let entering_monitor := bool_decide (policy = Policy.Monitor) && bool_decide (rt_policy runtime <> Policy.Monitor) in
        if entering_monitor && bool_decide (lm_state (rt_lease runtime) = GState.Sealed)
        then mret (config_rejected "monitor_transition_requires_unlocked_session")
        else
          _ ← (if entering_monitor then io (stage_invalidation (rt_transactions runtime)) else mret tt);
          self ← get;
          match set_group_policy id policy (cfg_groups (app_config self)) with
          | None => mret (config_rejected "unknown_group")
          | Some groups =>
              let candidate := set_cfg_groups groups (app_config self) in
              _ ← lift (validate_config candidate);
              committed ← try_ (commit_config candidate);
              match committed with
              | Err error =>
                  _ ← (if entering_monitor then io (rollback_staged_invalidation (rt_transactions runtime)) else mret tt);
                  throw error
              | Ok _ =>
                  _ ← on_entry id runtime (apply_policy policy entering_monitor);
                  _ ← app_record id "config" "success" None (Some "policy_changed"%string);
                  config_updated
              end
          end
  end.

(** ** [NativeHostApp::handle] *)

Definition unknown_monitor_group (s : NHA) (event : MonitorEvent) : bool :=
  match me_account_group_id event with
  | Some id => negb (bool_decide (is_Some (bt_get id (app_groups s))))
  | None => false
  end.

Definition dispatch (message : Message) : App (list Message) :=
  _ ← modify (set_last_message_group None);
  self ← get;
  match message with
  | Msg.MonitorEvent event =>
      _ ← guard_not (unknown_monitor_group self event) (Protocol "unknown monitor account group");
      on_monitor (accept_extension_event event)
  | Msg.MonitorPoll request => on_monitor (poll request)
  | Msg.MonitorAlert _ => throw (Protocol "monitor.alert direction is host-to-extension only")
  | Msg.GroupAdd request => handle_group_add request
  | Msg.GroupRemove request => handle_group_remove request
  | Msg.GroupSetPolicy request => handle_group_set_policy request
  | Msg.RecoveryAdopt request => handle_recovery_adopt request
  | Msg.RecoveryAdopted _ => throw (Protocol "recovery result direction is host-to-extension only")
  | Msg.ConfigUpdated _ | Msg.ConfigRejected _ | Msg.OperationError _ =>
      throw (Protocol "config result direction is host-to-extension only")
  | _ =>
      group_id ← ok_or_throw (message_group_id message) (Protocol "message direction is host-to-extension only");
      _ ← modify (set_last_message_group (Some group_id));
      on_runtime group_id (handle message (dp_hello_credential (app_paths self)) (app_negotiated_protocol self))
  end.

Definition app_handle (message : Message) : App (list Message) :=
  self ← get;
  if negb (app_handshake_complete self) then
    match message with
    | Msg.Handshake handshake => handle_handshake handshake
    | _ => throw (Protocol "handshake must be the first application message")
    end
  else
    match message with
    | Msg.Handshake _ | Msg.HandshakeAck _ => throw (Protocol "handshake cannot be repeated on one connection")
    | _ => dispatch message
    end.
End App.
