(* ===== verification/Removal.v ===== *)
(** * Removing a group, across crashes

    [handle_group_remove] stages the deletion of the vault, writes the
    configuration without the group and then deletes the staged file; the start
    of the host ([open_vaults]) settles whatever an interrupted removal left. The
    two are composed here. *)

From S2P Require Import Prelude World External Examples AtomicFile Nodes Config Messages VaultFormat Capability LeaseMeta VaultStore Transaction Paths OpModel OpJournal OpRecovery Coordinator CommitProtocol AuditLog Protocol Group Handlers Confirm Chunks Delivery Monitor App.

(** The encoder of the configuration: what is written reads back, and the version
    is a field of the object. *)
Class ConfigSerdeLaws `{SV : Serde JsonValue, SC : Serde AccountGroupsConfig, CP : ConfigPretty} : Prop := {
  config_reads_back c b : config_to_vec_pretty c = Ok b -> from_slice b = Ok c;
  config_is_object c b : config_to_vec_pretty c = Ok b ->
    exists fields, from_slice b = Ok (JObject fields) /\ obj_get "version" fields = Some (JU64 (cfg_version c));
}.

(** ** The calls on the vault, node by node *)

Lemma bt_get_remove {V} k (m : BTreeMap V) : bt_get k (bt_remove k m) = None.
Proof.
  unfold bt_remove. induction m as [|[k' v] m IH]; [done|]. cbn. destruct (k' =? k) eqn:Hk; cbn; [done|].
  by rewrite N.eqb_sym, Hk.
Qed.

Lemma path_parent_join q d : path_parent q = Some d -> exists n, q = path_join d n.
Proof.
  unfold path_parent, path_join. destruct q as [|x q _] using rev_ind; [done|].
  rewrite removelast_last. intros Hq. exists x. f_equal. destruct (q ++ [x]) eqn:Hn; [done|]. by injection Hq.
Qed.

Lemma wp_create_dir_nodes q (Q : unit -> unit -> World -> Prop) (E : FcpError -> unit -> World -> Prop) (C : World -> Prop) w :
  (forall w', w_env w' = w_env w -> w_step w' = S (w_step w) ->
     (forall p, is_Some (w_fs w !! p) \/ ~ p `prefix_of` q -> w_fs w' !! p = w_fs w !! p) ->
     Q tt tt w') ->
  (forall e, E e tt (tick w)) -> C w -> wp (fs_create_dir_all q) Q E C tt w.
Proof.
  intros HQ HE HC. unfold fs_create_dir_all. run_io; [|apply HE|done].
  destruct (existsb _ _); [apply HE|]. cbn. apply HQ; [done|done|]. cbn.
  assert (Hstep : forall p r fs, is_Some (fs !! p) \/ ~ p `prefix_of` q -> r `prefix_of` q ->
    make_dir fs r !! p = fs !! p).
  { intros p r fs Hp Hr. unfold make_dir. destruct (fs !! r) eqn:Er; [done|].
    rewrite lookup_insert_ne; [done|]. intros <-. destruct Hp as [Hp|Hp]; [rewrite Er in Hp; by destruct Hp|done]. }
  assert (Hl : Forall (fun r => r `prefix_of` q) (path_prefixes q)).
  { apply Forall_forall. clear. induction q as [|c q IH]; intros r; cbn [path_prefixes]; rewrite elem_of_cons.
    - intros [->|Hr]; [done|by apply elem_of_nil in Hr].
    - intros [->|(r' & -> & Hr)%list_elem_of_fmap]; [apply prefix_nil|]. by apply prefix_cons, IH. }
  intros p. generalize (w_fs w) as fs. induction Hl as [|r l Hr Hl IH]; intros fs Hp; [done|].
  cbn [foldl]. rewrite IH; [by apply Hstep|]. by rewrite (Hstep p r fs Hp Hr).
Qed.

Lemma in_root_not_prefix root n : ~ path_join root n `prefix_of` root.
Proof. intros H%prefix_length. unfold path_join in H. rewrite length_app in H. cbn in H. lia. Qed.

Section Vault.
Context `{UT : UuidText, UL : !UuidTextLaws} (root : Path) (g : Uuid) (b : bytes).
Hypothesis g_width : g < 2 ^ 128.

Abbreviation vp := (path_for root g).
Abbreviation sp := (staged_delete_path_for root g).

(** The vault in its place, and no vault at all; between them lies
    [staged_state]. *)
Definition in_place (w : World) : Prop := w_fs w !! vp = Some (File b) /\ w_fs w !! sp = None.
Definition gone (w : World) : Prop := w_fs w !! vp = None /\ w_fs w !! sp = None.

(** Everything else stays. *)
Definition others_kept (w w' : World) : Prop :=
  w_env w' = w_env w /\ forall p, is_Some (w_fs w !! p) \/ ~ p `prefix_of` root -> p <> vp -> p <> sp -> w_fs w' !! p = w_fs w !! p.

Lemma others_kept_refl w : others_kept w w.
Proof. done. Qed.

Lemma wp_stage_delete (Q : unit -> unit -> World -> Prop) (E : FcpError -> unit -> World -> Prop) (C : World -> Prop) w :
  in_place w -> (forall n, env_fault (w_env w) (S (w_step w)) <> IoFault n) ->
  (forall w', staged_state root g b w' -> others_kept w w' -> Q tt tt w') ->
  (forall e w', in_place w' -> others_kept w w' -> E e tt w') ->
  (forall w', in_place w' -> others_kept w w' -> C w') ->
  wp (stage_delete root g) Q E C tt w.
Proof using UL g_width.
  intros Hin Hans HQ HE HC. unfold stage_delete.
  apply wp_bind, wp_create_dir_nodes; [|intros; by apply HE|by apply HC].
  intros w1 Henv Hstep H1.
  assert (Hin1 : in_place w1).
  { destruct Hin as [Hv Hs]. split; rewrite H1; [done|left; by eexists|done|right; apply in_root_not_prefix]. }
  assert (Ho1 : others_kept w w1) by (split; auto).
  apply wp_bind, wp_fs_exists_exact; [unfold metadata_answers; by rewrite Henv, Hstep| |by apply HC].
  rewrite bool_decide_true by (destruct Hin1 as [-> _]; by eexists). cbn [negb].
  apply wp_bind, wp_fs_exists; [|by apply HC]. intros already Halready.
  wp_guard_case Hal; [by apply HE|].
  apply wp_fs_rename_nodes; [intros Heq; by apply (staged_ne_vault root g g_width g)| |intros; by apply HE|by apply HC].
  intros w2 c Hsrc Hnone Hdst [Henv2 Ha]. cbn in Hsrc. destruct Hin1 as [Hv Hs]. rewrite Hv in Hsrc. injection Hsrc as <-.
  apply HQ; [done|]. split; [by rewrite Henv2|]. intros p Hp Hne1 Hne2. rewrite Ha by (by intros []). cbn. by apply H1.
Qed.

Lemma wp_rollback (Q : unit -> unit -> World -> Prop) (E : FcpError -> unit -> World -> Prop) (C : World -> Prop) w :
  staged_state root g b w ->
  (forall w', in_place w' \/ staged_state root g b w' -> others_kept w w' -> Q tt tt w') ->
  (forall e w', staged_state root g b w' -> others_kept w w' -> E e tt w') ->
  (forall w', staged_state root g b w' -> others_kept w w' -> C w') ->
  wp (rollback_staged_delete root g) Q E C tt w.
Proof using UL g_width.
  intros [Hv Hs] HQ HE HC. unfold rollback_staged_delete.
  apply wp_bind, wp_fs_exists; [|by apply HC]. intros present _. destruct present; cbn [negb]; [|apply wp_ret, HQ; [by right|done]].
  apply wp_bind, wp_fs_exists; [|by apply HC]. intros occupied _. wp_guard_case Hoc; [by apply HE|].
  apply wp_fs_rename_nodes; [apply (staged_ne_vault root g g_width g)| |intros; by apply HE|by apply HC].
  intros w2 c Hsrc Hnone Hdst [Henv2 Ha]. cbn in Hsrc. rewrite Hs in Hsrc. injection Hsrc as <-.
  apply HQ; [by left|]. split; [done|]. intros p _ Hne1 Hne2. apply Ha. by intros [].
Qed.

Lemma wp_commit_staged (Q : unit -> unit -> World -> Prop) (E : FcpError -> unit -> World -> Prop) (C : World -> Prop) w :
  staged_state root g b w ->
  (forall w', gone w' -> others_kept w w' -> Q tt tt w') ->
  (forall e w', staged_state root g b w' -> others_kept w w' -> E e tt w') ->
  (forall w', staged_state root g b w' -> others_kept w w' -> C w') ->
  wp (commit_staged_delete root g) Q E C tt w.
Proof using UL g_width.
  intros [Hv Hs] HQ HE HC. unfold commit_staged_delete.
  apply wp_remove_if_exists; [|intros; by apply HE|by apply HC].
  intros w' Hnone [Henv Ha]. apply HQ.
  - split; [|done]. rewrite Ha; [done|]. apply (staged_ne_vault root g g_width g).
  - split; [done|]. intros p _ _ Hne. by apply Ha.
Qed.
End Vault.

(** ** The nodes the start of the host looks at *)

Section Removal.
Context `{UT : UuidText, UL : !UuidTextLaws, SH : Sha256, AE : Aead, LS : LocalSecret, SP : Serde VaultPayload,
  SL : Serde CapabilityLedger, SM : Serde LeaseMetadata, KB : KekBackend,
  JB : Serde BoundRequest, JJ : Serde OperationJournal, CS : CookieSerde,
  PSL : Psl, SV : Serde JsonValue, JP : JsonPretty, SC : Serde AccountGroupsConfig, CP : ConfigPretty, CL : !ConfigSerdeLaws}.
Context {L A : Type} `{AS : AuditSink L, ASL : !AuditSinkLaws L} `{PA : PlatformAuthorizer A}.
Context (home : Path) (g : Uuid) (b : bytes).
Hypothesis g_width : g < 2 ^ 128.

Abbreviation paths := (from_root home).
Abbreviation vaults := (dp_vault_groups paths).
Abbreviation config_file := (dp_account_groups_config paths).

(** The vault directory, its files, and the files of the migrations. *)
Definition watched (p : Path) : Prop :=
  removelast p = vaults \/ p = vaults \/ p = dp_legacy_lease_metadata paths \/ p = dp_legacy_capability_ledger paths.

Definition calm (w w' : World) : Prop := forall p, watched p -> w_fs w' !! p = w_fs w !! p.

Lemma below_home_prefix (l1 l2 : list string) : home ++ l1 `prefix_of` home ++ l2 -> l1 `prefix_of` l2.
Proof. intros [k Hk]. rewrite <- app_assoc in Hk. apply app_inv_head in Hk as ->. by exists k. Qed.

(** A watched path lies in no other directory of the host: the parts below the
    home directory that it can have. *)
Lemma watched_parts p : watched p -> exists l, p = home ++ l /\
  (l = ["vault"; "groups"] \/ (exists n, l = ["vault"; "groups"; n]) \/ l = ["leases"; "mvp-group.json"]
   \/ l = ["leases"; "capability-ledger.json"])%string.
Proof.
  unfold watched. cbn [from_root dp_vault_groups dp_legacy_lease_metadata dp_legacy_capability_ledger].
  unfold path_join. rewrite <- !app_assoc. cbn [app].
  intros [Hp|[->|[->| ->]]]; [|by eexists; split; [reflexivity|]; auto..].
  destruct p as [|x p] using rev_ind.
  - cbn in Hp. symmetry in Hp. apply app_eq_nil in Hp as [_ Hp]. done.
  - rewrite removelast_last in Hp. subst. exists ["vault"; "groups"; x]%string. split; [by rewrite <- app_assoc|]. right. left. by eexists.
Qed.

Lemma watched_dir p : watched p -> exists l, removelast p = home ++ l /\ l ∈ [["vault"]; ["vault"; "groups"]; ["leases"]]%string.
Proof.
  intros (l & -> & Hl)%watched_parts.
  exists (removelast l). rewrite removelast_app; [|by destruct Hl as [->|[[n ->]|[->| ->]]]]. split; [done|].
  destruct Hl as [->|[[n ->]|[->| ->]]]; cbn; set_solver.
Qed.

Lemma watched_not_above p x : watched p -> ~ p `prefix_of` path_join home x.
Proof.
  intros (l & -> & Hl)%watched_parts Hp. unfold path_join in Hp. apply below_home_prefix, prefix_length in Hp.
  destruct Hl as [->|[[n ->]|[->| ->]]]; cbn in Hp; lia.
Qed.

(** No file of these directories is watched. *)
Lemma watched_elsewhere p l : watched p ->
  l ∈ [["config"]; ["audit"]; ["leases"; "groups"]; ["leases"; "capabilities"]; ["operations"; "groups"]]%string ->
  removelast p <> home ++ l.
Proof.
  intros (l' & -> & Hl')%watched_dir Hl Heq. apply app_inv_head in Heq as ->.
  rewrite list_elem_of_In in Hl, Hl'. cbn in Hl, Hl'. destruct_or!; congruence.
Qed.

Lemma calm_trans w1 w2 w3 : calm w1 w2 -> calm w2 w3 -> calm w1 w3.
Proof. intros H1 H2 p Hp. by rewrite H2, H1. Qed.

Lemma wp_calm {S T} (m : M S T) s w :
  (forall p, watched p ->
     wp m (fun _ _ w' => w_fs w' !! p = w_fs w !! p) (fun _ _ w' => w_fs w' !! p = w_fs w !! p)
       (fun w' => w_fs w' !! p = w_fs w !! p) s w) ->
  wp m (fun _ _ w' => calm w w') (fun _ _ w' => calm w w') (fun w' => calm w w') s w.
Proof.
  intros Hm. pose proof (Hm vaults (or_intror (or_introl eq_refl))) as H0.
  unfold wp, calm in *. destruct (m s w) eqn:E; cbn in *; [..|done|]; intros p Hp; specialize (Hm p Hp); done.
Qed.

Lemma commit_config_calm candidate (s : NativeHostApp L A) (Q : unit -> NativeHostApp L A -> World -> Prop)
    (E : FcpError -> NativeHostApp L A -> World -> Prop) (C : World -> Prop) w :
  app_paths s = paths ->
  (forall b1 w', config_to_vec_pretty candidate = Ok b1 -> file_at w' config_file = Some b1 -> calm w w' ->
     verify_config_bytes b1 = Ok tt -> Q tt (set_config candidate (config_digest_of b1) s) w') ->
  (forall e w', calm w w' -> file_at w' config_file = file_at w config_file \/
     (exists b1, config_to_vec_pretty candidate = Ok b1 /\ file_at w' config_file = Some b1 /\ verify_config_bytes b1 = Ok tt) -> E e s w') ->
  (forall w', calm w w' -> file_at w' config_file = file_at w config_file \/
     (exists b1, config_to_vec_pretty candidate = Ok b1 /\ file_at w' config_file = Some b1 /\ verify_config_bytes b1 = Ok tt) -> C w') ->
  wp (commit_config candidate) Q E C s w.
Proof.
  intros Hp HQ HE HC. unfold commit_config. apply wp_bind, wp_lift.
  destruct (config_to_vec_pretty candidate) as [b1|e] eqn:Hb1; [|apply HE; [done|by left]].
  apply wp_bind, wp_get, wp_bind, wp_io. rewrite Hp.
  eapply wp_mono; [apply wp_and|..].
  - apply (wp_write_verified_pure config_file b1 verify_config_bytes
      (fun _ _ w' => file_at w' config_file = Some b1 /\ verify_config_bytes b1 = Ok tt)
      (fun _ _ w' => file_at w' config_file = file_at w config_file \/ (file_at w' config_file = Some b1 /\ verify_config_bytes b1 = Ok tt))
      (fun w' => file_at w' config_file = file_at w config_file \/ (file_at w' config_file = Some b1 /\ verify_config_bytes b1 = Ok tt))); naive_solver.
  - apply (wp_calm (write_verified config_file b1 _)). intros p Hwatched. apply kept_write_verified.
    + intros c. apply kept_lift.
    + intros Hw%writer_files_dir. by eapply watched_elsewhere in Hw; [|done|set_solver].
    + cbn. unfold path_join. intros parent. rewrite <- app_assoc. unfold path_parent.
      destruct (home ++ _) eqn:Hnil; [by apply app_eq_nil in Hnil as [_ Hnil]|].
      rewrite <- Hnil, removelast_app by done. intros [= <-]. by apply watched_not_above.
  - cbn beta. intros [] [] w' [[Hf Hv] Hc]. by apply wp_modify, HQ.
  - cbn beta. intros e [] w' [Hf Hc]. apply HE; [done|]. destruct Hf; [by left|right; eexists; split_and!; naive_solver].
  - cbn beta. intros w' [Hf Hc]. apply HC; [done|]. destruct Hf; [by left|right; eexists; split_and!; naive_solver].
Qed.

(** ** The start of the host *)

(** The vault directory exists, the one-time migrations are over, and no second
    file spells the group. *)
Record start_ready (w : World) : Prop := {
  sr_dir : is_Some (w_fs w !! vaults);
  sr_lease : w_fs w !! dp_legacy_lease_metadata paths = None;
  sr_ledger : w_fs w !! dp_legacy_capability_ledger paths = None;
  sr_canonical q : path_parent q = Some vaults -> is_Some (w_fs w !! q) -> staged_group_id q = Some g ->
    q = staged_delete_path_for vaults g;
}.

(** The bytes hold the configuration [c], in the current version. *)
Definition stores_config (bc : bytes) (c : AccountGroupsConfig) : Prop :=
  (exists v, from_slice bc = Ok v /\ migrate_value v = Ok None) /\ from_slice bc = Ok c /\ valid_config c.

Lemma written_config_stored c bc : config_to_vec_pretty c = Ok bc -> verify_config_bytes bc = Ok tt -> stores_config bc c.
Proof using CL.
  intros Hb Hv. pose proof (config_reads_back c bc Hb) as Hc. unfold verify_config_bytes in Hv. rewrite Hc in Hv.
  apply validate_config_valid in Hv. split; [|done].
  destruct (config_is_object c bc Hb) as (fields & Hf & Hver). exists (JObject fields). split; [done|].
  unfold migrate_value. by rewrite Hver, (vc_version _ Hv).
Qed.

Lemma wp_load_stored bc c w (Q : LoadedConfig -> unit -> World -> Prop) (E : FcpError -> unit -> World -> Prop) (C : World -> Prop) :
  no_faults w -> file_at w config_file = Some bc -> stores_config bc c ->
  (forall w', no_faults w' -> w_fs w' = w_fs w -> Q (mkLoadedConfig c (encode_hex (sha256 bc))) tt w') ->
  (forall e w', w_fs w' = w_fs w -> E e tt w') -> (forall w', w_fs w' = w_fs w -> C w') ->
  wp (load_config config_file) Q E C tt w.
Proof.
  intros Hnf Hf ((v & Hv & Hm) & Hc & Hvalid%validate_config_valid) HQ HE HC. unfold load_config.
  apply wp_bind, wp_fs_exists_exact; [intros n; by rewrite Hnf| |by apply HC].
  rewrite bool_decide_true by (rewrite (file_at_lookup _ _ _ Hf); by eexists).
  apply wp_bind, wp_fs_read; [|intros; by apply HE|by apply HE|by apply HC].
  intros b' Hb'. rewrite file_at_tick, Hf in Hb'. injection Hb' as <-.
  apply wp_bind, wp_lift. rewrite Hv. apply wp_bind, wp_lift. rewrite Hm.
  apply wp_bind, wp_ret, wp_bind, wp_lift. rewrite Hc. apply wp_bind, wp_lift. rewrite Hvalid.
  by apply wp_ret, HQ.
Qed.

(** The start up to the recovery of the staged deletions, turn by turn. *)
Lemma wp_open_vaults bc c w (Q : LoadedConfig -> unit -> World -> Prop) :
  no_faults w -> file_at w config_file = Some bc -> stores_config bc c -> start_ready w ->
  (forall entries w', w_fs w' = w_fs w ->
     (forall q, q ∈ entries <-> path_parent q = Some vaults /\ is_Some (w_fs w !! q)) ->
     wp (for_each entries (recover_entry vaults (vault_owners c)))
       (fun _ _ w' => Q (mkLoadedConfig c (encode_hex (sha256 bc))) tt w') (fun _ _ _ => True) (fun _ => True) tt w') ->
  wp (open_vaults paths) Q (fun _ _ _ => True) (fun _ => True) tt w.
Proof using Type.
  intros Hnf Hf Hc [Hdir Hl1 Hl2 Hcan] HQ. unfold open_vaults. apply wp_bind.
  eapply wp_load_stored; [done..| |done|done]. intros w1 Hnf1 Hfs1.
  assert (Hskip : forall legacy target w2 (Q2 : unit -> unit -> World -> Prop), no_faults w2 -> w_fs w2 !! legacy = None ->
    Q2 tt tt (tick w2) -> wp (migrate_one legacy target) Q2 (fun _ _ _ => True) (fun _ => True) tt w2).
  { intros legacy target w2 Q2 Hn2 Hnone HQ2. unfold migrate_one.
    apply wp_bind, wp_fs_exists_exact; [intros n; by rewrite Hn2| |done].
    rewrite bool_decide_false by (rewrite Hnone; by intros []). cbn [negb]. by apply wp_bind, wp_ret, wp_ret. }
  apply wp_bind. unfold migrate_phase5_group.
  apply wp_bind, Hskip; [done|by rewrite Hfs1|]. apply Hskip; [done|cbn; by rewrite Hfs1|].
  set (w3 := tick (tick w1)). assert (Hnf3 : no_faults w3) by done. assert (Hfs3 : w_fs w3 = w_fs w) by done. clearbody w3.
  apply wp_bind. cbn [lc_config]. unfold recover_staged_deletions.
  apply wp_bind, wp_fs_exists_exact; [intros n; by rewrite Hnf3| |done].
  rewrite bool_decide_true by (by rewrite Hfs3). cbn [negb].
  apply wp_bind, wp_fs_read_dir; [|done..]. intros entries Hentries. cbn in Hentries. rewrite Hfs3 in Hentries.
  apply (wp_mono _ (fun _ _ w' => Q (mkLoadedConfig c (encode_hex (sha256 bc))) tt w') _ (fun _ _ _ => True) _ (fun _ => True));
    [by apply HQ| |done|done]. by intros [] [] w' HQ'.
Qed.

Lemma wp_recover_entry_any configured q w :
  wp (recover_entry vaults configured q) (fun _ _ _ => True) (fun _ _ _ => True) (fun _ => True) tt w.
Proof.
  unfold recover_entry. apply wp_bind, wp_fs_dir_entry; [|done..].
  destruct (staged_group_id q) as [g'|] eqn:Hq; [|by apply wp_ret].
  assert (Hr : forall w, wp (remove_if_exists q) (fun _ _ _ => True) (fun _ _ _ => True) (fun _ => True) tt w)
    by (intros; by apply wp_remove_if_exists).
  destruct (bool_decide (g' ∈ configured)); [|by apply wp_bind, wp_ret, Hr].
  apply wp_bind, wp_bind, wp_fs_exists; [|done]. intros present _. apply wp_ret.
  destruct (negb present); [|apply Hr]. apply wp_fs_rename_nodes; [|done..].
  intros ->. by rewrite staged_group_id_vault in Hq.
Qed.

(** The restart after an interrupted removal settles the vault. *)
Lemma wp_restart_settles bc c w :
  no_faults w -> file_at w config_file = Some bc -> stores_config bc c -> start_ready w ->
  pending_or_settled vaults g (vault_owners c) b w ->
  wp (open_vaults paths)
     (fun loaded _ w' => lc_config loaded = c /\ settled_state vaults g (vault_owners c) b w')
     (fun _ _ _ => True) (fun _ => True) tt w.
Proof using UL g_width.
  intros Hnf Hf Hc Hready Hst. eapply wp_open_vaults; [done..|]. intros entries w1 Hfs1 Hentries.
  apply (wp_recover_entries vaults g (vault_owners c) b g_width); [| | |done..].
  - intros q Hq. apply Hentries in Hq as [Hp Hs]. by apply (sr_canonical _ Hready).
  - unfold pending_or_settled, staged_state, settled_state in *. by rewrite Hfs1.
  - destruct Hst as [Hst|Hst]; [left|right; unfold settled_state in *; by rewrite Hfs1].
    apply Hentries. split; [|destruct Hst as [_ ->]; by eexists].
    unfold staged_delete_path_for, path_join, path_parent. rewrite removelast_last. cbn. by destruct (_ ++ _) eqn:Hn; [by apply app_eq_nil in Hn as [_ ?]|].
Qed.

Lemma wp_restart_loads bc c w :
  no_faults w -> file_at w config_file = Some bc -> stores_config bc c -> start_ready w ->
  wp (open_vaults paths) (fun loaded _ w' => lc_config loaded = c) (fun _ _ _ => True) (fun _ => True) tt w.
Proof.
  intros Hnf Hf Hc Hready. eapply wp_open_vaults; [done..|]. intros entries w1 _ _.
  clear. revert w1. induction entries as [|q entries IH]; intros w1; [done|]. cbn [for_each]. apply wp_bind.
  eapply wp_mono; [apply wp_recover_entry_any| |done|done]. intros [] [] w2 _. apply IH.
Qed.

(** ** The removal *)

Definition without_group (c : AccountGroupsConfig) : AccountGroupsConfig :=
  set_cfg_groups (List.filter (fun x => negb (ag_id x =? g)) (cfg_groups c)) c.

Lemma without_group_not_owner c : g ∉ vault_owners (without_group c).
Proof.
  unfold vault_owners. rewrite elem_of_list_to_set, list_elem_of_fmap. intros (x & Hx & Hin).
  apply list_elem_of_In, filter_In in Hin as [Hin _]. cbn [without_group set_cfg_groups cfg_groups] in Hin.
  apply filter_In in Hin as [_ Hn]. by rewrite <- Hx, N.eqb_refl in Hn.
Qed.

Context (s : NativeHostApp L A) (runtime : GroupRuntime) (b0 : bytes).

(** The host serves the group, its configuration is the one on disk and owns the
    vault, which is in place. *)
Record removal_ready (w : World) : Prop := {
  rr_paths : app_paths s = paths;
  rr_runtime : bt_get g (app_groups s) = Some runtime;
  rr_store : vt_vault_store (rt_transactions runtime) = vaults;
  rr_group : vt_group_id (rt_transactions runtime) = g;
  rr_audit : sink_directory (app_audit s) = dp_audit_directory paths;
  rr_owner : g ∈ vault_owners (app_config s);
  rr_disk : file_at w config_file = Some b0 /\ stores_config b0 (app_config s);
  rr_vault : in_place vaults g b w;
  rr_start : start_ready w;
}.

(** A restart from the world without faults. *)
Definition restarts (Q : LoadedConfig -> World -> Prop) (w : World) : Prop := forall w1,
  w_fs w1 = w_fs w -> no_faults w1 ->
  wp (open_vaults paths) (fun loaded _ w' => Q loaded w') (fun _ _ _ => True) (fun _ => True) tt w1.

Definition still_protected (loaded : LoadedConfig) (w : World) : Prop :=
  (lc_config loaded = app_config s /\ in_place vaults g b w) \/ lc_config loaded = without_group (app_config s).

(** Where a removal can stand. *)
Definition removal_state (w : World) : Prop :=
  start_ready w /\
  ((file_at w config_file = Some b0 /\ (in_place vaults g b w \/ staged_state vaults g b w)) \/
   (exists b1, file_at w config_file = Some b1 /\ stores_config b1 (without_group (app_config s)))).

Definition removed_state (w : World) : Prop :=
  start_ready w /\ gone vaults g w /\
  exists b1, file_at w config_file = Some b1 /\ stores_config b1 (without_group (app_config s)).

Lemma same_fs_file w1 w p : w_fs w1 = w_fs w -> file_at w1 p = file_at w p.
Proof. unfold file_at. by intros ->. Qed.

Lemma start_ready_calm w w' : calm w w' -> start_ready w -> start_ready w'.
Proof.
  intros Hc [H1 H2 H3 H4]. unfold calm in Hc.
  split; [rewrite Hc by (right; by left); done|rewrite Hc by (right; right; by left); done
         |rewrite Hc by (right; right; by right); done|].
  intros q Hq. rewrite Hc; [by apply H4|]. left. revert Hq. unfold path_parent. destruct q; [done|]. by intros [=].
Qed.

Lemma removal_state_restarts w :
  removal_state w -> stores_config b0 (app_config s) -> g ∈ vault_owners (app_config s) -> restarts still_protected w.
Proof using UL g_width.
  intros [Hready Hst] Hb0 Hown w1 Hfs Hnf.
  assert (Hready1 : start_ready w1) by (apply (start_ready_calm w); [intros p _; by rewrite Hfs|done]).
  destruct Hst as [[Hf Hv]|(b1 & Hf & Hb1)].
  - eapply wp_mono; [eapply (wp_restart_settles b0)|..]; [done|by rewrite (same_fs_file _ w)|done|done| | |done|done].
    + unfold pending_or_settled, staged_state, settled_state, in_place in *. rewrite Hfs, bool_decide_true by done.
      destruct Hv as [Hv|Hv]; [by right|by left].
    + intros loaded [] w2 [Hl Hs]. left. split; [done|]. unfold settled_state in Hs. by rewrite bool_decide_true in Hs.
  - eapply wp_mono; [eapply (wp_restart_loads b1)|..]; [done|by rewrite (same_fs_file _ w)|done|done| |done|done].
    intros loaded [] w2 Hl. by right.
Qed.

Lemma removed_state_restarts w :
  removed_state w -> restarts (fun loaded w' => lc_config loaded = without_group (app_config s) /\ gone vaults g w') w.
Proof using UL g_width b.
  intros (Hready & Hg & b1 & Hf & Hb1) w1 Hfs Hnf.
  assert (Hready1 : start_ready w1) by (apply (start_ready_calm w); [intros p _; by rewrite Hfs|done]).
  assert (Hno : bool_decide (g ∈ vault_owners (without_group (app_config s))) = false)
    by (apply bool_decide_eq_false, without_group_not_owner).
  eapply wp_mono; [eapply (wp_restart_settles b1)|..]; [done|by rewrite (same_fs_file _ w)|done|done| | |done|done].
  - right. unfold settled_state, gone in *. by rewrite Hfs, Hno.
  - intros loaded [] w2 [Hl Hs]. split; [done|]. unfold settled_state in Hs. by rewrite Hno in Hs.
Qed.

(** ** The steps of the removal *)

Lemma others_kept_ready w w' : others_kept vaults g w w' -> start_ready w -> start_ready w'.
Proof using UL g_width.
  intros [_ Ho] [H1 H2 H3 H4].
  assert (Hlen : forall n l, path_for vaults n = l \/ staged_delete_path_for vaults n = l -> length l = (length home + 3)%nat).
  { intros n l [<-|<-]; unfold path_for, staged_delete_path_for, path_join; cbn [from_root dp_vault_groups];
      unfold path_join; rewrite !length_app; cbn; lia. }
  assert (Hd : forall l, length l <> (length home + 3)%nat -> is_Some (w_fs w !! l) \/ ~ l `prefix_of` vaults ->
    w_fs w' !! l = w_fs w !! l).
  { intros l Hl Hp. apply Ho; [done|intros ->; apply Hl, (Hlen g); by left|intros ->; apply Hl, (Hlen g); by right]. }
  assert (Hlegacy : forall n, ~ path_join (path_join home "leases") n `prefix_of` vaults).
  { intros n. cbn [from_root dp_vault_groups]. unfold path_join. rewrite <- !app_assoc. intros Hp%below_home_prefix.
    destruct Hp as [k Hk]. cbn in Hk. by injection Hk. }
  split.
  - rewrite Hd; [done| |by left]. cbn [from_root dp_vault_groups]. unfold path_join. rewrite !length_app. cbn. lia.
  - rewrite Hd; [done| |right; apply Hlegacy]. cbn. unfold path_join. rewrite !length_app. cbn. lia.
  - rewrite Hd; [done| |right; apply Hlegacy]. cbn. unfold path_join. rewrite !length_app. cbn. lia.
  - intros q Hq Hs Hid. destruct (decide (q = staged_delete_path_for vaults g)) as [|Hne]; [done|].
    apply H4; [done| |done].
    assert (q <> path_for vaults g) by (intros ->; by rewrite staged_group_id_vault in Hid).
    rewrite Ho in Hs; [done|right|done|done].
    apply path_parent_join in Hq as [n ->]. by apply (in_root_not_prefix vaults).
Qed.

Lemma others_kept_config w w' : others_kept vaults g w w' -> file_at w' config_file = file_at w config_file.
Proof.
  intros [_ Ho]. unfold file_at. rewrite Ho; [done|right| |].
  - cbn. unfold path_join. rewrite <- !app_assoc. intros Hp%below_home_prefix. destruct Hp as [k Hk]. by injection Hk.
  - cbn. unfold path_for, path_join. cbn. unfold path_join. rewrite <- !app_assoc. by intros Heq%app_inv_head.
  - cbn. unfold staged_delete_path_for, path_join. cbn. unfold path_join. rewrite <- !app_assoc. by intros Heq%app_inv_head.
Qed.

Lemma calm_vault w w' : calm w w' ->
  (in_place vaults g b w -> in_place vaults g b w') /\ (staged_state vaults g b w -> staged_state vaults g b w') /\
  (gone vaults g w -> gone vaults g w').
Proof.
  intros Hc. unfold in_place, staged_state, gone.
  rewrite !Hc by (left; unfold path_for, staged_delete_path_for, path_join; apply removelast_last). auto.
Qed.

(** The projections and the audit record change nothing that is watched. *)
Lemma projections_calm w :
  wp (remove_group_projections paths g)
     (fun _ _ w' => calm w w' /\ file_at w' config_file = file_at w config_file)
     (fun _ _ w' => calm w w' /\ file_at w' config_file = file_at w config_file)
     (fun w' => calm w w' /\ file_at w' config_file = file_at w config_file) tt w.
Proof.
  assert (Hk : forall p, p <> lease_path paths g -> p <> capability_path paths g -> p <> operation_journal_path paths g ->
    kept p (remove_group_projections paths g)).
  { intros p H1 H2 H3. unfold remove_group_projections. cbn [for_each].
    assert (Hr : forall q, p <> q -> kept p (remove_ignoring_absence q)) by (intros; unfold remove_ignoring_absence; kept_tac).
    repeat (apply kept_bind; [by apply Hr|intros []]). apply kept_ret. }
  apply wp_and.
  - apply wp_calm. intros p Hp.
    assert (Hne : forall x y n, [x; y] ∈ [["leases"; "groups"]; ["leases"; "capabilities"]; ["operations"; "groups"]]%string ->
      p <> path_join (path_join (path_join home x) y) n).
    { intros x y n Hl ->. refine (watched_elsewhere _ [x; y] Hp _ _).
      - rewrite list_elem_of_In in *. cbn in *. tauto.
      - unfold path_join. rewrite removelast_last. by rewrite <- app_assoc. }
    apply Hk; apply Hne; rewrite list_elem_of_In; cbn; auto.
  - assert (Hc : kept config_file (remove_group_projections paths g)).
    { apply Hk; cbn; unfold lease_path, capability_path, operation_journal_path; cbn; unfold path_join;
        rewrite <- !app_assoc; intros Heq%app_inv_head; discriminate Heq. }
    eapply wp_mono; [apply Hc|cbn beta..]; unfold file_at; by intros; rewrite H.
Qed.

Lemma record_calm w (a : L) ev out op det :
  sink_directory a = dp_audit_directory paths ->
  wp (sink_record g ev out op det)
     (fun _ _ w' => calm w w' /\ file_at w' config_file = file_at w config_file)
     (fun _ _ w' => calm w w' /\ file_at w' config_file = file_at w config_file)
     (fun w' => calm w w' /\ file_at w' config_file = file_at w config_file) a w.
Proof using ASL CL UL g_width.
  intros Ha. apply wp_and.
  - apply (wp_calm (sink_record g ev out op det)). intros p Hp. apply sink_record_nodes; rewrite Ha.
    + apply (watched_elsewhere p ["audit"]%string Hp). rewrite list_elem_of_In. cbn. auto.
    + by apply watched_not_above.
  - eapply wp_mono; [apply sink_record_frame|cbn beta..]; rewrite Ha; unfold in_directory.
    + intros _ a' w' [_ Ho]. eapply agree_off_file; [exact Ho|]. cbn. unfold path_join.
      rewrite removelast_last. by intros Heq%app_inv_head.
    + intros _ a' w' [_ Ho]. eapply agree_off_file; [exact Ho|]. cbn. unfold path_join.
      rewrite removelast_last. by intros Heq%app_inv_head.
    + intros w' Ho. eapply agree_off_file; [exact Ho|]. cbn. unfold path_join.
      rewrite removelast_last. by intros Heq%app_inv_head.
Qed.

(** After the configuration was written. *)
Lemma wp_finish_removal b1 (s1 : NativeHostApp L A) w1 :
  bt_get g (app_groups s1) = Some runtime -> app_paths s1 = paths ->
  sink_directory (app_audit s1) = dp_audit_directory paths ->
  vt_vault_store (rt_transactions runtime) = vaults -> vt_group_id (rt_transactions runtime) = g ->
  file_at w1 config_file = Some b1 -> stores_config b1 (without_group (app_config s)) -> start_ready w1 ->
  staged_state vaults g b w1 ->
  wp (finish_removal g)
     (fun _ s' w' => removed_state w' /\ app_groups s' = bt_remove g (app_groups s1) /\ app_config s' = app_config s1)
     (fun _ _ w' => removal_state w') (fun w' => removal_state w') s1 w1.
Proof using ASL CL UL g_width.
  intros Hrt Hp Ha Hst Hg Hf Hb1 Hready Hstaged. unfold finish_removal, runtime_of.
  apply wp_bind, wp_bind, wp_get, wp_ret, wp_bind, wp_ok_or_throw. rewrite Hrt.
  assert (Hcfg : forall w', start_ready w' -> file_at w' config_file = file_at w1 config_file -> removal_state w').
  { intros w' Hr Hf'. split; [done|]. right. exists b1. by rewrite Hf'. }
  apply wp_bind, wp_io. unfold commit_staged_invalidation. rewrite Hst, Hg.
  eapply wp_commit_staged; [done|exact Hstaged| | |].
  2: { intros e w2 _ Ho. apply Hcfg; [by eapply others_kept_ready|by apply others_kept_config]. }
  2: { intros w2 _ Ho. apply Hcfg; [by eapply others_kept_ready|by apply others_kept_config]. }
  intros w2 Hgone Ho. pose proof (others_kept_ready _ _ Ho Hready) as Hr2. pose proof (others_kept_config _ _ Ho) as Hf2.
  apply wp_bind, wp_modify, wp_bind, wp_get. cbn [app_paths set_groups]. rewrite Hp.
  assert (Hkeep : forall w3 w4, start_ready w3 /\ gone vaults g w3 /\ file_at w3 config_file = file_at w1 config_file ->
    calm w3 w4 -> file_at w4 config_file = file_at w3 config_file ->
    start_ready w4 /\ gone vaults g w4 /\ file_at w4 config_file = file_at w1 config_file).
  { intros w3 w4 (Hr3 & Hg3 & Hf3) Hc Hf4. split_and!; [by eapply start_ready_calm|by apply (calm_vault _ _ Hc)|congruence]. }
  assert (H2 : start_ready w2 /\ gone vaults g w2 /\ file_at w2 config_file = file_at w1 config_file) by done.
  apply wp_bind, wp_try, wp_io.
  assert (Hafter : forall w3, start_ready w3 /\ gone vaults g w3 /\ file_at w3 config_file = file_at w1 config_file ->
    wp (_ ← try_ (app_record g "config" "success" None (Some "group_removed"%string)); config_updated)
     (fun _ s' w' => removed_state w' /\ app_groups s' = bt_remove g (app_groups s1) /\ app_config s' = app_config s1)
     (fun _ _ w' => removal_state w') (fun w' => removal_state w') (set_groups (bt_remove g (app_groups s1)) s1) w3).
  { intros w3 H3. apply wp_bind, wp_try. unfold app_record. apply wp_zoom.
    assert (Hend : forall l w4, calm w3 w4 /\ file_at w4 config_file = file_at w3 config_file ->
      wp config_updated (fun _ s' w' => removed_state w' /\ app_groups s' = bt_remove g (app_groups s1) /\ app_config s' = app_config s1)
        (fun _ _ w' => removal_state w') (fun w' => removal_state w')
        (set_audit l (set_groups (bt_remove g (app_groups s1)) s1)) w4).
    { intros l w4 [Hc4 Hf4]. apply wp_bind, wp_get, wp_ret. destruct (Hkeep _ _ H3 Hc4 Hf4) as (Hr4 & Hg4 & Hf5).
      split_and!; [|done..]. split_and!; [done|done|]. exists b1. by rewrite Hf5. }
    eapply wp_mono; [apply record_calm; exact Ha|..]; cbn beta; [intros [] l w4; apply Hend|intros e l w4; apply Hend|].
    intros w4 [Hc4 Hf4]. destruct (Hkeep _ _ H3 Hc4 Hf4) as (Hr4 & _ & Hf5). by apply Hcfg. }
  eapply wp_mono; [apply projections_calm|..]; cbn beta;
    [intros [] [] w3 [Hc3 Hf3]|intros e [] w3 [Hc3 Hf3]|intros w3 [Hc3 Hf3]];
    pose proof (Hkeep _ _ H2 Hc3 Hf3) as H3; [by apply Hafter|by apply Hafter|].
  destruct H3 as (? & _ & ?). by apply Hcfg.
Qed.

(** The whole. *)
Lemma wp_group_remove w :
  removal_ready w -> (forall n, env_fault (w_env w) (S (w_step w)) <> IoFault n) ->
  wp (handle_group_remove (mkGroupRemove g))
     (fun _ s' w' => removed_state w' /\ app_groups s' = bt_remove g (app_groups s) /\
        app_config s' = without_group (app_config s))
     (fun _ _ w' => removal_state w') (fun w' => removal_state w') s w.
Proof using ASL CL UL g_width.
  intros [Hp Hrt Hst Hg Ha Hown [Hf Hb0] Hv Hready] Hans. unfold handle_group_remove, runtime_of. cbn [gr_account_group_id].
  apply wp_bind, wp_bind, wp_get, wp_ret. rewrite Hrt.
  assert (Hcfg : forall w', start_ready w' -> file_at w' config_file = Some b0 ->
    in_place vaults g b w' \/ staged_state vaults g b w' -> removal_state w').
  { intros w' Hr Hf' Hv'. split; [done|]. by left. }
  assert (Hok : forall w', others_kept vaults g w w' -> start_ready w' /\ file_at w' config_file = Some b0).
  { intros w' Ho. split; [by eapply others_kept_ready|]. by rewrite (others_kept_config _ _ Ho). }
  apply wp_bind, wp_io. unfold stage_invalidation. rewrite Hst, Hg.
  eapply wp_stage_delete; [done|exact Hv|exact Hans| | |].
  2: { intros e w1 Hv1 Ho. destruct (Hok _ Ho). apply Hcfg; auto. }
  2: { intros w1 Hv1 Ho. destruct (Hok _ Ho). apply Hcfg; auto. }
  intros w1 Hv1 Ho. destruct (Hok _ Ho) as [Hr1 Hf1].
  apply wp_bind, wp_get, wp_bind, wp_lift. fold (without_group (app_config s)).
  destruct (validate_config (without_group (app_config s))) as [[]|e]; [|by apply Hcfg; auto].
  apply wp_bind, wp_try.
  assert (Hmid : forall w2, calm w1 w2 -> file_at w2 config_file = file_at w1 config_file \/
     (exists b1, config_to_vec_pretty (without_group (app_config s)) = Ok b1 /\ file_at w2 config_file = Some b1 /\
        verify_config_bytes b1 = Ok tt) ->
     staged_state vaults g b w2 /\ removal_state w2).
  { intros w2 Hc Hf2. pose proof (start_ready_calm _ _ Hc Hr1). pose proof (proj1 (proj2 (calm_vault _ _ Hc)) Hv1).
    split; [done|]. destruct Hf2 as [Hf2|(b1 & Hb1 & Hf2 & Hvb)]; [apply Hcfg; [done|congruence|by right]|].
    split; [done|]. right. exists b1. split; [done|]. by apply written_config_stored. }
  apply commit_config_calm; [done| | |].
  - intros b1 w2 Hb1 Hf2 Hc Hvb.
    destruct (Hmid w2 Hc (or_intror (ex_intro _ b1 (conj Hb1 (conj Hf2 Hvb))))) as [Hv2 _].
    eapply wp_mono; [eapply (wp_finish_removal b1)|..]; cbn; try done.
    + by apply written_config_stored.
    + by apply (start_ready_calm _ _ Hc).
  - intros e w2 Hc Hf2. destruct (Hmid w2 Hc Hf2) as [Hv2 Hs2]. unfold undo_removal, runtime_of.
    apply wp_bind, wp_bind, wp_get, wp_ret, wp_bind, wp_ok_or_throw. rewrite Hrt.
    apply wp_bind, wp_io. unfold rollback_staged_invalidation. rewrite Hst, Hg.
    assert (Hroll : forall w3, others_kept vaults g w2 w3 -> in_place vaults g b w3 \/ staged_state vaults g b w3 -> removal_state w3).
    { intros w3 Ho3 Hv3. destruct Hs2 as [Hr2 Hs2]. split; [by eapply others_kept_ready|].
      rewrite !(others_kept_config _ _ Ho3). destruct Hs2 as [[Hf3 _]|Hs2]; [by left|by right]. }
    eapply wp_rollback; [done|exact Hv2|intros; by apply Hroll|intros; apply Hroll; auto|intros; apply Hroll; auto].
  - intros w2 Hc Hf2. by apply Hmid.
Qed.
End Removal.

(** ** Properties *)

(** C5: Removing a protected group is safe at every step. Whatever fails and
    wherever the process dies, a restart (without further faults) either finds the
    configuration with the group and the vault in place, byte for byte, or loads
    the configuration without the group; so the host never comes back to a group
    whose only copy of the session is lost. And if the removal reported success,
    the group is served no more and every restart finds neither the group nor its
    vault. (The existence check of the vault must be answered; no second file of the
    vault directory may spell the group.) *)
Theorem removal_crash_safe `{UT : UuidText, UL : !UuidTextLaws, SH : Sha256, AE : Aead, LS : LocalSecret, SP : Serde VaultPayload,
    SL : Serde CapabilityLedger, SM : Serde LeaseMetadata, KB : KekBackend, JB : Serde BoundRequest,
    JJ : Serde OperationJournal, CS : CookieSerde, PSL : Psl, SV : Serde JsonValue, JP : JsonPretty,
    SC : Serde AccountGroupsConfig, CP : ConfigPretty, CL : !ConfigSerdeLaws}
    {L A : Type} `{AS : AuditSink L, ASL : !AuditSinkLaws L} `{PA : PlatformAuthorizer A}
    home g b (s : NativeHostApp L A) runtime b0 w :
  g < 2 ^ 128 -> removal_ready home g b s runtime b0 w ->
  (forall n, env_fault (w_env w) (S (w_step w)) <> IoFault n) ->
  wp (handle_group_remove (mkGroupRemove g))
     (fun _ s' w' => bt_get g (app_groups s') = None /\ app_config s' = without_group g (app_config s) /\
        restarts home (fun loaded w2 => lc_config loaded = without_group g (app_config s) /\
                         gone (dp_vault_groups (from_root home)) g w2) w')
     (fun _ _ w' => restarts home (still_protected home g b s) w')
     (fun w' => restarts home (still_protected home g b s) w') s w.
Proof.
  intros Hg Hready Hans. pose proof Hready as [_ _ _ _ _ Hown [_ Hb0] _ _].
  eapply wp_mono; [by eapply wp_group_remove|cbn beta..].
  - intros _ s' w' (Hr & -> & ->). split_and!; [apply bt_get_remove|done|]. by eapply removed_state_restarts.
  - intros _ s' w' Hr. by eapply removal_state_restarts.
  - intros w' Hr. by eapply removal_state_restarts.
Qed.

(** ** An instance *)

Definition codec_policy : Codec PolicyLevel.
Proof.
  refine (codec_iso (fun p => match p with Policy.Critical => 0 | Policy.Balanced => 1 | Policy.Convenient => 2 | Policy.Monitor => 3 end)
    (fun n => match n with 0 => Policy.Critical | 1 => Policy.Balanced | 2 => Policy.Convenient | _ => Policy.Monitor end) _ codec_N).
  by intros [].
Defined.

Definition codec_group : Codec AccountGroup.
Proof.
  refine (codec_iso (fun g => (ag_id g, (ag_display_name g, (ag_scope g, ag_policy_level g))))
    (fun '(id, (name, (scope, policy))) => mkAccountGroup id name scope policy Store.NormalProfile) _
    (codec_pair codec_N (codec_pair codec_string (codec_pair codec_string codec_policy)))).
  by intros [? ? ? ? []].
Defined.

Definition codec_config : Codec AccountGroupsConfig.
Proof.
  refine (codec_iso (fun c => (cfg_version c, (cfg_compatibility_version c, cfg_groups c)))
    (fun '(v, (cv, groups)) => mkConfig v cv groups) _ (codec_pair codec_N (codec_pair codec_N (codec_list codec_group)))).
  by intros [].
Defined.

(** The bundled configuration, which has no groups, and the encoded ones. *)
Definition toy_config : Serde AccountGroupsConfig := {|
  to_vec c := Ok (enc codec_config c);
  from_slice b := if bool_decide (b = BUNDLED_CONFIG) then Ok (mkConfig 3 3 []) else @from_slice _ (codec_json codec_config) b;
|}.
Definition toy_config_pretty : ConfigPretty := fun c => Ok (enc codec_config c).
Definition toy_json : Serde JsonValue := {|
  to_vec _ := Err Json;
  from_slice b :=
    match @from_slice _ toy_config b with
    | Ok c => Ok (JObject [("version"%string, JU64 (cfg_version c))])
    | Err e => Err e
    end;
|}.
Definition toy_json_pretty : JsonPretty := fun _ => Err Json.
Definition toy_psl : Psl := fun s => Some s.

Lemma toy_config_laws : @ConfigSerdeLaws toy_json toy_config toy_config_pretty.
Proof.
  assert (Hc : forall c, @from_slice _ toy_config (enc codec_config c) = Ok c).
  { intros c. cbn [from_slice toy_config]. rewrite bool_decide_false; [by apply (codec_json_laws codec_config)|].
    assert (He : exists rest, enc codec_config c = enc_pos (N.succ_pos (cfg_version c)) ++ rest) by (by eexists).
    destruct He as [rest ->]. assert (Hb : head BUNDLED_CONFIG = Some Byte.x7b) by reflexivity.
    intros Heq. rewrite <- Heq in Hb. by destruct (N.succ_pos (cfg_version c)). }
  split.
  - intros c b [= <-]. apply Hc.
  - intros c b [= <-]. exists [("version"%string, JU64 (cfg_version c))]. split; [|done].
    change (match @from_slice _ toy_config (enc codec_config c) with
            | Ok c => Ok (JObject [("version"%string, JU64 (cfg_version c))])
            | Err e => Err e
            end = Ok (JObject [("version"%string, JU64 (cfg_version c))]) :> FcpResult JsonValue).
    by rewrite Hc.
Qed.

Section RemovalExample.
#[local] Existing Instances toy_uuid_text toy_uuid_text_laws toy_sha256 toy_aead toy_payload toy_bound_request toy_journal toy_kek toy_ledger
  toy_lease toy_cookies toy_authorizer silent_sink silent_sink_laws toy_local_secret toy_psl toy_json toy_json_pretty toy_config toy_config_pretty toy_config_laws.

Definition protected_config : AccountGroupsConfig :=
  mkConfig 3 3 [mkAccountGroup 77 "Mail" "example.com" Policy.Balanced Store.NormalProfile].
Definition protected_app : NativeHostApp Path unit :=
  mkApp [(77, fresh_runtime)] (dp_audit_directory example_paths) example_paths protected_config "" true None None
    new_monitor PROTOCOL_VERSION (Some 3).
Definition protected_world (fault : nat -> Fault) : World :=
  mkWorld {[ dp_vault_groups example_paths := Dir;
             path_for (dp_vault_groups example_paths) 77 := File (str_bytes "vault");
             dp_account_groups_config example_paths := File (enc codec_config protected_config) ]} 0
    (mkEnv fault (fun n => N.of_nat n) (fun _ => 0)).

Lemma removal_crash_safe_witness :
  wp (handle_group_remove (mkGroupRemove 77))
     (fun _ s' w' => bt_get 77 (app_groups s') = None /\ app_config s' = without_group 77 (app_config protected_app) /\
        restarts ["data"%string] (fun loaded w2 => lc_config loaded = without_group 77 (app_config protected_app) /\
                         gone (dp_vault_groups (from_root ["data"%string])) 77 w2) w')
     (fun _ _ w' => restarts ["data"%string] (still_protected ["data"%string] 77 (str_bytes "vault") protected_app) w')
     (fun w' => restarts ["data"%string] (still_protected ["data"%string] 77 (str_bytes "vault") protected_app) w')
     protected_app (protected_world (fun _ => NoFault)).
Proof.
  apply (removal_crash_safe ["data"%string] 77 (str_bytes "vault") protected_app fresh_runtime (enc codec_config protected_config)).
  - reflexivity.
  - split.
    + reflexivity.
    + reflexivity.
    + reflexivity.
    + reflexivity.
    + reflexivity.
    + apply elem_of_list_to_set. by left.
    + split; [vm_compute; reflexivity|]. split_and!; [|vm_compute; reflexivity|].
      * eexists. split; vm_compute; reflexivity.
      * apply validate_config_valid. vm_compute. reflexivity.
    + split; vm_compute; reflexivity.
    + split; [by eexists|vm_compute; reflexivity|vm_compute; reflexivity|].
      intros q _ Hq Hid. cbn [protected_world w_fs] in Hq.
      rewrite !lookup_insert_is_Some, lookup_singleton_is_Some in Hq.
      destruct Hq as [<-|[_ [<-|[_ <-]]]]; vm_compute in Hid; discriminate Hid.
  - intros n. discriminate.
Defined.

(** The process died between the staging and the write of the configuration, and at
    the next start one metadata call fails. *)
Definition interrupted_world : World :=
  mkWorld {[ dp_vault_groups example_paths := Dir;
             staged_delete_path_for (dp_vault_groups example_paths) 77 := File (str_bytes "vault");
             dp_account_groups_config example_paths := File (enc codec_config protected_config) ]} 0
    (mkEnv (faulty_at 0) (fun n => N.of_nat n) (fun _ => 0)).

(** One failing metadata call can destroy a vault: when the existence check of the
    configuration fails at the start of the host, the bundled configuration without
    groups is loaded instead of the one on disk, and the staged vault of a group
    that is still configured there is deleted for good. *)
Theorem metadata_error_deletes_vault :
  staged_state (dp_vault_groups example_paths) 77 (str_bytes "vault") interrupted_world /\
  file_at interrupted_world (dp_account_groups_config example_paths) = Some (enc codec_config protected_config) /\
  77 ∈ vault_owners protected_config /\
  match open_vaults example_paths tt interrupted_world with
  | Done loaded _ w' => cfg_groups (lc_config loaded) = [] /\ gone (dp_vault_groups example_paths) 77 w' /\
      file_at w' (dp_account_groups_config example_paths) = Some (enc codec_config protected_config)
  | _ => False
  end.
Proof.
  split_and!; [split; vm_compute; reflexivity|vm_compute; reflexivity|apply elem_of_list_to_set; by left|].
  assert (H : exists loaded w', open_vaults example_paths tt interrupted_world = Done loaded tt w' /\
    cfg_groups (lc_config loaded) = [] /\ gone (dp_vault_groups example_paths) 77 w' /\
    file_at w' (dp_account_groups_config example_paths) = Some (enc codec_config protected_config)).
  { eexists _, _. split; [vm_compute; reflexivity|]. split_and!; [reflexivity|split; vm_compute; reflexivity|vm_compute; reflexivity]. }
  destruct H as (loaded & w' & -> & H). exact H.
Qed.

(** The directory flush after the rename of the configuration fails: the removal is
    refused and the vault put back, but the configuration on disk has lost the
    group. *)
Lemma failed_removal_forgets_group :
  let o := handle_group_remove (mkGroupRemove 77) protected_app (protected_world (faulty_at 11)) in
  match o with
  | Failed _ s' w' => app_config s' = protected_config /\ in_place (dp_vault_groups example_paths) 77 (str_bytes "vault") w' /\
      file_at w' (dp_account_groups_config example_paths) = Some (enc codec_config (without_group 77 protected_config))
  | _ => False
  end.
Proof.
  cbv zeta. assert (H : exists e s' w', handle_group_remove (mkGroupRemove 77) protected_app (protected_world (faulty_at 11)) = Failed e s' w' /\
    app_config s' = protected_config /\ in_place (dp_vault_groups example_paths) 77 (str_bytes "vault") w' /\
      file_at w' (dp_account_groups_config example_paths) = Some (enc codec_config (without_group 77 protected_config))).
  { eexists _, _, _. split; [vm_compute; reflexivity|]. split_and!; [reflexivity|split; vm_compute; reflexivity|vm_compute; reflexivity]. }
  destruct H as (e & s' & w' & -> & H). exact H.
Qed.
End RemovalExample.
