(* ===== verification/AppInvariant.v ===== *)
(** * dispatcher.rs: what every message leaves true

    Whatever the extension sends and whatever fails, the configuration in memory
    stays one that the next start would accept, and every group of it has a live
    runtime. Identity adds whose runtime that is, and has the theorem. *)

From Stdlib Require Import Sorting.Sorted.
From S2P Require Import Prelude World External Examples AtomicFile Config Messages VaultFormat Capability LeaseMeta VaultStore Transaction Paths OpModel OpJournal OpRecovery Coordinator CommitProtocol AuditLog Protocol Group Handlers Confirm Chunks Delivery Monitor App Removal.

(** ** Computations that keep a property of the state *)

Definition ends {S A} (P : S -> Prop) (o : Outcome S A) : Prop :=
  match o with Done _ s _ | Failed _ s _ => P s | Panicked _ | Crashed _ => True end.

Definition preserves {S A} (P : S -> Prop) (m : M S A) : Prop := forall s w, P s -> ends P (m s w).

Create HintDb preserves.

Section Preserves.
Context {S : Type} (P : S -> Prop).

Lemma preserves_ret {A} (a : A) : preserves P (mret a).
Proof. by intros s w. Qed.
Lemma preserves_throw {A} e : preserves P (throw e : M S A).
Proof. by intros s w. Qed.
Lemma preserves_lift {A} (r : FcpResult A) : preserves P (lift r : M S A).
Proof. intros s w. by destruct r. Qed.
Lemma preserves_guard b e : preserves P (guard_not b e : M S unit).
Proof. intros s w. by destruct b. Qed.
Lemma preserves_ok_or {A} (o : option A) e : preserves P (ok_or_throw o e : M S A).
Proof. intros s w. by destruct o. Qed.
Lemma preserves_unwrap {A} (o : option A) : preserves P (unwrap o : M S A).
Proof. intros s w. by destruct o. Qed.
Lemma preserves_put s0 : P s0 -> preserves P (put s0 : M S unit).
Proof. by intros H s w. Qed.
Lemma preserves_get : preserves P (get : M S S).
Proof. by intros s w. Qed.
Lemma preserves_modify f : (forall s, P s -> P (f s)) -> preserves P (modify f : M S unit).
Proof. intros Hf s w. apply Hf. Qed.

Lemma preserves_bind {A B} (m : M S A) (f : A -> M S B) :
  preserves P m -> (forall a, preserves P (f a)) -> preserves P (m ≫= f).
Proof.
  intros Hm Hf s w HP. specialize (Hm s w HP). unfold mbind, M_bind. destruct (m s w); cbn in *; [by apply Hf|done..].
Qed.

Lemma preserves_try {A} (m : M S A) : preserves P m -> preserves P (try_ m).
Proof. intros Hm s w HP. specialize (Hm s w HP). unfold try_. by destruct (m s w). Qed.

Lemma preserves_io {A} (m : IO A) : preserves P (io m : M S A).
Proof. intros s w HP. unfold io. by destruct (m tt w). Qed.

Lemma preserves_with_local {T A} (t : T) (m : M T A) : preserves P (with_local t m : M S _).
Proof. intros s w HP. unfold with_local. by destruct (m t w). Qed.

Lemma preserves_zoom {T A} (g : S -> T) (f : T -> S -> S) (m : M T A) :
  (forall t s, P s -> P (f t s)) -> preserves P (zoom g f m).
Proof. intros Hf s w HP. unfold zoom. destruct (m (g s) w); cbn; auto. Qed.

Lemma preserves_for_each {X} (l : list X) (body : X -> M S unit) : (forall x, preserves P (body x)) -> preserves P (for_each l body).
Proof. intros Hb. induction l as [|x l IH]; [apply preserves_ret|]. by apply preserves_bind. Qed.

Lemma kept_outcome {A} (m : M S A) s w : preserves P m -> P s -> P (outcome_state s (m s w)).
Proof. intros Hm HP. specialize (Hm s w HP). by destruct (m s w). Qed.

Lemma ends_bind {A B} (m : M S A) (f : A -> M S B) s w :
  ends P (m s w) -> (forall a s' w', m s w = Done a s' w' -> ends P (f a s' w')) -> ends P ((m ≫= f) s w).
Proof. unfold mbind, M_bind. destruct (m s w); cbn; auto. Qed.
End Preserves.

#[export] Hint Resolve preserves_ret preserves_throw preserves_lift preserves_guard preserves_ok_or preserves_unwrap preserves_get
  preserves_modify preserves_try preserves_io preserves_with_local preserves_zoom preserves_for_each : preserves.

Ltac preserves_step :=
  match goal with
  | |- preserves _ (_ ≫= _) => apply preserves_bind; [|intros ?]
  | |- preserves _ (let '(_, _) := ?x in _) => destruct x
  | |- preserves _ (match ?x with _ => _ end) => destruct x
  | |- preserves _ _ => solve [eauto with preserves]
  end.
Ltac preserves_tac := repeat preserves_step.

(** ** [BTreeMap] *)

Lemma bt_get_insert {V} k (v : V) m : bt_get k (bt_insert k v m) = Some v.
Proof.
  induction m as [|[k' v'] m IH]; cbn; [by rewrite N.eqb_refl|].
  destruct (k =? k') eqn:Hk; cbn; [by rewrite N.eqb_refl|].
  destruct (k <? k'); cbn; [by rewrite N.eqb_refl|by rewrite Hk].
Qed.

Lemma bt_get_insert_ne {V} k k' (v : V) m : k' <> k -> bt_get k' (bt_insert k v m) = bt_get k' m.
Proof.
  intros Hne. apply N.eqb_neq in Hne as Hne'. induction m as [|[k2 v2] m IH]; cbn; [by rewrite Hne'|].
  destruct (k =? k2) eqn:Hk; cbn; [apply N.eqb_eq in Hk as <-; by rewrite Hne'|].
  destruct (k <? k2); cbn; [by rewrite Hne'|]. by rewrite IH.
Qed.

Lemma bt_get_remove_ne {V} k k' (m : BTreeMap V) : k' <> k -> bt_get k' (bt_remove k m) = bt_get k' m.
Proof.
  intros Hne. unfold bt_remove. induction m as [|[k2 v2] m IH]; [done|]. cbn. destruct (k2 =? k) eqn:Hk; cbn.
  - apply N.eqb_eq in Hk as ->. by rewrite (proj2 (N.eqb_neq _ _) Hne).
  - by rewrite IH.
Qed.

Definition bt_sorted {V} (m : BTreeMap V) : Prop := StronglySorted N.lt (fst <$> m).

Lemma bt_insert_sorted {V} k (v : V) m : bt_sorted m -> bt_sorted (bt_insert k v m).
Proof.
  unfold bt_sorted. induction m as [|[k' v'] m IH]; cbn; [repeat constructor|]. intros Hs.
  apply StronglySorted_inv in Hs as [Hs Hall].
  destruct (k =? k') eqn:Hk; [apply N.eqb_eq in Hk as ->; by constructor|]. apply N.eqb_neq in Hk.
  destruct (k <? k') eqn:Hlt; [apply N.ltb_lt in Hlt|apply N.ltb_ge in Hlt]; cbn.
  - constructor; [by constructor|]. constructor; [done|]. eapply list.Forall_impl; [exact Hall|]. intros x Hx. lia.
  - constructor; [by apply IH|]. clear IH Hs. induction m as [|[k2 v2] m IH]; cbn; [repeat constructor; lia|].
    apply Forall_cons in Hall as [Hk2 Hall].
    destruct (k =? k2) eqn:H2; cbn; [constructor; [lia|done]|]. destruct (k <? k2); cbn; [repeat constructor; try done; lia|].
    constructor; [done|].
    by apply IH.
Qed.

Lemma bt_remove_sorted {V} k (m : BTreeMap V) : bt_sorted m -> bt_sorted (bt_remove k m).
Proof.
  unfold bt_sorted, bt_remove. induction m as [|[k' v'] m IH]; [done|]. cbn. intros Hs.
  apply StronglySorted_inv in Hs as [Hs Hall]. destruct (negb (k' =? k)); cbn; [|by apply IH].
  constructor; [by apply IH|]. clear -Hall. induction m as [|[k2 v2] m IH]; [done|]. cbn.
  apply Forall_cons in Hall as [H2 Hall]. destruct (negb (k2 =? k)); cbn; [constructor; [done|]|]; by apply IH.
Qed.

Lemma bt_get_keys {V} (m m' : BTreeMap V) k :
  fst <$> m = fst <$> m' -> is_Some (bt_get k m) -> is_Some (bt_get k m').
Proof.
  revert m'. induction m as [|[k1 v1] m IH]; intros m' Hk; cbn; [by intros []|].
  destruct m' as [|[k2 v2] m']; [done|]. injection Hk as -> Hk. cbn. destruct (k =? k2); [done|by apply IH].
Qed.

(** The loop over the values keeps the keys. *)
Lemma values_mut_keys {V} (body : M V unit) m w :
  ends (fun m' : BTreeMap V => fst <$> m' = fst <$> m) (values_mut body m w).
Proof.
  revert w. induction m as [|[k v] m IH]; intros w; [done|]. cbn [values_mut].
  destruct (body v w) as [[] v' w'| | |]; cbn; [|done..]. specialize (IH w').
  destruct (values_mut body m w'); cbn in *; by rewrite ?IH.
Qed.

(** A first step that does not change the state. *)
Lemma ends_silent {S A B} (P : S -> Prop) (m : M S A) (f : A -> M S B) s w :
  preserves (eq s) m -> P s -> (forall a w', ends P (f a s w')) -> ends P ((m ≫= f) s w).
Proof.
  intros Hm HP Hf. specialize (Hm s w eq_refl). unfold mbind, M_bind.
  destruct (m s w); cbn in *; subst; auto.
Qed.

(** ** The invariant *)

Section AppInvariant.
Context `{UT : UuidText, SH : Sha256, AE : Aead, LS : LocalSecret, SP : Serde VaultPayload,
  SL : Serde CapabilityLedger, SM : Serde LeaseMetadata, KB : KekBackend,
  JB : Serde BoundRequest, JJ : Serde OperationJournal, CS : CookieSerde,
  PSL : Psl, SV : Serde JsonValue, JP : JsonPretty, SC : Serde AccountGroupsConfig, CP : ConfigPretty}.
Context {L A : Type} `{AS : AuditSink L} `{PA : PlatformAuthorizer A}.
Abbreviation NHA := (NativeHostApp L A).

Record app_ok (s : NHA) : Prop := {
  ao_sorted : bt_sorted (app_groups s);
  ao_config : valid_config (app_config s);
  ao_served : Forall (fun x => is_Some (bt_get (ag_id x) (app_groups s))) (cfg_groups (app_config s));
}.

Lemma app_ok_same (s s' : NHA) : app_groups s' = app_groups s -> app_config s' = app_config s -> app_ok s -> app_ok s'.
Proof. intros Hg Hc [H1 H2 H3]. split; by rewrite ?Hg, ?Hc. Qed.

Lemma app_ok_insert id r (s : NHA) : app_ok s -> app_ok (set_groups (bt_insert id r (app_groups s)) s).
Proof.
  intros [H1 H2 H3]. split; cbn; [by apply bt_insert_sorted|done|].
  eapply list.Forall_impl; [exact H3|]. intros x Hx. destruct (decide (ag_id x = id)) as [->|Hne].
  - rewrite bt_get_insert. by eexists.
  - by rewrite bt_get_insert_ne.
Qed.

Lemma preserves_record id ev out op det : preserves app_ok (app_record id ev out op det).
Proof. apply preserves_zoom. intros l s. by apply app_ok_same. Qed.

Lemma preserves_monitor {T} (m : M (MonitorEngine * L) T) : preserves app_ok (on_monitor m).
Proof. apply preserves_zoom. intros e s. by apply app_ok_same. Qed.

Lemma preserves_runtime_of P id : preserves P (runtime_of id : M NHA _).
Proof. unfold runtime_of. preserves_tac. Qed.

Lemma preserves_entry {T} id r (m : M GroupRuntime T) : preserves app_ok (on_entry id r m).
Proof. apply preserves_zoom. intros r' s. apply app_ok_insert. Qed.

Lemma preserves_on_runtime {T} id (m : M (HandlerState L A) T) : preserves app_ok (on_runtime id m).
Proof.
  unfold on_runtime. apply preserves_bind; [apply preserves_runtime_of|]. intros found.
  apply preserves_bind; [apply preserves_ok_or|]. intros r. apply preserves_zoom. intros h s Hok.
  eapply app_ok_same; [| |by apply (app_ok_insert id (hd_group h) s)]; done.
Qed.

Lemma preserves_config_updated P : preserves P (config_updated : M NHA _).
Proof. unfold config_updated. preserves_tac. Qed.

Hint Resolve preserves_record preserves_monitor preserves_runtime_of preserves_entry preserves_on_runtime
  preserves_config_updated : preserves.

Lemma commit_config_cases candidate (s : NHA) w :
  match commit_config candidate s w with
  | Done _ s' _ => exists d, s' = set_config candidate d s
  | Failed _ s' _ => s' = s
  | _ => True
  end.
Proof.
  unfold commit_config, mbind, M_bind, lift, io, get. destruct (config_to_vec_pretty candidate) as [b|]; [|done]. cbn.
  destruct (write_verified _ _ _ _ _); cbn; [by eexists|done..].
Qed.

Lemma ends_commit_config {B} candidate (f : unit -> M NHA B) (s : NHA) w :
  app_ok s -> (forall d w', ends app_ok (f tt (set_config candidate d s) w')) ->
  ends app_ok ((commit_config candidate ≫= f) s w).
Proof.
  intros Hok Hf. pose proof (commit_config_cases candidate s w) as Hc. unfold mbind, M_bind.
  destruct (commit_config candidate s w) as [[] s' w'|e s' w'| |]; cbn; [destruct Hc as [d ->]; apply Hf|by subst|done..].
Qed.

Lemma ends_try_commit {B} candidate (f : FcpResult unit -> M NHA B) (s : NHA) w :
  (forall d w', ends app_ok (f (Ok tt) (set_config candidate d s) w')) ->
  (forall e w', ends app_ok (f (Err e) s w')) ->
  ends app_ok ((try_ (commit_config candidate) ≫= f) s w).
Proof.
  intros Hf He. pose proof (commit_config_cases candidate s w) as Hc. unfold try_, mbind, M_bind.
  destruct (commit_config candidate s w) as [[] s' w'|e s' w'| |]; cbn; [destruct Hc as [d ->]; apply Hf|subst; apply He|done..].
Qed.

Lemma ends_apply {B} (m : M NHA B) (s : NHA) w : preserves app_ok m -> app_ok s -> ends app_ok (m s w).
Proof. intros Hm. apply Hm. Qed.

(** The three changes of the configuration. *)
Lemma app_ok_added (s : NHA) added runtime d :
  app_ok s -> valid_config (set_cfg_groups (cfg_groups (app_config s) ++ [added]) (app_config s)) ->
  app_ok (set_groups (bt_insert (ag_id added) runtime (app_groups s))
            (set_config (set_cfg_groups (cfg_groups (app_config s) ++ [added]) (app_config s)) d s)).
Proof.
  intros Hok Hv. destruct (app_ok_insert (ag_id added) runtime s Hok) as [H1 _ H3].
  split; cbn in *; [done|done|]. apply Forall_app. split; [done|]. apply Forall_singleton. rewrite bt_get_insert. by eexists.
Qed.

Lemma app_ok_without (s : NHA) id d :
  app_ok s -> valid_config (without_group id (app_config s)) -> app_ok (set_config (without_group id (app_config s)) d s).
Proof.
  intros [H1 H2 H3] Hv. split; cbn; [done|done|]. rewrite Forall_forall in H3 |- *.
  intros x Hx. apply H3. rewrite list_elem_of_In in Hx |- *. by apply filter_In in Hx as [Hx _].
Qed.

Lemma app_ok_removed (s : NHA) id c :
  app_ok s -> app_config s = without_group id c -> app_ok (set_groups (bt_remove id (app_groups s)) s).
Proof.
  intros [H1 H2 H3] Hc. split; cbn; [by apply bt_remove_sorted|done|]. rewrite Forall_forall in H3 |- *.
  intros x Hx. rewrite bt_get_remove_ne; [by apply H3|]. rewrite Hc in Hx. cbn in Hx.
  rewrite list_elem_of_In in Hx. apply filter_In in Hx as [_ Hn]. intros Heq. by rewrite Heq, N.eqb_refl in Hn.
Qed.

Lemma set_group_policy_ids id policy groups groups' :
  set_group_policy id policy groups = Some groups' -> ag_id <$> groups' = ag_id <$> groups.
Proof.
  revert groups'. induction groups as [|x groups IH]; intros groups'; [done|]. cbn.
  destruct (ag_id x =? id); [by intros [= <-]|].
  destruct (set_group_policy id policy groups) as [rest|]; [|done]. intros [= <-]. cbn. f_equal. by apply IH.
Qed.

Lemma app_ok_policy (s : NHA) groups' d :
  app_ok s -> ag_id <$> groups' = ag_id <$> cfg_groups (app_config s) ->
  valid_config (set_cfg_groups groups' (app_config s)) ->
  app_ok (set_config (set_cfg_groups groups' (app_config s)) d s).
Proof.
  intros [H1 H2 H3] Hids Hv. split; cbn; [done|done|].
  apply (Forall_fmap ag_id (fun i => is_Some (bt_get i (app_groups s)))) in H3. rewrite <- Hids in H3.
  by apply (Forall_fmap ag_id (fun i => is_Some (bt_get i (app_groups s)))).
Qed.

(** ** The handlers *)

Lemma run_local_silent {T B} (s : NHA) (t : T) (m : M T B) : preserves (eq s) (run_local t m).
Proof. unfold run_local. preserves_tac. Qed.

Hint Resolve run_local_silent : preserves.

Lemma preserves_group_add request : preserves app_ok (handle_group_add request).
Proof.
  intros s w Hok. unfold handle_group_add. apply ends_bind; [done|]. intros self s' w' [= <- <- <-].
  apply ends_silent; [auto with preserves|done|]. intros id w1.
  destruct (validate_config _) as [[]|e] eqn:Hv; [|done]. apply validate_config_valid in Hv.
  do 3 (apply ends_silent; [auto with preserves|done|]; intros ? ?).
  match goal with |- ends _ ((let '(_, _) := ?x in _) _ _) => destruct x as [? runtime] end.
  apply ends_commit_config; [done|]. intros d w2. apply ends_bind; [exact (app_ok_added s _ runtime d Hok Hv)|].
  intros [] s' w3 [= <- <-]. apply ends_apply; [preserves_tac|]. exact (app_ok_added s _ runtime d Hok Hv).
Qed.

Lemma preserves_group_remove request : preserves app_ok (handle_group_remove request).
Proof.
  intros s w Hok. unfold handle_group_remove. apply ends_silent; [auto with preserves|done|]. intros found w1.
  destruct found as [runtime|]; [|done].
  apply ends_silent; [auto with preserves|done|]. intros [] w2.
  apply ends_bind; [done|]. intros self s' w' [= <- <- <-].
  fold (without_group (gr_account_group_id request) (app_config s)).
  destruct (validate_config (without_group _ _)) as [[]|e] eqn:Hv; [|done]. apply validate_config_valid in Hv.
  apply ends_silent; [auto with preserves|done|]. intros [] w3.
  apply ends_try_commit; [intros d w4|intros e w4].
  - pose proof (app_ok_without s _ d Hok Hv) as Hok'. unfold finish_removal.
    do 3 (apply ends_silent; [auto with preserves|done|]; intros ? ?).
    apply ends_bind; [exact (app_ok_removed _ _ _ Hok' eq_refl)|]. intros [] s2 w5 [= <- <-].
    apply ends_apply; [preserves_tac|]. exact (app_ok_removed _ _ _ Hok' eq_refl).
  - apply ends_apply; [|done]. unfold undo_removal. preserves_tac.
Qed.

Lemma preserves_set_policy request : preserves app_ok (handle_group_set_policy request).
Proof.
  intros s w Hok. unfold handle_group_set_policy. apply ends_silent; [auto with preserves|done|]. intros found w1.
  destruct found as [runtime|]; [|done].
  destruct (_ || _); [done|]. destruct (_ && bool_decide (_ = GState.Sealed)); [done|].
  apply ends_silent; [preserves_tac|done|]. intros [] w2.
  apply ends_bind; [done|]. intros self s' w' [= <- <- <-].
  destruct (set_group_policy _ _ _) as [groups|] eqn:Hg; [|done]. apply set_group_policy_ids in Hg.
  destruct (validate_config _) as [[]|e] eqn:Hv; [|done]. apply validate_config_valid in Hv.
  apply ends_silent; [auto with preserves|done|]. intros [] w3.
  apply ends_try_commit; [intros d w4|intros e w4].
  - apply ends_apply; [preserves_tac|]. by apply app_ok_policy.
  - apply ends_apply; [preserves_tac|done].
Qed.

Lemma preserves_handshake handshake : preserves app_ok (handle_handshake handshake).
Proof.
  unfold handle_handshake. preserves_tac.
  - intros s w [H1 H2 H3]. unfold zoom. pose proof (values_mut_keys (handshake_group handshake) (app_groups s) w) as Hk.
    assert (Hok : forall m, fst <$> m = fst <$> app_groups s -> app_ok (set_groups m s)).
    { intros m Hm. split; cbn; [unfold bt_sorted; by rewrite Hm|done|]. eapply list.Forall_impl; [exact H3|].
      intros x. by apply bt_get_keys. }
    destruct (values_mut _ _ _); cbn in *; [by apply Hok|by apply Hok|done|done].
  - apply preserves_modify. intros s. by apply app_ok_same.
Qed.

Lemma preserves_recovery_adopt request : preserves app_ok (handle_recovery_adopt request).
Proof. unfold handle_recovery_adopt. preserves_tac. Qed.

Lemma preserves_last_group g : preserves app_ok (modify (set_last_message_group g) : M NHA unit).
Proof. apply preserves_modify. intros s. by apply app_ok_same. Qed.

Hint Resolve preserves_group_add preserves_group_remove preserves_set_policy preserves_handshake preserves_recovery_adopt
  preserves_last_group : preserves.

Lemma preserves_handle message : preserves app_ok (app_handle message : M NHA _).
Proof.
  unfold app_handle, dispatch. apply preserves_bind; [apply preserves_get|]. intros self.
  destruct (negb _); [destruct message; preserves_tac|]. destruct message; preserves_tac.
Qed.

(** [open] builds a runtime for every group it loaded. *)
Lemma build_groups_served paths definitions groups w groups' w' :
  build_groups paths definitions groups tt w = Done groups' tt w' -> bt_sorted groups ->
  bt_sorted groups' /\ Forall (fun x => is_Some (bt_get (ag_id x) groups')) definitions /\
  forall k, is_Some (bt_get k groups) -> is_Some (bt_get k groups').
Proof.
  revert groups w. induction definitions as [|x definitions IH]; intros groups w; cbn [build_groups].
  - intros [= <- <-] Hs. split_and!; [done|constructor|done].
  - intros Hrun Hs. apply run_bind_inv in Hrun as (runtime & [] & w1 & _ & Hrun).
    apply IH in Hrun as (H1 & H2 & H3); [|by apply bt_insert_sorted].
    assert (Hins : forall k, k = ag_id x \/ is_Some (bt_get k groups) -> is_Some (bt_get k (bt_insert (ag_id x) runtime groups))).
    { intros k Hk. destruct (decide (k = ag_id x)) as [->|Hne]; [rewrite bt_get_insert; by eexists|].
      rewrite bt_get_insert_ne by done. by destruct Hk. }
    split_and!; [done|constructor; [apply H3, Hins; by left|done]|]. intros k Hk. apply H3, Hins. by right.
Qed.

Lemma load_config_valid path w loaded w' : load_config path tt w = Done loaded tt w' -> valid_config (lc_config loaded).
Proof.
  intros Hrun. unfold load_config in Hrun. run_inv Hrun.
  injection Hrun as <- _. apply validate_config_valid. cbn. congruence.
Qed.

Lemma open_app_ok paths w (s : NHA) w' : open_app paths tt w = Done s tt w' -> app_ok s.
Proof.
  intros Hrun. unfold open_app, open_vaults in Hrun.
  apply run_bind_inv in Hrun as (loaded & [] & w1 & Hload & Hrun).
  apply run_bind_inv in Hload as (loaded' & [] & w0 & Hload & Hrest).
  assert (loaded' = loaded) as ->.
  { apply run_bind_inv in Hrest as (? & ? & ? & _ & Hrest). apply run_bind_inv in Hrest as (? & ? & ? & _ & Hrest).
    by injection Hrest. }
  apply load_config_valid in Hload.
  apply run_bind_inv in Hrun as (groups & [] & w2 & Hgroups & Hrun).
  apply build_groups_served in Hgroups as (H1 & H2 & _); [|constructor].
  apply run_bind_inv in Hrun as (audit & [] & w3 & _ & Hrun).
  apply run_bind_inv in Hrun as (monitor & [] & w4 & _ & Hrun).
  injection Hrun as <- _. by split.
Qed.

(** The host serves messages one after the other; the answer to a failing one is
    its error. *)
Fixpoint serve_app (messages : list Message) : M NHA (list (FcpResult (list Message))) :=
  match messages with
  | [] => mret []
  | message :: rest =>
      answer ← try_ (app_handle message);
      answers ← serve_app rest;
      mret (answer :: answers)
  end.

Lemma preserves_serve messages : preserves app_ok (serve_app messages).
Proof.
  induction messages as [|message messages IH]; cbn [serve_app]; [apply preserves_ret|].
  apply preserves_bind; [apply preserves_try, preserves_handle|]. intros answer.
  apply preserves_bind; [done|]. intros answers. apply preserves_ret.
Qed.
End AppInvariant.
