(* ===== verification/Identity.v ===== *)
(** * dispatcher.rs: a runtime serves its own group

    The runtime that the host keeps under an identifier - the transactions that
    write its vault and ask for its capabilities, its lease and its journal - is of
    that group and keeps to the group's own files, from the moment it is built and
    after every message. *)

From S2P Require Import Prelude World External AtomicFile Config Messages VaultFormat Capability LeaseMeta VaultStore Transaction Paths OpModel OpJournal OpRecovery Coordinator Protocol Group Handlers Monitor App AppInvariant.

(** ** Whose parts these are *)

(** The transactions, the journal and the runtime are those of the group [id] and
    write the files that [paths] has for it. *)
Definition transactions_of_group `{UuidText} (paths : DataPaths) (id : Uuid) (tx : VaultTransactions) : Prop :=
  vt_group_id tx = id /\ vt_kek tx = dp_kek_key paths /\ vt_vault_store tx = dp_vault_groups paths /\
  vt_capability_store tx = capability_path paths id.

Definition journal_of_group `{UuidText} (paths : DataPaths) (id : Uuid) (j : OperationJournalStore) : Prop :=
  ojs_path j = operation_journal_path paths id /\ ojs_account_group_id j = id.

Definition coordinator_of_group `{UuidText} (paths : DataPaths) (id : Uuid) (c : OperationCoordinator) : Prop :=
  journal_of_group paths id (oc_journal c).

Record runtime_of_group `{UuidText} (paths : DataPaths) (id : Uuid) (r : GroupRuntime) : Prop := {
  rg_id : rt_id r = id;
  rg_transactions : transactions_of_group paths id (rt_transactions r);
  rg_lease : rt_lease_store r = lease_path paths id;
  rg_coordinator : coordinator_of_group paths id (rt_coordinator r);
}.

Definition handler_of_group `{UuidText} {L A} (paths : DataPaths) (id : Uuid) (h : HandlerState L A) : Prop :=
  runtime_of_group paths id (hd_group h).

(** Every runtime of a map is the one of its key. *)
Definition own_keys `{UuidText} (paths : DataPaths) (m : BTreeMap GroupRuntime) : Prop :=
  Forall (fun x => runtime_of_group paths x.1 x.2) m.

Definition own_runtimes `{UuidText} {L A} (s : NativeHostApp L A) : Prop := own_keys (app_paths s) (app_groups s).

(** A call on a part. *)
Lemma preserves_zoom_part {S T B} (P : S -> Prop) (Q : T -> Prop) (g : S -> T) (f : T -> S -> S) (m : M T B) :
  preserves Q m -> (forall s, P s -> Q (g s)) -> (forall t s, P s -> Q t -> P (f t s)) -> preserves P (zoom g f m).
Proof.
  intros Hm Hg Hf s w HP. specialize (Hm (g s) w (Hg s HP)). unfold zoom. destruct (m (g s) w); cbn in *; auto.
Qed.

Section Identity.
Context `{UT : UuidText, SH : Sha256, AE : Aead, LS : LocalSecret, SP : Serde VaultPayload,
  SL : Serde CapabilityLedger, SM : Serde LeaseMetadata, KB : KekBackend,
  JB : Serde BoundRequest, JJ : Serde OperationJournal, CS : CookieSerde}.
Context {L A : Type} `{AS : AuditSink L} `{PA : PlatformAuthorizer A}.
Context (paths : DataPaths) (id : Uuid).
Abbreviation H := (M (HandlerState L A)).
Abbreviation own_group_runtime := (runtime_of_group paths id).
Abbreviation own_handler := (@handler_of_group UT L A paths id).
Abbreviation own_journal := (journal_of_group paths id).
Abbreviation own_coordinator := (coordinator_of_group paths id).

(** *** The journal and its coordinator *)

Lemma own_persist_journal next : preserves own_journal (persist next).
Proof using Type. unfold persist. preserves_tac; by apply preserves_modify. Qed.
Hint Resolve own_persist_journal : preserves.

Lemma own_begin request : preserves own_journal (begin request).
Proof using Type. unfold begin. preserves_tac. Qed.
Lemma own_bind_snapshot oid b : preserves own_journal (bind_snapshot oid b).
Proof using Type. unfold bind_snapshot. preserves_tac. Qed.
Lemma own_transition oid p : preserves own_journal (transition oid p).
Proof using Type. unfold transition. preserves_tac. Qed.
Lemma own_operation oid : preserves own_journal (operation oid).
Proof using Type. unfold operation. preserves_tac. Qed.
Hint Resolve own_begin own_bind_snapshot own_transition own_operation : preserves.
Lemma own_recover_phase oid p : preserves own_journal (recover_vault_phase oid p).
Proof using Type. unfold recover_vault_phase, classify_vault. preserves_tac. Qed.
Hint Resolve own_recover_phase : preserves.

Lemma own_on_journal {B} (m : M OperationJournalStore B) :
  preserves own_journal m -> preserves own_coordinator (on_journal m).
Proof using Type. intros Hm. by eapply preserves_zoom_part. Qed.

#[local] Ltac journal_step :=
  match goal with |- preserves _ (on_journal _) => apply own_on_journal | |- _ => preserves_step end.
#[local] Ltac journal_tac := repeat journal_step.

Lemma own_set_profile p : preserves own_coordinator (set_profile_id p).
Proof using Type.
  intros c w Hc. unfold set_profile_id, mbind, M_bind, get, guard_not, put, throw, mret, M_ret.
  destruct (uuid_is_nil p); [done|]. by destruct (match oc_profile_id c with Some _ => _ | None => _ end).
Qed.
Lemma own_begin_v6 oid kind lease reason base : preserves own_coordinator (begin_v6 oid kind lease reason base).
Proof using Type. unfold begin_v6. journal_tac. Qed.
Lemma own_issue_v7 attempt kind lease reason base : preserves own_coordinator (issue_v7 attempt kind lease reason base).
Proof using Type. unfold issue_v7. journal_tac. Qed.
Lemma own_prepare_reconciliation p : preserves own_coordinator (prepare_for_v6_reconciliation p).
Proof using Type.
  unfold prepare_for_v6_reconciliation. journal_tac. apply preserves_for_each. intros x. unfold reconcile_operation. journal_tac.
Qed.
Lemma own_commit_snapshot oid b n p tx : preserves own_coordinator (commit_snapshot oid b n p tx).
Proof using Type. unfold commit_snapshot. journal_tac. Qed.
Lemma own_mark_external oid : preserves own_coordinator (mark_external_result_pending oid).
Proof using Type. unfold mark_external_result_pending. journal_tac. Qed.
Lemma own_complete oid : preserves own_coordinator (complete oid).
Proof using Type. unfold complete. journal_tac. Qed.
Lemma own_abort oid : preserves own_coordinator (abort oid).
Proof using Type. unfold abort. journal_tac. Qed.
Lemma own_require oid : preserves own_coordinator (require_reconciliation oid).
Proof using Type. unfold require_reconciliation. journal_tac. Qed.
Lemma own_recover_operations p ids r : preserves own_coordinator (recover_operations p ids r).
Proof using Type.
  revert r. induction ids as [|x ids IH]; intros r; cbn [recover_operations]; [journal_tac|].
  apply preserves_bind; [unfold recover_operation; journal_tac|apply IH].
Qed.
Lemma own_startup p : preserves own_coordinator (startup_recover p).
Proof using Type. unfold startup_recover. apply preserves_bind; [journal_tac|intros; apply own_recover_operations]. Qed.
#[local] Ltac coordinator_call :=
  match goal with
  | |- preserves _ (begin_v6 _ _ _ _ _) => apply own_begin_v6
  | |- preserves _ (issue_v7 _ _ _ _ _) => apply own_issue_v7
  | |- preserves _ (prepare_for_v6_reconciliation _) => apply own_prepare_reconciliation
  | |- preserves _ (commit_snapshot _ _ _ _ _) => apply own_commit_snapshot
  | |- preserves _ (mark_external_result_pending _) => apply own_mark_external
  | |- preserves _ (complete _) => apply own_complete
  | |- preserves _ (abort _) => apply own_abort
  | |- preserves _ (require_reconciliation _) => apply own_require
  end.

(** *** The runtime *)

Lemma own_group {B} (m : M GroupRuntime B) : preserves own_group_runtime m -> preserves own_handler (on_group m : H B).
Proof using Type. intros Hm. by eapply preserves_zoom_part. Qed.
Lemma own_audit {B} (m : M L B) : preserves own_handler (on_audit m : H B).
Proof using Type. by apply preserves_zoom. Qed.
Lemma own_on_coordinator {B} (m : M OperationCoordinator B) :
  preserves own_coordinator m -> preserves own_group_runtime (on_coordinator m).
Proof using Type.
  intros Hm. apply (preserves_zoom_part _ own_coordinator); [done|by intros r []|]. intros c r [] Hc. by split.
Qed.
Lemma own_update_lease f : preserves own_group_runtime (update_lease f).
Proof using Type. apply preserves_modify. intros r []. by split. Qed.
Lemma own_set_pending p : preserves own_group_runtime (set_pending p).
Proof using Type. apply preserves_modify. intros r []. by split. Qed.
Lemma own_pending {B} e (m : M PendingOperation B) : preserves own_group_runtime (on_pending e m).
Proof using Type. unfold on_pending. preserves_tac. apply preserves_zoom. intros ? r []. by split. Qed.
Lemma own_ledger {B} (m : forall _ : CapabilityLedgerStore, M CapabilityLedger B) :
  preserves (transactions_of_group paths id) (on_ledger m).
Proof using Type. unfold on_ledger. preserves_tac. Qed.
Hint Resolve own_audit own_update_lease own_set_pending own_pending own_ledger : preserves.

Lemma own_authorize_inject (a : A) : preserves own_group_runtime (on_transactions (authorize_inject a)).
Proof using Type.
  apply (preserves_zoom_part _ (transactions_of_group paths id)).
  - unfold authorize_inject. preserves_tac.
  - by intros r [].
  - intros tx r [] Htx. by split.
Qed.

Lemma own_advance : preserves own_group_runtime advance_lease.
Proof using Type. unfold advance_lease. preserves_tac. Qed.
Lemma own_persist : preserves own_group_runtime persist_own_lease.
Proof using Type. unfold persist_own_lease. preserves_tac. Qed.
Lemma own_restore {B} p (m : M GroupRuntime B) : preserves own_group_runtime m -> preserves own_group_runtime (or_restore p m).
Proof using Type. intros Hm. unfold or_restore. preserves_tac. Qed.
Hint Resolve own_authorize_inject own_advance own_persist : preserves.


#[local] Ltac own_step :=
  match goal with
  | |- preserves _ (on_group _) => apply own_group
  | |- preserves _ (or_restore _ _) => apply own_restore
  | |- preserves _ (on_coordinator _) => apply own_on_coordinator; try coordinator_call
  | |- preserves _ (on_audit _) => apply own_audit
  | |- preserves _ (try_ _) => apply preserves_try
  | |- preserves _ _ => preserves_step
  end.
#[local] Ltac own_tac := repeat own_step.

Lemma own_snapshot_chunk snapshot : preserves own_handler (handle_snapshot_chunk snapshot : H _).
Proof using Type.
  unfold handle_snapshot_chunk, abort_empty_enrollment, commit_cookies, confirm_snapshot, group_state, record_operation_audit.
  own_tac.
Qed.
Lemma own_evict_result result : preserves own_handler (handle_evict_result result : H _).
Proof using Type. unfold handle_evict_result, group_state, record_operation_audit. own_tac. Qed.

Lemma own_operation_begin request : preserves own_group_runtime (handle_operation_begin request).
Proof using Type. unfold handle_operation_begin. own_tac. Qed.
Lemma own_operation_status request : preserves own_group_runtime (handle_operation_status request).
Proof using Type. unfold handle_operation_status. own_tac. Qed.
Lemma own_remove_prepare request : preserves own_group_runtime (handle_remove_prepare request).
Proof using Type. unfold handle_remove_prepare. own_tac. Qed.
Lemma own_removal_chunk snapshot : preserves own_group_runtime (handle_removal_snapshot_chunk snapshot).
Proof using Type. unfold handle_removal_snapshot_chunk. own_tac. Qed.
Hint Resolve own_snapshot_chunk own_evict_result own_operation_begin own_operation_status own_remove_prepare
  own_removal_chunk : preserves.

Lemma own_handle message cred protocol : preserves own_handler (handle message cred protocol : H _).
Proof using Type.
  destruct message; cbn [handle].
  all: unfold handle_lease_request, grant_enrollment_v7, begin_enrollment, begin_inject, authorize, ensure_authorizer,
    enrolled_or_present, handle_inject_result, handle_evict_begin, handle_evict_result_v7,
    handle_session_invalidate, invalidate_session, handle_auth_cache_clear, handle_snapshot_chunk_v7,
    group_state, record_operation_audit.
  all: own_tac.
Qed.
End Identity.

(** ** The application *)

Section App.
Context `{UT : UuidText, SH : Sha256, AE : Aead, LS : LocalSecret, SP : Serde VaultPayload,
  SL : Serde CapabilityLedger, SM : Serde LeaseMetadata, KB : KekBackend,
  JB : Serde BoundRequest, JJ : Serde OperationJournal, CS : CookieSerde,
  PSL : Psl, SV : Serde JsonValue, JP : JsonPretty, SC : Serde AccountGroupsConfig, CP : ConfigPretty}.
Context {L A : Type} `{AS : AuditSink L} `{PA : PlatformAuthorizer A}.
Abbreviation NHA := (NativeHostApp L A).
Context (paths : DataPaths).
Abbreviation own_group_runtime := (runtime_of_group paths).
Abbreviation own_map := (own_keys paths).
Definition own (s : NHA) : Prop := app_paths s = paths /\ own_map (app_groups s).

Lemma preserves_bind_value {S X B} (P : S -> Prop) (R : X -> Prop) (m : M S X) (f : X -> M S B) :
  (forall s w x s' w', P s -> m s w = Done x s' w' -> R x) -> preserves P m -> (forall x, R x -> preserves P (f x)) ->
  preserves P (m ≫= f).
Proof using Type.
  intros HR Hm Hf s w HP. specialize (Hm s w HP). unfold mbind, M_bind. destruct (m s w) as [x s' w'| | |] eqn:Hrun; cbn in *; [|done..].
  apply Hf; [by eapply HR|done].
Qed.

Lemma own_get (s : NHA) id r : own s -> bt_get id (app_groups s) = Some r -> own_group_runtime id r.
Proof using Type.
  intros [_ Hs]. unfold own_keys in Hs. induction (app_groups s) as [|[k v] m IH]; cbn; [done|]. apply Forall_cons in Hs as [Hv Hm].
  destruct (N.eqb_spec id k) as [->|]; [by intros [= <-]|by apply IH].
Qed.

Lemma own_insert id r (m : BTreeMap GroupRuntime) :
  own_group_runtime id r -> own_map m ->
  own_map (bt_insert id r m).
Proof using Type.
  intros Hr. induction m as [|[k v] m IH]; cbn; intros Hm; [by apply Forall_singleton|].
  apply Forall_cons in Hm as [Hv Hm]. destruct (id =? k); [by constructor|].
  destruct (id <? k); [by constructor; [|constructor]|]. constructor; [done|by apply IH].
Qed.

Lemma own_remove id (m : BTreeMap GroupRuntime) :
  own_map m -> own_map (bt_remove id m).
Proof using Type.
  unfold bt_remove, own_keys. induction m as [|[k v] m IH]; cbn; intros Hm; [done|]. apply Forall_cons in Hm as [Hv Hm].
  destruct (negb (k =? id)); [constructor|]; auto.
Qed.


Lemma own_set_groups m (s : NHA) : own_map m -> own s -> own (set_groups m s).
Proof using Type. by intros Hm [Hp _]. Qed.
Lemma own_put id r (s : NHA) : own_group_runtime id r -> own s -> own (set_groups (bt_insert id r (app_groups s)) s).
Proof using Type. intros Hr Hs. apply own_set_groups; [|done]. by apply own_insert, Hs. Qed.

Lemma own_app_record id ev out op det : preserves own (app_record id ev out op det).
Proof using Type. by apply preserves_zoom. Qed.
Lemma own_monitor {B} (m : M (MonitorEngine * L) B) : preserves own (on_monitor m).
Proof using Type. by apply preserves_zoom. Qed.
Lemma own_commit candidate : preserves own (commit_config candidate).
Proof using Type. unfold commit_config. preserves_tac. Qed.
Hint Resolve own_app_record own_monitor own_commit preserves_runtime_of preserves_config_updated : preserves.

Lemma own_entry {B} id r (m : M GroupRuntime B) :
  own_group_runtime id r -> preserves (own_group_runtime id) m -> preserves own (on_entry id r m).
Proof using Type.
  intros Hr Hm. apply (preserves_zoom_part _ (own_group_runtime id)); [done|done|]. intros t s Hs Ht. by apply own_put.
Qed.

Lemma own_on_runtime {B} id (m : M (HandlerState L A) B) :
  preserves (handler_of_group paths id) m -> preserves own (on_runtime id m).
Proof using Type.
  intros Hm. unfold on_runtime. apply (preserves_bind_value _ (fun found => forall r, found = Some r -> own_group_runtime id r)).
  - intros s w found s' w' Hs [= <- _ _] r Hr. by eapply own_get.
  - apply preserves_runtime_of.
  - intros found Hf. apply (preserves_bind_value _ (fun r => found = Some r)).
    + by intros s w r s' w' _ (Hr & _ & _)%run_ok_or_throw_inv.
    + apply preserves_ok_or.
    + intros r ->. apply (preserves_zoom_part _ (handler_of_group paths id)); [done|intros s _; by apply Hf|].
      intros h s Hs Hh. destruct (own_put id (hd_group h) s Hh Hs). by split.
Qed.

Lemma own_values_mut (body : M GroupRuntime unit) :
  (forall id, preserves (own_group_runtime id) body) ->
  preserves own_map (values_mut body).
Proof using Type.
  intros Hb m. induction m as [|[k v] m IH]; intros w Hm; [done|]. apply Forall_cons in Hm as [Hv Hm]. cbn [values_mut].
  specialize (Hb k v w Hv). destruct (body v w) as [[] v' w1|e v' w1| |]; cbn in *; [|by constructor|done..].
  specialize (IH w1 Hm). destruct (values_mut body m w1); cbn in *; [by constructor..|done|done].
Qed.

Lemma own_join id profile protocol : preserves (own_group_runtime id) (join_profile profile protocol).
Proof using Type.
  unfold join_profile. preserves_tac; first [apply own_on_coordinator, own_set_profile|apply own_update_lease|apply own_advance|apply own_persist].
Qed.

Lemma own_handshake handshake : preserves own (handle_handshake handshake).
Proof using Type.
  unfold handle_handshake. preserves_tac.
  apply (preserves_zoom_part _ own_map); [|by intros s []|intros m s Hs Hm; by apply own_set_groups].
  apply own_values_mut. intros id. unfold handshake_group. preserves_tac. apply own_join.
Qed.

(** A block on a local variable keeps its property. *)
Lemma run_local_keeps {S T X} (P : T -> Prop) (v : T) (m : M T X) (s : S) w x s' w' :
  preserves P m -> P v -> run_local v m s w = Done x s' w' -> P x.2.
Proof using Type.
  intros Hm Hv Hrun. specialize (Hm v w Hv). unfold run_local, with_local, mbind, M_bind in Hrun.
  destruct (m v w) as [u v' w1|e v' w1| |]; cbn in *; [by injection Hrun as <- _ _|done..].
Qed.

Lemma open_transactions_own id w tx w' :
  open_transactions id (dp_kek_key paths) (dp_vault_groups paths) (capability_path paths id) tt w = Done tx tt w' ->
  transactions_of_group paths id tx.
Proof using Type.
  intros Htx. unfold open_transactions in Htx. apply run_bind_inv in Htx as (l & [] & w3 & _ & Htx). case_bool_decide.
  - apply run_bind_inv in Htx as ([res l'] & [] & w4 & _ & Htx). apply run_bind_inv in Htx as (u & [] & w5 & _ & Htx).
    by injection Htx as <- _.
  - by injection Htx as <- _.
Qed.

Lemma open_coordinator_own id w c w' : open_coordinator paths id tt w = Done c tt w' -> coordinator_of_group paths id c.
Proof using Type.
  intros Hrun. unfold open_coordinator, open_journal in Hrun. apply run_bind_inv in Hrun as (? & [] & w1 & _ & Hrun).
  apply run_bind_inv in Hrun as (? & [] & w2 & _ & Hrun). apply run_bind_inv in Hrun as (j & [] & w3 & Hj & Hrun).
  injection Hrun as <- _. do 3 (apply run_bind_inv in Hj as (? & [] & ? & _ & Hj)). by injection Hj as <- _.
Qed.

(** A runtime is built for the group of its definition. *)
Lemma build_runtime_own definition w r w' :
  build_group_runtime paths definition tt w = Done r tt w' -> own_group_runtime (ag_id definition) r.
Proof using Type.
  intros Hrun. unfold build_group_runtime in Hrun.
  apply run_bind_inv in Hrun as (present & [] & w1 & _ & Hrun).
  apply run_bind_inv in Hrun as (tx & [] & w2 & Htx%open_transactions_own & Hrun).
  apply run_bind_inv in Hrun as (lease & [] & w3 & _ & Hrun).
  apply run_bind_inv in Hrun as (c & [] & w4 & Hc%open_coordinator_own & Hrun).
  apply run_bind_inv in Hrun as ([recovery c'] & [] & w5 & Hc' & Hrun).
  apply (run_local_keeps (coordinator_of_group paths (ag_id definition))) in Hc'; [|apply own_startup|done].
  apply run_bind_inv in Hrun as ([u lease'] & [] & w6 & _ & Hrun). injection Hrun as <- _. by split.
Qed.

Lemma own_group_add request : preserves own (handle_group_add request).
Proof using Type.
  unfold handle_group_add. apply (preserves_bind_value _ (fun self : NHA => app_paths self = paths)); [|apply preserves_get|].
  { by intros s w self s' w' [Hp _] [= <- _ _]. }
  intros self ->. apply preserves_bind; [apply preserves_io|]. intros id. cbn zeta. destruct (validate_config _); [|preserves_tac].
  apply (preserves_bind_value _ (own_group_runtime (ag_id (requested_group id request)))); [|apply preserves_io|].
  { intros s w r s' w' _ Hrun. unfold io in Hrun. destruct (build_group_runtime _ _ tt w) as [r' [] w1| | |] eqn:Hb; [|done..].
    injection Hrun as -> _ _. by eapply build_runtime_own. }
  intros r Hr. apply preserves_bind; [apply preserves_ok_or|]. intros profile.
  apply (preserves_bind_value _ (fun x => own_group_runtime (ag_id (requested_group id request)) x.2)).
  { intros s w x s' w' _ Hrun. eapply (run_local_keeps (own_group_runtime _)); [apply own_join|exact Hr|exact Hrun]. }
  { unfold run_local. preserves_tac. }
  intros [u r'] Hr'. apply preserves_bind; [apply own_commit|]. intros _. apply preserves_bind; [|intros _; preserves_tac].
  apply preserves_modify. intros s Hs. by apply own_put.
Qed.

Lemma own_group_remove request : preserves own (handle_group_remove request).
Proof using Type.
  unfold handle_group_remove, finish_removal, undo_removal. preserves_tac.
  apply preserves_modify. intros s Hs. apply own_set_groups; [|done]. by apply own_remove, Hs.
Qed.

Lemma own_set_policy request : preserves own (handle_group_set_policy request).
Proof using Type.
  unfold handle_group_set_policy. cbn zeta.
  apply (preserves_bind_value _ (fun found => forall r, found = Some r -> own_group_runtime (gsp_account_group_id request) r)).
  { intros s w found s' w' Hs [= <- _ _] r Hr. by eapply own_get. }
  { apply preserves_runtime_of. }
  intros [runtime|] Hf; [|preserves_tac]. specialize (Hf _ eq_refl). preserves_tac.
  apply own_entry; [done|]. unfold apply_policy. preserves_tac; first [apply own_update_lease|apply own_advance|apply own_persist|apply preserves_modify; by intros r []].
Qed.
Hint Resolve own_handshake own_group_add own_group_remove own_set_policy own_on_runtime own_handle : preserves.

Lemma own_app_handle message : preserves own (app_handle message).
Proof using Type.
  unfold app_handle, dispatch, handle_recovery_adopt. apply preserves_bind; [apply preserves_get|]. intros self.
  destruct (negb _); [destruct message; preserves_tac|]. destruct message; preserves_tac.
Qed.

Lemma build_groups_own definitions groups w groups' w' :
  build_groups paths definitions groups tt w = Done groups' tt w' -> own_map groups -> own_map groups'.
Proof using Type.
  revert groups w. induction definitions as [|x definitions IH]; intros groups w; cbn [build_groups]; [by intros [= <- _]|].
  intros Hrun Hg. apply run_bind_inv in Hrun as (runtime & [] & w1 & Hb & Hrun). apply build_runtime_own in Hb.
  eapply IH; [exact Hrun|by apply own_insert].
Qed.

Lemma open_app_own w (s : NHA) w' : open_app paths tt w = Done s tt w' -> own s.
Proof using Type.
  intros Hrun. unfold open_app in Hrun. apply run_bind_inv in Hrun as (loaded & [] & w1 & _ & Hrun).
  apply run_bind_inv in Hrun as (groups & [] & w2 & Hg & Hrun). apply run_bind_inv in Hrun as (audit & [] & w3 & _ & Hrun).
  apply run_bind_inv in Hrun as (monitor & [] & w4 & _ & Hrun). injection Hrun as <- _.
  split; [done|]. eapply build_groups_own; [exact Hg|constructor].
Qed.

Lemma own_own_runtimes (s : NHA) : own s -> own_runtimes s.
Proof using Type. by intros [<- Hs]. Qed.

Lemma own_serve messages : preserves own (serve_app messages).
Proof using Type.
  induction messages as [|message messages IH]; cbn [serve_app]; [apply preserves_ret|].
  apply preserves_bind; [apply preserves_try, own_app_handle|]. intros answer.
  apply preserves_bind; [done|]. intros answers. apply preserves_ret.
Qed.
End App.

Lemma own_runtimes_get `{UuidText} {L A : Type} (s : NativeHostApp L A) id r :
  own_runtimes s -> bt_get id (app_groups s) = Some r -> runtime_of_group (app_paths s) id r.
Proof. intros Hs. by apply own_get. Qed.

(** ** Properties *)

(** C15: From the moment the host is open and after any messages at all, failing ones
    included, the configuration in memory is valid (the next start would accept
    it), every group of it has a live runtime, the runtimes are kept in the order of
    their identifiers, and every runtime is of the group it is kept under, with the
    files - vault, capabilities, lease and journal - that the profile has for this
    group. *)
Theorem served_groups_configured `{UT : UuidText, SH : Sha256, AE : Aead, LS : LocalSecret, SP : Serde VaultPayload,
    SL : Serde CapabilityLedger, SM : Serde LeaseMetadata, KB : KekBackend, JB : Serde BoundRequest,
    JJ : Serde OperationJournal, CS : CookieSerde, PSL : Psl, SV : Serde JsonValue, JP : JsonPretty,
    SC : Serde AccountGroupsConfig, CP : ConfigPretty} {L A : Type} `{AS : AuditSink L} `{PA : PlatformAuthorizer A}
    paths w messages :
  match (s ← open_app paths; run_local s (serve_app messages)) tt w : Outcome unit (_ * NativeHostApp L A) with
  | Done (_, s) _ _ => valid_config (app_config s) /\ bt_sorted (app_groups s) /\
      Forall (fun x => is_Some (bt_get (ag_id x) (app_groups s))) (cfg_groups (app_config s)) /\
      app_paths s = paths /\ own_runtimes s
  | _ => True
  end.
Proof.
  unfold mbind at 1, M_bind at 1. destruct (open_app paths tt w) as [s [] w1| | |] eqn:Hopen; [|done..].
  pose proof (open_app_own paths _ _ _ Hopen) as Hown. apply open_app_ok in Hopen. unfold run_local, with_local, mbind, M_bind.
  pose proof (preserves_serve messages s w1 Hopen) as Hs. pose proof (own_serve paths messages s w1 Hown) as Ho.
  destruct (serve_app messages s w1) as [answers s' w2| | |]; [|done..].
  destruct Hs. split_and!; [done..|by destruct Ho|by apply (own_own_runtimes paths)].
Qed.
