(* ===== verification/Consent.v ===== *)
(** * What only a verified user gets

    The composition of the handlers (Handlers, App) with the interface of the
    authorizers ([UserVerification], Capability): the cookies of a vault leave the
    host, and a profile is handed over, only in a run in which the platform
    verified the user for exactly this. *)

From S2P Require Import Prelude World External Frames AtomicFile Config Messages VaultFormat Capability LeaseMeta VaultStore Transaction Paths OpModel OpJournal OpRecovery Coordinator Protocol Group Handlers Monitor App AppInvariant.

(** ** Answers that give nothing away *)

(** The messages that carry cookies to the browser or hand over a profile are the
    only ones that are not [quiet]. *)
Definition quiet (m : Message) : Prop :=
  match m with Msg.CookiesInjectChunk _ | Msg.RecoveryAdopted _ => False | _ => True end.

Definition answers {S} (m : M S (list Message)) : Prop := forall s w messages s' w',
  m s w = Done messages s' w' -> Forall quiet messages.

Create HintDb answers.

Section Answers.
Context {S : Type}.

Lemma answers_ret messages : Forall quiet messages -> answers (mret messages : M S _).
Proof. by intros H s w ms s' w' [= <- _ _]. Qed.
Lemma answers_throw e : answers (throw e : M S _).
Proof. done. Qed.
Lemma answers_bind {A} (m : M S A) (f : A -> M S (list Message)) : (forall a, answers (f a)) -> answers (m ≫= f).
Proof. intros Hf s w ms s' w' Hrun. apply run_bind_inv in Hrun as (a & s1 & w1 & _ & Hrun). by eapply Hf. Qed.
Lemma answers_bind_list (m : M S (list Message)) (f : list Message -> M S (list Message)) :
  answers m -> (forall ms, Forall quiet ms -> answers (f ms)) -> answers (m ≫= f).
Proof.
  intros Hm Hf s w ms s' w' Hrun. apply run_bind_inv in Hrun as (a & s1 & w1 & Ha & Hrun).
  apply Hm in Ha. by eapply Hf.
Qed.
Lemma answers_zoom {T} (g : S -> T) (f : T -> S -> S) (m : M T (list Message)) : answers m -> answers (zoom g f m).
Proof. intros Hm s w ms s' w'. unfold zoom. destruct (m (g s) w) eqn:Hrun; [|done..]. intros [= <- _ _]. by eapply Hm. Qed.
End Answers.

#[export] Hint Resolve answers_throw : answers.
#[export] Hint Extern 2 (answers (mret _)) => (apply answers_ret; repeat constructor) : answers.

(** Follows the text of a program to its answer. *)
Ltac answers_step :=
  match goal with
  | |- answers (_ ≫= _) => apply answers_bind; intros ?
  | |- answers (zoom _ _ _) => apply answers_zoom
  | |- answers (let '(_, _) := ?x in _) => destruct x
  | |- answers (match ?x with _ => _ end) => destruct x
  | |- answers _ => solve [eauto with answers]
  end.
Ltac answers_tac := repeat (answers_step; cbn beta zeta).

Section Group.
Context `{UT : UuidText, SH : Sha256, AE : Aead, LS : LocalSecret, SP : Serde VaultPayload,
  SL : Serde CapabilityLedger, SM : Serde LeaseMetadata, KB : KekBackend,
  JB : Serde BoundRequest, JJ : Serde OperationJournal, CS : CookieSerde}.
Context {L A : Type} `{AS : AuditSink L} `{PA : PlatformAuthorizer A}.
Abbreviation H := (M (HandlerState L A)).

Lemma answers_snapshot_chunk snapshot : answers (handle_snapshot_chunk snapshot : H _).
Proof using Type.
  unfold handle_snapshot_chunk, abort_empty_enrollment, confirm_snapshot. answers_tac.
Qed.

Lemma answers_v7_binding sequence attempt (messages : list Message) :
  Forall quiet messages -> Forall quiet (with_v7_binding sequence attempt <$> messages).
Proof using Type. intros Hm. apply Forall_fmap. eapply list.Forall_impl; [exact Hm|]. by intros []. Qed.

Lemma answers_snapshot_chunk_v7 snapshot : answers (handle_snapshot_chunk_v7 snapshot : H _).
Proof using Type.
  unfold handle_snapshot_chunk_v7. do 4 (apply answers_bind; intros ?). destruct (_ !! _); [answers_tac|].
  apply answers_bind. intros _. destruct (String.eqb _ _).
  - unfold on_group, handle_removal_snapshot_chunk. answers_tac.
  - apply answers_bind. intros _. apply answers_bind_list; [apply answers_snapshot_chunk|].
    intros ms Hms. by apply answers_ret, answers_v7_binding.
Qed.
Hint Resolve answers_snapshot_chunk answers_snapshot_chunk_v7 : answers.

(** Every handler of a group but the one of an injection. *)
Lemma answers_handle message hello_credential protocol :
  match message with Msg.LeaseRequest request => lr_purpose request <> Purpose.Inject | _ => True end ->
  answers (handle message hello_credential protocol : H _).
Proof using Type.
  intros Hm. destruct message; cbn [handle]; try apply answers_throw.
  all: unfold handle_lease_request, grant_enrollment_v7, begin_enrollment, handle_inject_result, handle_evict_begin,
    handle_evict_result, handle_evict_result_v7, handle_session_invalidate, invalidate_session, handle_auth_cache_clear,
    handle_operation_begin, handle_operation_status, handle_remove_prepare, semantic_status, on_group.
  all: answers_tac. done.
Qed.
End Group.

(** ** Time passes

    A part of a run that keeps to any files at all only goes on. *)

Abbreviation passing := (framed (fun _ => True)).

Lemma passing_frame {A} own (m : IO A) : io_frame own m -> passing m.
Proof. intros Hm. eapply framed_weaken; [intros [] w; apply Hm|done]. Qed.

Lemma passing_done {S A} (m : M S A) s w a s' w' : passing m -> m s w = Done a s' w' -> later w w'.
Proof. intros Hm Hrun. eapply agree_off_later, framed_done; eauto. Qed.

Lemma passing_write_verified p b check : passing (write_verified p b (fun x => lift (check x))).
Proof. by apply framed_write_verified. Qed.

Lemma passing_persist_lease `{SM : Serde LeaseMetadata} p m : passing (persist_lease p m).
Proof. intros [] w. by apply wp_persist_lease; intros; eapply agree_off_weaken. Qed.

Create HintDb passing.
#[export] Hint Resolve framed_try framed_io framed_zoom framed_with_local passing_write_verified passing_persist_lease
  : passing.

Ltac passing_step :=
  match goal with
  | |- framed _ (_ ≫= _) => apply framed_bind; [|intros ?]
  | |- framed _ (let '(_, _) := ?x in _) => destruct x
  | |- framed _ (match ?x with _ => _ end) => destruct x
  | |- framed _ (zoom _ _ _) => apply framed_zoom
  | |- framed _ (io _) => apply framed_io
  | |- framed _ (try_ _) => apply framed_try
  | |- framed _ _ => solve [apply calm_framed; eauto with calm|eauto with passing]
  end.
Ltac passing_tac := repeat (passing_step; cbn beta zeta).

(** ** Frames that depend on the state

    [keeping P own m]: from a state with [P], [m] changes no file but those in
    [own] and leaves a state with [P]. *)
Definition keeping {S A} (P : S -> Prop) (own : Path -> Prop) (m : M S A) : Prop := forall s w, P s ->
  wp m (fun _ s' w' => P s' /\ agree_off own w w') (fun _ s' w' => P s' /\ agree_off own w w') (agree_off own w) s w.

Section Keeping.
Context {S : Type} (P : S -> Prop) (own : Path -> Prop).

Lemma keeping_framed {A} (m : M S A) : framed own m -> preserves P m -> keeping P own m.
Proof.
  intros Hf Hp s w HP. specialize (Hf s w). specialize (Hp s w HP). unfold wp, ends in *. by destruct (m s w).
Qed.
Lemma keeping_bind {A B} (m : M S A) (f : A -> M S B) : keeping P own m -> (forall a, keeping P own (f a)) -> keeping P own (m ≫= f).
Proof.
  intros Hm Hf s w HP. apply wp_bind. eapply wp_mono; [by apply Hm|cbn beta..]; [|done|done].
  intros a s1 w1 [HP1 H1]. eapply wp_mono; [by apply Hf|..]; cbn beta.
  - intros ? ? ? [? ?]. split; [done|by eapply agree_off_trans].
  - intros ? ? ? [? ?]. split; [done|by eapply agree_off_trans].
  - intros ? ?. by eapply agree_off_trans.
Qed.
Lemma keeping_try {A} (m : M S A) : keeping P own m -> keeping P own (try_ m).
Proof. intros Hm s w HP. by apply wp_try, Hm. Qed.
Lemma keeping_zoom {T A} (Q : T -> Prop) (g : S -> T) (f : T -> S -> S) (m : M T A) :
  keeping Q own m -> (forall s, P s -> Q (g s)) -> (forall t s, P s -> Q t -> P (f t s)) -> keeping P own (zoom g f m).
Proof.
  intros Hm Hg Hf s w HP. apply wp_zoom. eapply wp_mono; [by apply Hm, Hg|cbn beta..]; [| |done].
  - intros a t w' [Ht Ha]. split; [by apply Hf|done].
  - intros e t w' [Ht Ha]. split; [by apply Hf|done].
Qed.
Lemma keeping_done {A} (m : M S A) s w a s' w' : keeping P own m -> P s -> m s w = Done a s' w' -> agree_off own w w'.
Proof. intros Hm HP Hrun. specialize (Hm s w HP). unfold wp in Hm. rewrite Hrun in Hm. by destruct Hm. Qed.
End Keeping.

(** ** The authorization of an injection *)

Section Inject.
Context `{UT : UuidText, SH : Sha256, AE : Aead, LS : LocalSecret, SP : Serde VaultPayload,
  SL : Serde CapabilityLedger, SM : Serde LeaseMetadata, KB : KekBackend, KL : !KekLaws,
  JB : Serde BoundRequest, JJ : Serde OperationJournal, CS : CookieSerde}.
Context {L A : Type} `{AS : AuditSink L, ASL : !AuditSinkLaws L} `{PA : PlatformAuthorizer A}
  (own : Path -> Path -> Prop) `{PAL : !PlatformAuthorizerLaws A own}
  (verified : A -> CapabilityPayload -> World -> World -> Prop) `{UV : !UserVerification A verified}.
Abbreviation H := (M (HandlerState L A)).

Lemma passing_open_or_create p : passing (open_or_create p : IO A).
Proof using PAL. eapply passing_frame, open_or_create_frame. Qed.
Lemma passing_recover (a : A) e p : passing (recover_if_credential_vanished a e p).
Proof using PAL. eapply passing_frame, recover_frame. Qed.
Lemma passing_sign (a : A) p : passing (sign a p).
Proof using PAL. eapply passing_frame, sign_frame. Qed.
Lemma passing_verify (a : A) c : passing (verify_signature a c).
Proof using PAL. eapply passing_frame, verify_frame. Qed.
Lemma passing_unwrap p b : passing (kek_unwrap_dek p b).
Proof using KL. eapply passing_frame, kek_unwrap_frame. Qed.
Lemma passing_record g ev out op det : passing (sink_record g ev out op det : M L unit).
Proof using ASL. intros l w. eapply wp_mono; [apply sink_record_frame|..]; cbn beta; intros; eapply agree_off_weaken; naive_solver. Qed.
Hint Resolve passing_open_or_create passing_recover passing_sign passing_verify passing_unwrap passing_record : passing.

Lemma framed_persist_ledger F p l : (forall q, writer_files p q -> F q) -> framed F (file_persist_ledger p l).
Proof using Type. intros HF. unfold file_persist_ledger. passing_tac. by apply framed_write_verified. Qed.
Hint Resolve framed_persist_ledger : passing.

Lemma passing_on_ledger {T} (m : forall _ : CapabilityLedgerStore, M CapabilityLedger T) :
  (forall p, passing (m (file_persist_ledger p))) -> passing (on_ledger m).
Proof using Type. intros Hm. unfold on_ledger. apply framed_bind; [apply calm_framed, calm_get|]. intros tx. by apply framed_zoom. Qed.

Lemma framed_sign F (a : A) p : framed F (sign a p).
Proof using PAL. eapply framed_weaken; [intros [] w; apply sign_frame|done]. Qed.
Lemma framed_verify F (a : A) c : framed F (verify_signature a c).
Proof using PAL. eapply framed_weaken; [intros [] w; apply verify_frame|done]. Qed.
Hint Resolve framed_sign framed_verify : passing.

Lemma framed_reserve F p op now life : (forall q, writer_files p q -> F q) -> framed F (@reserve (file_persist_ledger p) op now life).
Proof using Type. intros HF. unfold reserve, new_payload, persist_ledger. passing_tac. Qed.
Lemma framed_cancel F p : (forall q, writer_files p q -> F q) -> framed F (@cancel_pending (file_persist_ledger p)).
Proof using Type. intros HF. unfold cancel_pending, persist_ledger. passing_tac. Qed.
Lemma framed_consume F p (a : A) c op now :
  (forall q, writer_files p q -> F q) -> framed F (@verify_and_consume (file_persist_ledger p) A PA a c op now).
Proof using PAL. intros HF. unfold verify_and_consume, persist_ledger. passing_tac. Qed.

Lemma passing_authorize_inject (a : A) : passing (authorize_inject a).
Proof using PAL.
  unfold authorize_inject. passing_tac; apply passing_on_ledger; intros p;
    [by apply framed_reserve|by apply framed_consume|by apply framed_cancel].
Qed.
Hint Resolve passing_authorize_inject : passing.

(** The files an authorization writes: the credential's and the capabilities'. *)
Definition unlock_files (cred store : Path) (p : Path) : Prop := own cred p \/ writer_files store p.

Lemma keeping_ledger {T} F store (m : forall _ : CapabilityLedgerStore, M CapabilityLedger T) :
  framed F (m (file_persist_ledger store)) -> keeping (fun tx => vt_capability_store tx = store) F (on_ledger m).
Proof using Type.
  intros Hm tx w <-. unfold on_ledger. apply wp_bind, wp_get, wp_zoom. eapply wp_mono; [apply Hm|..]; cbn beta; try done.
Qed.

Lemma keeping_authorize_inject F store (a : A) :
  (forall q, writer_files store q -> F q) -> keeping (fun tx => vt_capability_store tx = store) F (authorize_inject a).
Proof using PAL.
  intros HF. unfold authorize_inject. apply keeping_bind; [apply keeping_framed; [passing_tac|preserves_tac]|]. intros now.
  apply keeping_bind; [by apply keeping_ledger, framed_reserve|]. intros payload.
  apply keeping_bind; [apply keeping_framed; [passing_tac|preserves_tac]|]. intros [signed|e].
  - apply keeping_bind; [apply keeping_framed; [passing_tac|preserves_tac]|]. intros now'. by apply keeping_ledger, framed_consume.
  - apply keeping_bind; [by apply keeping_ledger, framed_cancel|]. intros _. apply keeping_framed; [passing_tac|preserves_tac].
Qed.

(** In a run from [w] to [w'] the platform verified the user for [operation] on
    [group]. *)
Definition approved (authorizer : A) (group : Uuid) (operation : CapabilityOperation) (w w' : World) : Prop :=
  exists payload w1 w2, later w w1 /\ verified authorizer payload w1 w2 /\ later w2 w' /\
    cp_account_group_id payload = group /\ cp_operation payload = operation.

Lemma approved_later authorizer group operation w w1 w2 w' :
  later w w1 -> approved authorizer group operation w1 w2 -> later w2 w' -> approved authorizer group operation w w'.
Proof using Type.
  intros H1 (payload & w3 & w4 & H3 & Hv & H4 & Hg & Ho) H2. exists payload, w3, w4.
  split_and!; [by eapply later_trans|done|by eapply later_trans|done..].
Qed.

Lemma on_ledger_inv {T} (m : forall _ : CapabilityLedgerStore, M CapabilityLedger T) tx w a tx' w' :
  on_ledger m tx w = Done a tx' w' -> exists l',
    m (file_persist_ledger (vt_capability_store tx)) (vt_capability_ledger tx) w = Done a l' w' /\
    tx' = set_vt_capability_ledger l' tx.
Proof using Type.
  unfold on_ledger, mbind, M_bind, get, zoom. destruct (m _ _ _) as [b l' w1| | |]; [|done..].
  intros [= <- <- <-]. by exists l'.
Qed.

Lemma consume_inv p (a : A) signed op now l w c l' w' :
  @verify_and_consume (file_persist_ledger p) A PA a signed op now l w = Done c l' w' ->
  cp_operation (sc_payload signed) = op /\ cc_account_group_id c = cp_account_group_id (sc_payload signed).
Proof using Type.
  intros Hrun. unfold verify_and_consume in Hrun. run_inv Hrun. injection Hrun as <- _ _. bool_to_prop.
  repeat match goal with H : ~ _ <> _ |- _ => apply dec_stable in H end. done.
Qed.

Lemma authorize_inject_approved (a : A) tx w c tx' w' :
  authorize_inject a tx w = Done c tx' w' -> approved a (cc_account_group_id c) CapOp.Inject w w'.
Proof using PAL UV.
  intros Hrun. unfold authorize_inject in Hrun.
  apply run_bind_inv in Hrun as (now & tx1 & w1 & H1 & Hrun). apply run_bind_inv in Hrun as (payload & tx2 & w2 & H2 & Hrun).
  apply run_bind_inv in Hrun as (signed & tx3 & w3 & H3 & Hrun).
  apply passing_done in H1; [|passing_tac]. apply passing_done in H2; [|apply passing_on_ledger; intros; by apply framed_reserve].
  unfold try_, io in H3. destruct (sign a payload tt w2) as [c0 [] w4|e [] w4| |] eqn:Hsign; [|injection H3 as <- <- <-|done..].
  2: { by apply run_bind_inv in Hrun as (? & ? & ? & _ & Hrun). }
  injection H3 as <- <- <-. apply run_bind_inv in Hrun as (now' & tx4 & w5 & H4 & Hrun).
  apply passing_done in H4; [|passing_tac]. apply sign_verified in Hsign as [<- Hv].
  apply on_ledger_inv in Hrun as (l' & Hrun & ->). pose proof (passing_done _ _ _ _ _ _ (framed_consume (fun _ => True) _ _ _ _ _ (fun _ _ => I)) Hrun) as H5.
  apply consume_inv in Hrun as [Hop Hgroup]. exists (sc_payload c0), w2, w4. split_and!; [..|done|done|done|done]; by eapply later_trans.
Qed.

(** ** The answer to a request for an injection *)

(** The vault and its key stay those of the transactions [tx0]. *)
Definition same_vault (tx0 tx : VaultTransactions) : Prop :=
  vt_group_id tx = vt_group_id tx0 /\ vault_path tx = vault_path tx0 /\ vt_kek tx = vt_kek tx0.

Lemma same_vault_trans tx0 tx1 tx2 : same_vault tx0 tx1 -> same_vault tx1 tx2 -> same_vault tx0 tx2.
Proof using Type. intros (? & ? & ?) (? & ? & ?). split_and!; congruence. Qed.

Lemma preserves_ledger {T} tx0 (m : forall _ : CapabilityLedgerStore, M CapabilityLedger T) : preserves (same_vault tx0) (on_ledger m).
Proof using Type. unfold on_ledger. preserves_tac. Qed.
Hint Resolve preserves_ledger : preserves.

Lemma preserves_authorize_inject tx0 (a : A) : preserves (same_vault tx0) (authorize_inject a).
Proof using Type. unfold authorize_inject. preserves_tac. Qed.

Lemma preserves_done {S B} (P : S -> Prop) (m : M S B) s w b s' w' : preserves P m -> m s w = Done b s' w' -> P s -> P s'.
Proof using Type. intros Hm Hrun HP. specialize (Hm s w HP). by rewrite Hrun in Hm. Qed.

Lemma io_inv {S B} (m : IO B) (s : S) w b s' w' : io m s w = Done b s' w' -> s' = s /\ m tt w = Done b tt w'.
Proof using Type. unfold io. destruct (m tt w) as [? [] ?| | |]; [|done..]. by intros [= <- <- <-]. Qed.

Lemma on_group_inv {T} (m : M GroupRuntime T) (s : HandlerState L A) w a s' w' :
  on_group m s w = Done a s' w' -> exists g', m (hd_group s) w = Done a g' w' /\ s' = set_hd_group g' s.
Proof using Type. unfold on_group, zoom. destruct (m (hd_group s) w) as [b g' w1| | |]; [|done..]. intros [= <- <- <-]. by exists g'. Qed.

Lemma group_state_inv (s : HandlerState L A) w g s' w' : group_state s w = Done g s' w' -> g = hd_group s /\ s' = s /\ w' = w.
Proof using Type. intros [= <- <- <-]. by destruct s. Qed.

Definition transactions_of (s : HandlerState L A) : VaultTransactions := rt_transactions (hd_group s).

Lemma group_authorize_inv (a : A) (s : HandlerState L A) w c s' w' :
  on_group (on_transactions (authorize_inject a)) s w = Done c s' w' ->
  approved a (cc_account_group_id c) CapOp.Inject w w' /\ hd_authorizer s' = hd_authorizer s /\
  same_vault (transactions_of s) (transactions_of s').
Proof using PAL UV.
  intros Hrun. apply on_group_inv in Hrun as (g' & Hrun & ->). unfold on_transactions, zoom in Hrun.
  destruct (authorize_inject a _ w) as [c0 tx' w1| | |] eqn:Ha; [|done..]. injection Hrun as -> <- <-. split_and!; [|done|].
  - by eapply authorize_inject_approved.
  - eapply preserves_done; [apply preserves_authorize_inject|exact Ha|done].
Qed.

Lemma group_authorize_passing (a : A) : passing (on_group (on_transactions (authorize_inject a)) : H _).
Proof using PAL. unfold on_group, on_transactions. passing_tac. Qed.

(** A failed attempt leaves the vault and the authorizer as well. *)
Lemma group_authorize_try (a : A) (s : HandlerState L A) w r s' w' :
  try_ (on_group (on_transactions (authorize_inject a))) s w = Done r s' w' ->
  later w w' /\ hd_authorizer s' = hd_authorizer s /\ same_vault (transactions_of s) (transactions_of s') /\
  forall c, r = Ok c -> approved a (cc_account_group_id c) CapOp.Inject w w'.
Proof using PAL UV.
  intros Hrun. split; [|split; [|split]].
  - eapply passing_done; [|exact Hrun]. apply framed_try, group_authorize_passing.
  - revert Hrun. unfold try_, on_group, zoom. by destruct (on_transactions _ _ _); intros [= _ <- _].
  - unfold try_, on_group, on_transactions, zoom in Hrun.
    pose proof (preserves_authorize_inject (transactions_of s) a (transactions_of s) w) as Hp. unfold transactions_of in *.
    destruct (authorize_inject _ _ _); [injection Hrun as _ <- _|injection Hrun as _ <- _|done..]; by apply Hp.
  - intros c ->. unfold try_ in Hrun. destruct (on_group _ s w) as [c0 s1 w1|e s1 w1| |] eqn:Ha; [|done..].
    injection Hrun as -> _ <-. by apply group_authorize_inv in Ha as [Ha _].
Qed.

Lemma keeping_authorize store (a : A) cred :
  keeping (fun s : HandlerState L A => vt_capability_store (transactions_of s) = store) (unlock_files cred store) (authorize a cred).
Proof using PAL.
  assert (Hau : forall b : A, keeping (fun s : HandlerState L A => vt_capability_store (transactions_of s) = store)
    (unlock_files cred store) (on_group (on_transactions (authorize_inject b)))).
  { intros b. unfold on_group, on_transactions.
    apply (keeping_zoom _ _ (fun g => vt_capability_store (rt_transactions g) = store)); [|done|done].
    apply (keeping_zoom _ _ (fun tx => vt_capability_store tx = store)); [|done|done].
    apply keeping_authorize_inject. by right. }
  assert (Hrec : forall e, framed (unlock_files cred store) (recover_if_credential_vanished a e cred)).
  { intros e. eapply framed_weaken; [intros [] w; apply recover_frame|by left]. }
  unfold authorize. apply keeping_bind; [by apply keeping_try|]. intros [value|e].
  - apply keeping_framed; [passing_tac|preserves_tac].
  - apply keeping_bind; [apply keeping_framed; [by apply framed_io|preserves_tac]|]. intros [again b].
    apply keeping_bind; [apply keeping_framed; [passing_tac|by apply preserves_modify]|]. intros _.
    destruct again; [done|]. apply keeping_framed; [passing_tac|preserves_tac].
Qed.

Lemma authorize_approved (a : A) cred (s : HandlerState L A) w c s' w' :
  authorize a cred s w = Done c s' w' -> hd_authorizer s = Some a ->
  exists a', hd_authorizer s' = Some a' /\ approved a' (cc_account_group_id c) CapOp.Inject w w' /\
    same_vault (transactions_of s) (transactions_of s').
Proof using PAL UV.
  intros Hrun Ha. unfold authorize in Hrun. apply run_bind_inv in Hrun as (r & s1 & w1 & H1 & Hrun).
  apply group_authorize_try in H1 as (Hl1 & Ha1 & Hv1 & Hok). destruct r as [c1|e].
  { injection Hrun as <- <- <-. exists a. split_and!; [congruence|by apply Hok|done..]. }
  apply run_bind_inv in Hrun as ([again a'] & s2 & w2 & H2 & Hrun).
  apply io_inv in H2 as [-> H2]. apply passing_done in H2 as Hl2; [|apply passing_recover].
  apply run_bind_inv in Hrun as (u & s3 & w3 & H3 & Hrun). injection H3 as _ <- <-. destruct again; [|done].
  apply group_authorize_inv in Hrun as (Hap & Ha' & Hv'). exists a'. split_and!; [done| |].
  - eapply approved_later; [by eapply later_trans|done|done].
  - by eapply same_vault_trans.
Qed.

Lemma ensure_authorizer_inv cred (s : HandlerState L A) w a s' w' :
  ensure_authorizer cred s w = Done a s' w' ->
  agree_off (own cred) w w' /\ hd_authorizer s' = Some a /\ hd_group s' = hd_group s.
Proof using PAL.
  intros Hrun. unfold ensure_authorizer in Hrun. apply run_bind_inv in Hrun as (s0 & s1 & w1 & [= <- <- <-] & Hrun).
  destruct (hd_authorizer s) as [a0|] eqn:Ha; [injection Hrun as <- <- <-; split; [apply agree_off_refl|done]|].
  apply run_bind_inv in Hrun as (a1 & s1 & w1 & H1 & Hrun).
  apply io_inv in H1 as [-> H1]. apply (framed_done (own cred)) in H1 as Hl; [|intros [] w0; apply open_or_create_frame].
  by injection Hrun as <- <- <-.
Qed.

(** The cookies of an answer, in the order in which they are sent. *)
Definition injected (messages : list Message) : list CookieRecord :=
  concat (omap (fun m => match m with Msg.CookiesInjectChunk c => Some (cic_cookies c) | _ => None end) messages).

Lemma inject_chunks_injected group lease count cookie_count index chunks messages :
  inject_chunks group lease count cookie_count index chunks = Ok messages ->
  injected messages = concat chunks /\ forall r, Msg.RecoveryAdopted r ∉ messages.
Proof using Type.
  revert index messages. induction chunks as [|cookies chunks IH]; intros index messages; cbn [inject_chunks].
  - intros [= <-]. split; [done|]. intros r Hr. by apply elem_of_nil in Hr.
  - intros H. res_inv H. injection H as <-.
    match goal with Hc : inject_chunks _ _ _ _ _ _ = Ok _ |- _ => destruct (IH _ _ Hc) as [Hi Hn] end.
    split; [cbn; by f_equal|]. intros x [?|Hx]%elem_of_cons; [done|by eapply Hn].
Qed.

Lemma chunk_cookies_concat cookies current n chunks :
  chunk_cookies cookies current n = Ok chunks -> concat chunks = current ++ cookies.
Proof using Type.
  revert current n chunks. induction cookies as [|c cookies IH]; intros current n chunks H; cbn [chunk_cookies] in H.
  - injection H as <-. done.
  - res_inv H. destruct (_ && _).
    + res_inv H. injection H as <-. cbn. f_equal. match goal with Hc : chunk_cookies _ _ _ = Ok _ |- _ => exact (IH _ _ _ Hc) end.
    + apply IH in H as ->. by rewrite <- app_assoc.
Qed.

Lemma chunk_cookie_records_concat cookies chunks : chunk_cookie_records cookies = Ok chunks -> concat chunks = cookies.
Proof using Type.
  unfold chunk_cookie_records. case_bool_decide as Hc; [by intros [= <-]; subst|]. apply chunk_cookies_concat.
Qed.

(** The vault opens to the payload at the moment [w1] of the run, under the key that
    its key-encryption key unwraps. *)
Definition vault_opens (tx : VaultTransactions) (w1 : World) (payload : VaultPayload) : Prop :=
  exists b r dek w2 w3, file_at w1 (vault_path tx) = Some b /\ decode_record b = Ok r /\
    untouched w1 w2 /\ kek_unwrap_dek (vt_kek tx) (vh_wrapped_dek (vr_header r)) tt w2 = Done dek tt w3 /\
    open_record r dek = Ok payload.

(** The cookies of an answer come from this vault. *)
Definition from_vault (tx : VaultTransactions) (w1 : World) (messages : list Message) : Prop :=
  exists payload, vault_opens tx w1 payload /\ injected messages = pl_cookies payload.

Lemma vault_opens_same tx tx' w payload : same_vault tx tx' -> vault_opens tx' w payload -> vault_opens tx w payload.
Proof using Type. intros (_ & Hp & Hk). unfold vault_opens. by rewrite Hp, Hk. Qed.

Lemma read_for_inject_inv tx token w payload w' :
  read_for_inject tx token tt w = Done payload tt w' ->
  cc_account_group_id token = vt_group_id tx /\ later w w' /\ vault_opens tx w payload.
Proof using KL.
  intros Hrun. pose proof (wp_read_for_inject tx token w) as Hwp. unfold wp in Hwp. rewrite Hrun in Hwp.
  destruct Hwp as (Hg & _ & Ha & _). split_and!; [done|by eapply agree_off_later|].
  unfold read_for_inject, read_vault in Hrun. apply run_bind_inv in Hrun as (? & [] & w1 & (_ & _ & ->)%run_lift_inv & Hrun).
  apply run_bind_inv in Hrun as (r & [] & w2 & Hread & Hrun). apply run_bind_inv in Hread as (b & [] & w3 & Hb & Hr).
  apply run_lift_inv in Hr as (Hr & _ & ->). apply run_bind_inv in Hrun as (dek & [] & w4 & Hdek & Hrun).
  apply run_lift_inv in Hrun as (Hopen & _ & ->). exists b, r, dek, w3, w4. split_and!; [|done| |done|done].
  - by apply run_fs_read_inv in Hb as [Hb _].
  - eapply calm_done; [apply calm_read|exact Hb].
Qed.

Lemma begin_inject_approved duration cred (s : HandlerState L A) w messages s' w' :
  begin_inject duration cred s w = Done messages s' w' -> Forall quiet messages \/
  exists authorizer w1, hd_authorizer s' = Some authorizer /\
    approved authorizer (vt_group_id (transactions_of s)) CapOp.Inject w w1 /\ later w1 w' /\
    agree_off (unlock_files cred (vt_capability_store (transactions_of s))) w w1 /\
    from_vault (transactions_of s) w1 messages /\ forall r, Msg.RecoveryAdopted r ∉ messages.
Proof using PAL UV KL ASL.
  intros Hrun. unfold begin_inject in Hrun. set (F := unlock_files cred (vt_capability_store (transactions_of s))).
  apply run_bind_inv in Hrun as (g & s1 & w1 & (-> & -> & ->)%group_state_inv & Hrun).
  apply run_bind_inv in Hrun as (sealed & s1 & w1 & H1 & Hrun).
  assert (agree_off F w w1 /\ s1 = s) as [Hl1 ->].
  { case_bool_decide; [|injection H1 as _ <- <-; split; [apply agree_off_refl|done]]. apply io_inv in H1 as [-> H1]. split; [|done].
    eapply framed_done; [|exact H1]. unfold vault_exists. passing_tac. }
  destruct sealed; cbn [negb] in Hrun.
  2: { left. injection Hrun as <- _ _. by repeat constructor. }
  right. apply run_bind_inv in Hrun as (now & s2 & w2 & H2 & Hrun).
  apply io_inv in H2 as [-> H2]. apply (framed_done F) in H2 as Hl2; [|passing_tac].
  apply run_bind_inv in Hrun as (a & s3 & w3 & H3 & Hrun). apply ensure_authorizer_inv in H3 as (Hl3 & Ha & Hg).
  apply run_bind_inv in Hrun as (token & s4 & w4 & H4 & Hrun).
  apply (keeping_done _ _ _ _ _ _ _ _ (keeping_authorize (vt_capability_store (transactions_of s)) a cred)) in H4 as Hl4;
    [|unfold transactions_of; by rewrite Hg].
  apply authorize_approved in H4 as (a' & Ha' & Hap & Hv); [|done].
  apply run_bind_inv in Hrun as (g & s5 & w5 & (-> & -> & ->)%group_state_inv & Hrun).
  apply run_bind_inv in Hrun as (payload & s6 & w6 & H6 & Hrun).
  apply io_inv in H6 as [-> H6]. apply read_for_inject_inv in H6 as (Hgroup & Hl6 & Hopens).
  assert (Hs4 : transactions_of s3 = transactions_of s) by (unfold transactions_of; by rewrite Hg).
  rewrite Hs4 in *. exists a', w4.
  assert (Hw3 : agree_off F w w3).
  { eapply agree_off_trans; [exact Hl1|]. eapply agree_off_trans; [exact Hl2|]. eapply agree_off_weaken; [exact Hl3|by left]. }
  assert (Hinj : exists chunks lease n count, inject_chunks (rt_id (hd_group s4)) lease n count 0 chunks = Ok (tail messages) /\
    injected messages = injected (tail messages) /\ concat chunks = pl_cookies payload /\
    forall x, Msg.RecoveryAdopted x ∈ messages -> Msg.RecoveryAdopted x ∈ tail messages).
  { run_inv Hrun. injection Hrun as <- _ _. eexists _, _, _, _. split; [eassumption|]. split; [done|]. split.
    - by apply chunk_cookie_records_concat.
    - by intros x [?|Hx]%elem_of_cons. }
  destruct Hinj as (chunks & lease & n & count & Hc & Hi & Hcat & Hno). apply inject_chunks_injected in Hc as [Hc Hn]. split_and!.
  - eapply (preserves_done (fun s0 : HandlerState L A => hd_authorizer s0 = Some a')); [|exact Hrun|done].
    unfold on_group, on_audit. preserves_tac.
  - destruct Hv as [Hvg _]. rewrite <- Hvg. change (vt_group_id (transactions_of s4)) with (vt_group_id (rt_transactions (hd_group s4))).
    rewrite <- Hgroup. eapply approved_later; [by eapply agree_off_later|done|done].
  - eapply later_trans; [exact Hl6|]. eapply passing_done; [|exact Hrun]. unfold on_group, on_audit, advance_lease, persist_own_lease.
    passing_tac.
  - by eapply agree_off_trans.
  - exists payload. split; [by eapply vault_opens_same|congruence].
  - intros x Hx%Hno. by eapply Hn.
Qed.
End Inject.

(** ** The application *)

Section App.
Context `{UT : UuidText, SH : Sha256, AE : Aead, LS : LocalSecret, SP : Serde VaultPayload,
  SL : Serde CapabilityLedger, SM : Serde LeaseMetadata, KB : KekBackend, KL : !KekLaws,
  JB : Serde BoundRequest, JJ : Serde OperationJournal, CS : CookieSerde,
  PSL : Psl, SV : Serde JsonValue, JP : JsonPretty, SC : Serde AccountGroupsConfig, CP : ConfigPretty}.
Context {L A : Type} `{AS : AuditSink L, ASL : !AuditSinkLaws L} `{PA : PlatformAuthorizer A}
  (own : Path -> Path -> Prop) `{PAL : !PlatformAuthorizerLaws A own}
  (verified : A -> CapabilityPayload -> World -> World -> Prop) `{UV : !UserVerification A verified}.
Abbreviation NHA := (NativeHostApp L A).

Lemma answers_poll n : answers (poll_events n : M (MonitorEngine * L) _).
Proof using Type.
  induction n as [|n IH]; cbn [poll_events]; [answers_tac|]. apply answers_bind. intros engine.
  destruct (mon_pending engine) as [|event rest]; [answers_tac|]. do 2 (apply answers_bind; intros ?).
  apply answers_bind_list; [done|]. intros ms Hms. apply answers_ret. by constructor.
Qed.

(** A message other than a request for an injection or for a profile. *)
Definition routine (message : Message) : Prop :=
  match message with
  | Msg.LeaseRequest request => lr_purpose request <> Purpose.Inject
  | Msg.RecoveryAdopt _ => False
  | _ => True
  end.

Lemma answers_app message : routine message -> answers (app_handle message : M NHA _).
Proof using Type.
  intros Hm. unfold app_handle. apply answers_bind. intros s0. destruct (negb _).
  - destruct message; try apply answers_throw. unfold handle_handshake. answers_tac.
  - destruct message; try apply answers_throw; unfold dispatch; do 2 (apply answers_bind; intros ?); try apply answers_throw.
    all: try (unfold handle_group_add, handle_group_remove, handle_group_set_policy, finish_removal, undo_removal,
      config_updated, config_rejected, on_entry; answers_tac; done).
    all: try (unfold on_monitor, accept_extension_event, poll; answers_tac; apply answers_poll).
    all: try (do 2 (apply answers_bind; intros ?); unfold on_runtime; do 2 (apply answers_bind; intros ?);
      apply answers_zoom; by apply answers_handle).
Qed.

Lemma quiet_injection messages c : Forall quiet messages -> Msg.CookiesInjectChunk c ∉ messages.
Proof using Type. intros Hq Hc. rewrite Forall_forall in Hq. by apply Hq in Hc. Qed.

Lemma quiet_adoption messages r : Forall quiet messages -> Msg.RecoveryAdopted r ∉ messages.
Proof using Type. intros Hq Hc. rewrite Forall_forall in Hq. by apply Hq in Hc. Qed.

Lemma lease_request_approved request cred protocol (s : HandlerState L A) w messages s' w' :
  handle_lease_request request cred protocol s w = Done messages s' w' -> Forall quiet messages \/
  exists authorizer w1, hd_authorizer s' = Some authorizer /\
    approved verified authorizer (vt_group_id (transactions_of s)) CapOp.Inject w w1 /\ later w1 w' /\
    agree_off (unlock_files own cred (vt_capability_store (transactions_of s))) w w1 /\
    from_vault (transactions_of s) w1 messages /\ forall r, Msg.RecoveryAdopted r ∉ messages.
Proof using PAL UV KL ASL.
  intros Hrun. destruct (lr_purpose request) eqn:Hp.
  - unfold handle_lease_request in Hrun. apply run_bind_inv in Hrun as (g & s1 & w1 & (-> & -> & ->)%group_state_inv & Hrun).
    cbn beta zeta in Hrun. rewrite Hp in Hrun.
    do 3 (match type of Hrun with (if ?b then _ else _) _ _ = _ => destruct b; [injection Hrun as <- _ _; left; by repeat constructor|] end).
    by eapply begin_inject_approved.
  - left. refine (answers_handle (Msg.LeaseRequest request) cred protocol _ _ _ _ _ _ Hrun). cbn. by rewrite Hp.
Qed.

(** What a message that is not routine runs. *)
Lemma app_handle_inv message (s : NHA) w messages s' w' :
  app_handle message s w = Done messages s' w' -> ~ routine message ->
  match message with
  | Msg.LeaseRequest request => exists runtime h',
      bt_get (lr_account_group_id request) (app_groups s) = Some runtime /\
      handle_lease_request request (dp_hello_credential (app_paths s)) (app_negotiated_protocol s)
        (mkHandler runtime (app_audit s) (app_hello_authorizer s)) w = Done messages h' w' /\
      app_hello_authorizer s' = hd_authorizer h'
  | Msg.RecoveryAdopt request =>
      handle_recovery_adopt request (set_last_message_group None s) w = Done messages s' w'
  | _ => False
  end.
Proof using Type.
  intros Hrun Hm. unfold app_handle in Hrun. apply run_bind_inv in Hrun as (s0 & s1 & w1 & [= <- <- <-] & Hrun).
  destruct (negb (app_handshake_complete s)); [by destruct message|].
  destruct message; try (by destruct Hm); unfold dispatch in Hrun; cbn [message_group_id] in Hrun;
    apply run_bind_inv in Hrun as (u & s1 & w1 & [= _ <- <-] & Hrun);
    apply run_bind_inv in Hrun as (s2 & s1 & w1 & [= <- <- <-] & Hrun); [done|].
  apply run_bind_inv in Hrun as (g & s1 & w1 & [= <- <- <-] & Hrun).
  apply run_bind_inv in Hrun as (u' & s1 & w1 & [= _ <- <-] & Hrun).
  unfold on_runtime, runtime_of in Hrun. apply run_bind_inv in Hrun as (found & s1 & w1 & [= <- <- <-] & Hrun).
  apply run_bind_inv in Hrun as (runtime & s1 & w1 & (Hget & -> & ->)%run_ok_or_throw_inv & Hrun).
  unfold zoom in Hrun. destruct (handle _ _ _ _ w) as [ms h' w2| | |] eqn:Hh; [|done..]. injection Hrun as <- <- <-.
  by exists runtime, h'.
Qed.

(** The message, the group and the run behind cookies that leave the host. *)
Lemma injection_approved message (s : NHA) w messages s' w' c :
  app_handle message s w = Done messages s' w' -> Msg.CookiesInjectChunk c ∈ messages ->
  exists request runtime authorizer w1, message = Msg.LeaseRequest request /\ lr_purpose request = Purpose.Inject /\
    bt_get (lr_account_group_id request) (app_groups s) = Some runtime /\
    app_hello_authorizer s' = Some authorizer /\
    approved verified authorizer (vt_group_id (rt_transactions runtime)) CapOp.Inject w w1 /\ later w1 w' /\
    agree_off (unlock_files own (dp_hello_credential (app_paths s)) (vt_capability_store (rt_transactions runtime))) w w1 /\
    from_vault (rt_transactions runtime) w1 messages.
Proof using PAL UV KL ASL.
  intros Hrun Hc. assert (Hm : ~ routine message).
  { intros Hm. apply answers_app in Hrun; [|done]. by eapply quiet_injection in Hrun. }
  apply app_handle_inv in Hrun; [|done]. destruct message as [m|m|adopt|m|request|m|m|m|m|m|m|m|m|m|m|m|m|m|m|m|m|m|m|m|m|m|m|m|m|m|m|m]; try done.
  - unfold handle_recovery_adopt in Hrun. run_inv Hrun. injection Hrun as <- _ _. by apply list_elem_of_singleton in Hc.
  - destruct Hrun as (runtime & h' & Hget & Hh & Ha). apply lease_request_approved in Hh as [Hq|(a & w1 & Ha' & Hap & Hl & Hf & Hv & _)].
    { by eapply quiet_injection in Hq. }
    exists request, runtime, a, w1. split_and!; try done; [|congruence].
    cbn in Hm. destruct (lr_purpose request); [done|]. by destruct Hm.
Qed.

(** ** The recovery of a profile *)

(** The files of a configuration, which loading may migrate. *)
Definition config_files (p : Path) : Prop :=
  exists root, writer_files (dp_account_groups_config (from_root root)) p.

Lemma calm_metadata p : calm (fs_metadata p).
Proof using Type. intros [] w. unfold wp, fs_metadata. by destruct (env_fault _ _). Qed.
Lemma calm_path_is_file p : calm (path_is_file p).
Proof using Type. intros [] w. unfold path_is_file. by run_io. Qed.
Lemma calm_read_dir p : calm (fs_read_dir p).
Proof using Type. intros [] w. unfold fs_read_dir. by run_io. Qed.
Lemma calm_dir_entry p : calm (fs_dir_entry p).
Proof using Type. intros [] w. unfold fs_dir_entry. by run_io. Qed.
Lemma calm_is_dir p : calm (fs_is_dir p).
Proof using Type. intros [] w. unfold fs_is_dir. by run_io. Qed.
Lemma calm_get_fs : calm get_fs.
Proof using Type. done. Qed.
Hint Resolve calm_metadata calm_path_is_file calm_read_dir calm_dir_entry calm_is_dir calm_get_fs : calm.

Lemma calm_visit fuel p latest : calm (visit fuel p latest).
Proof using Type.
  revert p latest. induction fuel as [|fuel IH]; intros p latest; cbn [visit]; [calm_tac|].
  apply calm_bind; [apply calm_metadata|]. intros [[[b|] t]|]; [calm_tac| |calm_tac]. cbn zeta.
  apply calm_bind; [apply calm_try, calm_read_dir|]. intros [entries|e]; [|calm_tac].
  generalize (N.max latest t). induction entries as [|entry entries IHe]; intros l; [calm_tac|].
  apply calm_bind; [apply calm_try, calm_dir_entry|]. intros r. apply calm_bind; [destruct (is_ok r); [apply IH|calm_tac]|].
  intros seen. apply IHe.
Qed.

Lemma calm_profile_roots entries : calm (collect_profile_roots entries).
Proof using Type. induction entries; cbn [collect_profile_roots]; calm_tac. Qed.

Lemma calm_with_created roots : calm (with_created roots).
Proof using Type. induction roots as [|[id root] roots IH]; cbn [with_created]; unfold profile_created_unix_ms; calm_tac. Qed.

Lemma framed_load_config own0 p : (forall q, writer_files p q -> own0 q) -> framed own0 (load_config p).
Proof using Type.
  intros Hown. unfold load_config. passing_tac. apply framed_write_calm; [|done].
  intros c. unfold verify_config_candidate. calm_tac.
Qed.

Lemma framed_collect current index roots : framed config_files (collect_candidates current index roots).
Proof using Type.
  revert index. induction roots as [|[id root] roots IH]; intros index; cbn [collect_candidates]; [passing_tac|].
  destruct (id =? current); [apply IH|]. cbn zeta. do 2 (apply framed_bind; [passing_tac|intros ?]).
  destruct (negb _); [apply IH|]. apply framed_bind; [apply framed_try, framed_load_config; by exists root|].
  intros [loaded|e]; [|apply IH]. case_bool_decide; [apply IH|].
  apply framed_bind; [apply calm_framed; unfold profile_last_used_unix_ms; apply calm_bind; [done|intros; apply calm_visit]|].
  intros last. apply framed_bind; [apply IH|]. intros candidates. passing_tac.
Qed.

Lemma framed_candidates (s : NHA) current : framed config_files (recovery_candidates s current).
Proof using Type.
  unfold recovery_candidates. destruct (negb _); [passing_tac|].
  apply framed_bind; [unfold sibling_profile_roots; apply framed_try, calm_framed; calm_tac; apply calm_profile_roots|].
  intros [roots|e]; [|passing_tac]. apply framed_bind; [apply calm_framed, calm_with_created|]. intros keyed.
  apply framed_bind; [apply framed_collect|]. intros candidates. passing_tac.
Qed.

Lemma framed_recovery_adopt request : framed config_files (handle_recovery_adopt request : M NHA _).
Proof using PAL.
  assert (Hno : forall (q : Path), False -> config_files q) by done.
  unfold handle_recovery_adopt. passing_tac; [apply framed_candidates|..].
  - eapply framed_weaken; [intros [] w; apply open_existing_frame|done].
  - eapply framed_weaken; [intros [] w; apply sign_frame|done].
Qed.

Lemma sort_by_elem {T} (le : T -> T -> bool) l x : x ∈ sort_by le l -> x ∈ l.
Proof using Type.
  assert (Hins : forall y k, x ∈ insert_by le y k -> x = y \/ x ∈ k).
  { intros y k. induction k as [|z k IH]; cbn; [by intros ->%list_elem_of_singleton; left|].
    destruct (le y z); rewrite !elem_of_cons; [tauto|]. intros [->|Hx]; [tauto|]. apply IH in Hx. tauto. }
  unfold sort_by. induction l as [|y l IH]; cbn; [done|]. intros [->|Hx]%Hins; [by left|right; auto].
Qed.

Lemma collect_other current index roots w candidates w' :
  collect_candidates current index roots tt w = Done candidates tt w' ->
  Forall (fun c => rc_profile_id c <> current) candidates.
Proof using Type.
  revert index w candidates w'. induction roots as [|[id root] roots IH]; intros index w candidates w' Hrun; cbn [collect_candidates] in Hrun.
  - by injection Hrun as <- _.
  - destruct (N.eqb_spec id current) as [|Hne]; [by eapply IH|]. cbn zeta in Hrun.
    apply run_bind_inv in Hrun as (b1 & [] & w1 & _ & Hrun). apply run_bind_inv in Hrun as (b2 & [] & w2 & _ & Hrun).
    destruct (negb b2); [by eapply IH|]. apply run_bind_inv in Hrun as (r & [] & w3 & _ & Hrun).
    destruct r as [loaded|e]; [|by eapply IH]. case_bool_decide; [by eapply IH|].
    apply run_bind_inv in Hrun as (t & [] & w4 & _ & Hrun). apply run_bind_inv in Hrun as (rest & [] & w5 & Hrest & Hrun).
    injection Hrun as <- _. constructor; [done|by eapply IH].
Qed.

Lemma candidates_other (s : NHA) current w candidates w' :
  recovery_candidates s current tt w = Done candidates tt w' -> Forall (fun c => rc_profile_id c <> current) candidates.
Proof using Type.
  unfold recovery_candidates. destruct (negb _); [by intros [= <- _]|]. intros Hrun.
  apply run_bind_inv in Hrun as (r & [] & w1 & _ & Hrun). destruct r as [roots|e]; [|by injection Hrun as <- _].
  apply run_bind_inv in Hrun as (keyed & [] & w2 & _ & Hrun). apply run_bind_inv in Hrun as (found & [] & w3 & Hc & Hrun).
  injection Hrun as <- _. apply collect_other in Hc. rewrite Forall_forall in Hc |- *. intros c Hin. by apply Hc, (sort_by_elem candidate_le).
Qed.

(** A profile is handed over to an empty host of the current protocol only, never
    its own, and the user was verified by the credential of that profile. *)
Definition recovery_grounds (s : NHA) (profile : Uuid) (w w' : World) : Prop :=
  app_negotiated_protocol s = PROTOCOL_VERSION /\ cfg_groups (app_config s) = [] /\
  exists current paths authorizer w1 w2,
    app_connection_profile_id s = Some current /\ current <> profile /\
    sibling_profile (app_paths s) profile = Ok paths /\
    later w w1 /\ open_existing (A := A) (dp_hello_credential paths) tt w1 = Done authorizer tt w2 /\
    approved verified authorizer profile CapOp.RecoverProfile w2 w'.

Lemma recovery_adopt_inv request (s : NHA) w messages s' w' :
  handle_recovery_adopt request s w = Done messages s' w' ->
  messages = [Msg.RecoveryAdopted (mkRecoveryAdopted (ra_profile_id request))] /\
  recovery_grounds s (ra_profile_id request) w w'.
Proof using PAL UV.
  intros Hrun. unfold handle_recovery_adopt in Hrun.
  apply run_bind_inv in Hrun as (s0 & s1 & w1 & [= <- <- <-] & Hrun).
  apply run_bind_inv in Hrun as (u & s1 & w1 & ([Hp Hg]%orb_false_iff & -> & ->)%run_guard_not_inv & Hrun).
  apply run_bind_inv in Hrun as (current & s1 & w1 & (Hc & -> & ->)%run_ok_or_throw_inv & Hrun).
  apply run_bind_inv in Hrun as (candidates & s1 & w1 & [-> Hcand]%io_inv & Hrun).
  apply run_bind_inv in Hrun as (u1 & s1 & w2 & (Hin & -> & ->)%run_guard_not_inv & Hrun).
  apply run_bind_inv in Hrun as (paths & s1 & w2 & (Hpaths & -> & ->)%run_lift_inv & Hrun).
  apply run_bind_inv in Hrun as (a & s1 & w2 & [-> Hopen]%io_inv & Hrun).
  apply run_bind_inv in Hrun as (now & s1 & w3 & [-> Hnow]%io_inv & Hrun).
  apply run_bind_inv in Hrun as (nonce & s1 & w4 & [-> Hnonce]%io_inv & Hrun).
  apply run_bind_inv in Hrun as (signed & s1 & w5 & [-> Hsign]%io_inv & Hrun). injection Hrun as <- <- <-.
  split; [done|]. apply negb_false_iff in Hp, Hg, Hin. apply N.eqb_eq in Hp. apply bool_decide_eq_true in Hg.
  split; [done|]. split; [done|].
  exists current, paths, a, w1, w2. split_and!; [done| |done| |done|].
  - apply candidates_other in Hcand. apply existsb_exists in Hin as (c & Hc' & Heq%N.eqb_eq). rewrite Forall_forall in Hcand.
    apply list_elem_of_In, Hcand in Hc'. congruence.
  - eapply agree_off_later, framed_done; [apply framed_candidates|exact Hcand].
  - apply sign_verified in Hsign as [_ Hv]. eexists _, w4, w5. split_and!; [|exact Hv|done|done|done].
    eapply later_trans; eapply passing_done; [| exact Hnow| |exact Hnonce]; passing_tac.
Qed.

Lemma recovery_approved message (s : NHA) w messages s' w' r :
  app_handle message s w = Done messages s' w' -> Msg.RecoveryAdopted r ∈ messages ->
  message = Msg.RecoveryAdopt (mkRecoveryAdopt (rad_profile_id r)) /\ agree_off config_files w w' /\
  recovery_grounds s (rad_profile_id r) w w'.
Proof using PAL UV KL ASL.
  intros Hrun Hr. assert (Hm : ~ routine message).
  { intros Hm. apply answers_app in Hrun; [|done]. by eapply quiet_adoption in Hrun. }
  apply app_handle_inv in Hrun; [|done]. destruct message as [m|m|adopt|m|request|m|m|m|m|m|m|m|m|m|m|m|m|m|m|m|m|m|m|m|m|m|m|m|m|m|m|m]; try done.
  - pose proof (framed_done _ _ _ _ _ _ _ (framed_recovery_adopt adopt) Hrun) as Hf.
    apply recovery_adopt_inv in Hrun as [-> Hg]. apply list_elem_of_singleton in Hr. injection Hr as ->.
    split_and!; [by destruct adopt|done|exact Hg].
  - destruct Hrun as (runtime & h' & _ & Hh & _). apply lease_request_approved in Hh as [Hq|(? & ? & _ & _ & _ & _ & _ & Hn)].
    + by eapply quiet_adoption in Hq.
    + by destruct (Hn r).
Qed.
End App.
