(* ===== verification/Restore.v ===== *)
(** * What was confirmed is what comes back

    The composition of the two directions of a vault: the cookies that the host
    confirmed to the browser (Confirm, Delivery) are the cookies that a later
    injection sends (Consent), with their dates as JSON gives them back, as long as
    the vault's file and the key's file are left alone. Nothing else is assumed of the
    time in between: the process may have ended, and another one may serve the group. *)

From S2P Require Import Prelude World External Frames AtomicFile Config Messages VaultFormat Capability LeaseMeta VaultStore Transaction Paths OpModel OpJournal OpRecovery Coordinator CommitProtocol Protocol Group Handlers Confirm Chunks Monitor App AppInvariant Identity Consent.

(** ** A vault and its key *)

Section Vault.
Context `{UT : UuidText, SH : Sha256, AE : Aead, AL : !AeadLaws, SP : Serde VaultPayload,
  JF : JsonF64, PL : !PayloadLaws, KB : KekBackend, KL : !KekLaws, KK : !KekKeeps}.

(** The bytes are a vault that opens to the payload, as JSON gives it back, under the
    one key that its key-encryption key, as it is in [w], can unwrap. *)
Definition restores_to (tx : VaultTransactions) (payload : VaultPayload) (b : bytes) (w : World) : Prop :=
  exists r dek, decode_record b = Ok r /\ unwraps_to (vt_kek tx) (vh_wrapped_dek (vr_header r)) dek w /\
    gives_reread (open_record r dek) payload.

Lemma restores_to_same tx payload b w w' :
  file_at w' (vt_kek tx) = file_at w (vt_kek tx) -> restores_to tx payload b w -> restores_to tx payload b w'.
Proof using Type. intros Hf (r & dek & Hr & Hu & Ho). exists r, dek. split_and!; [done|by eapply unwraps_to_same|done]. Qed.

(** Sealing and encoding, on a run. *)
Lemma seal_encode_inv group_id kek wrapped dek payload (f : bytes -> PreparedVaultWrite) w p w' :
  group_id < 2 ^ 128 -> len kek = 16 ->
  (record ← seal group_id kek wrapped dek payload; b ← lift (encode_record record); mret (f b)) tt w = Done p tt w' ->
  untouched w w' /\ exists r b, p = f b /\ decode_record b = Ok r /\ vh_wrapped_dek (vr_header r) = wrapped /\
    gives_reread (open_record r dek) payload.
Proof using AL PL.
  intros Hg Hk Hrun.
  assert (Hwp : wp (record ← seal group_id kek wrapped dek payload; b ← lift (encode_record record); mret (f b))
    (fun p _ w' => untouched w w' /\ exists r b, p = f b /\ decode_record b = Ok r /\ vh_wrapped_dek (vr_header r) = wrapped /\
       gives_reread (open_record r dek) payload) (fun _ _ _ => True) (fun _ => True) tt w); [|unfold wp in Hwp; by rewrite Hrun in Hwp].
  apply wp_bind, wp_seal; [done|done| |done..]. intros r _ _ Hw Hwidths Hv Ho. apply wp_bind, wp_lift.
  rewrite (validate_record_encode _ Hv). apply wp_ret. split; [apply untouched_tick|]. eexists r, _.
  split_and!; [done| |done|done]. apply decode_encode_record; [done|by apply validate_record_encode].
Qed.

(** A prepared write can be read back. *)
Lemma prepare_restores tx cookies w p w' :
  vt_group_id tx < 2 ^ 128 -> cookies <> [] -> prepare_after_snapshot tx cookies tt w = Done p tt w' ->
  restores_to tx (mkPayload PAYLOAD_SCHEMA_VERSION (pv_vault_sequence p) cookies) (pv_bytes p) w'.
Proof using AL PL KK.
  intros Hg Hne Hrun. unfold prepare_after_snapshot in Hrun. apply run_bind_inv in Hrun as (present & [] & w1 & _ & Hrun).
  assert (Hsealed : forall kek wrapped dek n (f : bytes -> PreparedVaultWrite) w2,
    len kek = 16 -> (forall b, pv_bytes (f b) = b) -> (forall b, pv_vault_sequence (f b) = n) ->
    unwraps_to (vt_kek tx) wrapped dek w2 ->
    (record ← seal (vt_group_id tx) kek wrapped dek (mkPayload PAYLOAD_SCHEMA_VERSION n cookies);
     b ← lift (encode_record record); mret (f b)) tt w2 = Done p tt w' ->
    restores_to tx (mkPayload PAYLOAD_SCHEMA_VERSION (pv_vault_sequence p) cookies) (pv_bytes p) w').
  { intros kek wrapped dek n f w2 Hk Hb Hn Hu Hs. apply seal_encode_inv in Hs as (Hw & r & b & -> & Hr & <- & Ho); [|done|done].
    rewrite Hb, Hn. exists r, dek. split_and!; [done|by eapply unwraps_to_same; [apply untouched_file|]|done]. }
  destruct present.
  - apply run_bind_inv in Hrun as (old & [] & w2 & _ & Hrun). apply run_bind_inv in Hrun as (r & [] & w3 & (Hr & _ & ->)%run_lift_inv & Hrun).
    apply run_bind_inv in Hrun as (dek & [] & w4 & Hdek & Hrun). apply unwrap_keeps in Hdek.
    apply run_bind_inv in Hrun as (prev & [] & w5 & (_ & _ & ->)%run_lift_inv & Hrun). rewrite bool_decide_false in Hrun by done.
    apply run_bind_inv in Hrun as (n & [] & w6 & (_ & _ & ->)%run_ok_or_throw_inv & Hrun).
    eapply Hsealed; [| | | |exact Hrun]; [|done..]. by apply encode_decode_record in Hr as [_ Hw]; apply rw_kek.
  - apply run_bind_inv in Hrun as (? & [] & w2 & (_ & _ & ->)%run_guard_not_inv & Hrun).
    apply run_bind_inv in Hrun as (? & [] & w3 & _ & Hrun). apply run_bind_inv in Hrun as (dek & [] & w4 & _ & Hrun).
    apply run_bind_inv in Hrun as (wrapped & [] & w5 & Hw%wrap_keeps & Hrun). by eapply Hsealed; [| | | |exact Hrun].
Qed.

(** Reading gives what was written, as JSON gives it back. *)
Lemma vault_opens_restored tx payload payload' b w :
  file_at w (vault_path tx) = Some b -> restores_to tx payload b w -> vault_opens tx w payload' ->
  reread_payload payload = Some payload'.
Proof using Type.
  intros Hb (r & dek & Hr & Hu & Ho) (b' & r' & dek' & w2 & w3 & Hb' & Hr' & Hw2 & Hdek & Ho').
  rewrite Hb in Hb'. injection Hb' as <-. rewrite Hr in Hr'. injection Hr' as <-.
  rewrite <- (Hu _ _ _ (untouched_file _ _ _ Hw2) Hdek), Ho' in Ho.
  unfold gives_reread in Ho. destruct (reread_payload payload) as [kept|]; [by injection Ho as ->|by destruct Ho as [e Ho]].
Qed.
End Vault.

(** ** The files of a group are apart *)

(** The last components of a path below [root]. *)
Lemma below_root (root l l' : Path) : root ++ l = root ++ l' -> l = l'.
Proof. apply app_inv_head. Qed.

(** Two paths below [root] that their last components tell apart. *)
Ltac below_root :=
  cbn [from_root dp_root dp_vault_groups dp_lease_groups dp_capability_ledgers dp_account_groups_config dp_audit_directory
    dp_hello_credential dp_kek_key dp_operation_journals] in *;
  unfold path_join in *; rewrite <- ?app_assoc in *; cbn [app] in *;
  match goal with
  | H : ?root ++ _ = ?root ++ _ |- _ => by apply below_root in H
  | H : _ = _ |- _ => apply (f_equal length) in H; rewrite ?length_app in H; cbn in H; lia
  end.

Section Layout.
Context `{UT : UuidText, SH : Sha256, JB : Serde BoundRequest, JJ : Serde OperationJournal}
  (root : Path) (id : Uuid) (g : GroupRuntime).
Abbreviation paths := (from_root root).
Hypothesis Hg : runtime_of_group paths id g.

Lemma layout_vault : vault_file g = path_join (dp_vault_groups paths) (uuid_to_string id +:+ ".fcpv").
Proof using Hg. unfold vault_file, vault_path, path_for. by destruct (rg_transactions _ _ _ Hg) as (-> & _ & -> & _). Qed.
Lemma layout_journal : journal_file g = operation_journal_path paths id.
Proof using Hg. by destruct (rg_coordinator _ _ _ Hg). Qed.
Lemma layout_key : vt_kek (rt_transactions g) = dp_kek_key paths.
Proof using Hg. by destruct (rg_transactions _ _ _ Hg) as (_ & -> & _). Qed.

Lemma key_writer p : kek_files (dp_kek_key paths) p -> removelast p = root.
Proof using Type.
  assert (Hk : removelast (dp_kek_key paths) = root) by apply removelast_last.
  intros [->|(n & _ & ->)]; [done|]. unfold with_file_name. by rewrite removelast_last.
Qed.

(** Confirming leaves the key's file alone. *)
Lemma confirm_not_key : ~ confirm_files g (dp_audit_directory paths) (dp_kek_key paths).
Proof using Hg.
  unfold confirm_files. rewrite layout_journal, layout_vault, (rg_lease _ _ _ Hg).
  assert (Hk : removelast (dp_kek_key paths) = root) by apply removelast_last.
  intros [H%writer_files_dir|[H%writer_files_dir|[H%writer_files_dir|H]]]; unfold in_directory in *; rewrite Hk in H; below_root.
Qed.

Lemma layout_ready w :
  id < 2 ^ 128 -> stored id (operation_journal_path paths id) (journal_of (rt_coordinator g)) w ->
  group_ready g (dp_audit_directory paths) w.
Proof using Hg.
  intros Hid Hst. pose proof (rg_transactions _ _ _ Hg) as (Hgid & Hkek & _). pose proof (rg_coordinator _ _ _ Hg) as [Hj Hjg].
  assert (Hside : forall d n, d <> dp_lease_groups paths -> d <> dp_audit_directory paths -> d <> root ->
    ~ side_files g (dp_audit_directory paths) (path_join d n)).
  { intros d n H1 H2 H3. unfold side_files. rewrite (rg_lease _ _ _ Hg), Hkek. unfold in_directory, path_join at 2.
    rewrite removelast_last. intros [H%writer_files_dir|[H|H%key_writer]]; unfold path_join in H; rewrite ?removelast_last in H; by subst. }
  split.
  - by rewrite Hgid.
  - intros p. rewrite layout_journal, layout_vault. apply writer_files_disjoint. intros H. below_root.
  - rewrite layout_vault. apply Hside; intros H; below_root.
  - rewrite layout_journal. apply Hside; intros H; below_root.
  - unfold journal_group, journal_file. by rewrite Hj, Hjg.
Qed.
End Layout.

(** ** The two messages *)

Section Messages.
Context `{UT : UuidText, SH : Sha256, AE : Aead, AL : !AeadLaws, LS : LocalSecret, SP : Serde VaultPayload,
  JF : JsonF64, PL : !PayloadLaws, SL : Serde CapabilityLedger, SM : Serde LeaseMetadata,
  KB : KekBackend, KL : !KekLaws, KK : !KekKeeps,
  JB : Serde BoundRequest, JJ : Serde OperationJournal, CS : CookieSerde,
  PSL : Psl, SV : Serde JsonValue, JP : JsonPretty, SC : Serde AccountGroupsConfig, CP : ConfigPretty}.
Context {L A : Type} `{AS : AuditSink L, ASL : !AuditSinkLaws L} `{PA : PlatformAuthorizer A}.
Abbreviation NHA := (NativeHostApp L A).

(** The host serves the group [id] with the runtime [g], from the profile at [root],
    and the journal it has in memory is the one on disk. *)
Record serving (root : Path) (id : Uuid) (g : GroupRuntime) (s : NHA) (w : World) : Prop := {
  sv_paths : app_paths s = from_root root;
  sv_own : own_runtimes s;
  sv_audit : sink_directory (app_audit s) = dp_audit_directory (from_root root);
  sv_group : bt_get id (app_groups s) = Some g;
  sv_id : id < 2 ^ 128;
  sv_stored : stored id (operation_journal_path (from_root root) id) (journal_of (rt_coordinator g)) w;
}.

Lemma serving_runtime root id g s w : serving root id g s w -> runtime_of_group (from_root root) id g.
Proof using Type. intros [Hp Ho _ Hget _ _]. rewrite <- Hp. by apply own_runtimes_get. Qed.

(** The file of the group's vault. *)
Definition group_vault (root : Path) (id : Uuid) : Path :=
  path_join (dp_vault_groups (from_root root)) (uuid_to_string id +:+ ".fcpv").

(** A chunk runs on the runtime of its group. *)
Lemma app_chunk_inv snapshot (s : NHA) w messages s' w' c :
  app_handle (Msg.CookiesSnapshotChunk snapshot) s w = Done messages s' w' -> Msg.EvictConfirmed c ∈ messages ->
  exists g h', bt_get (csc_account_group_id snapshot) (app_groups s) = Some g /\
    handle (Msg.CookiesSnapshotChunk snapshot) (dp_hello_credential (app_paths s)) (app_negotiated_protocol s)
      (mkHandler g (app_audit s) (app_hello_authorizer s)) w = Done messages h' w'.
Proof using Type.
  intros Hrun _. unfold app_handle in Hrun. apply run_bind_inv in Hrun as (s0 & s1 & w1 & [= <- <- <-] & Hrun).
  destruct (negb (app_handshake_complete s)); [done|]. unfold dispatch in Hrun. cbn [message_group_id] in Hrun.
  apply run_bind_inv in Hrun as (u & s1 & w1 & [= _ <- <-] & Hrun).
  apply run_bind_inv in Hrun as (s2 & s1 & w1 & [= <- <- <-] & Hrun).
  apply run_bind_inv in Hrun as (g & s1 & w1 & [= <- <- <-] & Hrun).
  apply run_bind_inv in Hrun as (u' & s1 & w1 & [= _ <- <-] & Hrun).
  unfold on_runtime, runtime_of in Hrun. apply run_bind_inv in Hrun as (found & s1 & w1 & [= <- <- <-] & Hrun).
  apply run_bind_inv in Hrun as (runtime & s1 & w1 & (Hget & -> & ->)%run_ok_or_throw_inv & Hrun).
  unfold zoom in Hrun. destruct (handle _ _ _ _ w) as [ms h' w2| | |] eqn:Hh; [|done..]. injection Hrun as <- _ <-.
  by exists runtime, h'.
Qed.

(** A confirmed snapshot can be read back. *)
Lemma confirmed_restores root g snapshot s w messages s' w' c :
  let id := csc_account_group_id snapshot in
  serving root id g s w -> collected g snapshot <> [] ->
  app_handle (Msg.CookiesSnapshotChunk snapshot) s w = Done messages s' w' -> Msg.EvictConfirmed c ∈ messages ->
  exists b, file_at w' (group_vault root id) = Some b /\
    restores_to (rt_transactions g)
      (mkPayload PAYLOAD_SCHEMA_VERSION (ec_vault_sequence c) (collected g snapshot)) b w'.
Proof using AL PL KL KK ASL.
  intros id Hs Hne Hrun Hc. pose proof (serving_runtime _ _ _ _ _ Hs) as Hg. destruct Hs as [Hp _ Hau Hget Hid Hst].
  destruct (app_chunk_inv _ _ _ _ _ _ _ Hrun Hc) as (g' & h' & Hget' & Hh). fold id in Hget'. rewrite Hget in Hget'. injection Hget' as <-.
  pose proof (wp_handle_chunk snapshot (dp_hello_credential (app_paths s)) (app_negotiated_protocol s)
    (mkHandler g (app_audit s) (app_hello_authorizer s)) w) as Hwp. cbn [hd_group hd_audit] in Hwp. rewrite Hau in Hwp.
  specialize (Hwp (layout_ready root id g Hg w Hid Hst)). unfold wp in Hwp. rewrite Hh in Hwp. cbn [outcome_sat] in Hwp.
  destruct Hwp as [[_ H]|[(p & c' & -> & _ & Hseq & _ & _ & _ & Hprep & Hb)|(a & p & p' & -> & _)]].
  - destruct H as [->|[->|(m & -> & _)]]; set_solver.
  - apply list_elem_of_singleton in Hc. injection Hc as ->. destruct Hb as [Hv _]. rewrite (layout_vault root id g Hg) in Hv.
    exists (pv_bytes p). split; [exact Hv|]. rewrite Hseq. destruct Hprep as (w1 & Hprep & Ha). rewrite Hau in Ha.
    eapply restores_to_same; [|eapply prepare_restores; [|done|exact Hprep]].
    + rewrite (layout_key root id g Hg). eapply agree_off_file; [exact Ha|by eapply confirm_not_key].
    + by destruct (rg_transactions _ _ _ Hg) as (-> & _).
  - set_solver.
Qed.

Context (own : Path -> Path -> Prop) `{PAL : !PlatformAuthorizerLaws A own}
  (verified : A -> CapabilityPayload -> World -> World -> Prop) `{UV : !UserVerification A verified}.

(** The credential has files of its own in the profile. *)
Hypothesis credential_apart : forall root q, own (dp_hello_credential (from_root root)) q ->
  exists name rest, q = root ++ name :: rest /\ name <> "vault"%string /\ name <> "kek-key.json"%string.

Lemma unlock_apart root id q name rest :
  unlock_files own (dp_hello_credential (from_root root)) (capability_path (from_root root) id) q ->
  q = root ++ name :: rest -> name = "vault"%string \/ name = "kek-key.json"%string -> False.
Proof using credential_apart.
  intros [Hc|Hc] -> Hn.
  - apply credential_apart in Hc as (name' & rest' & Heq & H1 & H2). apply below_root in Heq. injection Heq as -> _. by destruct Hn.
  - assert (Hc' : exists file, root ++ name :: rest = root ++ ["leases"; "capabilities"; file]%string).
    { destruct Hc as [->|Hc]; [eexists; unfold capability_path; cbn; unfold path_join; by rewrite <- !app_assoc|].
      apply (f_equal (fun r => match r with Ok x => x | Err _ => [] end)) in Hc. unfold temporary_path, capability_path, path_join, path_file_name in Hc.
      rewrite list.last_snoc in Hc. cbn in Hc. unfold with_file_name in Hc. rewrite removelast_last in Hc. unfold path_join in Hc.
      rewrite <- !app_assoc in Hc. cbn in Hc. by eexists. }
    destruct Hc' as (file & Heq%below_root). injection Heq as -> _. by destruct Hn.
Qed.

(** What an injection sends is what is on disk when the request arrives. *)
Lemma injection_reads root id g (s : NHA) w messages s' w' c b payload :
  app_paths s = from_root root -> own_runtimes s ->
  vt_kek (rt_transactions g) = dp_kek_key (from_root root) ->
  app_handle (Msg.LeaseRequest (mkLeaseRequest id Purpose.Inject)) s w = Done messages s' w' ->
  Msg.CookiesInjectChunk c ∈ messages ->
  file_at w (group_vault root id) = Some b -> restores_to (rt_transactions g) payload b w ->
  reread_cookies (pl_cookies payload) = Some (injected messages).
Proof using AL PL KL KK ASL PAL UV credential_apart.
  intros Hp Ho Hk Hrun Hc Hb Hr.
  destruct (injection_approved own verified _ _ _ _ _ _ _ Hrun Hc) as (request & g' & a & w1 & [= <-] & _ & Hget & _ & _ & _ & Ha & Hv).
  apply (own_runtimes_get _ _ _ Ho) in Hget as Hg'. cbn [lr_account_group_id] in Hg'. rewrite Hp in Hg', Ha.
  pose proof (rg_transactions _ _ _ Hg') as (_ & Hk' & _ & Hstore). rewrite Hstore in Ha.
  pose proof (layout_vault root id g' Hg') as Hvault. unfold vault_file in Hvault. fold (group_vault root id) in Hvault.
  destruct Hv as (payload' & Hopens & ->). destruct payload as [n q cookies]. eapply reread_payload_cookies.
  eapply (vault_opens_restored (rt_transactions g')); [| |exact Hopens].
  - rewrite Hvault, <- Hb. eapply agree_off_file; [exact Ha|]. intros Hin. eapply unlock_apart; [exact Hin| |by left].
    unfold group_vault. cbn. unfold path_join. by rewrite <- !app_assoc.
  - destruct Hr as (r & dek & Hr & Hu & Ho'). exists r, dek. split_and!; [done| |done].
    rewrite Hk', <- Hk. eapply unwraps_to_same; [|exact Hu]. rewrite Hk. eapply agree_off_file; [exact Ha|]. intros Hin.
    eapply unlock_apart; [exact Hin|done|by right].
Qed.

(** What was confirmed is what comes back. *)
Lemma confirmed_cookies_restored root g snapshot s w messages s1 w1 confirmed (s2 : NHA) w2 answers s3 w3 chunk :
  let id := csc_account_group_id snapshot in
  serving root id g s w -> collected g snapshot <> [] ->
  app_handle (Msg.CookiesSnapshotChunk snapshot) s w = Done messages s1 w1 -> Msg.EvictConfirmed confirmed ∈ messages ->
  app_paths s2 = from_root root -> own_runtimes s2 ->
  file_at w2 (group_vault root id) = file_at w1 (group_vault root id) ->
  file_at w2 (dp_kek_key (from_root root)) = file_at w1 (dp_kek_key (from_root root)) ->
  app_handle (Msg.LeaseRequest (mkLeaseRequest id Purpose.Inject)) s2 w2 = Done answers s3 w3 ->
  Msg.CookiesInjectChunk chunk ∈ answers ->
  reread_cookies (collected g snapshot) = Some (injected answers).
Proof using AL PL KL KK ASL PAL UV credential_apart.
  intros id Hs Hne Hrun Hc Hp Ho Hv Hk Hrun2 Hc2.
  destruct (confirmed_restores root g snapshot s w messages s1 w1 confirmed Hs Hne Hrun Hc) as (b & Hb & Hr).
  pose proof (layout_key root id g (serving_runtime _ _ _ _ _ Hs)) as Hkek.
  apply (restores_to_same _ _ _ _ w2) in Hr; [|by rewrite Hkek].
  refine (injection_reads root id g s2 w2 answers s3 w3 chunk b _ Hp Ho Hkek Hrun2 Hc2 _ Hr). by rewrite Hv.
Qed.
End Messages.
