(* ===== verification/HostLoop.v ===== *)
(** * host_loop.rs, instance_lock.rs: one connection

    The browser starts the host and talks to it over one pipe. The first envelope
    is the handshake; the host then takes the lock of the profile, opens the
    application, and answers every message until the input ends. The loop is
    generic in the application, as the Rust function is in its [&mut app]. *)

From S2P Require Import Prelude World External Examples AtomicFile Config Messages VaultFormat Capability LeaseMeta VaultStore Transaction Paths OpModel OpJournal OpRecovery Coordinator CommitProtocol AuditLog Protocol Group Handlers Confirm Chunks Delivery Monitor App Removal AppInvariant.

(** [validate_caller_origin]. *)
Definition validate_caller_origin (args : list string) : FcpResult unit :=
  let expected := "chrome-extension://" +:+ PRODUCT_EXTENSION_ID +:+ "/" in
  match args with
  | origin :: _ => guard_err (negb (String.eqb origin expected)) (Protocol "native host caller origin is not authorized")
  | [] => Err (Protocol "native host caller origin is not authorized")
  end.

(** [validate_first_envelope]. *)
Definition validate_first_envelope (envelope : Envelope) : FcpResult unit :=
  match env_message envelope with
  | Msg.Handshake _ => validate_envelope envelope (env_conn_nonce envelope) 0
  | _ => Err (Protocol "handshake must be the first framed message")
  end.

(** [error_category]. *)
Definition error_category (error : FcpError) : string :=
  match error with
  | Io _ => "io"
  | Json => "json"
  | Windows _ => "windows_provider"
  | Tpm _ => "tpm_provider"
  | Crypto _ => "crypto"
  | Format _ => "vault_format"
  | Protocol _ => "protocol"
  | Capability _ => "capability"
  | UserActionable code => code
  | UserVerificationNotConfigured => "hello_not_configured"
  end.

(** [libc::flock(fd, LOCK_EX | LOCK_NB)] on the open file: whether it succeeded. *)
Class FileLock := flock : Path -> IO bool.

(** [InstanceLock::acquire] (Unix). *)
Definition lock_path (root : Path) : IO Path :=
  _ ← fs_create_dir_all root; mret (path_join root "host.lock").

Definition busy : FcpError := Protocol "another native host instance already owns the data directory".

Definition acquire_lock `{FL : FileLock} (root : Path) : IO unit :=
  path ← lock_path root;
  _ ← fs_open_append path;
  locked ← flock path;
  guard_not (negb locked) busy.

Section Loop.
Context `{JE : Serde Envelope}.
Context {T : Type} (app_handle : Message -> M T (list Message)) (error_group : T -> option Uuid).
Abbreviation Host := (M (T * Pipe)).

Definition on_app {B} (m : M T B) : Host B := zoom fst (fun t s => (t, snd s)) m.
Definition on_pipe {B} (m : M Pipe B) : Host B := zoom snd (fun p s => (fst s, p)) m.

(** The answer to one message. *)
Definition answer (envelope : Envelope) : Host (list Message) :=
  handled ← on_app (try_ (app_handle (env_message envelope)));
  match handled with
  | Ok messages => mret messages
  | Err error =>
      group ← on_app (t ← get; mret (error_group t));
      mret [Msg.OperationError (mkOperationError (env_id envelope) group (error_category error))]
  end.

(** [for message in output]: the last outgoing sequence. *)
Fixpoint send_all (version : N) (nonce : bytes) (request_id : Uuid) (outgoing_sequence : N) (messages : list Message)
    : Host N :=
  match messages with
  | [] => mret outgoing_sequence
  | message :: rest =>
      next ← ok_or_throw (checked_add u64_max outgoing_sequence 1) (Protocol "outgoing sequence overflow");
      _ ← on_pipe (write_envelope (mkEnvelope version nonce next request_id message));
      send_all version nonce request_id next rest
  end.

(** The guards of one turn; the nonce of the connection. *)
Definition accept_envelope (version : N) (connection_nonce : option bytes) (incoming_sequence : N) (envelope : Envelope)
    : FcpResult bytes :=
  _ ← match connection_nonce with
      | Some expected => validate_envelope envelope expected incoming_sequence
      | None => validate_first_envelope envelope
      end;
  _ ← guard_err (negb (env_v envelope =? version)) (Protocol "protocol version changed within one connection");
  Ok (default (env_conn_nonce envelope) connection_nonce).

(** One turn on an envelope: the nonce and the outgoing sequence after it. *)
Definition turn (version : N) (connection_nonce : option bytes) (incoming_sequence outgoing_sequence : N)
    (envelope : Envelope) : Host (bytes * N) :=
  nonce ← lift (accept_envelope version connection_nonce incoming_sequence envelope);
  output ← answer envelope;
  outgoing_sequence ← send_all version nonce (env_id envelope) outgoing_sequence output;
  mret (nonce, outgoing_sequence).

(** The turns after the first one; [None] when the fuel is spent. *)
Fixpoint connection_loop (fuel : nat) (version : N) (nonce : bytes) (incoming_sequence outgoing_sequence : N)
    : Host (option unit) :=
  match fuel with
  | O => mret None
  | S fuel' =>
      next ← on_pipe read_envelope;
      match next with
      | None => mret (Some tt)
      | Some envelope =>
          turned ← turn version (Some nonce) incoming_sequence outgoing_sequence envelope;
          let '(nonce, outgoing_sequence) := (turned : bytes * N) in
          connection_loop fuel' version nonce (env_seq envelope) outgoing_sequence
      end
  end.

(** [run_connection_with_app]: every further turn takes bytes off the input. *)
Definition run_connection_with_app (first : Envelope) : Host (option unit) :=
  turned ← turn (env_v first) None 0 0 first;
  let '(nonce, outgoing_sequence) := (turned : bytes * N) in
  self ← get;
  connection_loop (S (length (pipe_input (snd self)))) (env_v first) nonce (env_seq first) outgoing_sequence.
End Loop.

(** [run_connection]; [data_root] is the answer of [discover_root]. *)
Section Connection.
Context `{UT : UuidText, SH : Sha256, AE : Aead, LS : LocalSecret, SP : Serde VaultPayload,
  SL : Serde CapabilityLedger, SM : Serde LeaseMetadata, KB : KekBackend,
  JB : Serde BoundRequest, JJ : Serde OperationJournal, CS : CookieSerde,
  PSL : Psl, SV : Serde JsonValue, JP : JsonPretty, SC : Serde AccountGroupsConfig, CP : ConfigPretty,
  JE : Serde Envelope, FL : FileLock}.
Context (L A : Type) `{AS : AuditSink L} `{PA : PlatformAuthorizer A}.

Definition run_connection (data_root : FcpResult Path) : M Pipe (option unit) :=
  first ← read_envelope;
  first ← ok_or_throw first (Protocol "native connection closed before handshake");
  _ ← lift (validate_first_envelope first);
  match env_message first with
  | Msg.Handshake handshake =>
      paths ← io (discover_profile data_root (hs_profile_id handshake));
      _ ← io (acquire_lock (dp_root paths));
      app ← io (open_app (L := L) (A := A) paths);
      pipe ← get;
      ran ← with_local (app, pipe) (run_connection_with_app app_handle error_group_id first);
      let '(r, (_, pipe)) := (ran : FcpResult (option unit) * (NativeHostApp L A * Pipe)) in
      _ ← put pipe;
      lift r
  | _ => unwrap None
  end.
End Connection.

Section LoopProperties.
Context `{JE : Serde Envelope}.

(** Reading takes bytes off the input and writes nothing. *)
Lemma read_envelope_consumes (p : Pipe) w :
  returns (fun r p' _ => pipe_output p' = pipe_output p /\
             (is_Some r -> (length (pipe_input p') < length (pipe_input p))%nat))
          (fun _ p' _ => pipe_output p' = pipe_output p) (read_envelope p w).
Proof.
  unfold read_envelope. apply returns_bind. unfold read_first.
  destruct (env_fault (w_env w) (w_step w)); [|done..].
  destruct (pipe_input p) as [|b0 rest] eqn:Hp; cbn [returns]; [split; [done|by intros []]|].
  assert (Hread : forall n q w1 (Q : bytes -> Pipe -> World -> Prop) (E : FcpError -> Pipe -> World -> Prop),
    (forall b q' w', pipe_output q' = pipe_output q -> (length (pipe_input q') <= length (pipe_input q))%nat -> Q b q' w') ->
    (forall e q' w', pipe_output q' = pipe_output q -> E e q' w') -> returns Q E (read_exact n q w1)).
  { intros n q w1 Q E HQ HE. unfold read_exact. destruct (env_fault (w_env w1) (w_step w1)); cbn; [|by apply HE|done].
    destruct (n <=? length (pipe_input q))%nat; cbn; [|by apply HE].
    apply HQ; [done|]. cbn. rewrite length_drop. lia. }
  apply returns_bind, Hread; [|done]. intros b q w1 Hout Hin. cbn [pipe_input pipe_output] in *.
  apply returns_bind. destruct (_ || _); cbn [guard_not throw returns mret M_ret]; [done|].
  apply returns_bind, Hread; [|intros; cbn; congruence]. intros body q2 w2 Hout2 Hin2.
  apply returns_bind. destruct (from_slice body); cbn; [|congruence]. split; [congruence|]. intros _. lia.
Qed.

Context {T : Type} (app_handle : Message -> M T (list Message)) (error_group : T -> option Uuid).

(** Only reading changes the input. *)
Lemma preserves_pipe_write P b : (forall p o, P p -> P (mkPipe (pipe_input p) o)) -> preserves P (pipe_write b).
Proof. intros HP p w Hp. unfold pipe_write. destruct (env_fault _ _); cbn; auto. Qed.

Lemma preserves_write_envelope P e : (forall p o, P p -> P (mkPipe (pipe_input p) o)) -> preserves P (write_envelope e).
Proof.
  intros HP. unfold write_envelope. preserves_tac; try (by apply preserves_pipe_write).
  intros p w Hp. unfold pipe_flush. by destruct (env_fault _ _).
Qed.

Definition input_is (i : bytes) (s : T * Pipe) : Prop := pipe_input (snd s) = i.

Lemma turn_input i version nonce incoming outgoing envelope :
  preserves (input_is i) (turn app_handle error_group version nonce incoming outgoing envelope).
Proof.
  assert (Happ : forall B (m : M T B), preserves (input_is i) (on_app m)) by (intros; by apply preserves_zoom).
  assert (Hsend : forall v n id messages out, preserves (input_is i) (send_all v n id out messages)).
  { intros v n id messages. induction messages as [|message messages IH]; intros out; cbn [send_all]; [apply preserves_ret|].
    preserves_tac. intros [t p] w Hp. unfold on_pipe, zoom. cbn.
    pose proof (preserves_write_envelope (fun p => pipe_input p = i) (mkEnvelope v n a id message)) as Hw.
    specialize (Hw ltac:(done) p w Hp). by destruct (write_envelope _ p w). }
  unfold turn, answer. preserves_tac; auto.
Qed.

(** Enough fuel: one unit more than the input has bytes. *)
Lemma loop_terminates fuel version nonce incoming outgoing (s : T * Pipe) w :
  (length (pipe_input (snd s)) < fuel)%nat ->
  returns (fun r _ _ => r = Some tt) (fun _ _ _ => True)
    (connection_loop app_handle error_group fuel version nonce incoming outgoing s w).
Proof.
  revert nonce incoming outgoing s w. induction fuel as [|fuel IH]; intros nonce incoming outgoing [t p] w Hf; [cbn in *; lia|].
  cbn [connection_loop]. apply returns_bind. unfold on_pipe at 1, zoom at 1. cbn [snd].
  pose proof (read_envelope_consumes p w) as Hr. destruct (read_envelope p w) as [r p' w'| | |]; [|done..].
  destruct Hr as [_ Hr]. cbn [returns fst]. destruct r as [envelope|]; [|done].
  specialize (Hr ltac:(by eexists)). apply returns_bind.
  pose proof (turn_input (pipe_input p') version (Some nonce) incoming outgoing envelope (t, p') w' eq_refl) as Ht.
  destruct (turn _ _ _ _ _ _ _ _ _) as [[nonce' out'] s' w''| | |]; [|done..].
  cbn [returns ends] in *. apply IH. rewrite Ht. cbn [snd] in *. lia.
Qed.

(** ** The outgoing stream *)

Definition framed (e : Envelope) (b : bytes) : Prop := exists body, to_vec e = Ok body /\ b = frame body.

(** Envelopes numbered from 1, with the version and the nonce of the first one
    received. *)
Definition numbered (first : Envelope) (es : list Envelope) : Prop := forall i e, es !! i = Some e ->
  env_v e = env_v first /\ env_conn_nonce e = env_conn_nonce first /\ env_seq e = N.of_nat i + 1.

(** The output is [old] and the frames of [n] numbered envelopes; or it breaks off
    within such frames. *)
Definition stream (first : Envelope) (old : bytes) (n : N) (output : bytes) : Prop :=
  exists es bs, Forall2 framed es bs /\ numbered first es /\ n = len es /\ output = old ++ concat bs.
Definition stream_prefix (first : Envelope) (old output : bytes) : Prop :=
  exists es bs, Forall2 framed es bs /\ numbered first es /\ output `prefix_of` old ++ concat bs.

Lemma stream_is_prefix first old n output : stream first old n output -> stream_prefix first old output.
Proof. intros (es & bs & H1 & H2 & _ & ->). by exists es, bs. Qed.

Lemma stream_next first old n output e b :
  stream first old n output -> framed e b -> env_v e = env_v first -> env_conn_nonce e = env_conn_nonce first ->
  env_seq e = n + 1 -> stream first old (n + 1) (output ++ b).
Proof.
  intros (es & bs & H1 & H2 & -> & ->) Hb Hv Hn Hs. exists (es ++ [e]), (bs ++ [b]). split_and!.
  - apply Forall2_app; [done|by repeat constructor].
  - intros i e' Hi. apply lookup_app_Some in Hi as [Hi|[Hle Hi]]; [by apply H2|].
    apply list_lookup_singleton_Some in Hi as [Hi <-]. split_and!; [done|done|]. rewrite Hs. unfold len. lia.
  - by rewrite len_app.
  - by rewrite concat_app, <- app_assoc, concat_cons, app_nil_r.
Qed.

Lemma returns_pipe_write b (p : Pipe) w (Q : unit -> Pipe -> World -> Prop) (E : FcpError -> Pipe -> World -> Prop) :
  (forall w', Q tt (mkPipe (pipe_input p) (pipe_output p ++ b)) w') ->
  (forall e k w', E e (mkPipe (pipe_input p) (pipe_output p ++ take k b)) w') -> returns Q E (pipe_write b p w).
Proof. intros HQ HE. unfold pipe_write. by destruct (env_fault _ _); cbn. Qed.

Lemma write_envelope_frames e (p : Pipe) w :
  returns (fun _ p' _ => exists b, framed e b /\ pipe_output p' = pipe_output p ++ b)
          (fun _ p' _ => pipe_output p' = pipe_output p \/
             exists b, framed e b /\ pipe_output p' `prefix_of` pipe_output p ++ b) (write_envelope e p w).
Proof.
  unfold write_envelope. apply returns_bind. destruct (to_vec e) as [body|] eqn:Hb; cbn [lift throw returns mret M_ret]; [|by left].
  apply returns_bind. destruct (_ || _); cbn [guard_not throw returns mret M_ret]; [by left|].
  apply returns_bind. destruct (u32_max <? len body); cbn [guard_not throw returns mret M_ret]; [by left|].
  assert (Hf : framed e (frame body)) by (by exists body).
  apply returns_bind, returns_pipe_write.
  2: { intros e' k w'. right. exists (frame body). split; [done|]. cbn [pipe_output]. apply prefix_app. unfold frame.
       apply prefix_app_r, prefix_take. }
  intros w1. apply returns_bind, returns_pipe_write; cbn [pipe_input pipe_output].
  2: { intros e' k w'. right. exists (frame body). split; [done|]. cbn [pipe_output]. rewrite <- app_assoc. apply prefix_app. unfold frame.
       apply prefix_app, prefix_take. }
  intros w2. unfold pipe_flush. destruct (env_fault (w_env w2) (w_step w2)); cbn [returns pipe_output]; [|right|done].
  all: exists (frame body); rewrite <- app_assoc; done.
Qed.

Lemma send_all_stream first old id messages n (s : T * Pipe) w :
  stream first old n (pipe_output (snd s)) ->
  returns (fun n' s' _ => stream first old n' (pipe_output (snd s')))
          (fun _ s' _ => stream_prefix first old (pipe_output (snd s')))
    (send_all (env_v first) (env_conn_nonce first) id n messages s w).
Proof.
  revert n s w. induction messages as [|message messages IH]; intros n [t p] w Hst; [done|]. cbn [send_all].
  apply returns_bind. destruct (checked_add u64_max n 1) as [n'|] eqn:Hn; cbn [ok_or_throw ok_or lift throw returns mret M_ret];
    [|by eapply stream_is_prefix]. apply checked_add_Some in Hn as [-> _].
  apply returns_bind. unfold on_pipe at 1, zoom at 1. cbn [snd fst] in *.
  pose proof (write_envelope_frames (mkEnvelope (env_v first) (env_conn_nonce first) (n + 1) id message) p w) as Hw.
  destruct (write_envelope _ p w) as [[] p' w'|e p' w'| |]; cbn [returns snd] in *; [| |done..].
  - destruct Hw as (b & Hb & Hout). apply IH. cbn [snd]. rewrite Hout. by eapply stream_next.
  - destruct Hw as [->|(b & Hb & Hout)]; [by eapply stream_is_prefix|].
    pose proof (stream_next _ _ _ _ _ b Hst Hb eq_refl eq_refl eq_refl) as (es & bs & H1 & H2 & _ & Heq).
    exists es, bs. split_and!; [done|done|]. by rewrite <- Heq.
Qed.

Lemma answer_output envelope o : preserves (fun s : T * Pipe => pipe_output (snd s) = o) (answer app_handle error_group envelope).
Proof. unfold answer, on_app. preserves_tac. Qed.

Lemma turn_stream first old n connection_nonce incoming envelope (s : T * Pipe) w :
  stream first old n (pipe_output (snd s)) ->
  default (env_conn_nonce envelope) connection_nonce = env_conn_nonce first ->
  returns (fun r s' _ => r.1 = env_conn_nonce first /\ stream first old r.2 (pipe_output (snd s')))
          (fun _ s' _ => stream_prefix first old (pipe_output (snd s')))
    (turn app_handle error_group (env_v first) connection_nonce incoming n envelope s w).
Proof.
  intros Hst Hnonce. unfold turn. apply returns_bind.
  destruct (accept_envelope _ _ _ _) as [nonce|] eqn:Ha; cbn; [|by eapply stream_is_prefix].
  assert (nonce = env_conn_nonce first) as ->.
  { unfold accept_envelope in Ha. res_inv Ha. congruence. }
  apply returns_bind. pose proof (answer_output envelope _ s w eq_refl) as Ho.
  destruct (answer _ _ _ s w) as [messages s' w'|e s' w'| |]; cbn [returns ends] in *; [| |done..].
  - rewrite <- Ho in Hst. apply returns_bind. eapply returns_mono; [by apply send_all_stream|cbn beta..]; [|done].
    intros n' s'' w'' Hn'. done.
  - rewrite Ho. by eapply stream_is_prefix.
Qed.

Lemma loop_stream first old fuel incoming n (s : T * Pipe) w :
  stream first old n (pipe_output (snd s)) ->
  returns (fun _ s' _ => exists n', stream first old n' (pipe_output (snd s')))
          (fun _ s' _ => stream_prefix first old (pipe_output (snd s')))
    (connection_loop app_handle error_group fuel (env_v first) (env_conn_nonce first) incoming n s w).
Proof.
  revert incoming n s w. induction fuel as [|fuel IH]; intros incoming n [t p] w Hst; [by exists n|].
  cbn [connection_loop]. apply returns_bind. unfold on_pipe at 1, zoom at 1. cbn [snd fst] in *.
  pose proof (read_envelope_consumes p w) as Hr. destruct (read_envelope p w) as [r p' w'|e p' w'| |]; [| |done..].
  2: { cbn [returns snd] in *. rewrite Hr. by eapply stream_is_prefix. }
  destruct Hr as [Hout _]. cbn [returns]. destruct r as [envelope|]; [|exists n; cbn [snd]; by rewrite Hout].
  apply returns_bind. eapply returns_mono; [apply turn_stream; [cbn [snd]; by rewrite Hout|done]|cbn beta..]; [|done].
  intros [nonce n'] s' w'' [Hn Hst']. cbn [fst snd] in Hn, Hst'. rewrite Hn. by apply IH.
Qed.
(** The whole connection. *)
Lemma connection_ends first (s : T * Pipe) w :
  returns (fun r _ _ => r = Some tt) (fun _ _ _ => True) (run_connection_with_app app_handle error_group first s w).
Proof.
  unfold run_connection_with_app. apply returns_bind. destruct (turn _ _ _ _ _ _ _ _ _) as [[nonce n] s' w'| | |]; [|done..].
  cbn [returns]. apply returns_bind. cbn [get returns]. apply loop_terminates. lia.
Qed.

Lemma connection_stream first (s : T * Pipe) w :
  returns (fun _ s' _ => exists n, stream first (pipe_output (snd s)) n (pipe_output (snd s')))
    (fun _ s' _ => stream_prefix first (pipe_output (snd s)) (pipe_output (snd s')))
    (run_connection_with_app app_handle error_group first s w).
Proof.
  assert (H0 : stream first (pipe_output (snd s)) 0 (pipe_output (snd s))).
  { exists [], []. split_and!; [constructor|intros i e Hi; done|done|by rewrite app_nil_r]. }
  unfold run_connection_with_app. apply returns_bind.
  eapply returns_mono; [by apply turn_stream|cbn beta..]; [|done].
  intros [nonce n] s' w' [Hn Hst]. cbn [fst snd] in Hn, Hst. rewrite Hn.
  apply returns_bind. cbn [get returns]. by apply loop_stream.
Qed.
End LoopProperties.

(** ** Properties *)

(** C22: A connection always ends: however the application answers and whatever fails,
    the loop stops at the end of the input at the latest, since every turn takes at
    least one byte off it. (The fuel the model gives it, one unit more than there are
    bytes, is never spent.) *)
Theorem connection_terminates `{JE : Serde Envelope} {T} (app_handle : Message -> M T (list Message)) error_group first
    (s : T * Pipe) w :
  match run_connection_with_app app_handle error_group first s w with
  | Done r _ _ => r = Some tt
  | _ => True
  end.
Proof.
  pose proof (connection_ends app_handle error_group first s w) as H. by destruct (run_connection_with_app _ _ _ _ _).
Qed.

(** C21: Everything the host writes on a connection is one stream of frames, numbered
    1, 2, 3, ... without a gap, with the version and the nonce of the handshake:
    complete when the connection ends well, and broken off within such a stream
    when it does not. *)
Theorem outgoing_stream_numbered `{JE : Serde Envelope} {T} (app_handle : Message -> M T (list Message)) error_group first
    (s : T * Pipe) w :
  match run_connection_with_app app_handle error_group first s w with
  | Done _ s' _ => exists n, stream first (pipe_output (snd s)) n (pipe_output (snd s'))
  | Failed _ s' _ => stream_prefix first (pipe_output (snd s)) (pipe_output (snd s'))
  | _ => True
  end.
Proof.
  pose proof (connection_stream app_handle error_group first s w) as H. by destruct (run_connection_with_app _ _ _ _ _).
Qed.
