(* ===== verification/Webauthn.v ===== *)
(** * crypto/webauthn_codec.rs: the binary formats of the platform authenticator

    Two narrow decoders, of the COSE public key inside [authenticatorData] (a
    piece of CBOR) and of an ECDSA signature (a piece of DER), and the hexadecimal
    text of the credential registry. *)

From Stdlib Require Import ZArith.
From S2P Require Import Prelude World External Config.

Definition FLAG_ATTESTED_CREDENTIAL_DATA : N := 64.
Definition COSE_KTY_EC2 : Z := 2.
Definition COSE_ALG_ES256 : Z := -7.
Definition COSE_CRV_P256 : Z := 1.

(** ** Readers *)

(** [CborReader] and [DerReader]: a buffer and a position in it. *)
Record Reader := mkReader { rd_data : bytes; rd_pos : N }.

Definition Parser (A : Type) : Type := Reader -> FcpResult (A * Reader).
#[export] Instance parser_ret : MRet Parser := fun _ a r => Ok (a, r).
#[export] Instance parser_bind : MBind Parser := fun _ _ f m r =>
  match m r with Ok (a, r') => f a r' | Err e => Err e end.
#[export] Instance parser_fmap : FMap Parser := fun _ _ f m r =>
  match m r with Ok (a, r') => Ok (f a, r') | Err e => Err e end.
Definition fail {A} (e : FcpError) : Parser A := fun _ => Err e.
Definition parse_lift {A} (x : FcpResult A) : Parser A := fun r =>
  match x with Ok a => Ok (a, r) | Err e => Err e end.
Definition parse_guard (bad : bool) (e : FcpError) : Parser unit := parse_lift (guard_err bad e).

(** [data.get(from..to)]. *)
Definition slice (data : bytes) (from to : N) : option bytes :=
  if (from <=? to) && (to <=? len data)
  then Some (take (N.to_nat (to - from)) (drop (N.to_nat from) data)) else None.

(** [take] of a reader of the format [name]. *)
Definition read_bytes (name : string) (n : N) : Parser bytes := fun r =>
  match checked_add u64_max (rd_pos r) n with
  | None => Err (Capability (name +:+ " offset overflow"))
  | Some stop =>
      match slice (rd_data r) (rd_pos r) stop with
      | None => Err (Capability (name +:+ " input truncated"))
      | Some b => Ok (b, mkReader (rd_data r) stop)
      end
  end.

(** [take(1)?[0]]. *)
Definition read_byte (name : string) : Parser N :=
  b ← read_bytes name 1;
  match b with x :: _ => mret (Byte.to_N x) | [] => fail (Capability (name +:+ " input truncated")) end.

(** ** CBOR *)

Definition cbor_take : N -> Parser bytes := read_bytes "CBOR".

(** [read_header]: major type and argument. *)
Definition read_header : Parser (N * N) :=
  first ← read_byte "CBOR";
  let major := N.shiftr first 5 in
  let info := N.land first 31 in
  argument ← (if info <=? 23 then mret info
              else if info =? 24 then read_byte "CBOR"
              else if info =? 25 then be_value <$> cbor_take 2
              else if info =? 26 then be_value <$> cbor_take 4
              else if info =? 27 then be_value <$> cbor_take 8
              else fail (Capability "unsupported CBOR length encoding"));
  mret (major, argument).

Definition read_map_header : Parser N :=
  header ← read_header;
  let '(major, count) := (header : N * N) in
  _ ← parse_guard (negb (major =? 5)) (Capability "expected a CBOR map");
  mret count.

(** [i64::try_from]. *)
Definition i64_try_from (n : N) : option Z := if n <=? i64_max then Some (Z.of_N n) else None.

Definition read_int : Parser Z :=
  header ← read_header;
  let '(major, argument) := (header : N * N) in
  if major =? 0 then parse_lift (ok_or (i64_try_from argument) (Capability "CBOR uint too large"))
  else if major =? 1 then
    value ← parse_lift (ok_or (i64_try_from argument) (Capability "CBOR negint too large"));
    mret (-1 - value)%Z
  else fail (Capability "expected a CBOR integer").

Definition read_byte_string : Parser bytes :=
  header ← read_header;
  let '(major, length) := (header : N * N) in
  _ ← parse_guard (negb (major =? 2)) (Capability "expected a CBOR byte string");
  cbor_take length.

(** ** The COSE key *)

Record CoseFields := mkCose {
  cose_kty : option Z;
  cose_alg : option Z;
  cose_crv : option Z;
  cose_x : option bytes;
  cose_y : option bytes;
}.

Definition read_field (f : CoseFields) : Parser CoseFields :=
  key ← read_int;
  match key with
  | 1%Z => v ← read_int; mret (mkCose (Some v) (cose_alg f) (cose_crv f) (cose_x f) (cose_y f))
  | 3%Z => v ← read_int; mret (mkCose (cose_kty f) (Some v) (cose_crv f) (cose_x f) (cose_y f))
  | (-1)%Z => v ← read_int; mret (mkCose (cose_kty f) (cose_alg f) (Some v) (cose_x f) (cose_y f))
  | (-2)%Z => v ← read_byte_string; mret (mkCose (cose_kty f) (cose_alg f) (cose_crv f) (Some v) (cose_y f))
  | (-3)%Z => v ← read_byte_string; mret (mkCose (cose_kty f) (cose_alg f) (cose_crv f) (cose_x f) (Some v))
  | other => fail (Capability ("unexpected COSE_Key field " +:+ pretty other))
  end.

(** [for _ in 0..count]. Every turn reads a byte, so that a loop which is out of
    fuel would have run out of input. *)
Fixpoint read_fields (fuel : nat) (count : N) (f : CoseFields) : Parser CoseFields :=
  if count =? 0 then mret f
  else
    match fuel with
    | O => fail (Capability "CBOR input truncated")
    | S fuel' => f ← read_field f; read_fields fuel' (count - 1) f
    end.

Definition to_array_32 (b : bytes) : FcpResult bytes :=
  _ ← guard_err (negb (len b =? 32)) (Capability "COSE_Key coordinate is not 32 bytes"); Ok b.

Definition parse_cose_ec2_public_key (data : bytes) : FcpResult (bytes * bytes) :=
  read ← (count ← read_map_header; read_fields (S (length data)) count (mkCose None None None None None))
           (mkReader data 0);
  let f := fst (read : CoseFields * Reader) in
  _ ← guard_err (bool_decide (cose_kty f <> Some COSE_KTY_EC2) || bool_decide (cose_alg f <> Some COSE_ALG_ES256)
                 || bool_decide (cose_crv f <> Some COSE_CRV_P256))
        (Capability "COSE_Key is not an ES256 EC2 key");
  x ← ok_or (cose_x f) (Capability "COSE_Key missing x");
  x ← to_array_32 x;
  y ← ok_or (cose_y f) (Capability "COSE_Key missing y");
  y ← to_array_32 y;
  Ok (x, y).

(** [parse_attested_credential]: credential id and coordinates. *)
Definition parse_attested_credential (auth_data : bytes) : FcpResult (bytes * bytes * bytes) :=
  _ ← guard_err (len auth_data <? 37) (Capability "authenticatorData is shorter than the fixed header");
  let flags := Byte.to_N (default Byte.x00 (auth_data !! 32%nat)) in
  _ ← guard_err (N.land flags FLAG_ATTESTED_CREDENTIAL_DATA =? 0) (Capability "authenticatorData has no attested credential data");
  let pos := 37 + 16 in
  cred_id_len_bytes ← ok_or (slice auth_data pos (pos + 2)) (Capability "authenticatorData truncated before credIdLen");
  let cred_id_len := be_value cred_id_len_bytes in
  let pos := pos + 2 in
  credential_id ← ok_or (slice auth_data pos (pos + cred_id_len)) (Capability "authenticatorData truncated before credentialId");
  let pos := pos + cred_id_len in
  cose_key ← ok_or (slice auth_data pos (len auth_data)) (Capability "authenticatorData truncated before credentialPublicKey");
  coordinates ← parse_cose_ec2_public_key cose_key;
  let '(x, y) := (coordinates : bytes * bytes) in
  Ok (credential_id, x, y).

(** ** DER *)

Definition der_take : N -> Parser bytes := read_bytes "DER".

(** The loop of [read_length]: [checked_shl(8)] drops the bits that leave the
    64-bit [usize]. *)
Fixpoint der_length (length : N) (b : bytes) : FcpResult N :=
  match b with
  | [] => Ok length
  | x :: rest =>
      let shifted := N.shiftl length 8 mod 2 ^ 64 in
      length ← ok_or (checked_add u64_max shifted (Byte.to_N x)) (Capability "DER length overflow");
      der_length length rest
  end.

Definition read_length : Parser N :=
  first ← read_byte "DER";
  if N.land first 128 =? 0 then mret first
  else
    let count := N.land first 127 in
    b ← der_take count;
    parse_lift (der_length 0 b).

Definition expect_tag (tag : N) : Parser unit :=
  first ← read_byte "DER";
  _ ← parse_guard (negb (first =? tag)) (Capability "unexpected DER tag");
  _ ← read_length;
  mret tt.

(** The guard byte of a positive number whose first bit is set. *)
Definition strip_guard (b : bytes) : bytes :=
  match b with
  | Byte.x00 :: rest =>
      match rest with
      | x :: _ => if N.land (Byte.to_N x) 128 =? 0 then b else rest
      | [] => b
      end
  | _ => b
  end.

Definition read_integer : Parser bytes :=
  first ← read_byte "DER";
  _ ← parse_guard (negb (first =? 2)) (Capability "expected a DER INTEGER");
  length ← read_length;
  b ← der_take length;
  mret (strip_guard b).

Definition left_pad_32 (value : bytes) : FcpResult bytes :=
  _ ← guard_err (32 <? len value) (Capability "DER integer is wider than a P-256 coordinate");
  Ok (replicate (32 - length value) Byte.x00 ++ value).

Definition der_ecdsa_signature_to_raw (der : bytes) : FcpResult bytes :=
  read ← (_ ← expect_tag 48; r ← read_integer; s ← read_integer; mret (r, s)) (mkReader der 0);
  let '(r, s) := fst (read : bytes * bytes * Reader) in
  r ← left_pad_32 r;
  s ← left_pad_32 s;
  Ok (r ++ s).

(** ** Hexadecimal text *)

(** [hex_encode], and [hex_decode] on the bytes of the text. *)
Definition hex_encode (b : bytes) : string := encode_hex b.

Definition hex_nibble (x : N) : FcpResult N :=
  if (48 <=? x) && (x <=? 57) then Ok (x - 48)
  else if (97 <=? x) && (x <=? 102) then Ok (x - 97 + 10)
  else if (65 <=? x) && (x <=? 70) then Ok (x - 65 + 10)
  else Err (Capability "invalid hex digit").

Fixpoint hex_pairs (b : bytes) : FcpResult bytes :=
  match b with
  | a :: c :: rest =>
      high ← hex_nibble (Byte.to_N a);
      low ← hex_nibble (Byte.to_N c);
      tail ← hex_pairs rest;
      Ok (u8_of_N (N.lor (N.shiftl high 4) low) :: tail)
  | _ => Ok []
  end.

Definition hex_decode (text : string) : FcpResult bytes :=
  let text := str_bytes text in
  _ ← guard_err (negb (len text mod 2 =? 0)) (Capability "hex string has odd length");
  hex_pairs text.

(** ** Reading from a known buffer *)

Ltac len_lia := rewrite ?len_app; unfold len in *; cbn [length app] in *; lia.

(** A reader before [rest], with [pre] behind it. *)
Definition before (pre rest : bytes) : Reader := mkReader (pre ++ rest) (len pre).

Lemma parse_step {A B} (m : Parser A) (f : A -> Parser B) r a r' :
  m r = Ok (a, r') -> (m ≫= f) r = f a r'.
Proof. intros H. unfold mbind, parser_bind. by rewrite H. Qed.

Lemma slice_middle (pre b rest : bytes) : slice (pre ++ b ++ rest) (len pre) (len pre + len b) = Some b.
Proof.
  unfold slice. rewrite !len_app, !(proj2 (N.leb_le _ _)) by lia. cbn [andb].
  replace (len pre + len b - len pre) with (len b) by lia. unfold len. rewrite !Nat2N.id.
  by rewrite drop_length_app, take_length_app.
Qed.

Lemma read_bytes_before name pre b rest n :
  n = len b -> len pre + n <= u64_max -> read_bytes name n (before pre (b ++ rest)) = Ok (b, before (pre ++ b) rest).
Proof.
  intros -> Hmax. unfold read_bytes, before, checked_add. cbn [rd_pos rd_data].
  rewrite (proj2 (N.leb_le _ _)) by done. by rewrite slice_middle, app_assoc, len_app.
Qed.

Lemma read_byte_before name pre x rest :
  len pre + 1 <= u64_max -> read_byte name (before pre (x :: rest)) = Ok (Byte.to_N x, before (pre ++ [x]) rest).
Proof.
  intros Hmax. unfold read_byte. erewrite parse_step by (apply (read_bytes_before name pre [x] rest); [done|exact Hmax]). done.
Qed.

(** ** DER: an encoder for the round trip *)

(** A positive number, most significant byte first, without needless zeros. *)
Fixpoint der_trim (b : bytes) : bytes :=
  match b with
  | Byte.x00 :: rest =>
      match rest with
      | x :: _ => if N.land (Byte.to_N x) 128 =? 0 then der_trim rest else b
      | [] => b
      end
  | _ => b
  end.

Definition der_content (b : bytes) : bytes :=
  let t := der_trim b in
  match t with
  | x :: _ => if N.land (Byte.to_N x) 128 =? 0 then t else Byte.x00 :: t
  | [] => []
  end.

Definition der_integer (b : bytes) : bytes := Byte.x02 :: u8_of_N (len (der_content b)) :: der_content b.
Definition der_signature (r s : bytes) : bytes :=
  Byte.x30 :: u8_of_N (len (der_integer r ++ der_integer s)) :: der_integer r ++ der_integer s.

Lemma der_trim_zeros b : exists k, b = replicate k Byte.x00 ++ der_trim b.
Proof.
  induction b as [|x b IH]; [by exists 0%nat|].
  cbn [der_trim]. destruct (decide (x = Byte.x00)) as [->|Hx]; [|by exists 0%nat; destruct x].
  destruct b as [|y b]; [by exists 0%nat|]. destruct (N.land (Byte.to_N y) 128 =? 0); [|by exists 0%nat].
  destruct IH as [k Hk]. exists (S k). cbn [replicate app]. by rewrite <- Hk.
Qed.

Lemma strip_guard_content b : exists k, b = replicate k Byte.x00 ++ strip_guard (der_content b).
Proof.
  destruct (der_trim_zeros b) as [k Hk]. unfold der_content.
  destruct (der_trim b) as [|x t] eqn:Ht; [by exists k|].
  destruct (N.land (Byte.to_N x) 128 =? 0) eqn:Hx.
  - unfold strip_guard. destruct x; try (by exists k).
    destruct t as [|y t]; [by exists k|]. destruct (N.land (Byte.to_N y) 128 =? 0); [by exists k|].
    exists (S k). rewrite Hk at 1. rewrite replicate_S_end, <- app_assoc. done.
  - exists k. cbn [strip_guard]. by rewrite Hx.
Qed.

Lemma left_pad_content b : length b = 32%nat -> left_pad_32 (strip_guard (der_content b)) = Ok b.
Proof.
  intros Hl. destruct (strip_guard_content b) as [k Hk]. revert Hk. generalize (strip_guard (der_content b)) as v.
  intros v Hk. assert (Hlen : (k + length v = 32)%nat) by (rewrite <- Hl, Hk, length_app, length_replicate; done).
  unfold left_pad_32, mbind, result_bind, guard_err, len. rewrite (proj2 (N.ltb_ge _ _)) by lia.
  replace (32 - length v)%nat with k by lia. by rewrite <- Hk.
Qed.

Lemma der_content_length b : length b = 32%nat -> (length (der_content b) <= 33)%nat.
Proof.
  intros Hl. destruct (der_trim_zeros b) as [k Hk]. apply (f_equal length) in Hk.
  rewrite length_app, length_replicate in Hk. unfold der_content. destruct (der_trim b) as [|x t]; cbn in *; [lia|].
  destruct (_ =? 0); cbn in *; lia.
Qed.

Lemma read_length_short pre n rest :
  n < 128 -> len pre + 1 <= u64_max -> read_length (before pre (u8_of_N n :: rest)) = Ok (n, before (pre ++ [u8_of_N n]) rest).
Proof.
  intros Hn Hmax. unfold read_length. erewrite parse_step by (by apply read_byte_before). cbv beta.
  rewrite to_N_u8_of_N, N.mod_small by lia.
  replace (N.land n 128) with 0; [done|]. symmetry. rewrite (N.land_comm n). change 128 with (2 ^ 7).
  apply N.bits_inj. intros i. rewrite N.land_spec, N.bits_0, N.pow2_bits_eqb.
  destruct (7 =? i) eqn:Hi; [apply N.eqb_eq in Hi as <-|done]. rewrite N.testbit_odd, N.shiftr_div_pow2.
  rewrite N.div_small by done. done.
Qed.

Lemma read_integer_before pre b rest :
  length b = 32%nat -> len pre + 35 <= u64_max ->
  read_integer (before pre (der_integer b ++ rest)) = Ok (strip_guard (der_content b), before (pre ++ der_integer b) rest).
Proof.
  intros Hl Hmax. pose proof (der_content_length b Hl) as Hc. unfold read_integer, der_integer. cbn [app].
  assert (Hn : len (der_content b) < 128) by (unfold len; lia).
  erewrite parse_step by (apply read_byte_before; lia). cbv beta.
  erewrite parse_step by reflexivity.
  erewrite parse_step by (apply read_length_short; [done|len_lia]).
  erewrite parse_step by (apply read_bytes_before; [done|len_lia]).
  by rewrite <- !app_assoc.
Qed.

(** ** Properties of the decoders *)

Lemma be_value_cons x b : be_value (x :: b) = Byte.to_N x * 256 ^ len b + be_value b.
Proof.
  assert (Happ : forall l y, le_value (l ++ [y]) = le_value l + 256 ^ len l * Byte.to_N y).
  { induction l as [|z l IH]; intros y; cbn [app le_value].
    { unfold len. cbn [length]. change (N.of_nat 0) with 0. rewrite N.pow_0_r. lia. }
    rewrite IH.
    unfold len. cbn [length]. rewrite Nat2N.inj_succ, N.pow_succ_r'. lia. }
  unfold be_value. cbn [rev]. rewrite Happ. unfold len. rewrite length_rev. lia.
Qed.

Lemma der_length_value b acc :
  acc < 2 ^ 64 -> der_length acc b = Ok ((acc * 256 ^ len b + be_value b) mod 2 ^ 64).
Proof.
  revert acc. induction b as [|x b IH]; intros acc Hacc; cbn [der_length].
  { cbn. rewrite N.mul_1_r, N.add_0_r. f_equal. symmetry. by apply N.mod_small. }
  assert (Hs : N.shiftl acc 8 mod 2 ^ 64 = 256 * (acc mod 2 ^ 56)).
  { rewrite N.shiftl_mul_pow2, N.mul_comm. change (2 ^ 64) with (2 ^ 8 * 2 ^ 56). by rewrite N.Div0.mul_mod_distr_l. }
  pose proof (byte_to_N_lt x) as Hx. assert (Hm : acc mod 2 ^ 56 < 2 ^ 56) by (by apply N.mod_upper_bound).
  rewrite Hs. unfold checked_add. rewrite (proj2 (N.leb_le _ _)); [|unfold u64_max; change (2 ^ 64) with (2 ^ 8 * 2 ^ 56); change (2 ^ 8) with 256; lia].
  cbn [ok_or mbind result_bind].
  rewrite IH; [|change (2 ^ 64) with (256 * 2 ^ 56); lia]. f_equal. rewrite be_value_cons.
  unfold len. cbn [length]. rewrite Nat2N.inj_succ, N.pow_succ_r'. fold (len b).
  rewrite N.add_assoc, N.mul_assoc, <- N.mul_add_distr_r.
  assert (Hmod : forall a c d e, a mod 2 ^ 64 = c mod 2 ^ 64 -> (a * d + e) mod 2 ^ 64 = (c * d + e) mod 2 ^ 64).
  { intros a c d e H. by rewrite <- (N.Div0.add_mod_idemp_l (a * d)), <- (N.Div0.mul_mod_idemp_l a), H, N.Div0.mul_mod_idemp_l,
      N.Div0.add_mod_idemp_l. }
  apply Hmod. rewrite <- Hs, N.shiftl_mul_pow2, N.Div0.add_mod_idemp_l. by change (2 ^ 8) with 256.
Qed.

(** The length field of a DER item never overflows, whatever the input: a short
    length is the byte itself, a long one is the big-endian number of the
    following bytes modulo 2^64, so that leading bytes beyond eight are silently
    dropped instead of being refused. *)
Theorem der_length_wraps pre b rest :
  len b < 128 -> len pre + 1 + len b <= u64_max ->
  read_length (before pre (u8_of_N (128 + len b) :: b ++ rest)) =
    Ok (be_value b mod 2 ^ 64, before ((pre ++ [u8_of_N (128 + len b)]) ++ b) rest).
Proof.
  intros Hn Hmax. unfold read_length. erewrite parse_step by (apply read_byte_before; lia). cbv beta.
  rewrite to_N_u8_of_N, N.mod_small by lia.
  assert (Hbits : N.land (128 + len b) 128 = 128 /\ N.land (128 + len b) 127 = len b).
  { revert Hn. generalize (len b) as n. intros n Hn.
    assert (Forall (fun k => N.land (128 + k) 128 = 128 /\ N.land (128 + k) 127 = k) (N.of_nat <$> seq 0 128)) as Hall.
    { apply Forall_forall. intros k Hk. apply list_elem_of_fmap in Hk as (i & -> & Hi). apply elem_of_seq in Hi.
      do 128 (destruct i as [|i]; [done|]). lia. }
    rewrite Forall_forall in Hall. apply Hall. apply list_elem_of_fmap. exists (N.to_nat n).
    split; [by rewrite N2Nat.id|]. apply elem_of_seq. lia. }
  destruct Hbits as [-> ->]. change (128 =? 0) with false. cbv iota.
  erewrite parse_step by (apply read_bytes_before; [done|len_lia]).
  unfold parse_lift. by rewrite der_length_value.
Qed.

(** Decoding undoes DER encoding: for any two 32-byte coordinates, however many
    leading zeros they have and whether or not their first bit is set, the decoder
    gives back both at full width. *)
Theorem der_signature_round_trip r s :
  length r = 32%nat -> length s = 32%nat -> der_ecdsa_signature_to_raw (der_signature r s) = Ok (r ++ s).
Proof.
  intros Hr Hs. pose proof (der_content_length r Hr) as Hcr. pose proof (der_content_length s Hs) as Hcs.
  unfold der_ecdsa_signature_to_raw, der_signature.
  set (body := der_integer r ++ der_integer s).
  assert (Hb : len body < 128) by (unfold body, der_integer; len_lia).
  assert (Hmax : 1000 <= u64_max) by (by vm_compute).
  assert (Hread : (_ ← expect_tag 48; r ← read_integer; s ← read_integer; mret (r, s)) (mkReader (Byte.x30 :: u8_of_N (len body) :: body) 0) =
    Ok ((strip_guard (der_content r), strip_guard (der_content s)), before ((([Byte.x30] ++ [u8_of_N (len body)]) ++ der_integer r) ++ der_integer s) [])).
  { change (mkReader (Byte.x30 :: u8_of_N (len body) :: body) 0) with (before [] (Byte.x30 :: u8_of_N (len body) :: body)).
    erewrite parse_step.
    2: { unfold expect_tag. erewrite parse_step by (apply read_byte_before; len_lia). cbv beta.
         erewrite parse_step by reflexivity. erewrite parse_step by (apply read_length_short; [done|len_lia]). reflexivity. }
    cbv beta. erewrite parse_step by (apply read_integer_before; [done|len_lia]). cbv beta.
    assert (He : der_integer s = der_integer s ++ []) by (by rewrite app_nil_r). rewrite He at 1.
    erewrite parse_step by (apply read_integer_before; [done|unfold der_integer; len_lia]). done. }
  rewrite Hread. cbn [mbind result_bind fst]. by rewrite !left_pad_content.
Qed.

Lemma der_signature_round_trip_witness :
  der_ecdsa_signature_to_raw (der_signature (be_bytes 32 0) (be_bytes 32 (2 ^ 255))) = Ok (be_bytes 32 0 ++ be_bytes 32 (2 ^ 255)).
Proof. apply der_signature_round_trip; reflexivity. Defined.

Lemma der_length_wraps_witness :
  read_length (before [] (u8_of_N (128 + len (Byte.x01 :: replicate 7 Byte.x00 ++ [Byte.x05])) ::
    (Byte.x01 :: replicate 7 Byte.x00 ++ [Byte.x05]) ++ [])) =
  Ok (be_value (Byte.x01 :: replicate 7 Byte.x00 ++ [Byte.x05]) mod 2 ^ 64,
      before (([] ++ [u8_of_N (128 + len (Byte.x01 :: replicate 7 Byte.x00 ++ [Byte.x05]))]) ++ (Byte.x01 :: replicate 7 Byte.x00 ++ [Byte.x05])) []).
Proof. apply der_length_wraps; [reflexivity|vm_compute; discriminate]. Defined.

(** ** The credential *)

(** A COSE key as the platform writes it: five entries, in this order. *)
Definition cose_key (x y : bytes) : bytes :=
  [Byte.xa5; Byte.x01; Byte.x02; Byte.x03; Byte.x26; Byte.x20; Byte.x01; Byte.x21; Byte.x58; Byte.x20] ++ x
  ++ [Byte.x22; Byte.x58; Byte.x20] ++ y.

Lemma read_header_byte pre x rest :
  (N.land (Byte.to_N x) 31 <=? 23) = true -> len pre + 1 <= u64_max ->
  read_header (before pre (x :: rest)) =
    Ok ((N.shiftr (Byte.to_N x) 5, N.land (Byte.to_N x) 31), before (pre ++ [x]) rest).
Proof.
  intros Hx Hmax. unfold read_header. erewrite parse_step by (by apply read_byte_before). cbv beta zeta.
  rewrite Hx. by erewrite parse_step by reflexivity.
Qed.

(** An integer in one byte: the inline argument or its negation. *)
Lemma read_int_byte pre x rest v :
  (N.land (Byte.to_N x) 31 <=? 23) = true ->
  (if N.shiftr (Byte.to_N x) 5 =? 0 then Some (Z.of_N (N.land (Byte.to_N x) 31))
   else if N.shiftr (Byte.to_N x) 5 =? 1 then Some (-1 - Z.of_N (N.land (Byte.to_N x) 31))%Z else None) = Some v ->
  len pre + 1 <= u64_max -> read_int (before pre (x :: rest)) = Ok (v, before (pre ++ [x]) rest).
Proof.
  intros Hx Hv Hmax. unfold read_int. erewrite parse_step by (by apply read_header_byte). cbv beta iota.
  assert (Hi : i64_try_from (N.land (Byte.to_N x) 31) = Some (Z.of_N (N.land (Byte.to_N x) 31))).
  { unfold i64_try_from. apply N.leb_le in Hx. rewrite (proj2 (N.leb_le _ _)); [done|]. etrans; [exact Hx|]. by vm_compute. }
  rewrite Hi. destruct (_ =? 0); [injection Hv as <-; done|]. destruct (_ =? 1); [|done]. injection Hv as <-.
  by erewrite parse_step by reflexivity.
Qed.

Lemma read_string_32 pre x rest :
  length x = 32%nat -> len pre + 34 <= u64_max ->
  read_byte_string (before pre (Byte.x58 :: Byte.x20 :: x ++ rest)) = Ok (x, before (pre ++ [Byte.x58; Byte.x20] ++ x) rest).
Proof.
  intros Hx Hmax. unfold read_byte_string. erewrite parse_step.
  2: { unfold read_header. erewrite parse_step by (apply read_byte_before; len_lia). cbv beta zeta.
       erewrite parse_step by (apply (read_byte_before "CBOR" (pre ++ [Byte.x58]) Byte.x20); len_lia). reflexivity. }
  cbv beta iota. erewrite parse_step by reflexivity. unfold cbor_take.
  change (Byte.to_N Byte.x20) with 32. rewrite (read_bytes_before _ _ x); [by rewrite <- !app_assoc|unfold len; by rewrite Hx|len_lia].
Qed.

(** One integer in one byte. *)
Ltac read_one v :=
  erewrite parse_step by (apply (read_int_byte _ _ _ v); [done|reflexivity|len_lia]); cbv beta iota.

Lemma parse_cose_key x y rest :
  length x = 32%nat -> length y = 32%nat -> parse_cose_ec2_public_key (cose_key x y ++ rest) = Ok (x, y).
Proof.
  intros Hx Hy. assert (Hmax : 1000 <= u64_max) by (by vm_compute).
  assert (Harr : forall b, length b = 32%nat -> to_array_32 b = Ok b).
  { intros b Hb. unfold to_array_32, len. by rewrite Hb. }
  unfold parse_cose_ec2_public_key.
  assert (Hrun : exists r, (count ← read_map_header; read_fields (S (length (cose_key x y ++ rest))) count (mkCose None None None None None))
     (mkReader (cose_key x y ++ rest) 0) = Ok (mkCose (Some 2%Z) (Some (-7)%Z) (Some 1%Z) (Some x) (Some y), r)).
  { eexists. change (mkReader (cose_key x y ++ rest) 0) with (before [] (cose_key x y ++ rest)).
    assert (Hfuel : exists n, S (length (cose_key x y ++ rest)) = S (S (S (S (S n))))).
    { unfold cose_key. rewrite <- app_assoc, length_app. cbn [length Nat.add]. eexists. reflexivity. }
    destruct Hfuel as [n ->]. unfold cose_key. rewrite <- !app_assoc. cbn [app].
    erewrite parse_step.
    2: { unfold read_map_header. erewrite parse_step by (apply read_header_byte; [done|len_lia]). reflexivity. }
    cbv beta. change (N.land (Byte.to_N Byte.xa5) 31) with 5.
    cbn [read_fields]. change (5 =? 0) with false. cbv iota.
    erewrite parse_step.
    2: { unfold read_field. read_one 1%Z.
         read_one 2%Z. reflexivity. }
    cbv beta. change (5 - 1 =? 0) with false. cbv iota.
    erewrite parse_step.
    2: { unfold read_field. read_one 3%Z.
         read_one (-7)%Z. reflexivity. }
    cbv beta. change (5 - 1 - 1 =? 0) with false. cbv iota.
    erewrite parse_step.
    2: { unfold read_field. read_one (-1)%Z.
         read_one 1%Z. reflexivity. }
    cbv beta. change (5 - 1 - 1 - 1 =? 0) with false. cbv iota.
    erewrite parse_step.
    2: { unfold read_field. read_one (-2)%Z.
         erewrite parse_step by (apply read_string_32; [done|len_lia]). reflexivity. }
    cbv beta. change (5 - 1 - 1 - 1 - 1 =? 0) with false. cbv iota.
    erewrite parse_step.
    2: { unfold read_field. read_one (-3)%Z.
         erewrite parse_step by (apply read_string_32; [done|len_lia]). reflexivity. }
    cbv beta. destruct n; reflexivity. }
  destruct Hrun as [r ->]. unfold mbind, result_bind. cbn [fst cose_kty cose_alg cose_crv cose_x cose_y].
  rewrite !bool_decide_false by (intros H; by apply H). unfold guard_err, ok_or. cbn [orb]. by rewrite !Harr.
Qed.

(** A credential made by the platform authenticator is read back: from
    [authenticatorData] with the attested-data flag, a credential id of any length
    up to 65535 and an ES256 key with 32-byte coordinates, in whatever surroundings
    (any hash, counter and vendor bytes before, any extension bytes behind),
    exactly that id and those coordinates come out. *)
Theorem attested_credential_read rp_hash flags counter aaguid id x y rest :
  length rp_hash = 32%nat -> length counter = 4%nat -> length aaguid = 16%nat ->
  N.land (Byte.to_N flags) FLAG_ATTESTED_CREDENTIAL_DATA <> 0 -> len id <= u16_max ->
  length x = 32%nat -> length y = 32%nat ->
  parse_attested_credential
    (rp_hash ++ [flags] ++ counter ++ aaguid ++ be_bytes 2 (len id) ++ id ++ cose_key x y ++ rest) = Ok (id, x, y).
Proof.
  intros Hr Hc Ha Hf Hid Hx Hy. unfold parse_attested_credential.
  assert (Hl2 : len (be_bytes 2 (len id)) = 2) by (unfold len; by rewrite length_be_bytes).
  assert (Hv : be_value (be_bytes 2 (len id)) = len id).
  { apply be_value_be_bytes. unfold u16_max in Hid. change (256 ^ N.of_nat 2) with (2 ^ 16). lia. }
  set (tail := cose_key x y ++ rest).
  set (data := rp_hash ++ [flags] ++ counter ++ aaguid ++ be_bytes 2 (len id) ++ id ++ tail).
  assert (Hflags : data !! 32%nat = Some flags).
  { unfold data. rewrite lookup_app_r by lia. by rewrite Hr. }
  assert (Hlen : len data = 37 + 16 + 2 + len id + len tail).
  { unfold data. rewrite !len_app, Hl2. unfold len. rewrite Hr, Hc, Ha. cbn [length]. lia. }
  assert (Hs1 : slice data (37 + 16) (37 + 16 + 2) = Some (be_bytes 2 (len id))).
  { replace data with ((rp_hash ++ [flags] ++ counter ++ aaguid) ++ be_bytes 2 (len id) ++ (id ++ tail))
      by (unfold data; by rewrite <- !app_assoc).
    replace (37 + 16) with (len (rp_hash ++ [flags] ++ counter ++ aaguid))
      by (rewrite !len_app; unfold len; rewrite Hr, Hc, Ha; done).
    replace 2 with (len (be_bytes 2 (len id))) at 2 by done. apply slice_middle. }
  assert (Hs2 : slice data (37 + 16 + 2) (37 + 16 + 2 + len id) = Some id).
  { replace data with ((rp_hash ++ [flags] ++ counter ++ aaguid ++ be_bytes 2 (len id)) ++ id ++ tail)
      by (unfold data; by rewrite <- !app_assoc).
    replace (37 + 16 + 2) with (len (rp_hash ++ [flags] ++ counter ++ aaguid ++ be_bytes 2 (len id)))
      by (rewrite !len_app, Hl2; unfold len; rewrite Hr, Hc, Ha; done).
    apply slice_middle. }
  assert (Hs3 : slice data (37 + 16 + 2 + len id) (len data) = Some tail).
  { replace data with ((rp_hash ++ [flags] ++ counter ++ aaguid ++ be_bytes 2 (len id) ++ id) ++ tail ++ []) at 1
      by (unfold data; by rewrite app_nil_r, <- !app_assoc).
    rewrite Hlen.
    replace (37 + 16 + 2 + len id) with (len (rp_hash ++ [flags] ++ counter ++ aaguid ++ be_bytes 2 (len id) ++ id))
      by (rewrite !len_app, Hl2; unfold len; rewrite Hr, Hc, Ha; cbn [length]; lia).
    apply slice_middle. }
  unfold mbind, result_bind, guard_err. rewrite (proj2 (N.ltb_ge _ _)) by lia.
  rewrite Hflags. cbn [default]. rewrite (proj2 (N.eqb_neq _ _)) by exact Hf.
  rewrite Hs1. cbn [ok_or]. rewrite Hv, Hs2. cbn [ok_or]. rewrite Hs3. cbn [ok_or].
  unfold tail. by rewrite parse_cose_key.
Qed.

Lemma attested_credential_read_witness :
  parse_attested_credential
    (replicate 32 Byte.xaa ++ [Byte.x40] ++ replicate 4 Byte.x00 ++ replicate 16 Byte.xbb ++
     be_bytes 2 (len [Byte.x01; Byte.x02]) ++ [Byte.x01; Byte.x02] ++
     cose_key (replicate 32 Byte.x11) (replicate 32 Byte.x22) ++ []) =
  Ok ([Byte.x01; Byte.x02], replicate 32 Byte.x11, replicate 32 Byte.x22).
Proof. apply attested_credential_read; try reflexivity; vm_compute; discriminate. Defined.

(** Hexadecimal text reads back. *)
Theorem hex_round_trip b : hex_decode (hex_encode b) = Ok b.
Proof.
  assert (Hd : forall x, exists a c, (forall s, list_byte_of_string (String (hex_digit (N.shiftr (Byte.to_N x) 4))
     (String (hex_digit (N.land (Byte.to_N x) 15)) s)) = a :: c :: list_byte_of_string s) /\
     (h ← hex_nibble (Byte.to_N a); l ← hex_nibble (Byte.to_N c); Ok (u8_of_N (N.lor (N.shiftl h 4) l))) = Ok x :> FcpResult byte).
  { intros x. eexists _, _. split; [reflexivity|]. by destruct x. }
  unfold hex_decode, hex_encode, str_bytes.
  assert (H : len (list_byte_of_string (encode_hex b)) mod 2 = 0 /\ hex_pairs (list_byte_of_string (encode_hex b)) = Ok b).
  { induction b as [|x b [IH1 IH2]]; [done|]. cbn [encode_hex]. destruct (Hd x) as (a & c & -> & Hx). split.
    - unfold len in *. cbn [length]. rewrite !Nat2N.inj_succ. rewrite <- !N.add_1_r, <- N.add_assoc.
      by rewrite <- N.Div0.add_mod_idemp_l, IH1.
    - cbn [hex_pairs]. rewrite IH2. unfold mbind, result_bind in *. destruct (hex_nibble (Byte.to_N a)); [|done].
      destruct (hex_nibble (Byte.to_N c)); [|done]. by injection Hx as ->. }
  destruct H as [-> ->]. done.
Qed.
