(* ===== verification/Tpm.v ===== *)
(** * The TPM, as the Linux backends use it

    [tss_esapi] is a parameter: one class with the calls the backends make. Each
    call on a [Context] is a computation on the context that answers a value or a
    TPM error. The Linux backends of the local secrets, of the key-encryption key
    and of the authorizer share the opening of the context and the parent key,
    written once here (the source repeats them, word for word). *)

From S2P Require Import Prelude World External AtomicFile Frames Handles.

(** ** Templates: what the backends pass to the builders *)

(** [ObjectAttributesBuilder]: the attributes that are set. *)
Record ObjectAttributes := mkAttributes {
  fixed_tpm : bool;
  fixed_parent : bool;
  sensitive_data_origin : bool;
  user_with_auth : bool;
  restricted : bool;
  decrypt : bool;
  sign_encrypt : bool;
  no_da : bool;
}.

Inductive EccSchemeT := EccNull | EcDsaSha256.

(** [PublicBuilder], with the SHA-256 name algorithm: an ECC key on P-256 with a
    null key derivation, an RSA key, or a keyed hash with a null scheme. The
    arguments of a key are its attributes, its scheme or size, and whether it
    signs, decrypts, is restricted and has the AES-128-CFB symmetric part. *)
Inductive PublicTemplate :=
  | EccTemplate (attributes : ObjectAttributes) (scheme : EccSchemeT)
      (is_signing_key is_decryption_key is_restricted aes_128_cfb : bool)
  | RsaOaepTemplate (attributes : ObjectAttributes) (key_bits : N)
      (is_signing_key is_decryption_key is_restricted : bool)
  | KeyedHashTemplate (attributes : ObjectAttributes).

(** The buffers of the TPM with a length limit. *)
Inductive TpmBuffer := PrivateBuffer | SensitiveBuffer | AuthBuffer | DigestBuffer | RsaBuffer.

(** [Tss2ResponseCodeKind], the kinds the host distinguishes. *)
Inductive ResponseKind := AuthFail | Lockout | OtherKind.

(** [PropertyTag], those the host reads. *)
Inductive PropertyTag := LockoutCounter | MaxAuthFail.

Abbreviation KeyHandle := N.

(** ** The interface *)

Class Tss := {
  TssError : Type;
  TpmContext : Type;
  TpmPublic : Type;
  tss_code : TssError -> N;
  tss_kind : TssError -> option ResponseKind;
  (** Builders and buffers. *)
  build_attributes : ObjectAttributes -> Result TssError ObjectAttributes;
  build_public : PublicTemplate -> Result TssError TpmPublic;
  buffer_fits : TpmBuffer -> bytes -> bool;
  public_marshall : TpmPublic -> Result TssError bytes;
  public_unmarshall : bytes -> Result TssError TpmPublic;
  (** [Public::Ecc { object_attributes, unique, .. }]: the attributes and the point. *)
  public_ecc : TpmPublic -> option (ObjectAttributes * (bytes * bytes));
  hashcheck_ticket : Result TssError unit;
  (** [TctiNameConf] and [Context::new]. *)
  tcti_valid : string -> bool;
  context_new : string -> IO (Result TssError TpmContext);
  (** Calls in a null-authorization session. *)
  tpm_create_primary : TpmPublic -> M TpmContext (Result TssError KeyHandle);
  tpm_create : KeyHandle -> TpmPublic -> option bytes -> option bytes -> M TpmContext (Result TssError (bytes * TpmPublic));
  tpm_load : KeyHandle -> bytes -> TpmPublic -> M TpmContext (Result TssError KeyHandle);
  tpm_flush : KeyHandle -> M TpmContext (Result TssError unit);
  tpm_unseal : KeyHandle -> M TpmContext (Result TssError bytes);
  tpm_rsa_encrypt : KeyHandle -> bytes -> M TpmContext (Result TssError bytes);
  tpm_rsa_decrypt : KeyHandle -> bytes -> M TpmContext (Result TssError bytes);
  tpm_set_auth : KeyHandle -> bytes -> M TpmContext (Result TssError unit);
  (** The signature's [r] and [s] when it is an ECDSA signature. *)
  tpm_sign : KeyHandle -> bytes -> M TpmContext (Result TssError (option (bytes * bytes)));
  (** A property, when the answer is a property list that has it. *)
  tpm_property : PropertyTag -> M TpmContext (Result TssError (option N));
}.

(** The process environment: [FCP_TPM_TCTI] when it is set to text, and whether
    [WAYLAND_DISPLAY] and [DISPLAY] are set. *)
Class HostEnv := {
  env_tcti : option string;
  env_wayland : bool;
  env_display : bool;
}.

Section Plumbing.
Context `{T : Tss, HE : HostEnv}.

(** [FcpError::from]. *)
Definition from_tss {A} (r : Result TssError A) : FcpResult A := map_err (fun e => Tpm (tss_code e)) r.

(** A call followed by [.map_err(FcpError::from)?]. *)
Definition tss {S A} (m : M S (Result TssError A)) : M S A := r ← m; lift (from_tss r).

(** [X::try_from(bytes).map_err(..)?] of a TPM buffer. *)
Definition tpm_buffer (kind : TpmBuffer) (b : bytes) (e : FcpError) : FcpResult bytes :=
  if buffer_fits kind b then Ok b else Err e.

(** [open_context], of a build without the simulator. *)
Definition tcti_conf : string := default "device:/dev/tpmrm0"%string env_tcti.

Definition open_context : IO TpmContext :=
  _ ← guard_not (negb (starts_with "device:" tcti_conf))
        (Crypto "refusing a non-hardware TPM: this build requires a TPM character device");
  _ ← guard_not (negb (tcti_valid tcti_conf)) (Crypto "TPM TCTI configuration is not valid");
  tss (context_new tcti_conf).

(** The attributes and the template of the parent key. *)
Definition parent_attributes : ObjectAttributes :=
  mkAttributes true true true true true true false true.

(** [create_parent]. *)
Definition create_parent : M TpmContext KeyHandle :=
  attributes ← lift (from_tss (build_attributes parent_attributes));
  public ← lift (from_tss (build_public (EccTemplate attributes EccNull false true true true)));
  tss (tpm_create_primary public).

(** A block with an open context, which is dropped at its end. *)
Definition in_opened {A} (opened : IO TpmContext) (m : M TpmContext A) : IO A :=
  context ← opened;
  r ← with_local context m;
  lift r.1.
Definition in_context {A} (m : M TpmContext A) : IO A := in_opened open_context m.

(** [let result = (|| ..)(); let _ = context.flush_context(..); result]: the
    block runs, then the handle is flushed, whatever the outcome. *)
Definition with_flush {A} (handle : KeyHandle) (body : M TpmContext A) : M TpmContext A :=
  result ← try_ body;
  _ ← tpm_flush handle;
  lift result.

(** The common part of every use: a parent key around a block. *)
Definition with_parent {A} (body : KeyHandle -> M TpmContext A) : M TpmContext A :=
  parent ← create_parent;
  with_flush parent (body parent).
End Plumbing.

(** ** What the host relies on

    [names c h] is the object a handle of the context [c] names, and
    [authorized c h] the authorization value set for it. [object_secret],
    [rsa_plaintext] and [accepts] say what the TPM does with an object: the data
    sealed in it, what a ciphertext decrypts to, and the authorization values
    that unlock it. A call changes no file of the host and reports its failures as
    TPM errors. *)
Definition tss_call `{Tss} {A} (m : M TpmContext A) (Q : A -> TpmContext -> TpmContext -> Prop) : Prop :=
  forall c w, wp m (fun a c' w' => untouched w w' /\ Q a c c') (fun _ _ _ => False) (untouched w) c w.

Class TssLaws `{Tss} := {
  object_secret : bytes -> TpmPublic -> option bytes;
  rsa_plaintext : bytes -> TpmPublic -> bytes -> option bytes;
  accepts : bytes -> TpmPublic -> bytes -> Prop;
  names : TpmContext -> KeyHandle -> option (bytes * TpmPublic);
  authorized : TpmContext -> KeyHandle -> option bytes;
  unmarshall_marshall p b : public_marshall p = Ok b -> public_unmarshall b = Ok p;
  built_attributes a b : build_attributes a = Ok b -> b = a;
  built_ecc attributes scheme s d r aes p :
    build_public (EccTemplate attributes scheme s d r aes) = Ok p -> exists point, public_ecc p = Some (attributes, point);
  context_call s w :
    wp (context_new s) (fun _ _ w' => untouched w w') (fun _ _ _ => False) (untouched w) tt w;
  create_primary_call p : tss_call (tpm_create_primary p) (fun _ _ _ => True);
  create_call parent p auth data :
    tss_call (tpm_create parent p auth data) (fun r _ _ => forall priv pub, r = Ok (priv, pub) ->
      buffer_fits PrivateBuffer priv = true /\ (forall d, data = Some d -> object_secret priv pub = Some d) /\
      (forall a, auth = Some a -> accepts priv pub a) /\
      (forall attributes point, public_ecc p = Some (attributes, point) ->
         exists point', public_ecc pub = Some (attributes, point')));
  load_call parent priv pub :
    tss_call (tpm_load parent priv pub) (fun r _ c' => forall h, r = Ok h -> names c' h = Some (priv, pub));
  flush_call h : tss_call (tpm_flush h) (fun _ _ _ => True);
  unseal_call h :
    tss_call (tpm_unseal h) (fun r c _ => forall b priv pub,
      r = Ok b -> names c h = Some (priv, pub) -> object_secret priv pub = Some b);
  rsa_encrypt_call h m :
    tss_call (tpm_rsa_encrypt h m) (fun r c _ => forall ct priv pub,
      r = Ok ct -> names c h = Some (priv, pub) -> rsa_plaintext priv pub ct = Some m);
  rsa_decrypt_call h ct :
    tss_call (tpm_rsa_decrypt h ct) (fun r c _ => forall m priv pub,
      r = Ok m -> names c h = Some (priv, pub) -> rsa_plaintext priv pub ct = Some m);
  set_auth_call h a :
    tss_call (tpm_set_auth h a) (fun r c c' => r = Ok tt -> names c' h = names c h /\ authorized c' h = Some a);
  sign_call h digest :
    tss_call (tpm_sign h digest) (fun r c _ => forall s priv pub attributes point,
      r = Ok s -> names c h = Some (priv, pub) -> public_ecc pub = Some (attributes, point) ->
      user_with_auth attributes = true -> exists a, authorized c h = Some a /\ accepts priv pub a);
  property_call t : tss_call (tpm_property t) (fun _ _ _ => True);
}.

(** ** The handles of a context

    Every acquired handle has to be flushed again: the slots of the TPM are few.
    [traced T] is the TPM [T] with a record of the handles that were acquired and
    flushed. *)

Section Traced.
Context (T : Tss).

Definition all_valid (h : KeyHandle) : bool := true.

Definition traced : Tss := {|
  TssError := TssError;
  TpmContext := TpmContext * list HandleEvent;
  TpmPublic := TpmPublic;
  tss_code := tss_code;
  tss_kind := tss_kind;
  build_attributes := build_attributes;
  build_public := build_public;
  buffer_fits := buffer_fits;
  public_marshall := public_marshall;
  public_unmarshall := public_unmarshall;
  public_ecc := public_ecc;
  hashcheck_ticket := hashcheck_ticket;
  tcti_valid := tcti_valid;
  context_new s := r ← context_new s; mret (c ← r; Ok (c, []));
  tpm_create_primary p := noting (acquired all_valid) [] (tpm_create_primary p);
  tpm_create h p auth data := silent (tpm_create h p auth data);
  tpm_load h priv pub := noting (acquired all_valid) [] (tpm_load h priv pub);
  tpm_flush h := noting (fun _ => [Released h]) [Released h] (tpm_flush h);
  tpm_unseal h := silent (tpm_unseal h);
  tpm_rsa_encrypt h m := silent (tpm_rsa_encrypt h m);
  tpm_rsa_decrypt h m := silent (tpm_rsa_decrypt h m);
  tpm_set_auth h a := silent (tpm_set_auth h a);
  tpm_sign h digest := silent (tpm_sign h digest);
  tpm_property t := silent (tpm_property t);
|}.

Lemma balanced_with_flush room {A} (acquire : M (TpmContext * list HandleEvent) KeyHandle)
    (body : KeyHandle -> M (TpmContext * list HandleEvent) A) :
  acquires all_valid acquire -> (forall h, balanced room (body h)) ->
  balanced (S room) (h ← acquire; with_flush (T := traced) h (body h)).
Proof. intros Ha Hb. apply (balanced_held all_valid); [done|done|]. intros h. apply notes_noting. Qed.
End Traced.

Ltac silent_call := idtac;
  match goal with
  | |- balanced _ (tss _) => unfold tss
  | |- balanced _ (@tpm_create (traced _) _ _ _ _) => apply balanced_silent
  | |- balanced _ (@tpm_unseal (traced _) _) => apply balanced_silent
  | |- balanced _ (@tpm_rsa_encrypt (traced _) _ _) => apply balanced_silent
  | |- balanced _ (@tpm_rsa_decrypt (traced _) _ _) => apply balanced_silent
  | |- balanced _ (@tpm_set_auth (traced _) _ _) => apply balanced_silent
  | |- balanced _ (@tpm_sign (traced _) _ _) => apply balanced_silent
  | |- balanced _ (@tpm_property (traced _) _) => apply balanced_silent
  end.
Ltac balanced_tac := balanced_with silent_call.

(** The parent key takes one slot more than the block around which it is held. *)
Lemma balanced_with_parent (T : Tss) room {A} (body : KeyHandle -> M (TpmContext * list HandleEvent) A) :
  (forall h, balanced room (body h)) -> balanced (S room) (with_parent (T := traced T) body).
Proof.
  intros Hb. unfold with_parent. apply (balanced_with_flush T); [|done].
  unfold create_parent. apply acquires_lift_bind. intros attributes. apply acquires_lift_bind. intros public.
  apply (acquires_call all_valid (@tpm_create_primary T public) (@from_tss T _)); [|done]. by intros r h ?%map_err_Ok.
Qed.

(** ** Rules for the calls of a lawful TPM *)

Section Laws.
Context `{T : Tss, TL : !TssLaws, HE : HostEnv}.

(** A call, with its two outcomes. *)
Lemma wp_tss {A} (m : M TpmContext (Result TssError A)) (P : Result TssError A -> TpmContext -> TpmContext -> Prop)
    (Q : A -> TpmContext -> World -> Prop) (E : FcpError -> TpmContext -> World -> Prop) (C : World -> Prop) c w :
  tss_call m P ->
  (forall a c' w', untouched w w' -> P (Ok a) c c' -> Q a c' w') ->
  (forall e c' w', untouched w w' -> E (Tpm (tss_code e)) c' w') ->
  (forall w', untouched w w' -> C w') ->
  wp (tss m) Q E C c w.
Proof.
  intros Hm HQ HE' HC. unfold tss. apply wp_bind. eapply wp_mono; [apply Hm|cbn beta..]; [|done|done].
  intros [a|e] c' w' [Hu HP]; apply wp_lift; cbn; [by apply HQ|by apply HE'].
Qed.

Lemma calm_call {A} (m : M TpmContext A) P : tss_call m P -> calm m.
Proof.
  intros Hm c w. eapply wp_mono; [apply Hm|cbn beta..]; [|done|done]. by intros a c' w' [Hu _].
Qed.

Lemma calm_tss {A} (m : M TpmContext (Result TssError A)) P : tss_call m P -> calm (tss m).
Proof. intros Hm. apply calm_bind; [by eapply calm_call|]. intros r. apply calm_lift. Qed.

Lemma calm_open_context : calm open_context.
Proof using TL.
  unfold open_context. apply calm_bind; [apply calm_guard|]. intros _. apply calm_bind; [apply calm_guard|]. intros _.
  apply calm_bind; [|intros; apply calm_lift]. intros [] w. eapply wp_mono; [apply context_call|..]; done.
Qed.

Lemma calm_in_opened {A} opened (m : M TpmContext A) : calm opened -> calm m -> calm (in_opened opened m).
Proof using Type.
  intros Ho Hm. apply calm_bind; [done|]. intros c.
  apply calm_bind; [by apply calm_with_local|]. intros r. apply calm_lift.
Qed.
Lemma calm_in_context {A} (m : M TpmContext A) : calm m -> calm (in_context m).
Proof using TL. apply calm_in_opened, calm_open_context. Qed.

Lemma calm_with_flush {A} h (body : M TpmContext A) : calm body -> calm (with_flush h body).
Proof using TL.
  intros Hb. apply calm_bind; [by apply calm_try|]. intros r.
  apply calm_bind; [eapply calm_call, flush_call|]. intros _. apply calm_lift.
Qed.

Lemma calm_create_parent : calm create_parent.
Proof using TL.
  unfold create_parent. apply calm_bind; [apply calm_lift|]. intros a. apply calm_bind; [apply calm_lift|]. intros p.
  eapply calm_tss, create_primary_call.
Qed.

Lemma calm_with_parent {A} (body : KeyHandle -> M TpmContext A) : (forall h, calm (body h)) -> calm (with_parent body).
Proof using TL. intros Hb. apply calm_bind; [apply calm_create_parent|]. intros h. apply calm_with_flush, Hb. Qed.

(** The TPM can be opened with this configuration. *)
Definition tcti_accepted : Prop := starts_with "device:" tcti_conf = true /\ tcti_valid tcti_conf = true.

Definition tpm_error (e : FcpError) : Prop := exists code, e = Tpm code.

(** A block around which only the TPM can fail: its own result and error, or an
    error of the TPM. *)
Lemma wp_with_flush {A} h (body : M TpmContext A) (Q : A -> World -> Prop) (E : FcpError -> World -> Prop) (C : World -> Prop) c w :
  (forall a w1 w2, untouched w1 w2 -> Q a w1 -> Q a w2) -> (forall e w1 w2, untouched w1 w2 -> E e w1 -> E e w2) ->
  (forall a w1 w2, untouched w1 w2 -> Q a w1 -> C w2) -> (forall e w1 w2, untouched w1 w2 -> E e w1 -> C w2) ->
  wp body (fun a _ => Q a) (fun e _ => E e) C c w ->
  wp (with_flush h body) (fun a _ => Q a) (fun e _ => E e) C c w.
Proof using TL.
  intros HQ HE' HQC HEC Hb. unfold with_flush. apply wp_bind, wp_try. eapply wp_mono; [exact Hb|cbn beta..]; [| |done].
  - intros a c1 w1 H1. apply wp_bind. eapply wp_mono; [apply flush_call|cbn beta..]; [|done|].
    + intros _ c2 w2 [H2 _]. apply wp_ret. by eapply HQ.
    + intros w2 H2. by eapply HQC.
  - intros e c1 w1 H1. apply wp_bind. eapply wp_mono; [apply flush_call|cbn beta..]; [|done|].
    + intros _ c2 w2 [H2 _]. apply wp_throw. by eapply HE'.
    + intros w2 H2. by eapply HEC.
Qed.

(** The same around a parent key. [Q] and [E] may not mention more of the world
    than its file system. *)
Lemma wp_with_parent {A} (body : KeyHandle -> M TpmContext A) (Q : A -> World -> Prop) (E : FcpError -> World -> Prop) (C : World -> Prop) c w :
  (forall a w1 w2, untouched w1 w2 -> Q a w1 -> Q a w2) -> (forall e w1 w2, untouched w1 w2 -> E e w1 -> E e w2) ->
  (forall a w1 w2, untouched w1 w2 -> Q a w1 -> C w2) -> (forall e w1 w2, untouched w1 w2 -> E e w1 -> C w2) ->
  (forall code w', untouched w w' -> E (Tpm code) w') -> (forall w', untouched w w' -> C w') ->
  (forall h c' w', untouched w w' -> wp (body h) (fun a _ => Q a) (fun e _ => E e) C c' w') ->
  wp (with_parent body) (fun a _ => Q a) (fun e _ => E e) C c w.
Proof using TL.
  intros HQ HE' HQC HEC HT HC Hb. unfold with_parent, create_parent. repeat (apply wp_bind).
  apply wp_lift. unfold from_tss at 1. destruct (build_attributes _) as [att|e]; cbn [map_err]; [|by apply HT].
  apply wp_bind, wp_lift. unfold from_tss at 1. destruct (build_public _) as [pub|e]; cbn [map_err]; [|by apply HT].
  eapply wp_tss; [apply create_primary_call| | |].
  - intros h c' w' Hu _. apply wp_with_flush; auto.
  - intros e c' w' Hu. by apply HT.
  - done.
Qed.

Lemma wp_in_context {A} (m : M TpmContext A) (Q : A -> unit -> World -> Prop) (E : FcpError -> unit -> World -> Prop) (C : World -> Prop) w :
  (tcti_accepted -> forall c w', untouched w w' -> wp m (fun a _ => Q a tt) (fun e _ => E e tt) C c w') ->
  (~ tcti_accepted -> forall message, E (Crypto message) tt w) ->
  (forall code w', untouched w w' -> E (Tpm code) tt w') -> (forall w', untouched w w' -> C w') ->
  wp (in_context m) Q E C tt w.
Proof using TL.
  intros Hm Hno HT HC. unfold in_context, in_opened, open_context, tcti_accepted in *. repeat (apply wp_bind).
  apply wp_guard_not. destruct (starts_with "device:" tcti_conf); cbn [negb]; [|by apply Hno; intros []].
  apply wp_bind, wp_guard_not. destruct (tcti_valid tcti_conf); cbn [negb]; [|by apply Hno; intros []].
  unfold tss. apply wp_bind. eapply wp_mono; [apply context_call|cbn beta..]; [|done|done].
  intros [c|e] [] w' Hu; apply wp_lift; cbn; [|by apply HT].
  apply wp_bind, wp_with_local. eapply wp_mono; [by apply Hm|cbn beta..]; [| |done].
  - intros a c' w1 H1. by apply wp_ret.
  - intros e c' w1 H1. by apply wp_throw.
Qed.
End Laws.

#[export] Hint Resolve calm_open_context calm_in_context calm_with_flush calm_create_parent calm_with_parent : calm.

#[export] Hint Extern 1 (calm (tss _)) => eapply calm_tss; first [apply create_primary_call | apply create_call
  | apply load_call | apply unseal_call | apply rsa_encrypt_call | apply rsa_decrypt_call | apply set_auth_call
  | apply sign_call | apply property_call] : calm.
#[export] Hint Extern 1 (calm (with_flush _ _)) => apply calm_with_flush; calm_tac : calm.
#[export] Hint Extern 1 (calm (with_parent _)) => apply calm_with_parent; intros ?; calm_tac : calm.
#[export] Hint Extern 1 (calm (in_context _)) => apply calm_in_context; calm_tac : calm.

(** ** Frames around a block *)

Section FramedTpm.
Context `{T : Tss, TL : !TssLaws, HE : HostEnv} (own : Path -> Prop).

Lemma framed_with_parent {A} (body : KeyHandle -> M TpmContext A) :
  (forall h, framed own (body h)) -> framed own (with_parent body).
Proof using TL.
  intros Hb. apply framed_bind; [apply calm_framed, calm_create_parent|]. intros h.
  apply framed_bind; [apply framed_try, Hb|]. intros r.
  apply framed_bind; [eapply calm_framed, calm_call, flush_call|]. intros _. apply calm_framed, calm_lift.
Qed.

Lemma framed_in_opened {A} opened (m : M TpmContext A) : calm opened -> framed own m -> framed own (in_opened opened m).
Proof using Type.
  intros Ho Hm. apply framed_bind; [by apply calm_framed|]. intros c.
  apply framed_bind; [by apply framed_with_local|]. intros r. apply calm_framed, calm_lift.
Qed.
Lemma framed_in_context {A} (m : M TpmContext A) : framed own m -> framed own (in_context m).
Proof using TL. apply framed_in_opened, calm_open_context. Qed.
End FramedTpm.

(** ** A TPM for the examples

    It keeps nothing secret: an object's private area is the data, the
    authorization value or nothing; a public area is its attributes when it is an
    ECC key; a ciphertext is the message, padded. *)
Record ToyContext := mkToy {
  toy_next : N;
  toy_names : gmap N (bytes * option ObjectAttributes);
  toy_authorized : gmap N bytes;
}.

Definition flag (b : bool) : byte := if b then Byte.x01 else Byte.x00.
Definition unflag (b : byte) : bool := match b with Byte.x00 => false | _ => true end.

Definition toy_marshall (p : option ObjectAttributes) : bytes :=
  match p with
  | None => []
  | Some a => [flag (fixed_tpm a); flag (fixed_parent a); flag (sensitive_data_origin a); flag (user_with_auth a);
               flag (restricted a); flag (decrypt a); flag (sign_encrypt a); flag (no_da a)]
  end.

Definition toy_unmarshall (b : bytes) : Result N (option ObjectAttributes) :=
  match b with
  | [] => Ok None
  | [a; b; c; d; e; f; g; h] =>
      Ok (Some (mkAttributes (unflag a) (unflag b) (unflag c) (unflag d) (unflag e) (unflag f) (unflag g) (unflag h)))
  | _ => Err 1
  end.

Definition toy_load (private : bytes) (public : option ObjectAttributes) : M ToyContext (Result N KeyHandle) := fun c w =>
  Done (Ok (toy_next c)) (mkToy (toy_next c + 1) (<[toy_next c := (private, public)]> (toy_names c)) (toy_authorized c)) w.

Definition toy_sign (h : KeyHandle) (digest : bytes) : M ToyContext (Result N (option (bytes * bytes))) := fun c w =>
  match toy_names c !! h, toy_authorized c !! h with
  | Some (private, _), Some a => Done (if bool_decide (a = private) then Ok (Some (digest, digest)) else Err 2) c w
  | _, _ => Done (Err 3) c w
  end.

Definition toy_private (auth data : option bytes) : option bytes :=
  match auth, data with Some a, None => Some a | None, Some d => Some d | None, None => Some [] | Some _, Some _ => None end.

Definition toy_tss : Tss := {|
  TssError := N;
  TpmContext := ToyContext;
  TpmPublic := option ObjectAttributes;
  tss_code e := e;
  tss_kind e := if e =? 2 then Some AuthFail else None;
  build_attributes a := Ok a;
  build_public t := Ok (match t with EccTemplate a _ _ _ _ _ => Some a | _ => None end);
  buffer_fits _ b := len b <=? 256;
  public_marshall p := Ok (toy_marshall p);
  public_unmarshall := toy_unmarshall;
  public_ecc p := a ← p; Some (a, ([Byte.x01], [Byte.x02]));
  hashcheck_ticket := Ok tt;
  tcti_valid _ := true;
  context_new _ := mret (Ok (mkToy 1 ∅ ∅));
  tpm_create_primary p := toy_load [] p;
  tpm_create _ p auth data := mret match toy_private auth data with
                                    | Some private => if len private <=? 256 then Ok (private, p) else Err 4
                                    | None => Err 6
                                    end;
  tpm_load _ private public := toy_load private public;
  tpm_flush h := fun c w => Done (Ok tt) (mkToy (toy_next c) (delete h (toy_names c)) (toy_authorized c)) w;
  tpm_unseal h := fun c w => Done (match toy_names c !! h with Some (private, _) => Ok private | None => Err 3 end) c w;
  tpm_rsa_encrypt _ m := mret (if (length m =? 32)%nat then Ok (m ++ replicate 224 Byte.x00) else Err 5);
  tpm_rsa_decrypt _ ct := mret (Ok (take 32 ct));
  tpm_set_auth h a := fun c w => Done (Ok tt) (mkToy (toy_next c) (toy_names c) (<[h := a]> (toy_authorized c))) w;
  tpm_sign := toy_sign;
  tpm_property t := mret (Ok (Some (match t with LockoutCounter => 1 | MaxAuthFail => 3 end)));
|}.

Definition toy_tss_laws : @TssLaws toy_tss.
Proof.
  refine (@Build_TssLaws toy_tss
    (fun private _ => Some private) (fun _ _ ct => Some (take 32 ct)) (fun private _ a => a = private)
    (fun c h => toy_names c !! h) (fun c h => toy_authorized c !! h)
    _ _ _ _ _ _ _ _ _ _ _ _ _ _).
  - intros p b [= <-]. by destruct p as [[[] [] [] [] [] [] [] []]|].
  - by intros a b [= <-].
  - intros a ? ? ? ? ? p [= <-]. by eexists.
  - done.
  - by intros p c w.
  - intros parent p auth data c w. split; [done|]. intros priv pub.
    destruct (toy_private auth data) as [private|] eqn:Hp; [|done]. destruct (N.leb_spec (len private) 256); [|done].
    intros [= <- <-]. split_and!; [by apply N.leb_le| | |eauto].
    + intros d ->. by destruct auth; [|injection Hp as ->].
    + intros a ->. by destruct data; [|injection Hp as ->].
  - intros parent priv pub c w. split; [done|]. intros h [= <-]. cbn. by rewrite lookup_insert_eq.
  - by intros h c w.
  - intros h c w. split; [done|]. intros b priv pub. cbn. by destruct (toy_names c !! h) as [[]|]; intros [= ->] [= <- <-].
  - intros h m c w. split; [done|]. intros ct priv pub. destruct (Nat.eqb_spec (length m) 32); [|done]. intros [= <-] _.
    rewrite <- e at 1. by rewrite take_length_app.
  - intros h ct c w. split; [done|]. by intros m priv pub [= <-] _.
  - intros h a c w. split; [done|]. intros _. cbn. by rewrite lookup_insert_eq.
  - intros h digest c w. unfold wp. cbn -[untouched]. unfold toy_sign.
    destruct (toy_names c !! h) as [[priv pub]|] eqn:Hn; [|done].
    destruct (toy_authorized c !! h) as [a|] eqn:Ha; [|done]. split; [done|].
    intros s priv' pub' attributes point Hs [= <- <-] _ _. case_bool_decide; [|done]. eauto.
  - by intros t c w.
Defined.
