(* ===== verification/LocalSecretTpm.v ===== *)
(** * local_secret/linux.rs: small secrets sealed to the TPM

    [protect] seals the bytes in a keyed-hash object and returns the object's two
    areas in a frame; [unprotect] takes the frame apart, loads the object and
    unseals it. The two implement the interface [LocalSecret]. *)

From S2P Require Import Prelude World External Nodes Frames Tpm.

(** ** The frame of the blob *)

Definition MAGIC : bytes := list_byte_of_string "FVS1".

(** [encode]. *)
Definition encode_blob (public private : bytes) : FcpResult bytes :=
  _ ← guard_err (u16_max <? len public) (Crypto "sealed public area is too large to frame");
  _ ← guard_err (u16_max <? len private) (Crypto "sealed private area is too large to frame");
  Ok (MAGIC ++ le_bytes 2 (len public) ++ public ++ le_bytes 2 (len private) ++ private).

(** [take_field]: [split_at_checked], twice. *)
Definition split_at_checked (n : nat) (b : bytes) : option (bytes * bytes) :=
  if (n <=? length b)%nat then Some (take n b, drop n b) else None.

Definition take_field (b : bytes) : option (bytes * bytes) :=
  '(length, rest) ← split_at_checked 2 b;
  split_at_checked (N.to_nat (le_value length)) rest.

(** [<[u8]>::strip_prefix]. *)
Definition strip_magic (b : bytes) : option bytes :=
  if bool_decide (take (length MAGIC) b = MAGIC) then Some (drop (length MAGIC) b) else None.

(** [decode]. *)
Definition malformed : FcpError := Crypto "sealed secret is malformed".

Definition decode_blob (b : bytes) : FcpResult (bytes * bytes) :=
  rest ← ok_or (strip_magic b) malformed;
  '(public, rest) ← ok_or (take_field rest) malformed;
  '(private, rest) ← ok_or (take_field rest) malformed;
  _ ← guard_err (negb (bool_decide (rest = []))) malformed;
  Ok (public, private).

Section Backend.
Context `{T : Tss, HE : HostEnv}.

(** [sealed_template]. *)
Definition sealed_attributes : ObjectAttributes :=
  mkAttributes true true false true false false false true.

Definition sealed_template : FcpResult TpmPublic :=
  attributes ← from_tss (build_attributes sealed_attributes);
  from_tss (build_public (KeyedHashTemplate attributes)).

(** The closure of [protect], and [protect]. *)
Definition seal_under (data : bytes) (parent : KeyHandle) : M TpmContext bytes :=
  template ← lift sealed_template;
  created ← tss (tpm_create parent template None (Some data));
  public ← lift (from_tss (public_marshall (snd (created : bytes * TpmPublic))));
  lift (encode_blob public created.1).

Definition tpm_protect (plaintext : bytes) : IO bytes :=
  data ← lift (tpm_buffer SensitiveBuffer plaintext (Crypto "secret is too large to seal"));
  in_context (with_parent (seal_under data)).

(** The closure of [unprotect], and [unprotect]. *)
Definition unseal_under (private : bytes) (public : TpmPublic) (parent : KeyHandle) : M TpmContext bytes :=
  handle ← tss (tpm_load parent private public);
  with_flush handle (tss (tpm_unseal handle)).

Definition tpm_unprotect (ciphertext : bytes) : IO bytes :=
  '(public_bytes, private_bytes) ← lift (decode_blob ciphertext);
  public ← lift (map_err (fun _ => Crypto "sealed secret has a malformed public area") (public_unmarshall public_bytes));
  private ← lift (tpm_buffer PrivateBuffer private_bytes (Crypto "sealed secret has a malformed private area"));
  in_context (with_parent (unseal_under private public)).

#[export] Instance tpm_local_secret : LocalSecret := {| protect := tpm_protect; unprotect := tpm_unprotect |}.
End Backend.

(** ** The frame *)

Lemma split_at_checked_app (b rest : bytes) n : n = length b -> split_at_checked n (b ++ rest) = Some (b, rest).
Proof.
  intros ->. unfold split_at_checked. rewrite length_app.
  destruct (Nat.leb_spec (length b) (length b + length rest)); [|lia].
  by rewrite take_length_app, drop_length_app.
Qed.

Lemma split_at_checked_Some n b f rest : split_at_checked n b = Some (f, rest) -> b = f ++ rest /\ length f = n.
Proof.
  unfold split_at_checked. destruct (Nat.leb_spec n (length b)); [|done]. intros [= <- <-].
  by rewrite take_drop, length_take, Nat.min_l.
Qed.

Lemma take_field_app f rest : len f <= u16_max -> take_field (le_bytes 2 (len f) ++ f ++ rest) = Some (f, rest).
Proof.
  intros Hf. unfold take_field. rewrite split_at_checked_app by (by rewrite length_le_bytes). cbn [mbind option_bind].
  rewrite le_value_le_bytes by (unfold u16_max in Hf; lia). apply split_at_checked_app. unfold len. lia.
Qed.

Lemma take_field_Some b f rest :
  take_field b = Some (f, rest) -> b = le_bytes 2 (len f) ++ f ++ rest /\ len f <= u16_max.
Proof.
  unfold take_field. destruct (split_at_checked 2 b) as [[l r]|] eqn:E1; [|done]. cbn [mbind option_bind].
  intros E2. apply split_at_checked_Some in E1 as [-> Hl]. apply split_at_checked_Some in E2 as [-> Hf].
  assert (Hlen : len f = le_value l) by (unfold len; lia).
  pose proof (le_value_bound l) as Hb. unfold len in Hb at 1. rewrite Hl in Hb. rewrite Hlen. split.
  - rewrite <- Hl at 1. by rewrite le_bytes_le_value.
  - unfold u16_max. lia.
Qed.

Lemma strip_magic_app b : strip_magic (MAGIC ++ b) = Some b.
Proof. unfold strip_magic. by rewrite take_length_app, bool_decide_true, drop_length_app. Qed.

Lemma encode_decodes public private b : encode_blob public private = Ok b -> decode_blob b = Ok (public, private).
Proof.
  unfold encode_blob. intros H. res_inv H. bool_to_prop.
  assert (b = MAGIC ++ le_bytes 2 (len public) ++ public ++ le_bytes 2 (len private) ++ private) as -> by congruence.
  unfold decode_blob. rewrite strip_magic_app. cbn [ok_or mbind result_bind]. rewrite take_field_app by lia. cbn [ok_or mbind result_bind].
  rewrite <- (app_nil_r private) at 2. rewrite take_field_app by lia. reflexivity.
Qed.

Lemma decode_encodes public private b : decode_blob b = Ok (public, private) -> encode_blob public private = Ok b.
Proof.
  unfold decode_blob. intros H. res_inv H. destruct r0 as [pub r1]. res_inv H. destruct r0 as [priv r2].
  res_inv H. bool_to_prop. injection H as -> ->. subst r2.
  apply take_field_Some in Hr0 as [-> H1]. apply take_field_Some in Hr1 as [-> H2]. rewrite app_nil_r in Hr.
  unfold strip_magic in Hr. case_bool_decide as Hm; [|done]. injection Hr as Hd.
  unfold encode_blob, guard_err.
  destruct (N.ltb_spec u16_max (len public)); [lia|]. destruct (N.ltb_spec u16_max (len private)); [lia|].
  cbn [mbind result_bind]. f_equal. rewrite <- Hd, <- Hm at 1. by rewrite take_drop.
Qed.

(** The frame of a sealed secret is exact: what [encode] frames, [decode] takes
    apart again, and [decode] accepts nothing but what [encode] makes of the two
    areas; so a blob of another format, a short or a long one is refused. *)
Theorem blob_codec public private b :
  decode_blob b = Ok (public, private) <-> encode_blob public private = Ok b.
Proof.
  split; intros H; [by apply decode_encodes|by apply encode_decodes].
Qed.

(** ** The interface [LocalSecret] *)

Section Laws.
Context `{T : Tss, TL : !TssLaws, HE : HostEnv}.

Lemma calm_protect b : calm (tpm_protect b).
Proof using TL. unfold tpm_protect, seal_under. calm_tac. Qed.

Lemma calm_unprotect b : calm (tpm_unprotect b).
Proof using TL. unfold tpm_unprotect, unseal_under. calm_tac. Qed.

Lemma tpm_local_secret_laws : LocalSecretLaws.
Proof using TL. split; intros; apply calm_untouched; [apply calm_protect|apply calm_unprotect]. Qed.

(** What a sealed blob holds. *)
Definition sealed_blob (plaintext blob : bytes) : Prop :=
  exists private public public_bytes,
    public_marshall public = Ok public_bytes /\ encode_blob public_bytes private = Ok blob /\
    buffer_fits PrivateBuffer private = true /\ object_secret private public = Some plaintext.

Lemma wp_protect plaintext w :
  wp (tpm_protect plaintext) (fun blob _ w' => sealed_blob plaintext blob /\ tcti_accepted) (fun _ _ _ => True)
    (fun _ => True) tt w.
Proof using TL.
  unfold tpm_protect. apply wp_bind, wp_lift. unfold tpm_buffer. destruct (buffer_fits _ _); [|done].
  apply wp_in_context; [|done..]. intros Ht c w1 _.
  apply (wp_with_parent _ (fun blob _ => sealed_blob plaintext blob /\ tcti_accepted) (fun _ _ => True)); [done..|].
  intros parent c1 w2 _. unfold seal_under. apply wp_bind, wp_lift.
  destruct sealed_template as [template|e]; [|done].
  apply wp_bind. eapply wp_tss; [apply create_call| |done|done]. intros [priv pub] c2 w3 _ Hc.
  destruct (Hc _ _ eq_refl) as (Hfit & Hsec & _). apply wp_bind, wp_lift. cbn [fst snd].
  destruct (public_marshall pub) as [pb|e] eqn:Hpb; cbn [from_tss map_err]; [|done].
  apply wp_lift. destruct (encode_blob pb priv) as [blob|e] eqn:Hb; [|done].
  split; [|done]. exists priv, pub, pb. split_and!; [done..|by apply Hsec].
Qed.

Lemma wp_unprotect plaintext blob w :
  sealed_blob plaintext blob -> tcti_accepted ->
  wp (tpm_unprotect blob) (fun b _ w' => b = plaintext) (fun e _ _ => tpm_error e) (fun _ => True) tt w.
Proof using TL.
  intros (priv & pub & pb & Hpb & Hblob & Hfit & Hsec) Ht. unfold tpm_unprotect.
  rewrite (encode_decodes _ _ _ Hblob). apply wp_bind, wp_lift, wp_bind, wp_lift.
  rewrite (unmarshall_marshall _ _ Hpb). apply wp_bind, wp_lift. unfold tpm_buffer. rewrite Hfit.
  apply wp_in_context; [|done|by eexists|done]. intros _ c w1 _.
  apply (wp_with_parent _ (fun b _ => b = plaintext) (fun e _ => tpm_error e)); [done..|by eexists|done|].
  intros parent c1 w2 _. unfold unseal_under. apply wp_bind.
  eapply wp_tss; [apply load_call| |by eexists|done]. intros h c2 w3 _ Hn.
  apply (wp_with_flush _ _ (fun b _ => b = plaintext) (fun e _ => tpm_error e)); [done..|].
  eapply wp_tss; [apply unseal_call| |by eexists|done]. intros b c3 w4 _ Hb.
  specialize (Hb _ _ _ eq_refl (Hn _ eq_refl)). congruence.
Qed.
End Laws.

(** What was protected is what unprotecting returns: whenever [protect] gave a
    blob for a secret, [unprotect] of the blob, in any later state of the host,
    returns that secret and changes no file, or fails with an error of the TPM;
    it never takes its own blob for a malformed one, and never answers other
    bytes. *)
Theorem secret_round_trip `{T : Tss, TL : !TssLaws, HE : HostEnv} plaintext blob w w1 w2 :
  tpm_protect plaintext tt w = Done blob tt w1 ->
  wp (tpm_unprotect blob) (fun b _ w3 => b = plaintext /\ untouched w2 w3)
    (fun e _ w3 => tpm_error e /\ untouched w2 w3) (untouched w2) tt w2.
Proof.
  intros Hrun. pose proof (wp_protect plaintext w) as Hp. unfold wp in Hp. rewrite Hrun in Hp. destruct Hp as [Hs Ht].
  eapply wp_mono; [eapply wp_and; [by apply wp_unprotect|apply calm_unprotect]|..]; cbn beta; tauto.
Qed.

(** ** Examples *)

#[local] Instance example_env : HostEnv := {| env_tcti := None; env_wayland := false; env_display := false |}.

Definition example_world : World :=
  mkWorld {[ [] := Dir ]} 0 (mkEnv (fun _ => NoFault) (fun n => N.of_nat n) (fun _ => 1700000000000)).

Definition example_blob : bytes :=
  MAGIC ++ [Byte.x00; Byte.x00; Byte.x02; Byte.x00; Byte.x2a; Byte.x2b].

Lemma secret_round_trip_witness :
  wp (@tpm_unprotect toy_tss example_env example_blob)
    (fun b _ w3 => b = [Byte.x2a; Byte.x2b] /\ untouched example_world w3)
    (fun e _ w3 => tpm_error e /\ untouched example_world w3) (untouched example_world) tt example_world.
Proof.
  apply (@secret_round_trip toy_tss toy_tss_laws example_env [Byte.x2a; Byte.x2b] example_blob example_world example_world).
  vm_compute. reflexivity.
Defined.
