(* ===== verification/KekTpm.v ===== *)
(** * crypto/platform_kek/linux.rs: the key-encryption key in the TPM

    The key is created under a parent that is recreated for every use; its two
    areas are kept in a file of the profile. The backend implements the interface
    [KekBackend]. Buffers are wiped after use; that is not modelled. *)

From S2P Require Import Prelude World External Examples AtomicFile Nodes Config Messages VaultFormat AuditLog Webauthn Frames Tpm.

Record KeyBlobs := mkKeyBlobs { kb_version : N; kb_private_hex : string; kb_public_hex : string }.

Definition RSA_BITS : N := 2048.

(** [hex], and [unhex] on the bytes of the text, pair by pair. *)
Definition hex (b : bytes) : string := encode_hex b.

Fixpoint unhex_pairs (b : bytes) : FcpResult bytes :=
  match b with
  | a :: c :: rest =>
      _ ← guard_err (negb (is_utf8 [a; c])) (Format "KEK blob hex is not ASCII");
      x ← ok_or (radix16 a c) (Format "KEK blob hex is malformed");
      tail ← unhex_pairs rest;
      Ok (u8_of_N x :: tail)
  | _ => Ok []
  end.

Definition unhex (text : string) : FcpResult bytes :=
  _ ← guard_err (negb (str_len text mod 2 =? 0)) (Format "KEK blob hex has odd length");
  unhex_pairs (list_byte_of_string text).

(** [invalid]. *)
Definition invalid (part : string) : FcpError :=
  if String.eqb part "private area" then Format "stored KEK private area is malformed"
  else Format "stored KEK public area is malformed".

Section Backend.
Context `{T : Tss, HE : HostEnv, JK : Serde KeyBlobs}.

(** [rsa_key_bits], and [kek_template] with its attributes. *)
Definition rsa_key_bits : FcpResult N :=
  if RSA_BITS =? 2048 then Ok 2048 else Err (Crypto "unsupported KEK modulus size").

Definition kek_attributes : ObjectAttributes := mkAttributes true true true true false true false true.

Definition kek_template : FcpResult TpmPublic :=
  attributes ← from_tss (build_attributes kek_attributes);
  bits ← rsa_key_bits;
  from_tss (build_public (RsaOaepTemplate attributes bits false true false)).

(** The closure of [create], and [create]. *)
Definition verify_blobs (blobs : KeyBlobs) (persisted : bytes) : FcpResult unit :=
  parsed ← from_slice persisted;
  guard_err (negb (String.eqb (kb_private_hex parsed) (kb_private_hex blobs))
             || negb (String.eqb (kb_public_hex parsed) (kb_public_hex blobs)))
    (Format "KEK blobs failed to round-trip").

Definition create_under (key_path : Path) (parent : KeyHandle) : M TpmContext unit :=
  template ← lift kek_template;
  created ← tss (tpm_create parent template None None);
  public ← lift (from_tss (public_marshall (snd (created : bytes * TpmPublic))));
  let blobs := mkKeyBlobs 1 (hex created.1) (hex public) in
  b ← lift (to_vec blobs);
  io (write_verified key_path b (fun persisted => lift (verify_blobs blobs persisted))).

Definition create_key (key_path : Path) : IO unit := in_context (with_parent (create_under key_path)).

(** [with_key]: the stored areas, and the block around which the key is loaded. *)
Definition stored_areas (blobs : KeyBlobs) : FcpResult (bytes * TpmPublic) :=
  _ ← guard_err (negb (kb_version blobs =? 1)) (Format "unsupported KEK blob version");
  private_bytes ← unhex (kb_private_hex blobs);
  private ← tpm_buffer PrivateBuffer private_bytes (invalid "private area");
  public_bytes ← unhex (kb_public_hex blobs);
  public ← map_err (fun _ => invalid "public area") (public_unmarshall public_bytes);
  Ok (private, public).

Definition use_key {A} (areas : bytes * TpmPublic) (operation : KeyHandle -> M TpmContext A) (parent : KeyHandle)
    : M TpmContext A :=
  key ← tss (tpm_load parent areas.1 areas.2);
  with_flush key (operation key).

Definition with_key {A} (key_path : Path) (operation : KeyHandle -> M TpmContext A) : IO A :=
  content ← fs_read key_path;
  blobs ← lift (from_slice content);
  areas ← lift (stored_areas blobs);
  in_context (with_parent (use_key areas operation)).

(** [ensure_exists]. *)
Definition tpm_ensure_exists (key_path : Path) : IO unit :=
  present ← fs_exists key_path;
  if (present : bool) then with_key key_path (fun _ => mret tt) else create_key key_path.

(** [wrap_dek]. *)
Definition wrap_operation (dek : bytes) (key : KeyHandle) : M TpmContext bytes :=
  message ← lift (tpm_buffer RsaBuffer dek (Crypto "DEK is not a valid RSA input"));
  tss (tpm_rsa_encrypt key message).

Definition tpm_wrap_dek (key_path : Path) (dek : bytes) : IO bytes :=
  wrapped ← with_key key_path (wrap_operation dek);
  _ ← guard_not (negb (len wrapped =? WRAPPED_DEK_BYTES)) (Crypto "RSA-2048 wrapped DEK length is not 256");
  mret wrapped.

(** [unwrap_dek]. *)
Definition unwrap_operation (wrapped : bytes) (key : KeyHandle) : M TpmContext bytes :=
  cipher_text ← lift (tpm_buffer RsaBuffer wrapped (Format "wrapped DEK is not a valid RSA ciphertext"));
  tss (tpm_rsa_decrypt key cipher_text).

Definition tpm_unwrap_dek (key_path : Path) (wrapped : bytes) : IO bytes :=
  _ ← guard_not (negb (len wrapped =? WRAPPED_DEK_BYTES)) (Format "wrapped DEK must be 256 bytes");
  recovered ← with_key key_path (unwrap_operation wrapped);
  _ ← guard_not (negb (len recovered =? DEK_BYTES)) (Crypto "unwrapped DEK length is not 32");
  mret recovered.

Definition tpm_kek : KekBackend := {|
  kek_ensure_exists := tpm_ensure_exists;
  kek_wrap_dek := tpm_wrap_dek;
  kek_unwrap_dek := tpm_unwrap_dek;
|}.
End Backend.

(** ** Hexadecimal text *)

Lemma unhex_hex b : unhex (hex b) = Ok b.
Proof.
  assert (Hd : forall x, exists a c, (forall s, list_byte_of_string (String (hex_digit (N.shiftr (Byte.to_N x) 4))
     (String (hex_digit (N.land (Byte.to_N x) 15)) s)) = a :: c :: list_byte_of_string s) /\
     is_utf8 [a; c] = true /\ exists n, radix16 a c = Some n /\ u8_of_N n = x).
  { intros x. eexists _, _. split; [reflexivity|]. destruct x; (split; [reflexivity|eexists; split; reflexivity]). }
  unfold unhex, hex. rewrite str_len_encode_hex.
  replace (2 * len b mod 2 =? 0) with true by (symmetry; apply N.eqb_eq; rewrite N.mul_comm; by apply N.Div0.mod_mul).
  cbn [negb guard_err mbind result_bind].
  induction b as [|x b IH]; [done|]. cbn [encode_hex]. destruct (Hd x) as (a & c & -> & Hu & n & Hn & Hx).
  cbn [unhex_pairs]. rewrite Hu, Hn, IH. cbn. by rewrite Hx.
Qed.

(** ** The interface [KekBackend] *)

Section Laws.
Context `{T : Tss, TL : !TssLaws, HE : HostEnv, JK : Serde KeyBlobs}.

Lemma calm_use_key {A} areas (operation : KeyHandle -> M TpmContext A) parent :
  (forall h, calm (operation h)) -> calm (use_key areas operation parent).
Proof using TL. intros Ho. unfold use_key. calm_tac. Qed.

Lemma calm_with_key {A} p (operation : KeyHandle -> M TpmContext A) : (forall h, calm (operation h)) -> calm (with_key p operation).
Proof using TL. intros Ho. unfold with_key. calm_tac. apply calm_in_context, calm_with_parent. intros h. by apply calm_use_key. Qed.

Lemma calm_wrap_dek p dek : calm (tpm_wrap_dek p dek).
Proof using TL. unfold tpm_wrap_dek. calm_tac. apply calm_with_key. intros h. unfold wrap_operation. calm_tac. Qed.

Lemma calm_unwrap_dek p b : calm (tpm_unwrap_dek p b).
Proof using TL. unfold tpm_unwrap_dek. calm_tac. apply calm_with_key. intros h. unfold unwrap_operation. calm_tac. Qed.

Lemma kek_files_writer p q : writer_files p q -> kek_files p q.
Proof.
  intros [->|Ht]; [by left|]. right. unfold temporary_path in Ht. destruct (path_file_name p) as [n|]; [|done].
  exists n. by injection Ht as <-.
Qed.

Lemma framed_create_key p : framed (kek_files p) (create_key p).
Proof using TL.
  apply framed_in_context, framed_with_parent. intros parent. unfold create_under.
  apply framed_bind; [apply calm_framed; calm_tac|]. intros template.
  apply framed_bind; [apply calm_framed; calm_tac|]. intros created.
  apply framed_bind; [apply calm_framed; calm_tac|]. intros public.
  apply framed_bind; [apply calm_framed; calm_tac|]. intros b.
  apply framed_io, framed_write_verified, kek_files_writer.
Qed.

Lemma tpm_kek_laws : @KekLaws tpm_kek.
Proof using TL.
  split; cbn; intros; apply framed_frame.
  - unfold tpm_ensure_exists. apply framed_bind; [apply calm_framed, calm_exists|]. intros [].
    + apply calm_framed, calm_with_key. intros h. apply calm_ret.
    + apply framed_create_key.
  - apply calm_framed, calm_wrap_dek.
  - apply calm_framed, calm_unwrap_dek.
Qed.

(** ** What a key file is good for *)

(** The file at [p] holds the areas of a key that the TPM made or has loaded. *)
Definition key_file (p : Path) (areas : bytes * TpmPublic) (w : World) : Prop :=
  exists content blobs, file_at w p = Some content /\ from_slice content = Ok blobs /\ stored_areas blobs = Ok areas.

(** Errors that do not come from the content of the key file. *)
Definition outside_error (e : FcpError) : Prop := tpm_error e \/ exists k, e = Io k.

Lemma wp_with_key {A} p areas (operation : KeyHandle -> M TpmContext A) (Q : A -> Prop) (E : FcpError -> Prop) w :
  key_file p areas w -> tcti_accepted -> (forall e, outside_error e -> E e) ->
  (forall h c w', names c h = Some areas -> wp (operation h) (fun a _ _ => Q a) (fun e _ _ => E e) (fun _ => True) c w') ->
  wp (with_key p operation) (fun a _ _ => Q a) (fun e _ _ => E e) (fun _ => True) tt w.
Proof using TL.
  intros (content & blobs & Hf & Hb & Ha) Ht HE' Ho. unfold with_key. apply wp_bind.
  apply wp_fs_read; [|intros; apply HE'; right; by eexists..|done].
  intros b Hfb. rewrite Hf in Hfb. injection Hfb as <-. rewrite Hb. apply wp_bind, wp_lift, wp_bind, wp_lift.
  rewrite Ha. apply wp_in_context; [|done|intros; apply HE'; left; by eexists|done]. intros _ c w2 _.
  apply (wp_with_parent _ (fun a _ => Q a) (fun e _ => E e)); [done..|intros; apply HE'; left; by eexists|done|].
  intros parent c1 w3 _. unfold use_key. apply wp_bind.
  eapply wp_tss; [apply load_call| |intros; apply HE'; left; by eexists|done]. intros h c2 w4 _ Hn.
  apply (wp_with_flush _ _ (fun a _ => Q a) (fun e _ => E e)); [done..|]. apply Ho. rewrite (Hn _ eq_refl). by destruct areas.
Qed.

Lemma wp_wrap_dek p areas dek w :
  key_file p areas w -> tcti_accepted ->
  wp (tpm_wrap_dek p dek)
     (fun ct _ _ => len ct = WRAPPED_DEK_BYTES /\ rsa_plaintext areas.1 areas.2 ct = Some dek)
     (fun e _ _ => outside_error e \/ e = Crypto "DEK is not a valid RSA input"
                   \/ e = Crypto "RSA-2048 wrapped DEK length is not 256") (fun _ => True) tt w.
Proof using TL.
  intros Hk Ht. unfold tpm_wrap_dek. apply wp_bind.
  eapply wp_mono; [eapply (wp_with_key _ _ _ (fun ct => rsa_plaintext areas.1 areas.2 ct = Some dek)
    (fun e => outside_error e \/ e = Crypto "DEK is not a valid RSA input")); [done..|by left|]|cbn beta..]; [| |tauto|done].
  - intros h c w' Hn. unfold wrap_operation. apply wp_bind, wp_lift. unfold tpm_buffer.
    destruct (buffer_fits _ _); [|by right].
    eapply wp_tss; [apply rsa_encrypt_call| |intros; left; left; by eexists|done].
    intros ct c' w2 _ Hct. rewrite (surjective_pairing areas) in Hn. by apply (Hct ct _ _ eq_refl Hn).
  - intros ct [] w' Hct. apply wp_bind, wp_guard_not. destruct (N.eqb_spec (len ct) WRAPPED_DEK_BYTES); cbn [negb]; [|by right; right].
    by apply wp_ret.
Qed.

Lemma wp_unwrap_dek p areas dek ct w :
  key_file p areas w -> tcti_accepted -> len dek = DEK_BYTES -> len ct = WRAPPED_DEK_BYTES ->
  rsa_plaintext areas.1 areas.2 ct = Some dek ->
  wp (tpm_unwrap_dek p ct) (fun d _ _ => d = dek)
     (fun e _ _ => outside_error e \/ e = Format "wrapped DEK is not a valid RSA ciphertext") (fun _ => True) tt w.
Proof using TL.
  intros Hk Ht Hd Hc Hp. unfold tpm_unwrap_dek. apply wp_bind, wp_guard_not. rewrite Hc, N.eqb_refl. cbn [negb].
  apply wp_bind. eapply wp_mono; [eapply (wp_with_key _ _ _ (fun d => d = dek)
    (fun e => outside_error e \/ e = Format "wrapped DEK is not a valid RSA ciphertext")); [done..|by left|]|cbn beta..]; [| |done|done].
  - intros h c w' Hn. unfold unwrap_operation. apply wp_bind, wp_lift. unfold tpm_buffer.
    destruct (buffer_fits _ _); [|by right].
    eapply wp_tss; [apply rsa_decrypt_call| |intros; left; left; by eexists|done].
    intros d c' w2 _ Hdec. rewrite (surjective_pairing areas) in Hn. specialize (Hdec d _ _ eq_refl Hn). congruence.
  - intros d [] w' ->. apply wp_bind, wp_guard_not. rewrite Hd, N.eqb_refl. by apply wp_ret.
Qed.

(** Loading a key through the file at [p] needs a key file there. *)
Lemma with_key_key_file {A} p (operation : KeyHandle -> M TpmContext A) a w w1 :
  with_key p operation tt w = Done a tt w1 -> tcti_accepted /\ exists areas, key_file p areas w.
Proof using Type.
  intros H. unfold with_key in H. run_inv H.
  assert (Hf : file_at w p = Some a0) by (by apply run_fs_read_inv in Hrun as [Hf _]).
  unfold in_context, open_context in H. apply run_bind_inv in H as (c & [] & w3 & Hctx & _).
  run_inv Hctx. bool_to_prop. by split; [split|exists a2, a0, a1].
Qed.

(** What a wrapping and an unwrapping that succeeded say of the key in the file. *)
Lemma key_file_unique p a1 a2 w : key_file p a1 w -> key_file p a2 w -> a1 = a2.
Proof using Type. intros (c1 & b1 & H1 & H2 & H3) (c2 & b2 & H4 & H5 & H6). congruence. Qed.

Lemma key_file_same p areas w w' : file_at w' p = file_at w p -> key_file p areas w -> key_file p areas w'.
Proof using Type. intros Hf (c & b & H). exists c, b. by rewrite Hf. Qed.

Lemma wrapped_plaintext p dek w ct w' : tpm_wrap_dek p dek tt w = Done ct tt w' ->
  exists areas, key_file p areas w /\ rsa_plaintext areas.1 areas.2 ct = Some dek.
Proof using TL.
  intros Hrun. pose proof Hrun as Hkey. unfold tpm_wrap_dek in Hkey. apply run_bind_inv in Hkey as (ct' & [] & w1 & Hkey & _).
  destruct (with_key_key_file _ _ _ _ _ Hkey) as (Ht & areas & Hk). exists areas. split; [done|].
  pose proof (wp_wrap_dek p areas dek w Hk Ht) as Hw. unfold wp in Hw. by rewrite Hrun in Hw; destruct Hw.
Qed.

Lemma unwrapped_plaintext p ct w dek w' : tpm_unwrap_dek p ct tt w = Done dek tt w' ->
  exists areas, key_file p areas w /\ rsa_plaintext areas.1 areas.2 ct = Some dek.
Proof using TL.
  intros Hrun. unfold tpm_unwrap_dek in Hrun. apply run_bind_inv in Hrun as (? & [] & w0 & (_ & _ & ->)%run_guard_not_inv & Hrun).
  apply run_bind_inv in Hrun as (dek' & [] & w1 & Hkey & Hrest).
  apply run_bind_inv in Hrest as (? & [] & w2 & (_ & _ & ->)%run_guard_not_inv & Hrest). injection Hrest as <- _.
  destruct (with_key_key_file _ _ _ _ _ Hkey) as (Ht & areas & Hk). exists areas. split; [done|].
  pose proof (wp_with_key p areas (unwrap_operation ct) (fun d => rsa_plaintext areas.1 areas.2 ct = Some d) (fun _ => True) w Hk Ht) as Hw.
  unfold wp in Hw. rewrite Hkey in Hw. apply Hw; [done|]. intros h c w3 Hn. unfold unwrap_operation. apply wp_bind, wp_lift.
  unfold tpm_buffer. destruct (buffer_fits _ _); [|done]. eapply wp_tss; [apply rsa_decrypt_call| |done|done].
  intros d c' w4 _ Hdec. rewrite (surjective_pairing areas) in Hn. by specialize (Hdec d _ _ eq_refl Hn).
Qed.

Lemma plaintext_unwraps_to p areas ct dek w :
  key_file p areas w -> rsa_plaintext areas.1 areas.2 ct = Some dek -> unwraps_to (H := tpm_kek) p ct dek w.
Proof using TL.
  intros Hk Hp w1 d w2 Hf Hrun. apply unwrapped_plaintext in Hrun as (areas' & Hk' & Hp').
  apply (key_file_same _ _ _ _ Hf) in Hk. rewrite (key_file_unique _ _ _ _ Hk' Hk) in Hp'. congruence.
Qed.

Lemma tpm_kek_keeps : @KekKeeps tpm_kek.
Proof using TL.
  split; cbn.
  - intros p dek w ct w' Hrun. destruct (wrapped_plaintext _ _ _ _ _ Hrun) as (areas & Hk & Hp).
    eapply plaintext_unwraps_to; [|exact Hp]. eapply key_file_same; [|exact Hk].
    eapply untouched_file, calm_done; [apply calm_wrap_dek|exact Hrun].
  - intros p ct w dek w' Hrun. destruct (unwrapped_plaintext _ _ _ _ _ Hrun) as (areas & Hk & Hp).
    eapply plaintext_unwraps_to; [|exact Hp]. eapply key_file_same; [|exact Hk].
    eapply untouched_file, calm_done; [apply calm_unwrap_dek|exact Hrun].
Qed.

(** A created key is written to its file. *)
Lemma wp_create_key `{JL : !SerdeLaws KeyBlobs} p w :
  wp (create_key p) (fun _ _ w' => tcti_accepted /\ exists areas, key_file p areas w') (fun _ _ _ => True) (fun _ => True) tt w.
Proof using TL.
  apply wp_in_context; [|done..]. intros Ht c w1 _.
  apply (wp_with_parent _ (fun _ w' => tcti_accepted /\ exists areas, key_file p areas w') (fun _ _ => True)); [|done..|].
  { intros _ w2 w3 [Hfs _] (_ & areas & content & blobs & Hf & Hrest). split; [done|].
    exists areas, content, blobs. unfold file_at in *. by rewrite Hfs. }
  intros parent c1 w2 _. unfold create_under. apply wp_bind, wp_lift. destruct kek_template as [template|]; [|done].
  apply wp_bind. eapply wp_tss; [apply create_call| |done|done]. intros [priv pub] c2 w3 _ Hc.
  destruct (Hc _ _ eq_refl) as [Hfit _]. apply wp_bind, wp_lift. cbn [fst snd].
  destruct (public_marshall pub) as [pb|] eqn:Hpb; cbn [from_tss map_err]; [|done].
  apply wp_bind, wp_lift. destruct (to_vec _) as [b|] eqn:Hb; [|done].
  apply wp_io, wp_write_verified_pure; [|done..]. intros w4 _ Hf _. split; [done|].
  exists (priv, pub), b, (mkKeyBlobs 1 (hex priv) (hex pb)). split_and!; [done|by apply from_slice_to_vec|].
  unfold stored_areas. cbn [kb_version kb_private_hex kb_public_hex N.eqb Pos.eqb negb guard_err mbind result_bind].
  rewrite !unhex_hex. cbn [mbind result_bind]. unfold tpm_buffer. rewrite Hfit. cbn [mbind result_bind].
  by rewrite (unmarshall_marshall _ _ Hpb).
Qed.

Lemma ensure_key_file `{JL : !SerdeLaws KeyBlobs} p w w1 :
  tpm_ensure_exists p tt w = Done tt tt w1 -> tcti_accepted /\ exists areas, key_file p areas w1.
Proof using TL.
  intros H. unfold tpm_ensure_exists in H. run_inv H. destruct a.
  - destruct (with_key_key_file _ _ _ _ _ H) as (Ht & areas & content & blobs & Hf & Hr). split; [done|].
    exists areas, content, blobs. split; [|done].
    pose proof (calm_with_key p (fun _ => mret tt) (fun _ => calm_ret tt) tt w0) as Hc. unfold wp in Hc.
    rewrite H in Hc. cbn in Hc. destruct Hc as [Hfs _]. unfold file_at. by rewrite Hfs.
  - pose proof (wp_create_key p w0) as Hw. unfold wp in Hw. by rewrite H in Hw.
Qed.
End Laws.

(** C24: A profile's key is usable once the host has made sure of it: after
    [ensure_exists] succeeded, wrapping a key and unwrapping the result, at any
    later time while the key file is there, gives the key back; and nothing but
    the I/O and the TPM can stand in the way, apart from the length limits of the
    TPM's buffers. In particular the file that [create] writes is one that
    [with_key] reads. *)
Theorem kek_round_trip `{T : Tss, TL : !TssLaws, HE : HostEnv, JK : Serde KeyBlobs, JL : !SerdeLaws KeyBlobs}
    p dek w w1 w2 :
  len dek = DEK_BYTES -> tpm_ensure_exists p tt w = Done tt tt w1 -> file_at w2 p = file_at w1 p ->
  wp (tpm_wrap_dek p dek)
     (fun wrapped _ w3 => untouched w2 w3 /\ len wrapped = WRAPPED_DEK_BYTES /\
        forall w4, file_at w4 p = file_at w1 p ->
          wp (tpm_unwrap_dek p wrapped) (fun d _ w5 => d = dek /\ untouched w4 w5)
            (fun e _ _ => outside_error e \/ e = Format "wrapped DEK is not a valid RSA ciphertext")
            (fun _ => True) tt w4)
     (fun e _ _ => outside_error e \/ e = Crypto "DEK is not a valid RSA input"
                   \/ e = Crypto "RSA-2048 wrapped DEK length is not 256") (fun _ => True) tt w2.
Proof.
  intros Hd Hrun Hsame.
  assert (Hk : tcti_accepted /\ exists areas, key_file p areas w1) by (eapply ensure_key_file; exact Hrun).
  destruct Hk as (Ht & areas & Hk). pose proof Hk as Hk0.
  assert (Hmove : forall w', file_at w' p = file_at w1 p -> key_file p areas w').
  { intros w' Hw. destruct Hk as (content & blobs & Hf & Hrest). exists content, blobs. by rewrite Hw. }
  eapply wp_mono; [eapply wp_and; [apply wp_wrap_dek; [by apply Hmove|done]|apply calm_wrap_dek]|cbn beta..]; [|tauto|done].
  intros wrapped [] w3 [[Hl Hp] Hu]. split_and!; [done..|]. intros w4 Hw4.
  eapply wp_mono; [eapply wp_and; [eapply wp_unwrap_dek; eauto|apply calm_unwrap_dek]|..]; cbn beta; tauto.
Qed.

(** ** Examples *)

Definition codec_key_blobs : Codec KeyBlobs.
Proof.
  refine (codec_iso (fun k => (kb_version k, (kb_private_hex k, kb_public_hex k)))
    (fun '(a, (b, c)) => mkKeyBlobs a b c) _ (codec_pair codec_N (codec_pair codec_string codec_string))).
  by intros [].
Defined.

Section KekExample.
#[local] Instance example_host_env : HostEnv := {| env_tcti := None; env_wayland := false; env_display := false |}.
#[local] Instance toy_key_blobs : Serde KeyBlobs := codec_json codec_key_blobs.
#[local] Instance toy_key_blobs_laws : SerdeLaws KeyBlobs := codec_json_laws codec_key_blobs.

Definition kek_path : Path := ["d"; "kek.json"].
Definition kek_world : World :=
  mkWorld {[ [] := Dir; ["d"] := Dir ]} 0 (mkEnv (fun _ => NoFault) (fun n => N.of_nat n) (fun _ => 1700000000000)).
Definition kek_created : World :=
  match @tpm_ensure_exists toy_tss _ _ kek_path tt kek_world with Done _ _ w => w | _ => kek_world end.
Definition kek_dek : bytes := replicate 32 Byte.x2a.

Lemma kek_round_trip_witness :
  wp (@tpm_wrap_dek toy_tss _ _ kek_path kek_dek)
     (fun wrapped _ w3 => untouched kek_created w3 /\ len wrapped = WRAPPED_DEK_BYTES /\
        forall w4, file_at w4 kek_path = file_at kek_created kek_path ->
          wp (@tpm_unwrap_dek toy_tss _ _ kek_path wrapped) (fun d _ w5 => d = kek_dek /\ untouched w4 w5)
            (fun e _ _ => outside_error e \/ e = Format "wrapped DEK is not a valid RSA ciphertext")
            (fun _ => True) tt w4)
     (fun e _ _ => outside_error e \/ e = Crypto "DEK is not a valid RSA input"
                   \/ e = Crypto "RSA-2048 wrapped DEK length is not 256") (fun _ => True) tt kek_created.
Proof.
  apply (@kek_round_trip toy_tss toy_tss_laws _ _ _ kek_path kek_dek kek_world kek_created kek_created).
  - reflexivity.
  - vm_compute. reflexivity.
  - reflexivity.
Defined.
End KekExample.
