(* ===== verification/AuthorizerTpm.v ===== *)
(** * crypto/authorizer/linux.rs: the PIN-gated signing key in the TPM

    The key signs only with its authorization value, the PIN, which the host asks
    the user for in a window of its own. The backend implements the interface
    [PlatformAuthorizer]. *)

From S2P Require Import Prelude World External Examples AtomicFile Nodes Config Messages Capability Webauthn Frames Tpm.

Definition MINIMUM_PIN_LENGTH : N := 4.
Definition PROMPT_TIMEOUT_SECONDS : N := 120.
Definition PROMPT_TITLE : string := "FURSOY Vault".
Definition LOW_ATTEMPT_WARNING : N := 3.

Record CredentialRegistry := mkRegistry {
  cr_version : N;
  cr_private_hex : string;
  cr_public_hex : string;
  cr_public_key_x_hex : string;
  cr_public_key_y_hex : string;
}.

Record Authorizer := mkAuthorizer { az_registry : CredentialRegistry }.

(** ** Other services *)

(** [Command::output]: none when the program cannot be run; else whether it
    succeeded, and its standard output. *)
Class Commands := command_output : string -> list string -> IO (option (bool * bytes)).

(** p256: a SEC1 point, a signature of 64 bytes, and the verification. *)
Class EcdsaP256 := {
  p256_key_valid : bytes -> bool;
  p256_signature_valid : bytes -> bool;
  p256_verify : bytes -> bytes -> bytes -> bool;
}.

(** ** Prompts *)

Module Tool.
Inductive PromptTool := KDialog | Zenity | SystemdAskPassword.
End Tool.
Abbreviation PromptTool := Tool.PromptTool.

Definition tool_command (tool : PromptTool) (prompt : string) : string * list string :=
  match tool with
  | Tool.KDialog => ("kdialog", ["--title"; PROMPT_TITLE; "--password"; prompt])
  | Tool.Zenity => ("zenity", ["--password"; "--title"; PROMPT_TITLE])
  | Tool.SystemdAskPassword =>
      ("systemd-ask-password",
       ["--no-tty"; "--timeout=" +:+ pretty PROMPT_TIMEOUT_SECONDS; "--icon=security-high"; "--id=fursoy-vault"; prompt])
  end%string.

(** [trim_end_matches(['\n', '\r'])]. *)
Definition is_line_end (b : byte) : bool := match b with Byte.x0a | Byte.x0d => true | _ => false end.

Fixpoint drop_line_ends (reversed : bytes) : bytes :=
  match reversed with
  | b :: rest => if is_line_end b then drop_line_ends rest else reversed
  | [] => []
  end.

Definition trim_line_ends (b : bytes) : bytes := rev (drop_line_ends (rev b)).

(** [chars().count()]: the bytes that start a character. *)
Definition chars_count (s : string) : N :=
  len (List.filter (fun b => negb (utf8_continuation (Byte.to_N b))) (list_byte_of_string s)).

Section Prompts.
Context `{CO : Commands, HE : HostEnv}.

(** [PromptTool::ask]. *)
Definition ask (tool : PromptTool) (prompt : string) : IO (Result unit (option string)) :=
  let '(program, args) := tool_command tool prompt in
  output ← command_output program args;
  mret match output with
       | None => Err tt
       | Some (success, stdout) =>
           if negb (success : bool) then Ok None
           else if negb (is_utf8 stdout) then Err tt
           else match trim_line_ends stdout with
                | [] => Ok None
                | pin => Ok (Some (string_of_list_byte pin))
                end
       end.

Definition cancelled : FcpError := Capability "the PIN prompt was dismissed".

(** The loop of [prompt_pin]: a result that ends it, or whether a tool was tried. *)
Fixpoint ask_tools (tools : list PromptTool) (prompt : string) (attempted : bool)
    : IO (option string * bool) :=
  match tools with
  | [] => mret (None, attempted)
  | tool :: rest =>
      answer ← ask tool prompt;
      match answer with
      | Ok (Some pin) => mret (Some pin, attempted)
      | Ok None => throw cancelled
      | Err _ => ask_tools rest prompt true
      end
  end.

(** [prompt_pin]. *)
Definition prompt_pin (prompt : string) : IO string :=
  let graphical := env_wayland || env_display in
  asked ← (if graphical then ask_tools [Tool.KDialog; Tool.Zenity] prompt false else mret (None, false));
  let '(found, attempted) := (asked : option string * bool) in
  match found with
  | Some pin => mret pin
  | None =>
      answer ← ask Tool.SystemdAskPassword prompt;
      match answer with
      | Ok (Some pin) => mret pin
      | Ok None => throw cancelled
      | Err _ =>
          if graphical && attempted
          then throw (Capability "no PIN prompt is available: install kdialog or zenity")
          else throw (Capability "no PIN prompt is available on this system")
      end
  end.
End Prompts.

(** ** Pure parts *)

Record LockoutState := mkLockout { lo_locked : bool; lo_remaining : option N }.

(** The end of [lockout_state]. *)
Definition lockout_of (counter maximum : option N) : LockoutState :=
  match counter, maximum with
  | Some counter, Some maximum => mkLockout (maximum <=? counter) (Some (saturating_sub maximum counter))
  | _, _ => mkLockout false None
  end.

(** [unlock_prompt]. *)
Definition unlock_prompt (lockout : LockoutState) : string :=
  let base := "Enter your FURSOY Vault PIN to unlock this session"%string in
  match lo_remaining lockout with
  | Some remaining =>
      if remaining <=? LOW_ATTEMPT_WARNING
      then base +:+ newline +:+ newline +:+ "Attempts left before the security chip locks: " +:+ pretty remaining
      else base
  | None => base
  end.

(** [unusable]. *)
Definition unusable : FcpError := Capability "tpm_credential_unusable".

(** [pad32]. *)
Definition pad32 (b : bytes) : bytes := replicate (32 - length b) Byte.x00 ++ b.

(** [raw_signature]. *)
Definition raw_signature (signature : option (bytes * bytes)) : FcpResult bytes :=
  match signature with
  | Some (r, s) => Ok (pad32 r ++ pad32 s)
  | None => Err (Crypto "TPM returned a non-ECDSA signature")
  end.

Section Backend.
Context `{T : Tss, HE : HostEnv, CO : Commands, EC : EcdsaP256, SH : Sha256, UT : UuidText, JR : Serde CredentialRegistry}.

(** [signing_failure]. *)
Definition signing_failure (error : TssError) : FcpError :=
  match tss_kind error with
  | Some AuthFail => UserActionable "pin_incorrect"
  | Some Lockout => UserActionable "pin_locked_out"
  | _ => Capability "user verification failed"
  end.

(** [auth_from]. *)
Definition auth_from (pin : string) : FcpResult bytes :=
  tpm_buffer AuthBuffer (list_byte_of_string pin) (Capability "the PIN is too long for this TPM").

(** [public_key_point]. *)
Definition public_key_point (public : TpmPublic) : FcpResult (bytes * bytes) :=
  match public_ecc public with
  | Some (_, (x, y)) => Ok (pad32 x, pad32 y)
  | None => Err (Crypto "created credential is not an ECC key")
  end.

(** [assert_requires_auth]. *)
Definition assert_requires_auth (public : TpmPublic) : FcpResult unit :=
  match public_ecc public with
  | None => Err unusable
  | Some (attributes, _) =>
      _ ← guard_err (negb (user_with_auth attributes))
            (Capability "stored credential does not require a PIN; refusing to sign");
      guard_err (negb (sign_encrypt attributes)) unusable
  end.

(** [signing_key_template], with its attributes. *)
Definition signing_attributes : ObjectAttributes := mkAttributes true true true true false false true false.

Definition signing_key_template : FcpResult TpmPublic :=
  attributes ← from_tss (build_attributes signing_attributes);
  from_tss (build_public (EccTemplate attributes EcDsaSha256 true false false false)).

(** The loading part of [with_key], before the context is opened, and [with_key]. *)
Definition registry_areas (registry : CredentialRegistry) : FcpResult (bytes * TpmPublic) :=
  private_bytes ← hex_decode (cr_private_hex registry);
  private ← tpm_buffer PrivateBuffer private_bytes unusable;
  public_bytes ← hex_decode (cr_public_hex registry);
  public ← map_err (fun _ => unusable) (public_unmarshall public_bytes);
  _ ← assert_requires_auth public;
  Ok (private, public).

Definition use_credential {A} (areas : bytes * TpmPublic) (operation : KeyHandle -> M TpmContext A) (parent : KeyHandle)
    : M TpmContext A :=
  key ← (r ← tpm_load parent areas.1 areas.2; lift (map_err (fun _ => unusable) r));
  with_flush key (operation key).

Definition with_credential {A} (registry : CredentialRegistry) (operation : KeyHandle -> M TpmContext A) : IO A :=
  areas ← lift (registry_areas registry);
  in_context (with_parent (use_credential areas operation)).

(** [lockout_state]. *)
Definition read_property (tag : PropertyTag) : M TpmContext (option N) :=
  r ← tpm_property tag;
  mret match r with Ok value => value | Err _ => None end.

Definition lockout_state : IO LockoutState :=
  in_context (
    counter ← read_property LockoutCounter;
    maximum ← read_property MaxAuthFail;
    mret (lockout_of counter maximum)).

(** The closure of [sign]. *)
Definition sign_operation (pin : string) (message : bytes) (key : KeyHandle) : M TpmContext bytes :=
  auth ← lift (auth_from pin);
  _ ← tss (tpm_set_auth key auth);
  digest ← lift (tpm_buffer DigestBuffer (sha256 message) (Crypto "capability digest is not a valid TPM digest"));
  _ ← lift (from_tss hashcheck_ticket);
  r ← tpm_sign key digest;
  signature ← lift (map_err signing_failure r);
  lift (raw_signature signature).

(** [verify_signature]. *)
Definition tpm_verify_signature (self : Authorizer) (capability : SignedCapability) : FcpResult unit :=
  _ ← validate_shape (sc_payload capability);
  _ ← guard_err (negb (bool_decide (sc_proof_context capability = [])))
        (Capability "capability carries proof context this backend never produces");
  x ← hex_decode (cr_public_key_x_hex (az_registry self));
  y ← hex_decode (cr_public_key_y_hex (az_registry self));
  let sec1 := Byte.x04 :: x ++ y in
  _ ← guard_err (negb (p256_key_valid sec1)) (Capability "stored public key is malformed");
  _ ← guard_err (negb (p256_signature_valid (sc_signature capability)))
        (Capability "signature is not a P-256 signature");
  guard_err (negb (p256_verify sec1 (canonical_bytes (sc_payload capability)) (sc_signature capability)))
    (Capability "capability signature did not verify").

(** [sign]. *)
Definition tpm_sign_capability (self : Authorizer) (payload : CapabilityPayload) : IO SignedCapability :=
  _ ← lift (validate_shape payload);
  let message := canonical_bytes payload in
  lockout ← lockout_state;
  _ ← guard_not (lo_locked lockout) (UserActionable "pin_locked_out");
  pin ← prompt_pin (unlock_prompt lockout);
  signature ← with_credential (az_registry self) (sign_operation pin message);
  let signed := mkSignedCapability payload signature [] in
  _ ← lift (tpm_verify_signature self signed);
  mret signed.

(** The closure of [enroll], and [enroll]. *)
Definition verify_registry (registry : CredentialRegistry) (persisted : bytes) : FcpResult unit :=
  parsed ← from_slice persisted;
  guard_err (negb (String.eqb (cr_private_hex parsed) (cr_private_hex registry)))
    (Format "credential registry failed to round-trip").

Definition enroll_under (credential_path : Path) (pin : string) (parent : KeyHandle) : M TpmContext Authorizer :=
  auth ← lift (auth_from pin);
  template ← lift signing_key_template;
  created ← tss (tpm_create parent template (Some auth) None);
  let '(private, public) := (created : bytes * TpmPublic) in
  point ← lift (public_key_point public);
  public_bytes ← lift (from_tss (public_marshall public));
  let registry := mkRegistry 1 (hex_encode private) (hex_encode public_bytes) (hex_encode (fst (point : bytes * bytes)))
                    (hex_encode point.2) in
  b ← lift (to_vec registry);
  _ ← io (write_verified credential_path b (fun persisted => lift (verify_registry registry persisted)));
  mret (mkAuthorizer registry).

Definition tpm_enroll (credential_path : Path) : IO Authorizer :=
  pin ← prompt_pin ("Choose a PIN for FURSOY Vault (at least " +:+ pretty MINIMUM_PIN_LENGTH +:+ " characters)");
  _ ← guard_not (chars_count pin <? MINIMUM_PIN_LENGTH) (UserActionable "pin_too_short");
  confirmation ← prompt_pin "Enter the same PIN again to confirm";
  _ ← guard_not (negb (String.eqb pin confirmation)) (UserActionable "pin_mismatch");
  in_context (with_parent (enroll_under credential_path pin)).

(** [load_registry], [quarantine_registry]. *)
Definition load_registry (path : Path) : IO CredentialRegistry :=
  b ← fs_read path;
  registry ← lift (from_slice b);
  _ ← guard_not (negb (cr_version registry =? 1)) (Format "unsupported credential registry version");
  mret registry.

Definition retired_path (parent : Path) (id : Uuid) : Path :=
  path_join parent ("authorizer-credential.retired-" +:+ uuid_to_string id +:+ ".json").

Definition quarantine_registry (path : Path) : IO unit :=
  parent ← ok_or_throw (path_parent path) (Format "credential registry has no parent");
  id ← new_v4;
  fs_rename_any path (retired_path parent id).

(** [open_existing], [open_or_create], [recover_if_credential_vanished]. *)
Definition tpm_open_existing (credential_path : Path) : IO Authorizer :=
  registry ← load_registry credential_path; mret (mkAuthorizer registry).

Definition tpm_open_or_create (credential_path : Path) : IO Authorizer :=
  present ← fs_exists credential_path;
  if (present : bool) then
    loaded ← try_ (load_registry credential_path);
    match loaded with
    | Ok registry => mret (mkAuthorizer registry)
    | Err _ => _ ← quarantine_registry credential_path; tpm_enroll credential_path
    end
  else tpm_enroll credential_path.

Definition tpm_recover (self : Authorizer) (error : FcpError) (credential_path : Path) : IO (bool * Authorizer) :=
  if negb (bool_decide (error = unusable)) then mret (false, self)
  else
    _ ← quarantine_registry credential_path;
    replacement ← tpm_enroll credential_path;
    mret (true, replacement).

Definition tpm_authorizer : PlatformAuthorizer Authorizer := {|
  sign := tpm_sign_capability;
  verify_signature self c := lift (tpm_verify_signature self c);
  open_or_create := tpm_open_or_create;
  open_existing := tpm_open_existing;
  recover_if_credential_vanished := tpm_recover;
|}.
End Backend.

(** ** Asking for the PIN *)

(** Running a program changes no file of the host, and its failure is an answer. *)
Class CommandsLaws `{Commands} : Prop :=
  command_call program args w :
    wp (command_output program args) (fun _ _ w' => untouched w w') (fun _ _ _ => False) (untouched w) tt w.

Section PromptLaws.
Context `{CO : Commands, CL : !CommandsLaws, HE : HostEnv}.

(** The errors of a prompt. *)
Definition prompt_error (e : FcpError) : Prop :=
  e = cancelled \/ e = Capability "no PIN prompt is available: install kdialog or zenity"
  \/ e = Capability "no PIN prompt is available on this system".

Definition prompt_run {A} (found : A -> Prop) (m : IO A) : Prop := forall w,
  wp m (fun a _ w' => untouched w w' /\ found a) (fun e _ w' => untouched w w' /\ prompt_error e) (untouched w) tt w.

Lemma prompt_bind {A B} (P : A -> Prop) (Q : B -> Prop) (m : IO A) (f : A -> IO B) :
  prompt_run P m -> (forall a, P a -> prompt_run Q (f a)) -> prompt_run Q (m ≫= f).
Proof.
  intros Hm Hf w. apply wp_bind. eapply wp_mono; [apply Hm|cbn beta..]; [|done|done].
  intros a [] w1 [H1 Ha]. eapply wp_mono; [by apply Hf|..]; cbn beta.
  - intros b _ w2 [H2 Hb]. split; [by eapply untouched_trans|done].
  - intros e _ w2 [H2 He]. split; [by eapply untouched_trans|done].
  - intros w2 H2. by eapply untouched_trans.
Qed.

Lemma prompt_ret {A} (P : A -> Prop) a : P a -> prompt_run P (mret a).
Proof. intros HP w. by split. Qed.
Lemma prompt_throw {A} (P : A -> Prop) e : prompt_error e -> prompt_run P (throw e).
Proof. intros He w. by split. Qed.

(** The answer of one tool. *)
Definition pin_answer (r : Result unit (option string)) : Prop :=
  forall pin, r = Ok (Some pin) -> pin <> EmptyString.

Lemma prompt_ask tool prompt : prompt_run pin_answer (ask tool prompt).
Proof using CL.
  intros w. unfold ask. destruct (tool_command tool prompt) as [program args]. apply wp_bind.
  eapply wp_mono; [apply command_call|cbn beta..]; [|done|done].
  intros output [] w' Hu. apply wp_ret. split; [done|]. intros pin.
  destruct output as [[[] stdout]|]; cbn; [|done|done]. destruct (is_utf8 stdout); cbn; [|done].
  by destruct (trim_line_ends stdout) as [|b rest]; [|intros [= <-]].
Qed.

Lemma prompt_ask_tools tools prompt attempted :
  prompt_run (fun r => forall pin, r.1 = Some pin -> pin <> EmptyString) (ask_tools tools prompt attempted).
Proof using CL.
  revert attempted; induction tools as [|tool tools IH]; intros attempted; cbn [ask_tools]; [by apply prompt_ret|].
  eapply prompt_bind; [apply prompt_ask|]. intros [[pin|]|[]] Ha; [|apply prompt_throw; by left|apply IH].
  apply prompt_ret. intros p [= <-]. by apply Ha.
Qed.

Lemma prompt_prompt_pin prompt : prompt_run (fun pin => pin <> EmptyString) (prompt_pin prompt).
Proof using CL.
  unfold prompt_pin. eapply (prompt_bind (fun r : option string * bool => forall pin, r.1 = Some pin -> pin <> EmptyString)).
  - destruct (env_wayland || env_display); [apply prompt_ask_tools|by apply prompt_ret].
  - intros [[pin|] attempted] Hf; [apply prompt_ret; by apply Hf|].
    eapply prompt_bind; [apply prompt_ask|]. intros [[pin|]|[]] Ha; [apply prompt_ret; by apply Ha|apply prompt_throw; by left|].
    destruct (_ && _); apply prompt_throw; unfold prompt_error; auto.
Qed.

Lemma calm_prompt_pin prompt : calm (prompt_pin prompt).
Proof using CL.
  intros [] w. eapply wp_mono; [apply prompt_prompt_pin|..]; cbn beta; tauto.
Qed.
End PromptLaws.
#[export] Hint Resolve calm_prompt_pin : calm.

(** ** Signing *)

Section SignLaws.
Context `{T : Tss, TL : !TssLaws, HE : HostEnv, CO : Commands, CL : !CommandsLaws, EC : EcdsaP256, SH : Sha256,
  UT : UuidText, JR : Serde CredentialRegistry}.

Lemma calm_read_property t : calm (read_property t).
Proof using TL. unfold read_property. apply calm_bind; [eapply calm_call, property_call|]. intros r. apply calm_ret. Qed.
Hint Resolve calm_read_property : calm.

Lemma calm_lockout_state : calm lockout_state.
Proof using TL. unfold lockout_state. calm_tac. Qed.
Hint Resolve calm_lockout_state : calm.

Lemma calm_sign_operation pin message key : calm (sign_operation pin message key).
Proof using TL.
  unfold sign_operation. calm_tac. eapply calm_call, sign_call.
Qed.

Lemma calm_use_credential {A} areas (operation : KeyHandle -> M TpmContext A) parent :
  (forall h, calm (operation h)) -> calm (use_credential areas operation parent).
Proof using TL.
  intros Ho. unfold use_credential. apply calm_bind.
  - apply calm_bind; [eapply calm_call, load_call|]. intros r. apply calm_lift.
  - intros key. by apply calm_with_flush.
Qed.

Lemma calm_with_credential registry pin message : calm (with_credential registry (sign_operation pin message)).
Proof using TL.
  unfold with_credential. calm_tac. apply calm_in_context, calm_with_parent.
  intros h. apply calm_use_credential. intros key. apply calm_sign_operation.
Qed.

Lemma calm_sign self payload : calm (tpm_sign_capability self payload).
Proof using TL CL. unfold tpm_sign_capability. calm_tac. apply calm_with_credential. Qed.

(** The stored credential cannot be used on this machine: its areas are
    malformed, or the TPM refused to load them in the run from [w] to [w']. *)
Definition credential_unusable (registry : CredentialRegistry) (w w' : World) : Prop :=
  registry_areas registry = Err unusable \/
  exists areas parent c w1 err c' w2, registry_areas registry = Ok areas /\ later w w1 /\
    tpm_load parent areas.1 areas.2 c w1 = Done (Err err) c' w2 /\ later w2 w'.

Lemma credential_unusable_later registry w w1 w2 w' :
  later w w1 -> credential_unusable registry w1 w2 -> later w2 w' -> credential_unusable registry w w'.
Proof using Type.
  intros H1 [Ha|(areas & parent & c & w3 & err & c' & w4 & Ha & H3 & Hl & H4)] H2; [by left|right].
  exists areas, parent, c, w3, err, c', w4. split_and!; [done|by eapply later_trans|done|by eapply later_trans].
Qed.

(** An error for which the credential would be replaced has that cause. *)
Definition honest_error (registry : CredentialRegistry) (w : World) (e : FcpError) (w' : World) : Prop :=
  e = unusable -> credential_unusable registry w w'.

(** A key the PIN unlocked. *)
Definition unlocked (registry : CredentialRegistry) (pin : string) : Prop :=
  exists private public attributes point,
    registry_areas registry = Ok (private, public) /\ public_ecc public = Some (attributes, point) /\
    user_with_auth attributes = true /\ sign_encrypt attributes = true /\
    accepts private public (list_byte_of_string pin).

Lemma registry_areas_ecc registry private public :
  registry_areas registry = Ok (private, public) -> exists attributes point,
    public_ecc public = Some (attributes, point) /\ user_with_auth attributes = true /\ sign_encrypt attributes = true.
Proof using Type.
  unfold registry_areas. intros H. res_inv H. injection H as -> ->. unfold assert_requires_auth in *.
  match goal with H : match public_ecc public with _ => _ end = _ |- _ => rename H into Ha end.
  destruct (public_ecc public) as [[attributes point]|]; [|done]. res_inv Ha. bool_to_prop. eauto.
Qed.

Lemma wp_sign_operation registry areas pin message key c w :
  registry_areas registry = Ok areas -> names c key = Some areas ->
  wp (sign_operation pin message key) (fun _ _ _ => unlocked registry pin) (fun e _ _ => e <> unusable)
    (fun _ => True) c w.
Proof using TL.
  destruct areas as [priv pub]. intros Hareas Hn. destruct (registry_areas_ecc _ _ _ Hareas) as (att & pt & Hecc & Hauth & Hsign).
  unfold sign_operation, auth_from, tpm_buffer. apply wp_bind, wp_lift. destruct (buffer_fits AuthBuffer _); [|done].
  apply wp_bind. eapply wp_tss; [apply set_auth_call| |done|done]. intros [] c1 w1 _ Hset. destruct (Hset eq_refl) as [Hn1 Ha1].
  apply wp_bind, wp_lift. destruct (buffer_fits DigestBuffer _); [|done].
  apply wp_bind, wp_lift. destruct hashcheck_ticket as [[]|]; cbn [from_tss map_err]; [|done].
  apply wp_bind. eapply wp_mono; [apply sign_call|cbn beta..]; [|done|done].
  intros r c2 w2 [_ Hr]. apply wp_bind, wp_lift. destruct r as [s|err]; cbn [map_err].
  - apply wp_lift. rewrite Hn in Hn1. destruct (Hr s _ _ _ _ eq_refl Hn1 Hecc Hauth) as (a & Ha & Hacc).
    assert (Hu : unlocked registry pin) by (exists priv, pub, att, pt; split_and!; [done..|congruence]).
    destruct s as [[]|]; cbn; [done|done].
  - unfold signing_failure. by destruct (tss_kind err) as [[]|].
Qed.

Lemma wp_with_credential registry pin message w :
  wp (with_credential registry (sign_operation pin message)) (fun _ _ w' => untouched w w' /\ unlocked registry pin)
     (fun e _ w' => honest_error registry w e w') (fun _ => True) tt w.
Proof using TL.
  cut (wp (with_credential registry (sign_operation pin message)) (fun _ _ _ => unlocked registry pin)
         (fun e _ w' => honest_error registry w e w') (fun _ => True) tt w).
  { intros Hm. eapply wp_mono; [eapply wp_and; [apply calm_with_credential|exact Hm]|cbn beta..]; tauto. }
  unfold with_credential. apply wp_bind, wp_lift. destruct (registry_areas registry) as [areas|e] eqn:Ha.
  2: { intros ->. by left. }
  apply wp_in_context; [|done..]. intros _ c w1 [_ H1].
  assert (Hmono : forall e w2 w3, untouched w2 w3 -> honest_error registry w e w2 -> honest_error registry w e w3).
  { intros e w2 w3 [_ H] He Hu. by eapply credential_unusable_later; [|by apply He|]. }
  apply (wp_with_parent _ (fun _ _ => unlocked registry pin) (fun e => honest_error registry w e)); [done| |done..|].
  { exact Hmono. }
  intros parent c1 w2 [_ H2]. unfold use_credential. apply wp_bind, wp_bind.
  eapply wp_mono; [apply wp_track, load_call|cbn beta..]; [|by intros e c' w' []|done].
  intros [key|err] c2 w3 [Hrun [[_ H3] Hn]]; apply wp_lift; cbn [map_err].
  - apply (wp_with_flush _ _ (fun _ _ => unlocked registry pin) (fun e => honest_error registry w e)); [done|exact Hmono|done..|].
    eapply wp_mono; [eapply wp_sign_operation; [done|]|cbn beta..]; [|done|by intros e c' w' He ?|done].
    rewrite (Hn _ eq_refl). by destruct areas.
  - intros _. right. exists areas, parent, c1, w2, err, c2, w3. split_and!; [done|by eapply later_trans|done|done].
Qed.

Lemma validate_shape_not_unusable p : validate_shape p <> Err unusable.
Proof using Type.
  unfold validate_shape, mbind, result_bind. destruct (uuid_is_nil _); [done|]. destruct (_ =? 0); [done|].
  by destruct (forallb _ _).
Qed.

(** The errors of a verification are not the one for which the credential is replaced. *)
Lemma hex_decode_not_unusable t : hex_decode t <> Err unusable.
Proof using Type.
  unfold hex_decode, str_bytes. destruct (guard_err _ _) as [[]|e] eqn:Hg; cbn [mbind result_bind].
  - generalize (list_byte_of_string t). intros b. induction b as [b IH] using (induction_ltof1 _ (@length byte)); unfold ltof in IH.
    destruct b as [|x [|y b]]; cbn [hex_pairs]; [done|done|]. unfold mbind, result_bind.
    assert (Hn : forall n, hex_nibble n <> Err unusable) by (intros n; unfold hex_nibble; destruct (_ && _); [done|]; destruct (_ && _); [done|]; by destruct (_ && _)).
    destruct (hex_nibble (Byte.to_N x)) eqn:H1; [|intros [= ->]; by apply Hn in H1]. destruct (hex_nibble (Byte.to_N y)) eqn:H2; [|intros [= ->]; by apply Hn in H2].
    specialize (IH b). destruct (hex_pairs b); [done|]. intros [= ->]. apply IH; cbn; [lia|done].
  - unfold guard_err in Hg. case_match; [|done]. by injection Hg as <-.
Qed.

Lemma verify_not_unusable self c : tpm_verify_signature self c <> Err unusable.
Proof using Type.
  unfold tpm_verify_signature, mbind, result_bind. destruct (validate_shape _) as [[]|e] eqn:Hs.
  2: { intros [= ->]. by apply validate_shape_not_unusable in Hs. }
  unfold guard_err at 1. destruct (negb _); [done|].
  destruct (hex_decode (cr_public_key_x_hex _)) eqn:Hx; [|intros [= ->]; by apply hex_decode_not_unusable in Hx].
  destruct (hex_decode (cr_public_key_y_hex _)) eqn:Hy; [|intros [= ->]; by apply hex_decode_not_unusable in Hy].
  cbn beta zeta. destruct (negb (p256_key_valid _)); [done|]. destruct (negb (p256_signature_valid _)); [done|].
  by destruct (negb (p256_verify _ _ _)).
Qed.

Lemma wp_lockout_state w :
  wp lockout_state (fun _ _ _ => True) (fun e _ _ => e <> unusable) (fun _ => True) tt w.
Proof using TL.
  unfold lockout_state. apply wp_in_context; [|done..]. intros _ c w1 _.
  assert (Hp : forall t c0 w0, wp (read_property t) (fun _ _ _ => True) (fun e _ _ => e <> unusable) (fun _ => True) c0 w0).
  { intros t c0 w0. unfold read_property. apply wp_bind. by eapply wp_mono; [apply property_call|..]. }
  apply wp_bind. eapply wp_mono; [apply Hp|cbn beta..]; [|done|done]. intros counter c1 w2 _.
  apply wp_bind. eapply wp_mono; [apply Hp|cbn beta..]; done.
Qed.

(** The user gave the PIN in a run from [w] to [w']: the TPM was not locked out, the
    answer to the prompt that follows is a PIN that unlocks the credential. *)
Definition pin_given (self : Authorizer) (w w' : World) : Prop :=
  exists lockout pin w1 w2,
    lockout_state tt w = Done lockout tt w1 /\ lo_locked lockout = false /\
    prompt_pin (unlock_prompt lockout) tt w1 = Done pin tt w2 /\ pin <> EmptyString /\
    unlocked (az_registry self) pin /\ later w2 w'.

Lemma wp_sign self payload w :
  wp (tpm_sign_capability self payload)
     (fun signed _ w' => sc_payload signed = payload /\ sc_proof_context signed = [] /\
        tpm_verify_signature self signed = Ok tt /\ pin_given self w w')
     (fun e _ w' => honest_error (az_registry self) w e w') (fun _ => True) tt w.
Proof using TL CL.
  unfold tpm_sign_capability. apply wp_bind, wp_lift. destruct (validate_shape payload) as [[]|e] eqn:Hshape.
  2: { intros ->. by apply validate_shape_not_unusable in Hshape. }
  apply wp_bind. eapply wp_mono; [eapply wp_and; [apply calm_lockout_state|apply wp_track, wp_lockout_state]|cbn beta..];
    [|by intros e [] w1 (_ & _ & He) ?|done].
  intros lockout [] w1 [[_ H1] [Hlo _]]. apply wp_bind, wp_guard_not. destruct (lo_locked lockout) eqn:Hlock; [done|].
  apply wp_bind. eapply wp_mono; [apply wp_track, prompt_prompt_pin|cbn beta..]; [| |done].
  2: { intros e [] w2 (_ & _ & [->|[->| ->]]); done. }
  intros pin [] w2 (Hrun & [_ H2] & Hpin). apply wp_bind.
  eapply wp_mono; [apply wp_with_credential|cbn beta..]; [| |done].
  2: { intros e [] w3 He Hu. eapply credential_unusable_later; [by eapply later_trans|by apply He|done]. }
  intros signature [] w3 [[_ Hlater] Hu].
  apply wp_bind, wp_lift. destruct (tpm_verify_signature _ _) as [[]|e] eqn:Hv.
  - apply wp_ret. split_and!; [done..|]. by exists lockout, pin, w1, w2.
  - intros ->. by apply verify_not_unusable in Hv.
Qed.
End SignLaws.

(** C8: A signature of the host proves the PIN: [sign] returns a capability only
    for the payload it was given, which its own verification accepts, and only
    when, in this very call, the TPM reported no lockout and the user then typed a
    non-empty PIN that the TPM accepts for the stored credential, a signing key
    that requires it. Whatever happens it changes no file, and it fails with the
    error for which the credential is replaced only when the stored areas are
    malformed or the TPM refuses to load them: a wrong PIN, a lockout or a
    dismissed prompt never leads to a new credential. *)
Theorem signature_needs_pin `{T : Tss, TL : !TssLaws, HE : HostEnv, CO : Commands, CL : !CommandsLaws, EC : EcdsaP256,
    SH : Sha256, UT : UuidText, JR : Serde CredentialRegistry} self payload w :
  wp (tpm_sign_capability self payload)
     (fun signed _ w' => untouched w w' /\ sc_payload signed = payload /\ sc_proof_context signed = [] /\
        tpm_verify_signature self signed = Ok tt /\ pin_given self w w')
     (fun e _ w' => untouched w w' /\ (e = unusable -> credential_unusable (az_registry self) w w'))
     (untouched w) tt w.
Proof.
  eapply wp_mono; [eapply wp_and; [apply calm_sign|apply wp_sign]|..]; cbn beta; unfold honest_error; tauto.
Qed.

(** ** The interface [PlatformAuthorizer] *)

Lemma strip_path_prefix_Some src p rest : strip_path_prefix src p = Some rest -> p = src ++ rest.
Proof.
  revert p; induction src as [|a src IH]; intros [|b p]; cbn [strip_path_prefix app]; try congruence.
  destruct (String.eqb_spec a b) as [->|]; [|done]. intros H. by rewrite (IH _ H).
Qed.

(** A node under neither name stays where it is. *)
Lemma move_tree_other src dst fs q :
  ~ src `prefix_of` q -> ~ dst `prefix_of` q -> move_tree src dst fs !! q = fs !! q.
Proof.
  intros Hs Hd. unfold move_tree. set (f := fun '(p, n) => _).
  assert (Hin : forall n, (q, n) ∈ f <$> map_to_list fs <-> fs !! q = Some n).
  { intros n. rewrite list_elem_of_fmap. split.
    - intros ([p n'] & Heq & Hp). apply elem_of_map_to_list in Hp. unfold f in Heq. injection Heq as Hq ->.
      destruct (strip_path_prefix src p) as [rest|] eqn:E; [|by rewrite Hq].
      destruct Hd. rewrite Hq. by apply prefix_app_r.
    - intros Hq. exists (q, n). split; [|by apply elem_of_map_to_list]. unfold f.
      destruct (strip_path_prefix src q) as [rest|] eqn:E; [|done].
      apply strip_path_prefix_Some in E. destruct Hs. rewrite E. by apply prefix_app_r. }
  destruct (fs !! q) as [n|] eqn:Hq.
  - apply elem_of_list_to_map_1'; [|by apply Hin]. intros y Hy. apply Hin in Hy. congruence.
  - apply not_elem_of_list_to_map_1. intros ([p n] & Hp & Hi)%list_elem_of_fmap. cbn in Hp. subst p.
    apply Hin in Hi. congruence.
Qed.

Lemma framed_rename_any own src dst :
  (forall q, src `prefix_of` q \/ dst `prefix_of` q -> own q) -> framed own (fs_rename_any src dst).
Proof.
  intros Hown.
  assert (Hfile : framed own (fs_rename src dst)).
  { intros [] w. unfold fs_rename. run_io; [|done..].
    destruct (w_fs w !! src) as [[b|]|]; cbn; [|done|done].
    assert (Hput : agree_off own w (set_fs (<[dst:=File b]> (delete src (w_fs w))) (tick w))).
    { split; [done|]. intros q Hq. unfold file_at. cbn.
      rewrite lookup_insert_ne, lookup_delete_ne by (intros ->; apply Hq, Hown; eauto). done. }
    destruct (w_fs w !! dst) as [[]|]; cbn; [done|done|]. destruct (path_parent dst) as [q|]; cbn; [|done].
    by destruct (w_fs w !! q) as [[]|]. }
  intros [] w. unfold fs_rename_any. unfold wp at 1. destruct (w_fs w !! src) as [[b|]|]; [apply Hfile| |apply Hfile].
  change (wp (with_fault (fs ← get_fs;
    match fs !! dst with
    | Some _ => throw (Io OtherIo)
    | None => match path_parent dst with
              | Some q => match fs !! q with Some Dir => put_fs (move_tree src dst fs) | _ => throw (Io NotFound) end
              | None => throw (Io OtherIo)
              end
    end)) (fun _ _ w' => agree_off own w w') (fun _ _ w' => agree_off own w w') (agree_off own w) tt w).
  run_io; [|done..]. destruct (w_fs w !! dst); cbn; [done|]. destruct (path_parent dst) as [q|]; cbn; [|done].
  destruct (w_fs w !! q) as [[]|]; cbn; [done| |done]. split; [done|]. intros p Hp. unfold file_at. cbn.
  rewrite move_tree_other; [done|intros Hq; apply Hp, Hown; by left|intros Hq; apply Hp, Hown; by right].
Qed.

(** The files of a credential: its path with what may lie under it, the temporary
    file of the writer, and the files the retired credentials are moved to. *)
Definition credential_files `{UuidText} (path q : Path) : Prop :=
  path `prefix_of` q \/ writer_files path q \/
  exists parent id, path_parent path = Some parent /\ retired_path parent id `prefix_of` q.

Section AuthorizerLaws.
Context `{T : Tss, TL : !TssLaws, HE : HostEnv, CO : Commands, CL : !CommandsLaws, EC : EcdsaP256, SH : Sha256,
  UT : UuidText, JR : Serde CredentialRegistry}.

Lemma framed_quarantine path : framed (credential_files path) (quarantine_registry path).
Proof using Type.
  unfold quarantine_registry. destruct (path_parent path) as [parent|] eqn:Hparent; [|by intros [] w].
  change (framed (credential_files path) (id ← new_v4; fs_rename_any path (retired_path parent id))).
  apply framed_bind; [apply calm_framed, calm_uuid|]. intros id.
  apply framed_rename_any. intros q [Hq|Hq]; [by left|]. right. right. by exists parent, id.
Qed.

Lemma calm_load_registry path : calm (load_registry path).
Proof using Type. unfold load_registry. calm_tac. Qed.

Lemma framed_enroll_under path pin parent : framed (writer_files path) (enroll_under path pin parent).
Proof using TL.
  unfold enroll_under. repeat (apply framed_bind; [apply calm_framed; calm_tac|intros ?]).
  match goal with x : bytes * TpmPublic |- _ => destruct x as [private public] end.
  repeat (apply framed_bind; [first [apply calm_framed; solve [calm_tac]|by apply framed_io, framed_write_verified]|intros ?]).
  apply calm_framed, calm_ret.
Qed.

Lemma framed_enroll path : framed (writer_files path) (tpm_enroll path).
Proof using TL CL.
  unfold tpm_enroll. do 4 (apply framed_bind; [apply calm_framed; calm_tac|intros ?]).
  apply framed_in_context, framed_with_parent. intros parent. apply framed_enroll_under.
Qed.

Lemma framed_enroll_credential path : framed (credential_files path) (tpm_enroll path).
Proof using TL CL.
  intros s w. eapply wp_mono; [apply framed_enroll|..]; cbn beta; intros;
    (eapply agree_off_weaken; [eassumption|]; intros p Hp; right; by left).
Qed.

Lemma tpm_authorizer_laws : @PlatformAuthorizerLaws Authorizer tpm_authorizer credential_files.
Proof using TL CL.
  split; cbn.
  - intros. apply framed_frame, calm_framed, calm_sign.
  - intros. apply framed_frame, calm_framed, calm_lift.
  - intros p. apply framed_frame. unfold tpm_open_or_create. apply framed_bind; [apply calm_framed, calm_exists|].
    intros []; [|apply framed_enroll_credential]. apply framed_bind; [apply calm_framed, calm_try, calm_load_registry|].
    intros [registry|e]; [apply calm_framed, calm_ret|]. apply framed_bind; [apply framed_quarantine|]. intros _. apply framed_enroll_credential.
  - intros p. apply framed_frame, calm_framed. unfold tpm_open_existing. apply calm_bind; [apply calm_load_registry|]. intros r. apply calm_ret.
  - intros a e p. apply framed_frame. unfold tpm_recover. destruct (negb _); [apply calm_framed, calm_ret|].
    apply framed_bind; [apply framed_quarantine|]. intros _. apply framed_bind; [apply framed_enroll_credential|]. intros r. apply calm_framed, calm_ret.
Qed.
End AuthorizerLaws.

(** The run signed [payload] and the user gave the PIN for it. *)
Definition pin_approved `{T : Tss, TL : !TssLaws, HE : HostEnv, CO : Commands, EC : EcdsaP256, SH : Sha256, UT : UuidText}
    (self : Authorizer) (payload : CapabilityPayload) (w w' : World) : Prop :=
  pin_given self w w' /\ exists signed, tpm_sign_capability self payload tt w = Done signed tt w'.

#[export] Instance tpm_user_verification `{T : Tss, TL : !TssLaws, HE : HostEnv, CO : Commands, CL : !CommandsLaws,
    EC : EcdsaP256, SH : Sha256, UT : UuidText, JR : Serde CredentialRegistry} :
  @UserVerification Authorizer tpm_authorizer pin_approved.
Proof.
  intros self payload w c w' Hrun. pose proof (wp_sign self payload w) as Hwp. unfold wp in Hwp.
  cbn [sign tpm_authorizer] in Hrun. rewrite Hrun in Hwp. destruct Hwp as (Hp & _ & _ & Hg). split; [done|].
  split; [done|]. by exists c.
Qed.

(** ** Enrollment *)

Section EnrollLaws.
Context `{T : Tss, TL : !TssLaws, HE : HostEnv, CO : Commands, CL : !CommandsLaws, EC : EcdsaP256, SH : Sha256,
  UT : UuidText, JR : Serde CredentialRegistry, JL : !SerdeLaws CredentialRegistry}.

Definition choose_prompt : string :=
  "Choose a PIN for FURSOY Vault (at least " +:+ pretty MINIMUM_PIN_LENGTH +:+ " characters)".
Definition confirm_prompt : string := "Enter the same PIN again to confirm".

(** The user chose [pin] from [w] on: typed it at the first prompt and at the second. *)
Definition chosen (pin : string) (w : World) : Prop := exists w1 w2,
  prompt_pin choose_prompt tt w = Done pin tt w1 /\ prompt_pin confirm_prompt tt w1 = Done pin tt w2.

(** The registry of a credential is stored at [path]. *)
Definition stored_registry (path : Path) (registry : CredentialRegistry) (w : World) : Prop :=
  cr_version registry = 1 /\ exists content, file_at w path = Some content /\ from_slice content = Ok registry.

Lemma signing_template_ecc public :
  signing_key_template = Ok public -> exists point, public_ecc public = Some (signing_attributes, point).
Proof using TL.
  unfold signing_key_template, from_tss. intros H. res_inv H.
  match goal with H : build_attributes _ = Ok _ |- _ => apply built_attributes in H as -> end.
  by apply built_ecc in H.
Qed.

Lemma wp_enroll_under path pin parent c w :
  wp (enroll_under path pin parent)
     (fun a _ w' => stored_registry path (az_registry a) w' /\ unlocked (az_registry a) pin)
     (fun _ _ _ => True) (fun _ => True) c w.
Proof using TL JL.
  unfold enroll_under, auth_from, tpm_buffer. apply wp_bind, wp_lift. destruct (buffer_fits AuthBuffer _); [|done].
  apply wp_bind, wp_lift. destruct signing_key_template as [template|] eqn:Ht; [|done].
  apply signing_template_ecc in Ht as [p0 Ht].
  apply wp_bind. eapply wp_tss; [apply create_call| |done|done]. intros [priv pub] c1 w1 _ Hc.
  destruct (Hc _ _ eq_refl) as (Hfit & _ & Hacc & Hecc). destruct (Hecc _ _ Ht) as [[x y] Hpub].
  apply wp_bind, wp_lift. unfold public_key_point. rewrite Hpub.
  apply wp_bind, wp_lift. destruct (public_marshall pub) as [pb|] eqn:Hpb; cbn [from_tss map_err]; [|done].
  apply wp_bind, wp_lift. destruct (to_vec _) as [b|] eqn:Hb; [|done]. apply from_slice_to_vec in Hb.
  apply wp_bind, wp_io, wp_write_verified_pure; [|done..]. intros w2 _ Hf _. apply wp_ret. cbn [az_registry]. split.
  - split; [done|]. by exists b.
  - exists priv, pub, signing_attributes, (x, y). split_and!; [|done..|by apply Hacc].
    unfold registry_areas. cbn [cr_private_hex cr_public_hex]. rewrite !hex_round_trip. cbn [mbind result_bind].
    unfold tpm_buffer. rewrite Hfit. cbn [mbind result_bind]. rewrite (unmarshall_marshall _ _ Hpb).
    cbn [map_err mbind result_bind]. unfold assert_requires_auth. by rewrite Hpub.
Qed.

Lemma wp_enroll path w :
  wp (tpm_enroll path)
     (fun a _ w' => stored_registry path (az_registry a) w' /\
        exists pin, chosen pin w /\ MINIMUM_PIN_LENGTH <= chars_count pin /\
          unlocked (az_registry a) pin)
     (fun _ _ _ => True) (fun _ => True) tt w.
Proof using TL CL JL.
  unfold tpm_enroll. apply wp_bind. eapply wp_mono; [apply wp_track, prompt_prompt_pin|cbn beta..]; [|done|done].
  intros pin [] w1 (H1 & _ & _). apply wp_bind, wp_guard_not. destruct (N.ltb_spec (chars_count pin) MINIMUM_PIN_LENGTH) as [|Hl]; [done|].
  apply wp_bind. eapply wp_mono; [apply wp_track, prompt_prompt_pin|cbn beta..]; [|done|done].
  intros confirmation [] w2 (H2 & _ & _). apply wp_bind, wp_guard_not.
  destruct (String.eqb_spec pin confirmation) as [<-|]; cbn [negb]; [|done].
  apply wp_in_context; [|done..]. intros _ c w3 _.
  set (Q := fun (a : Authorizer) (w' : World) => stored_registry path (az_registry a) w' /\
    exists pin, chosen pin w /\ MINIMUM_PIN_LENGTH <= chars_count pin /\
      unlocked (az_registry a) pin).
  apply (wp_with_parent _ Q (fun _ _ => True)); [|done..|].
  { intros a w4 w5 [Hfs _] [[Hv (content & Hf & Hr)] Hrest]. split; [|done]. split; [done|]. exists content.
    unfold file_at in *. by rewrite Hfs. }
  intros parent c1 w4 _. eapply wp_mono; [apply wp_enroll_under|cbn beta..]; [|done|done].
  intros a c2 w5 [Hs Hu]. split; [done|]. exists pin. split_and!; [by exists w1, w2|done|done].
Qed.

(** A stored registry opens, unless the reading fails. *)
Lemma wp_open_existing path registry w :
  stored_registry path registry w ->
  wp (tpm_open_existing path) (fun a _ w' => a = mkAuthorizer registry /\ untouched w w')
     (fun e _ w' => (exists k, e = Io k) /\ untouched w w') (untouched w) tt w.
Proof using Type.
  intros [Hv (content & Hf & Hr)]. unfold tpm_open_existing, load_registry.
  apply wp_bind, wp_bind, wp_fs_read; [|intros; split; [by eexists|done]|split; [by eexists|done]|done].
  intros b Hb. rewrite Hf in Hb. injection Hb as <-. rewrite Hr. apply wp_bind, wp_lift, wp_bind, wp_guard_not. by rewrite Hv.
Qed.
End EnrollLaws.

(** An enrolled credential can be used again, and requires the PIN: when
    [tpm_enroll] succeeds, the user typed the same PIN of at least four characters
    twice; the stored credential is a signing key that requires authorization and
    that the TPM unlocks with this PIN; and as long as the registry's file stays,
    a later start of the host opens the same credential, or fails with an I/O
    error. The only files that change, also when it fails, are the registry and
    its temporary file. *)
Theorem enrolled_credential_opens `{T : Tss, TL : !TssLaws, HE : HostEnv, CO : Commands, CL : !CommandsLaws,
    SH : Sha256, UT : UuidText, JR : Serde CredentialRegistry, JL : !SerdeLaws CredentialRegistry} path w :
  wp (tpm_enroll path)
     (fun a _ w' => agree_off (writer_files path) w w' /\
        (exists pin, chosen pin w /\ MINIMUM_PIN_LENGTH <= chars_count pin /\
           unlocked (az_registry a) pin) /\
        forall w2, file_at w2 path = file_at w' path ->
          wp (tpm_open_existing path) (fun b _ w3 => b = a /\ untouched w2 w3)
             (fun e _ w3 => (exists k, e = Io k) /\ untouched w2 w3) (untouched w2) tt w2)
     (fun _ _ w' => agree_off (writer_files path) w w') (agree_off (writer_files path) w) tt w.
Proof.
  eapply wp_mono; [eapply wp_and; [apply framed_enroll|apply wp_enroll]|cbn beta..]; [|tauto..].
  intros [registry] [] w1 (Ha & [Hv Hs] & Hp). split_and!; [done..|]. intros w2 Hw2.
  apply wp_open_existing. split; [done|]. by rewrite Hw2.
Qed.

(** ** Examples *)

Definition codec_registry : Codec CredentialRegistry.
Proof.
  refine (codec_iso
    (fun r => (cr_version r, (cr_private_hex r, (cr_public_hex r, (cr_public_key_x_hex r, cr_public_key_y_hex r)))))
    (fun '(a, (b, (c, (d, e)))) => mkRegistry a b c d e) _
    (codec_pair codec_N (codec_pair codec_string (codec_pair codec_string (codec_pair codec_string codec_string))))).
  by intros [].
Defined.

(** A user who types 1234 whenever asked, and a verification that matches the
    signatures of the toy TPM. *)
Definition toy_commands : Commands := fun _ _ =>
  mret (Some (true, [Byte.x31; Byte.x32; Byte.x33; Byte.x34; Byte.x0a])).

Lemma toy_commands_laws : @CommandsLaws toy_commands.
Proof. by intros p args w. Qed.

Definition toy_p256 : EcdsaP256 := {|
  p256_key_valid _ := true;
  p256_signature_valid _ := true;
  p256_verify _ m s := bool_decide (s = @sha256 toy_sha256 m ++ @sha256 toy_sha256 m);
|}.

Section AuthorizerExample.
#[local] Existing Instances toy_tss toy_tss_laws toy_commands toy_commands_laws toy_p256 toy_sha256 toy_uuid_text.
#[local] Instance authorizer_env : HostEnv := {| env_tcti := None; env_wayland := true; env_display := false |}.
#[local] Instance toy_registry : Serde CredentialRegistry := codec_json codec_registry.
#[local] Instance toy_registry_laws : SerdeLaws CredentialRegistry := codec_json_laws codec_registry.

Definition credential_path : Path := ["d"; "hello-credential.json"].
Definition authorizer_world : World :=
  mkWorld {[ [] := Dir; ["d"] := Dir ]} 0 (mkEnv (fun _ => NoFault) (fun n => N.of_nat n) (fun _ => 1700000000000)).

Lemma enrolled_credential_opens_witness :
  wp (tpm_enroll credential_path)
     (fun a _ w' => agree_off (writer_files credential_path) authorizer_world w' /\
        (exists pin, chosen pin authorizer_world /\ MINIMUM_PIN_LENGTH <= chars_count pin /\
           unlocked (az_registry a) pin) /\
        forall w2, file_at w2 credential_path = file_at w' credential_path ->
          wp (tpm_open_existing credential_path) (fun b _ w3 => b = a /\ untouched w2 w3)
             (fun e _ w3 => (exists k, e = Io k) /\ untouched w2 w3) (untouched w2) tt w2)
     (fun _ _ w' => agree_off (writer_files credential_path) authorizer_world w')
     (agree_off (writer_files credential_path) authorizer_world) tt authorizer_world.
Proof. exact (enrolled_credential_opens credential_path authorizer_world). Defined.

(** Enrolling and signing, step by step: the run of the example does both. *)
Definition example_run : IO bytes :=
  a ← tpm_enroll credential_path;
  signed ← tpm_sign_capability a (mkCapabilityPayload 77 CapOp.Inject 1700000060000 1 (be_bytes 32 9));
  mret (sc_signature signed).

Lemma example_run_signs :
  match example_run tt authorizer_world with Done s _ _ => length s = 64%nat | _ => False end.
Proof. vm_compute. reflexivity. Qed.

Definition example_authorizer : Authorizer :=
  match tpm_enroll credential_path tt authorizer_world with
  | Done a _ _ => a
  | _ => mkAuthorizer (mkRegistry 0 "" "" "" "")
  end.

Lemma signature_needs_pin_witness :
  let payload := mkCapabilityPayload 77 CapOp.Inject 1700000060000 1 (be_bytes 32 9) in
  wp (tpm_sign_capability example_authorizer payload)
     (fun signed _ w' => untouched authorizer_world w' /\ sc_payload signed = payload /\ sc_proof_context signed = [] /\
        tpm_verify_signature example_authorizer signed = Ok tt /\ pin_given example_authorizer authorizer_world w')
     (fun e _ w' => untouched authorizer_world w' /\ (e = unusable ->
        credential_unusable (az_registry example_authorizer) authorizer_world w'))
     (untouched authorizer_world) tt authorizer_world.
Proof. exact (signature_needs_pin example_authorizer _ authorizer_world). Defined.
End AuthorizerExample.
