(* ===== verification/PinPrototype.v ===== *)
(** * src/poc/linux-authorizer/src/main.rs: the prototype of the PIN-gated key

    A program of its own, older than AuthorizerTpm and made to answer whether a TPM
    key behind a PIN can do what the authorizer of the host has to do. It keeps one
    registry file, has the commands enroll, sign, verify and selftest, and reports
    on the terminal. Its errors are boxed: they are written with the constructor of
    [FcpError] that carries the same error, and a text is [Format]. *)

From S2P Require Import Prelude World External Examples AtomicFile Frames Handles Config Messages VaultFormat Capability AuditLog AuditChain Webauthn Tpm KekTpm AuthorizerTpm.

Record Registry := mkRegistryFile {
  rg_version : N;
  rg_private_hex : string;
  rg_public_hex : string;
  rg_public_key_x_hex : string;
  rg_public_key_y_hex : string;
}.

(** What the program takes from its surroundings: the environment variables, and
    the texts and errors of foreign code that reach its terminal. *)
Class ProtoEnv `{T : Tss} := {
  env_tpm2tools_tcti : option string;
  env_plain_tcti : option string;
  env_registry : option Path;
  env_temp_dir : Path;
  (** [TctiNameConf::from_str], and [try_from] of a buffer that is too long. *)
  tcti_error : TssError;
  buffer_error : TssError;
  (** [Display] of a boxed error and of a path. *)
  failure_text : FcpError -> string;
  path_text : Path -> string;
}.

(** serde_json on the registry: [to_vec_pretty] and [from_slice]. *)
Class RegistryJson := {
  registry_to_vec_pretty : Registry -> FcpResult bytes;
  registry_from_slice : bytes -> FcpResult Registry;
}.

(** The lines on the terminal. *)
Abbreviation Screen := (list string).
Definition say (line : string) : M Screen unit := modify (fun lines => lines ++ [line]).

Definition failure (text : string) : FcpError := Format text.

(** [unhex]: slicing inside a character panics. *)
Definition hex_parse_error : FcpError := failure "invalid digit found in string".

Fixpoint unhex_slots {S} (value : bytes) : M S bytes :=
  match value with
  | a :: b :: rest =>
      _ ← unwrap (match rest with c :: _ => if is_continuation c then None else Some tt | [] => Some tt end);
      x ← ok_or_throw (radix16 a b) hex_parse_error;
      tail ← unhex_slots rest;
      mret (u8_of_N x :: tail)
  | _ => mret []
  end.

Definition proto_unhex {S} (text : string) : M S bytes :=
  _ ← guard_not (negb (str_len text mod 2 =? 0)) (failure "hex string has an odd length");
  unhex_slots (list_byte_of_string text).

(** [require]. *)
Definition require_arg (value : option string) (usage : string) : FcpResult string :=
  ok_or value (failure ("usage: linux-authorizer " +:+ usage)).

Section Prototype.
Context `{T : Tss, PE : !ProtoEnv, EC : EcdsaP256, SH : Sha256, RJ : RegistryJson}.

(** [registry_path], [load_registry]. *)
Definition registry_path : Path := default (path_join env_temp_dir "linux-authorizer-credential.json") env_registry.

Definition proto_load_registry (path : Path) : IO Registry :=
  b ← fs_read path;
  registry ← lift (registry_from_slice b);
  _ ← guard_not (negb (rg_version registry =? 1)) (failure "unsupported registry version");
  mret registry.

(** [X::try_from(bytes)?] of a TPM buffer. *)
Definition proto_buffer (kind : TpmBuffer) (b : bytes) : FcpResult bytes :=
  tpm_buffer kind b (Tpm (tss_code buffer_error)).

(** [open_context]. *)
Definition proto_tcti : string :=
  match env_tpm2tools_tcti, env_plain_tcti with
  | Some tcti, _ => tcti
  | None, Some tcti => tcti
  | None, None => "device:/dev/tpmrm0"
  end.

Definition proto_open_context : IO TpmContext :=
  _ ← guard_not (negb (tcti_valid proto_tcti)) (Tpm (tss_code tcti_error));
  tss (context_new proto_tcti).

(** [create_parent]: as in the host, but under the dictionary-attack protection. *)
Definition proto_parent_attributes : ObjectAttributes := mkAttributes true true true true true true false false.

Definition proto_create_parent : M TpmContext KeyHandle :=
  attributes ← lift (from_tss (build_attributes proto_parent_attributes));
  public ← lift (from_tss (build_public (EccTemplate attributes EccNull false true true true)));
  tss (tpm_create_primary public).

(** The context and the parent of [enroll] and [sign]. *)
Definition proto_with_parent {A} (body : KeyHandle -> M TpmContext A) : M TpmContext A :=
  parent ← proto_create_parent;
  with_flush parent (body parent).

Definition proto_session {A} (body : KeyHandle -> M TpmContext A) : IO A :=
  in_opened proto_open_context (proto_with_parent body).

(** [signing_key_template]. *)
Definition proto_signing_template : FcpResult TpmPublic :=
  attributes ← from_tss (build_attributes (mkAttributes true true true true false false true false));
  from_tss (build_public (EccTemplate attributes EcDsaSha256 true false false false)).

(** [assert_requires_auth], [public_key_point], [raw_signature]. *)
Definition proto_requires_auth (public : TpmPublic) : FcpResult unit :=
  match public_ecc public with
  | None => Err (failure "stored key is not an ECC key")
  | Some (attributes, _) =>
      _ ← guard_err (negb (user_with_auth attributes))
            (failure "stored key does not require its authValue; refusing to sign");
      guard_err (negb (sign_encrypt attributes)) (failure "stored key is not a signing key")
  end.

Definition proto_public_key_point (public : TpmPublic) : FcpResult (bytes * bytes) :=
  match public_ecc public with
  | Some (_, (x, y)) => Ok (pad32 x, pad32 y)
  | None => Err (failure "created key is not an ECC key")
  end.

Definition proto_raw_signature (signature : option (bytes * bytes)) : FcpResult bytes :=
  match signature with
  | Some (r, s) => Ok (pad32 r ++ pad32 s)
  | None => Err (failure "TPM returned a non-ECDSA signature")
  end.

(** [enroll]. *)
Definition proto_enroll_under (registry_path : Path) (pin : string) (parent : KeyHandle) : M TpmContext unit :=
  auth ← lift (proto_buffer AuthBuffer (list_byte_of_string pin));
  template ← lift proto_signing_template;
  created ← tss (tpm_create parent template (Some auth) None);
  let '(private, public) := (created : bytes * TpmPublic) in
  point ← lift (proto_public_key_point public);
  public_bytes ← lift (from_tss (public_marshall public));
  b ← lift (registry_to_vec_pretty (mkRegistryFile 1 (encode_hex private) (encode_hex public_bytes)
              (encode_hex (fst (point : bytes * bytes))) (encode_hex point.2)));
  io (fs_write registry_path b).

Definition proto_enroll (registry_path : Path) (pin : string) : IO unit :=
  proto_session (proto_enroll_under registry_path pin).

(** [sign]. *)
Definition proto_sign_with (pin : string) (payload : bytes) (key : KeyHandle) : M TpmContext bytes :=
  auth ← lift (proto_buffer AuthBuffer (list_byte_of_string pin));
  _ ← tss (tpm_set_auth key auth);
  digest ← lift (proto_buffer DigestBuffer (sha256 payload));
  _ ← lift (from_tss hashcheck_ticket);
  signature ← tss (tpm_sign key digest);
  lift (proto_raw_signature signature).

Definition proto_sign_under (registry : Registry) (pin : string) (payload : bytes) (parent : KeyHandle) : M TpmContext bytes :=
  private_bytes ← proto_unhex (rg_private_hex registry);
  private ← lift (proto_buffer PrivateBuffer private_bytes);
  public_bytes ← proto_unhex (rg_public_hex registry);
  public ← lift (from_tss (public_unmarshall public_bytes));
  _ ← lift (proto_requires_auth public);
  key ← tss (tpm_load parent private public);
  with_flush key (proto_sign_with pin payload key).

Definition proto_sign (registry_path : Path) (pin : string) (payload : bytes) : IO bytes :=
  registry ← proto_load_registry registry_path;
  proto_session (proto_sign_under registry pin payload).

(** [verify]. *)
Definition proto_verify (registry_path : Path) (payload signature : bytes) : IO unit :=
  registry ← proto_load_registry registry_path;
  x ← proto_unhex (rg_public_key_x_hex registry);
  y ← proto_unhex (rg_public_key_y_hex registry);
  let sec1 := Byte.x04 :: x ++ y in
  _ ← guard_not (negb (p256_key_valid sec1)) (failure "signature error");
  _ ← guard_not (negb (p256_signature_valid signature)) (failure "signature error");
  guard_not (negb (p256_verify sec1 payload signature)) (failure "signature did not verify").

(** The closure [check] of [selftest], on the terminal and the flag [failed]. *)
Record SelfTest := mkSelfTest { st_screen : Screen; st_failed : bool }.

Definition check (name : string) (passed : bool) : M SelfTest unit :=
  modify (fun s => mkSelfTest (st_screen s ++ ["    " +:+ (if passed then "PASS" else "FAIL") +:+ "  " +:+ name]%string)
                     (if passed then st_failed s else true)).

Definition print_line (line : string) : M SelfTest unit :=
  modify (fun s => mkSelfTest (st_screen s ++ [line]) (st_failed s)).

Definition TEST_PIN : string := "482913".
Definition WRONG_PIN : string := "000000".
Definition test_payload : bytes := list_byte_of_string "capability-payload-bytes".
Definition tampered_payload : bytes := list_byte_of_string "tampered-payload-bytes!!".

(** [selftest]. *)
Definition selftest_checks (registry_path : Path) : M SelfTest unit :=
  _ ← io (try_ (fs_remove_file registry_path));
  enrolled ← io (try_ (proto_enroll registry_path TEST_PIN));
  _ ← check "enrolls a PIN-gated key" (is_ok enrolled);
  signature ← io (try_ (proto_sign registry_path TEST_PIN test_payload));
  _ ← check "signs with the correct PIN" (is_ok signature);
  _ ← match signature with
      | Ok b =>
          _ ← check "signature is 64 raw bytes" (len b =? 64);
          verified ← io (try_ (proto_verify registry_path test_payload b));
          _ ← check "signature verifies" (is_ok verified);
          tampered ← io (try_ (proto_verify registry_path tampered_payload b));
          check "tampered payload is rejected" (negb (is_ok tampered))
      | Err error => print_line ("      signing failed: " +:+ failure_text error)
      end;
  wrong ← io (try_ (proto_sign registry_path WRONG_PIN test_payload));
  _ ← check "wrong PIN is refused" (negb (is_ok wrong));
  _ ← print_line "";
  self ← get;
  _ ← guard_not (st_failed self) (failure "selftest failed");
  print_line "TPM+PIN satisfies the authorizer contract".

Definition selftest (registry_path : Path) : M Screen unit :=
  zoom (fun lines => mkSelfTest lines false) (fun s _ => st_screen s) (selftest_checks registry_path).

(** [run] and [main]: the arguments after the program's name; the exit code and
    what is on the error stream. *)
Definition proto_run (args : list string) : M Screen unit :=
  let command := default "selftest"%string (args !! 0%nat) in
  if String.eqb command "enroll" then
    pin ← lift (require_arg (args !! 1%nat) "enroll <pin>");
    _ ← io (proto_enroll registry_path pin);
    say ("enrolled -> " +:+ path_text registry_path)
  else if String.eqb command "sign" then
    pin ← lift (require_arg (args !! 1%nat) "sign <pin> <payload>");
    payload ← lift (require_arg (args !! 2%nat) "sign <pin> <payload>");
    signature ← io (proto_sign registry_path pin (list_byte_of_string payload));
    say (encode_hex signature)
  else if String.eqb command "verify" then
    payload ← lift (require_arg (args !! 1%nat) "verify <payload> <signature-hex>");
    signature ← lift (require_arg (args !! 2%nat) "verify <payload> <signature-hex>");
    decoded ← proto_unhex signature;
    _ ← io (proto_verify registry_path (list_byte_of_string payload) decoded);
    say "signature is valid"
  else if String.eqb command "selftest" then selftest registry_path
  else throw (failure ("unknown command " +:+ command)).

Definition proto_main (args : list string) : M Screen (N * option string) :=
  ended ← try_ (proto_run args);
  mret match ended with
       | Ok _ => (0, None)
       | Err error => (1, Some ("error: " +:+ failure_text error)%string)
       end.
End Prototype.

(** ** What the program relies on *)

Class RegistryJsonLaws `{RegistryJson} : Prop :=
  registry_from_pretty r b : registry_to_vec_pretty r = Ok b -> registry_from_slice b = Ok r.

Section Laws.
Context `{T : Tss, PE : !ProtoEnv, TL : !TssLaws, EC : EcdsaP256, SH : Sha256, RJ : RegistryJson, RL : !RegistryJsonLaws}.

Lemma proto_unhex_hex {S} b (s : S) w : proto_unhex (encode_hex b) s w = Done b s w.
Proof using Type.
  unfold proto_unhex. erewrite run_bind.
  2: { apply run_guard_not. rewrite str_len_encode_hex. apply negb_false_iff, N.eqb_eq. rewrite N.mul_comm. by apply N.Div0.mod_mul. }
  induction b as [|x b IH]; [done|]. cbn [encode_hex].
  destruct (hex_pair_byte x) as (a & c & -> & Ha & Hr). cbn [unhex_slots].
  erewrite run_bind with (a := tt) (s' := s) (w' := w).
  2: { destruct (list_byte_of_string (encode_hex b)) as [|d rest] eqn:Hd; [done|]. by rewrite (hex_no_continuation _ _ _ Hd). }
  rewrite Hr. erewrite run_bind by done. erewrite run_bind by exact IH. cbn. by rewrite u8_of_N_to_N.
Qed.

Lemma wp_unhex_hex {S} b (Q : bytes -> S -> World -> Prop) E C s w : Q b s w -> wp (proto_unhex (encode_hex b)) Q E C s w.
Proof using Type. intros HQ. unfold wp. by rewrite proto_unhex_hex. Qed.

Lemma calm_proto_open_context : calm proto_open_context.
Proof using TL.
  unfold proto_open_context. apply calm_bind; [apply calm_guard|]. intros _. apply calm_bind; [|intros; apply calm_lift].
  intros [] w. eapply wp_mono; [apply context_call|..]; done.
Qed.

Lemma calm_proto_create_parent : calm proto_create_parent.
Proof using TL. unfold proto_create_parent. calm_tac. Qed.

(** A session around a body: only the files of the host and what the body says of
    its result can be known of it. *)
Lemma wp_proto_session {A} (body : KeyHandle -> M TpmContext A) (Q : A -> World -> Prop) (E C : World -> Prop) w :
  (forall a w1 w2, untouched w1 w2 -> Q a w1 -> Q a w2) -> (forall w1 w2, untouched w1 w2 -> E w1 -> E w2) ->
  (forall a w1, Q a w1 -> E w1) -> (forall w1, E w1 -> C w1) -> E w ->
  (forall h c w', E w' -> wp (body h) (fun a _ => Q a) (fun _ _ => E) C c w') ->
  wp (proto_session body) (fun a _ => Q a) (fun _ _ => E) C tt w.
Proof using TL.
  intros HQ HE HQE HEC Hw Hb. unfold proto_session, in_opened, proto_with_parent. apply wp_bind.
  eapply wp_mono; [apply calm_proto_open_context|cbn beta..]; [|intros _ [] w1 H1; by eapply HE|intros w1 H1; by eapply HEC, HE].
  intros c [] w1 H1. apply wp_bind, wp_with_local, wp_bind.
  eapply wp_mono; [apply calm_proto_create_parent|cbn beta..].
  - intros h c2 w2 H2. eapply wp_mono; [eapply (wp_with_flush h (body h) Q (fun _ => E) C)|cbn beta..].
    + exact HQ.
    + intros _. exact HE.
    + intros a w3 w4 H3 Ha. apply HEC. eapply HE; [exact H3|by eapply HQE].
    + intros _ w3 w4 H3 He. apply HEC. by eapply HE.
    + apply Hb. eapply HE; [exact H2|by eapply HE].
    + intros a c3 w3 H3. by apply wp_ret.
    + intros e c3 w3 H3. by apply wp_throw.
    + done.
  - intros e c2 w2 H2. apply wp_throw. eapply HE; [exact H2|by eapply HE].
  - intros w2 H2. apply HEC. eapply HE; [exact H2|by eapply HE].
Qed.

Lemma proto_template_ecc public :
  proto_signing_template = Ok public ->
  exists point, public_ecc public = Some (mkAttributes true true true true false false true false, point).
Proof using TL.
  unfold proto_signing_template, from_tss. intros H. res_inv H.
  match goal with H : build_attributes _ = Ok _ |- _ => apply built_attributes in H as -> end.
  by apply built_ecc in H.
Qed.

(** The registry file at [path] holds this key. *)
Definition stored_key (path : Path) (private : bytes) (public : TpmPublic) (w : World) : Prop :=
  exists b registry public_bytes, file_at w path = Some b /\ registry_from_slice b = Ok registry /\ rg_version registry = 1 /\
    rg_private_hex registry = encode_hex private /\ rg_public_hex registry = encode_hex public_bytes /\
    public_unmarshall public_bytes = Ok public.

(** A signing key that needs its authorization value, of which [pin] is one. *)
Definition gated_key (private : bytes) (public : TpmPublic) (pin : string) : Prop :=
  exists attributes point, public_ecc public = Some (attributes, point) /\ user_with_auth attributes = true /\
    sign_encrypt attributes = true /\ buffer_fits PrivateBuffer private = true /\
    accepts private public (list_byte_of_string pin).

Lemma wp_proto_enroll path pin w :
  wp (proto_enroll path pin)
     (fun _ _ w' => agree_off (eq path) w w' /\ exists private public, stored_key path private public w' /\ gated_key private public pin)
     (fun _ _ w' => agree_off (eq path) w w') (agree_off (eq path) w) tt w.
Proof using TL RL.
  apply (wp_proto_session _ (fun _ w' => agree_off (eq path) w w' /\ exists private public,
    stored_key path private public w' /\ gated_key private public pin) (agree_off (eq path) w)); try done.
  - intros _ w1 w2 Hu (Ha & private & public & (b & r & pb & Hf & Hrest) & Hg).
    split; [eapply agree_off_trans; [exact Ha|by apply untouched_frame]|]. exists private, public. split; [|done].
    exists b, r, pb. split; [|done]. unfold file_at in *. by rewrite (proj1 Hu).
  - intros w1 w2 Hu Ha. eapply agree_off_trans; [exact Ha|by apply untouched_frame].
  - by intros _ w1 [].
  - intros parent c w0 H0.
    assert (Hstep : forall w', untouched w0 w' -> agree_off (eq path) w w').
    { intros w' Hu. eapply agree_off_trans; [exact H0|by apply untouched_frame]. }
    unfold proto_enroll_under, proto_buffer, tpm_buffer.
    apply wp_bind, wp_lift. destruct (buffer_fits AuthBuffer _); [|done].
    apply wp_bind, wp_lift. destruct proto_signing_template as [template|] eqn:Hpub; [|done].
    apply proto_template_ecc in Hpub as (point0 & Hecc0).
    apply wp_bind. eapply wp_tss; [apply create_call| |by intros; apply Hstep|done].
    intros [private public] c1 w1 H1 Hcreated. destruct (Hcreated _ _ eq_refl) as (Hfits & _ & Hacc & Hpoint).
    destruct (Hpoint _ _ Hecc0) as (point & Hecc).
    apply wp_bind, wp_lift. unfold proto_public_key_point. rewrite Hecc. destruct point as [x y].
    apply wp_bind, wp_lift. destruct (public_marshall public) as [public_bytes|] eqn:Hm; cbn [from_tss map_err]; [|by apply Hstep].
    apply wp_bind, wp_lift. destruct (registry_to_vec_pretty _) as [b|] eqn:Hb; [|by apply Hstep].
    apply wp_io, wp_fs_write.
    + intros w2 H2 Hf. split; [eapply agree_off_trans; [by apply Hstep|done]|]. exists private, public. split.
      * eexists b, _, public_bytes. split_and!; [done|by apply registry_from_pretty|done..|by apply unmarshall_marshall].
      * eexists _, _. by split_and!; [done..|apply Hacc].
    + intros e w2 H2. eapply agree_off_trans; [by apply Hstep|done].
    + intros w2 H2. eapply agree_off_trans; [by apply Hstep|done].
Qed.

Lemma wp_proto_sign_with pin payload key private public attributes point c w :
  names c key = Some (private, public) -> public_ecc public = Some (attributes, point) -> user_with_auth attributes = true ->
  wp (proto_sign_with pin payload key)
     (fun _ _ w' => untouched w w' /\ accepts private public (list_byte_of_string pin)) (fun _ _ w' => untouched w w') (untouched w) c w.
Proof using TL.
  intros Hn Hecc Hauth. unfold proto_sign_with, proto_buffer, tpm_buffer.
  apply wp_bind, wp_lift. destruct (buffer_fits AuthBuffer _); [|done].
  apply wp_bind. eapply wp_tss; [apply set_auth_call| |done|done].
  intros [] c1 w1 H1 Hset. destruct (Hset eq_refl) as [Hn1 Ha1].
  apply wp_bind, wp_lift. destruct (buffer_fits DigestBuffer _); [|done].
  apply wp_bind, wp_lift. destruct hashcheck_ticket as [[]|]; cbn [from_tss map_err]; [|done].
  apply wp_bind. eapply wp_tss; [apply sign_call| | |].
  - intros s c2 w2 H2 Hs. rewrite Hn in Hn1. destruct (Hs _ _ _ _ _ eq_refl Hn1 Hecc Hauth) as (a & Ha & Hacc).
    assert (Hu : untouched w w2) by (by eapply untouched_trans).
    assert (a = list_byte_of_string pin) as -> by congruence. apply wp_lift. by destruct s as [[]|].
  - intros e c2 w2 H2. by eapply untouched_trans.
  - intros w2 H2. by eapply untouched_trans.
Qed.

Lemma wp_proto_sign path pin payload private public attributes point w :
  stored_key path private public w -> public_ecc public = Some (attributes, point) ->
  wp (proto_sign path pin payload)
     (fun _ _ w' => untouched w w' /\ user_with_auth attributes = true /\ accepts private public (list_byte_of_string pin))
     (fun _ _ w' => untouched w w') (untouched w) tt w.
Proof using TL.
  intros (b & registry & public_bytes & Hf & Hr & Hv & Hpriv & Hpub & Hu) Hecc. unfold proto_sign, proto_load_registry.
  apply wp_bind, wp_bind, wp_fs_read; [|by rewrite Hf|done|done]. rewrite Hf. intros b' [= <-].
  apply wp_bind, wp_lift. rewrite Hr. apply wp_bind, wp_guard_not. rewrite Hv. cbn [N.eqb negb Pos.eqb]. apply wp_ret.
  apply (wp_proto_session _ (fun _ w' => untouched w w' /\ user_with_auth attributes = true /\
    accepts private public (list_byte_of_string pin)) (untouched w)); try done.
  - intros _ w1 w2 H2 [H1 Hrest]. split; [by eapply untouched_trans|done].
  - intros w1 w2 H2 H1. by eapply untouched_trans.
  - by intros _ w1 [].
  - intros parent c w1 H1. unfold proto_sign_under, proto_buffer, tpm_buffer. rewrite Hpriv, Hpub.
    apply wp_bind, wp_unhex_hex, wp_bind, wp_lift. destruct (buffer_fits PrivateBuffer _); [|done].
    apply wp_bind, wp_unhex_hex, wp_bind, wp_lift. rewrite Hu. cbn [from_tss map_err].
    apply wp_bind, wp_lift. unfold proto_requires_auth. rewrite Hecc. unfold guard_err, mbind, result_bind.
    destruct (user_with_auth attributes) eqn:Hauth; cbn [negb]; [|done]. destruct (sign_encrypt attributes); cbn [negb]; [|done].
    apply wp_bind. eapply wp_tss; [apply load_call| | |].
    + intros key c2 w2 H2 Hn. assert (H12 : untouched w w2) by (by eapply untouched_trans).
      apply (wp_with_flush key _ (fun _ w' => untouched w w' /\ true = true /\ accepts private public (list_byte_of_string pin))
        (fun _ => untouched w)).
      * intros _ w3 w4 H4 [H3 Hrest]. split; [by eapply untouched_trans|done].
      * intros _ w3 w4 H4 H3. by eapply untouched_trans.
      * intros _ w3 w4 H4 [H3 _]. by eapply untouched_trans.
      * intros _ w3 w4 H4 H3. by eapply untouched_trans.
      * eapply wp_mono; [eapply wp_proto_sign_with; [by apply Hn|exact Hecc|exact Hauth]|cbn beta..].
        -- intros s c3 w3 [H3 Hacc]. split; [by eapply untouched_trans|done].
        -- intros e c3 w3 H3. by eapply untouched_trans.
        -- intros w3 H3. by eapply untouched_trans.
    + intros e c2 w2 H2. by eapply untouched_trans.
    + intros w2 H2. by eapply untouched_trans.
Qed.
End Laws.

(** ** Properties *)

(** C33: The prototype answers its question: whatever the TPM answers and whichever
    step fails, enrolling with one PIN and signing with another never panics and
    changes only the registry file; and if a signature comes out, it was made with
    the enrolled key, a signing key that needs its authorization value, which both
    PINs unlock: a wrong PIN gives no signature. *)
Theorem prototype_contract `{T : Tss, PE : !ProtoEnv, TL : !TssLaws, EC : EcdsaP256, SH : Sha256, RJ : RegistryJson,
    RL : !RegistryJsonLaws} path pin pin' payload w :
  wp (_ ← proto_enroll path pin; proto_sign path pin' payload)
     (fun _ _ w' => agree_off (eq path) w w' /\ exists private public, stored_key path private public w' /\
        gated_key private public pin /\ gated_key private public pin')
     (fun _ _ w' => agree_off (eq path) w w') (agree_off (eq path) w) tt w.
Proof.
  apply wp_bind. eapply wp_mono; [apply wp_proto_enroll|cbn beta..]; [|done|done].
  intros [] [] w1 (H1 & private & public & Hkey & Hgate). pose proof Hgate as (attributes & point & Hecc & Hauth & Hsign & Hfits & _).
  eapply wp_mono; [by eapply wp_proto_sign|cbn beta..].
  - intros signature [] w2 (H2 & _ & Hacc). split; [eapply agree_off_trans; [exact H1|by apply untouched_frame]|].
    exists private, public. split_and!; [|done|by exists attributes, point].
    destruct Hkey as (b & r & pb & Hf & Hrest). exists b, r, pb. split; [|done]. unfold file_at in *. by rewrite (proj1 H2).
  - intros e [] w2 H2. eapply agree_off_trans; [exact H1|by apply untouched_frame].
  - intros w2 H2. eapply agree_off_trans; [exact H1|by apply untouched_frame].
Qed.

(** Every handle is flushed on the way out, also on the error paths, and no more
    than two are held: the simulator's three slots are enough. *)
Theorem prototype_handles_flushed (T : Tss) `{PE : @ProtoEnv (traced T), SH : Sha256, RJ : RegistryJson} path pin registry payload :
  balanced 2 (proto_with_parent (T := traced T) (proto_enroll_under (T := traced T) path pin)) /\
  balanced 2 (proto_with_parent (T := traced T) (proto_sign_under (T := traced T) registry pin payload)).
Proof.
  assert (Hcreate : acquires all_valid (proto_create_parent (T := traced T))).
  { unfold proto_create_parent. apply acquires_lift_bind. intros a. apply acquires_lift_bind. intros p.
    apply (acquires_call all_valid (@tpm_create_primary T p) (@from_tss T _)); [|done]. by intros r h ?%map_err_Ok. }
  assert (Hunhex : forall text, balanced 1 (proto_unhex text : M (TpmContext * list HandleEvent) bytes)).
  { intros text. unfold proto_unhex. apply balanced_bind; [apply balanced_guard|]. intros _.
    generalize (list_byte_of_string text). intros b. induction b as [b IH] using (induction_ltof1 _ (@length byte)); unfold ltof in IH.
    destruct b as [|x [|y rest]]; cbn [unhex_slots]; [apply balanced_ret..|]. balanced_tac. apply IH. cbn. lia. }
  split; (apply (balanced_with_flush T); [done|]); intros parent.
  - unfold proto_enroll_under. balanced_tac.
  - unfold proto_sign_under. do 5 (apply balanced_bind; [first [apply Hunhex|apply balanced_lift]|intros ?]).
    apply (balanced_with_flush T 0).
    + apply (acquires_call all_valid (@tpm_load T _ _ _) (@from_tss T _)); [|done]. by intros r h ?%map_err_Ok.
    + intros key. unfold proto_sign_with. balanced_tac.
Qed.

(** [unhex] takes the text by bytes: a hexadecimal argument of even length with a
    character that is cut in two makes the program panic instead of reporting an
    error. *)
Theorem unhex_panics (w : World) : exists text, is_utf8 (list_byte_of_string text) = true /\ str_len text mod 2 = 0 /\
  proto_unhex text tt w = Panicked w.
Proof. exists "aéa"%string. by vm_compute. Qed.

(** ** Example *)

Section PrototypeExample.
#[local] Existing Instances toy_tss toy_tss_laws toy_p256 toy_sha256.
Definition proto_env : @ProtoEnv toy_tss := {|
  env_tpm2tools_tcti := None; env_plain_tcti := None; env_registry := None; env_temp_dir := ["tmp"]%string;
  tcti_error := 7; buffer_error := 8; failure_text _ := "error"%string; path_text _ := "path"%string |}.
#[local] Existing Instance proto_env.
Definition codec_proto_registry : Codec Registry :=
  codec_iso (fun r => (rg_version r, (rg_private_hex r, (rg_public_hex r, (rg_public_key_x_hex r, rg_public_key_y_hex r)))))
    (fun x => mkRegistryFile x.1 x.2.1 x.2.2.1 x.2.2.2.1 x.2.2.2.2) ltac:(by intros [])
    (codec_pair codec_N (codec_pair codec_string (codec_pair codec_string (codec_pair codec_string codec_string)))).
#[local] Instance proto_json : RegistryJson := {|
  registry_to_vec_pretty := @to_vec _ (codec_json codec_proto_registry);
  registry_from_slice := @from_slice _ (codec_json codec_proto_registry) |}.
#[local] Instance proto_json_laws : RegistryJsonLaws.
Proof. intros r b. apply codec_json_laws. Qed.

Definition proto_world : World :=
  mkWorld {[ [] := Dir; ["tmp"]%string := Dir ]} 0 (mkEnv (fun _ => NoFault) (fun n => N.of_nat n) (fun _ => 1700000000000)).

(** The self-test passes on the small TPM, with its six checks. *)
Example selftest_passes :
  match proto_main ["selftest"%string] [] proto_world with
  | Done (code, None) screen _ => code = 0 /\ length screen = 8%nat /\ list.last screen = Some "TPM+PIN satisfies the authorizer contract"%string
  | _ => False
  end.
Proof. vm_compute. auto. Qed.

Lemma prototype_contract_witness :
  wp (_ ← proto_enroll registry_path "482913"; proto_sign registry_path "482913" test_payload)
     (fun _ _ w' => agree_off (eq registry_path) proto_world w' /\ exists private public,
        stored_key registry_path private public w' /\ gated_key private public "482913" /\ gated_key private public "482913")
     (fun _ _ w' => agree_off (eq registry_path) proto_world w') (agree_off (eq registry_path) proto_world) tt proto_world.
Proof. exact (prototype_contract registry_path "482913" "482913" test_payload proto_world). Defined.
End PrototypeExample.
