(* ===== verification/LinuxBackends.v ===== *)
(** * The Linux backends together

    The three users of the TPM keep their promises: to the device, whose few
    slots they give back, and to the host, whose interfaces they implement. *)

From S2P Require Import Prelude World External Examples AtomicFile Config Messages VaultFormat Capability Webauthn Frames Handles Tpm LocalSecretTpm KekTpm AuthorizerTpm.

Section Slots.
Context (T : Tss).

Lemma balanced_with_flush_loaded room {A} (convert : Result TssError KeyHandle -> FcpResult KeyHandle) parent private public
    (body : KeyHandle -> M (TpmContext * list HandleEvent) A) :
  (forall r h, convert r = Ok h -> r = Ok h) -> (forall h, is_ok (convert (Ok h)) = true) ->
  (forall h, balanced room (body h)) ->
  balanced (S room) (key ← (r ← @tpm_load (traced T) parent private public; lift (convert r));
                     with_flush (T := traced T) key (body key)).
Proof.
  intros Hc Hok Hb. apply (balanced_with_flush T); [|done]. by apply (acquires_call all_valid).
Qed.

Lemma balanced_use_key room {A} (areas : bytes * TpmPublic) parent (operation : KeyHandle -> M (TpmContext * list HandleEvent) A) :
  (forall h, balanced room (operation h)) -> balanced (S room) (use_key (T := traced T) areas operation parent).
Proof.
  intros Ho. unfold use_key, tss. apply (balanced_with_flush_loaded _ (@from_tss T _)); [|done|done]. by intros r h ?%map_err_Ok.
Qed.

Lemma balanced_use_credential room {A} (areas : bytes * TpmPublic) parent (operation : KeyHandle -> M (TpmContext * list HandleEvent) A) :
  (forall h, balanced room (operation h)) -> balanced (S room) (use_credential (T := traced T) areas operation parent).
Proof.
  intros Ho. apply (balanced_with_flush_loaded _ (map_err (fun _ => unusable))); [|done|done]. by intros r h ?%map_err_Ok.
Qed.
End Slots.

(** The sessions of the backends: every block that runs with an open context. *)
Inductive session {T : Tss} `{HostEnv, Sha256, Serde KeyBlobs, Serde CredentialRegistry}
    : forall {A}, M TpmContext A -> Prop :=
  | S_protect data : session (with_parent (seal_under data))
  | S_unprotect private public : session (with_parent (unseal_under private public))
  | S_create path : session (with_parent (create_under path))
  | S_probe areas : session (with_parent (use_key areas (fun _ => mret tt)))
  | S_wrap areas dek : session (with_parent (use_key areas (wrap_operation dek)))
  | S_unwrap areas wrapped : session (with_parent (use_key areas (unwrap_operation wrapped)))
  | S_enroll path pin : session (with_parent (enroll_under path pin))
  | S_sign areas pin message : session (with_parent (use_credential areas (sign_operation pin message)))
  | S_lockout : session (counter ← read_property LockoutCounter; maximum ← read_property MaxAuthFail;
                         mret (lockout_of counter maximum)).

(** C20: The slots of the TPM are given back: whatever the TPM answers and
    whichever step fails, each session of the three backends flushes every handle
    it acquired, exactly once and in the reverse order, and never holds more than
    two at a time. *)
Theorem every_handle_flushed (T : Tss) `{HE : HostEnv, SH : Sha256, JK : Serde KeyBlobs, JR : Serde CredentialRegistry}
    {A} (m : M (TpmContext * list HandleEvent) A) c w :
  session (T := traced T) m ->
  match m (c, []) w with
  | Done _ (_, events) _ | Failed _ (_, events) _ => brackets 2 [] events = Some []
  | Panicked _ | Crashed _ => True
  end.
Proof.
  intros Hs. assert (Hb : balanced 2 m).
  { destruct Hs.
    all: try (apply (balanced_with_parent T); intros parent).
    - unfold seal_under. balanced_tac.
    - unfold unseal_under, tss. apply (balanced_with_flush_loaded T 0 (@from_tss T _)); [|done|]; [by intros r h ?%map_err_Ok|].
      intros h. balanced_tac.
    - unfold create_under. balanced_tac.
    - apply (balanced_use_key T 0). intros h. balanced_tac.
    - apply (balanced_use_key T 0). intros h. unfold wrap_operation. balanced_tac.
    - apply (balanced_use_key T 0). intros h. unfold unwrap_operation. balanced_tac.
    - unfold enroll_under. balanced_tac.
    - apply (balanced_use_credential T 0). intros h. unfold sign_operation. balanced_tac.
    - unfold read_property. balanced_tac. }
  specialize (Hb (c, []) w). unfold returns in Hb.
  destruct (m (c, []) w) as [a [c' ev] w'|e [c' ev] w'| |]; try done;
    destruct Hb as (events & Hev & Hbr); cbn in Hev; subst; exact (Hbr []).
Qed.

(** C17: The Linux build puts the pieces together: over a TPM that does what its
    documentation says, the three backends keep the promises the rest of the host
    relies on. Protecting and unprotecting a secret changes no file; the
    key-encryption key touches its key file only; and the authorizer touches only
    the files of its credential, and none when it signs or verifies. *)
Theorem linux_backends_implement_interfaces `{T : Tss, TL : !TssLaws, HE : HostEnv, CO : Commands, CL : !CommandsLaws,
    EC : EcdsaP256, SH : Sha256, UT : UuidText, JK : Serde KeyBlobs, JR : Serde CredentialRegistry} :
  @LocalSecretLaws tpm_local_secret /\ @KekLaws tpm_kek /\
  @PlatformAuthorizerLaws Authorizer tpm_authorizer credential_files.
Proof. split_and!; [apply tpm_local_secret_laws|apply tpm_kek_laws|apply tpm_authorizer_laws]. Qed.

Section LinuxExample.
#[local] Existing Instances toy_tss toy_tss_laws toy_commands toy_commands_laws toy_p256 toy_sha256 toy_uuid_text
  toy_key_blobs toy_registry authorizer_env.

Lemma every_handle_flushed_witness :
  match with_parent (T := traced toy_tss) (unseal_under (T := traced toy_tss) [Byte.x2a] None)
          (mkToy 1 ∅ ∅, []) authorizer_world with
  | Done _ (_, events) _ | Failed _ (_, events) _ => brackets 2 [] events = Some []
  | Panicked _ | Crashed _ => True
  end.
Proof.
  apply (every_handle_flushed toy_tss (with_parent (T := traced toy_tss) (unseal_under (T := traced toy_tss) [Byte.x2a] None))).
  apply S_unprotect.
Defined.

Lemma linux_backends_implement_interfaces_witness :
  @LocalSecretLaws (@tpm_local_secret toy_tss authorizer_env) /\
  @KekLaws (@tpm_kek toy_tss authorizer_env toy_key_blobs) /\
  @PlatformAuthorizerLaws Authorizer tpm_authorizer credential_files.
Proof. exact (@linux_backends_implement_interfaces toy_tss toy_tss_laws authorizer_env toy_commands toy_commands_laws
  toy_p256 toy_sha256 toy_uuid_text toy_key_blobs toy_registry). Defined.
End LinuxExample.
