(* ===== verification/HelloAuthorizer.v ===== *)
(** * crypto/authorizer/windows.rs: the platform authenticator of Windows

    The system owns the dialog and the key; the host gets a signed assertion whose
    [authenticatorData] says that the user was verified. The backend of the
    Windows build implements [PlatformAuthorizer]. The apartment that the object
    keeps alive has no state of the host and is only initialized here. *)

From S2P Require Import Prelude World External Examples AtomicFile Nodes Frames Config Messages Capability Webauthn AuthorizerTpm.

Definition RP_ID : string := "fursoy-vault.local".
Definition RP_NAME : string := "FURSOY Vault".
Definition ORIGIN : string := "https://fursoy-vault.local".
Definition USER_NAME : string := "fursoy-vault".
Definition BCRYPT_ECDSA_PUBLIC_P256_MAGIC : N := 0x31534345.

Record HelloAuthorizer := mkHello {
  ha_credential_id : bytes;
  ha_public_key_x : bytes;
  ha_public_key_y : bytes;
}.

Record HelloRegistry := mkHelloRegistry {
  hr_version : N;
  hr_profile_user_id_hex : string;
  hr_credential_id_hex : string;
  hr_public_key_x_hex : string;
  hr_public_key_y_hex : string;
}.

(** ** The system's services

    [WebAuthn]: COM, the platform authenticator with its dialog (a required user
    verification, the internal transport), and the text of a system error.
    [BCrypt]: the handles and the statuses of the signature check. *)
Class WebAuthn := {
  com_initialize : IO (Result N unit);
  hello_available : IO (Result N bool);
  make_credential : forall (rp_id rp_name user_name : string) (user_id client_data : bytes), IO (Result N bytes);
  get_assertion : forall (rp_id : string) (credential_id client_data : bytes), IO (Result N (bytes * bytes));
  system_error_text : N -> string;
}.

Class BCrypt := {
  bcrypt_open_provider : IO (Z * N);
  bcrypt_import_key : N -> bytes -> IO (Z * N);
  bcrypt_verify : N -> bytes -> bytes -> IO Z;
  bcrypt_destroy_key : N -> IO unit;
  bcrypt_close_provider : N -> IO unit;
}.

(** [.map_err(FcpError::from)?]. *)
Definition windows_call {A} (m : IO (Result N A)) : IO A := r ← m; lift (map_err Windows r).

(** ** Client data *)

Definition quote : string := String (Ascii.ascii_of_N 34) EmptyString.
Definition quoted (s : string) : string := quote +:+ s +:+ quote.

(** [client_data_json]. *)
Definition client_data_json (challenge : bytes) (ceremony_type : string) : bytes :=
  list_byte_of_string (
    "{" +:+ quoted "type" +:+ ":" +:+ quoted ceremony_type +:+ "," +:+ quoted "challenge" +:+ ":"
    +:+ quoted (hex_encode challenge) +:+ "," +:+ quoted "origin" +:+ ":" +:+ quoted ORIGIN
    +:+ "," +:+ quoted "crossOrigin" +:+ ":false}").

(** [hello_to_array_32]. *)
Definition hello_to_array_32 (b : bytes) : FcpResult bytes :=
  if (length b =? 32)%nat then Ok b else Err (Capability "Hello credential public key is not 32 bytes").

(** [{:#x}] of an [i32]: the digits of its two's complement. *)
Fixpoint hex_digits (fuel : nat) (n : N) (acc : string) : string :=
  match fuel with
  | O => acc
  | S fuel' =>
      let acc := String (hex_digit (n mod 16)) acc in
      if n / 16 =? 0 then acc else hex_digits fuel' (n / 16) acc
  end.
Definition lower_hex_i32 (z : Z) : string := "0x" +:+ hex_digits 8 (Z.to_N (z mod 2 ^ 32)) "".

(** [check_ntstatus]. *)
Definition check_ntstatus (status : Z) (context : string) : FcpResult unit :=
  if (0 <=? status)%Z then Ok tt
  else Err (Capability (context +:+ " failed with NTSTATUS " +:+ lower_hex_i32 status)).

Section Hello.
Context `{WA : WebAuthn, BC : BCrypt, SH : Sha256, UT : UuidText, JH : Serde HelloRegistry}.

(** [validate_authenticator_context]. *)
Definition validate_authenticator_context (authenticator_data : bytes) : FcpResult unit :=
  _ ← guard_err (len authenticator_data <? 37) (Capability "assertion authenticatorData is truncated");
  _ ← guard_err (bool_decide (take 32 authenticator_data <> sha256 (list_byte_of_string RP_ID)))
        (Capability "assertion RP ID hash mismatch");
  let flags := Byte.to_N (default Byte.x00 (authenticator_data !! 32%nat)) in
  _ ← guard_err (N.land flags 1 =? 0) (Capability "assertion lacks user presence");
  guard_err (N.land flags 4 =? 0) (Capability "assertion lacks user verification").

(** [verify_ecdsa_p256]: the guards free their handles in the reverse order. *)
Definition public_blob (x y : bytes) : bytes :=
  le_bytes 4 BCRYPT_ECDSA_PUBLIC_P256_MAGIC ++ le_bytes 4 32 ++ x ++ y.

Definition verify_ecdsa_p256 (x y digest signature : bytes) : IO unit :=
  opened ← bcrypt_open_provider;
  _ ← lift (check_ntstatus (fst (opened : Z * N)) "BCryptOpenAlgorithmProvider");
  imported ← bcrypt_import_key (snd opened) (public_blob x y);
  match check_ntstatus (fst (imported : Z * N)) "BCryptImportKeyPair" with
  | Err e => _ ← bcrypt_close_provider (snd opened); throw e
  | Ok _ =>
      status ← bcrypt_verify (snd imported) digest signature;
      _ ← bcrypt_destroy_key (snd imported);
      _ ← bcrypt_close_provider (snd opened);
      lift (check_ntstatus status "BCryptVerifySignature")
  end.

(** [verify_signature]. *)
Definition assertion_digest (proof_context canonical : bytes) : bytes :=
  sha256 (proof_context ++ sha256 (client_data_json canonical "webauthn.get")).

Definition hello_verify_signature (self : HelloAuthorizer) (capability : SignedCapability) : IO unit :=
  _ ← lift (validate_shape (sc_payload capability));
  _ ← lift (validate_authenticator_context (sc_proof_context capability));
  _ ← guard_not (negb (length (sc_signature capability) =? 64)%nat) (Capability "signature is not 64 bytes");
  verify_ecdsa_p256 (ha_public_key_x self) (ha_public_key_y self)
    (assertion_digest (sc_proof_context capability) (canonical_bytes (sc_payload capability)))
    (sc_signature capability).

(** The error of an assertion, and [sign_assertion]. *)
Definition hello_missing : FcpError := Capability "hello_credential_missing".

Definition assertion_error (code : N) : FcpError :=
  if (code =? 0x80090011) || (code =? 0x80070490) then hello_missing
  else Capability ("Windows Hello signing failed: " +:+ system_error_text code).

Definition sign_assertion (self : HelloAuthorizer) (payload : CapabilityPayload) : IO SignedCapability :=
  _ ← lift (validate_shape payload);
  let client_data := client_data_json (canonical_bytes payload) "webauthn.get" in
  r ← get_assertion RP_ID (ha_credential_id self) client_data;
  assertion ← lift (map_err assertion_error r);
  let '(authenticator_data, signature_der) := (assertion : bytes * bytes) in
  signature ← lift (der_ecdsa_signature_to_raw signature_der);
  let signed := mkSignedCapability payload signature authenticator_data in
  _ ← hello_verify_signature self signed;
  mret signed.

(** [hello_user_id]. *)
Definition hello_user_id (registry_path : Path) : FcpResult bytes :=
  name ← ok_or (parent ← path_parent registry_path; path_file_name parent)
           (Format "Hello registry has no profile identity");
  profile_id ← ok_or (uuid_parse name) (Format "Hello registry profile identity is invalid");
  Ok (uuid_as_bytes profile_id).

(** [load_registry]. *)
Definition hello_load_registry (path : Path) : IO HelloAuthorizer :=
  b ← fs_read path;
  registry ← lift (from_slice b);
  _ ← guard_not (negb (hr_version registry =? 2)) (Format "unsupported Hello credential registry version");
  user_id ← lift (hello_user_id path);
  _ ← guard_not (negb (String.eqb (hr_profile_user_id_hex registry) (hex_encode user_id)))
        (Format "Hello credential belongs to another profile identity");
  credential_id ← lift (hex_decode (hr_credential_id_hex registry));
  x ← lift (hex_decode (hr_public_key_x_hex registry));
  x ← lift (hello_to_array_32 x);
  y ← lift (hex_decode (hr_public_key_y_hex registry));
  y ← lift (hello_to_array_32 y);
  mret (mkHello credential_id x y).

(** [quarantine_registry]. *)
Definition hello_retired_path (parent : Path) (id : Uuid) : Path :=
  path_join parent ("hello-credential.retired-" +:+ uuid_to_string id +:+ ".json").

Definition hello_quarantine_registry (path : Path) : IO unit :=
  parent ← ok_or_throw (path_parent path) (Format "Hello registry has no parent");
  id ← new_v4;
  fs_rename_any path (hello_retired_path parent id).

(** [create_credential]. *)
Definition create_credential (user_id : bytes) : IO (bytes * bytes * bytes) :=
  available ← windows_call hello_available;
  _ ← guard_not (negb available) UserVerificationNotConfigured;
  creation_nonce ← fill_random 16;
  r ← make_credential RP_ID RP_NAME USER_NAME user_id (client_data_json creation_nonce "webauthn.create");
  authenticator_data ← lift (map_err (fun code =>
    Capability ("Windows Hello credential creation failed: " +:+ system_error_text code)) r);
  lift (parse_attested_credential authenticator_data).

(** [create_authorizer]. *)
Definition hello_verify_registry (registry : HelloRegistry) (persisted : bytes) : FcpResult unit :=
  parsed ← from_slice persisted;
  guard_err (negb (String.eqb (hr_profile_user_id_hex parsed) (hr_profile_user_id_hex registry))
             || negb (String.eqb (hr_credential_id_hex parsed) (hr_credential_id_hex registry)))
    (Format "Hello credential registry failed to round-trip").

Definition create_authorizer (registry_path : Path) : IO HelloAuthorizer :=
  profile_user_id ← lift (hello_user_id registry_path);
  created ← create_credential profile_user_id;
  let '(credential_id, x, y) := (created : bytes * bytes * bytes) in
  let registry := mkHelloRegistry 2 (hex_encode profile_user_id) (hex_encode credential_id) (hex_encode x) (hex_encode y) in
  b ← lift (to_vec registry);
  _ ← write_verified registry_path b (fun persisted => lift (hello_verify_registry registry persisted));
  mret (mkHello credential_id x y).

(** [open_existing], [open_or_create], [recreate], [recover_if_credential_vanished]. *)
Definition hello_open_existing (credential_path : Path) : IO HelloAuthorizer :=
  _ ← windows_call com_initialize;
  hello_load_registry credential_path.

Definition hello_open_or_create (credential_path : Path) : IO HelloAuthorizer :=
  _ ← windows_call com_initialize;
  present ← fs_exists credential_path;
  if (present : bool) then
    loaded ← try_ (hello_load_registry credential_path);
    match loaded with
    | Ok self => mret self
    | Err _ => _ ← hello_quarantine_registry credential_path; create_authorizer credential_path
    end
  else create_authorizer credential_path.

Definition recreate (credential_path : Path) : IO HelloAuthorizer :=
  _ ← windows_call com_initialize;
  present ← fs_exists credential_path;
  _ ← (if (present : bool) then hello_quarantine_registry credential_path else mret tt);
  create_authorizer credential_path.

Definition hello_recover (self : HelloAuthorizer) (error : FcpError) (credential_path : Path) : IO (bool * HelloAuthorizer) :=
  if negb (bool_decide (error = hello_missing)) then mret (false, self)
  else replacement ← recreate credential_path; mret (true, replacement).

Definition hello_authorizer : PlatformAuthorizer HelloAuthorizer := {|
  sign := sign_assertion;
  verify_signature := hello_verify_signature;
  open_or_create := hello_open_or_create;
  open_existing := hello_open_existing;
  recover_if_credential_vanished := hello_recover;
|}.
End Hello.

(** ** What the assertion must say *)

(** The assertion is long enough, names the host, and has the bits for a present and
    a verified user. *)
Definition user_verified `{SH : Sha256} (d : bytes) : Prop :=
  37 <= len d /\ take 32 d = sha256 (list_byte_of_string RP_ID) /\
  exists flags, d !! 32%nat = Some flags /\ N.testbit (Byte.to_N flags) 0 = true /\ N.testbit (Byte.to_N flags) 2 = true.

Lemma context_exact `{SH : Sha256} d : validate_authenticator_context d = Ok tt <-> user_verified d.
Proof.
  unfold validate_authenticator_context. split.
  - intros H. res_inv H. bool_to_prop.
    match goal with H : ~ _ <> _ |- _ => apply dec_stable in H end. split_and!; [done|done|].
    destruct (d !! 32%nat) as [flags|] eqn:Hf; cbn [default from_option id] in *.
    + exists flags. clear -Hr1 H. by destruct flags.
    + apply lookup_ge_None_1 in Hf. unfold len in *. lia.
  - intros (Hl & Hrp & flags & Hf & Hp & Hv). rewrite Hf. cbn [default from_option id].
    destruct (N.ltb_spec (len d) 37); [lia|]. cbn [guard_err mbind result_bind].
    rewrite bool_decide_false by (intros Hn; by apply Hn). cbn [guard_err mbind result_bind].
    clear -Hp Hv. by destruct flags.
Qed.

(** An assertion counts only if it was made for this host, by a person: the
    context is accepted exactly when it is long enough, carries the hash of the
    host's relying-party name, and has both the user-presence and the
    user-verification bit set. *)
Theorem assertion_context_exact `{SH : Sha256} d : validate_authenticator_context d = Ok tt <-> user_verified d.
Proof. apply context_exact. Qed.

(** ** The client data *)

Lemma hex_encode_inj b1 b2 : hex_encode b1 = hex_encode b2 -> b1 = b2.
Proof. intros H. apply (f_equal hex_decode) in H. rewrite !hex_round_trip in H. by injection H. Qed.

Lemma string_app_inj_suffix (s1 s2 t1 t2 : string) :
  String.length t1 = String.length t2 -> s1 +:+ t1 = s2 +:+ t2 -> s1 = s2 /\ t1 = t2.
Proof.
  revert s2; induction s1 as [|c s1 IH]; intros s2 Hl H.
  - destruct s2 as [|d s2]; [done|]. apply (f_equal String.length) in H. rewrite !string_app_length in H. cbn in H. lia.
  - destruct s2 as [|d s2].
    + apply (f_equal String.length) in H. rewrite !string_app_length in H. cbn in H. lia.
    + rewrite !string_app_cons in H. injection H as -> H. by destruct (IH _ Hl H) as [-> ->].
Qed.

Lemma list_byte_of_string_inj s1 s2 : list_byte_of_string s1 = list_byte_of_string s2 -> s1 = s2.
Proof.
  intros H. rewrite <- (string_of_list_byte_of_string s1), <- (string_of_list_byte_of_string s2). by rewrite H.
Qed.

(** The ceremonies of the host. *)
Definition ceremony (t : string) : Prop := t = "webauthn.get"%string \/ t = "webauthn.create"%string.

(** What the user confirms in the dialog is exactly the capability: the client
    data that is signed determines the ceremony and the bytes of the challenge, so
    an assertion for one capability, or the creation of a credential, is never one
    for another capability. *)
Theorem client_data_binds t1 t2 c1 c2 :
  ceremony t1 -> ceremony t2 -> client_data_json c1 t1 = client_data_json c2 t2 -> t1 = t2 /\ c1 = c2.
Proof.
  intros H1 H2 H. unfold client_data_json in H. apply list_byte_of_string_inj in H.
  unfold quoted in H. rewrite !string_app_assoc in H.
  destruct H1 as [->| ->], H2 as [->| ->]; cbn -[hex_encode String.append] in H; try discriminate H; split; try done.
  all: repeat match type of H with
    | _ +:+ _ = _ +:+ _ => first [apply string_app_inj_l in H|apply string_app_inj_suffix in H as [H _]; [|done]] end.
  all: by apply hex_encode_inj.
Qed.

Lemma client_data_binds_witness :
  "webauthn.get"%string = "webauthn.get"%string /\ [Byte.x2a] = [Byte.x2a].
Proof. apply client_data_binds; [by left|by left|reflexivity]. Defined.

(** ** Signing *)

(** What the host relies on: the services change no file of the host. *)
Class WebAuthnLaws `{WebAuthn} : Prop := {
  com_initialize_call : sys_call com_initialize;
  hello_available_call : sys_call hello_available;
  make_credential_call rp name user id data : sys_call (make_credential rp name user id data);
  get_assertion_call rp id data : sys_call (get_assertion rp id data);
}.

Class BCryptLaws `{BCrypt} : Prop := {
  bcrypt_open_call : sys_call bcrypt_open_provider;
  bcrypt_import_call h b : sys_call (bcrypt_import_key h b);
  bcrypt_verify_call h d s : sys_call (bcrypt_verify h d s);
  bcrypt_destroy_call h : sys_call (bcrypt_destroy_key h);
  bcrypt_close_call h : sys_call (bcrypt_close_provider h);
}.

(** A result that is not a given error. *)
Definition avoids {A} (e0 : FcpError) (r : FcpResult A) : Prop := r <> Err e0.
Definition parser_avoids {A} (e0 : FcpError) (p : Parser A) : Prop := forall r, avoids e0 (p r).

Lemma avoids_bind {A B} e0 (r : FcpResult A) (f : A -> FcpResult B) :
  avoids e0 r -> (forall a, avoids e0 (f a)) -> avoids e0 (r ≫= f).
Proof. intros Hr Hf. destruct r as [a|e]; [apply Hf|]. intros [= ->]. by apply Hr. Qed.

Lemma parser_avoids_bind {A B} e0 (p : Parser A) (f : A -> Parser B) :
  parser_avoids e0 p -> (forall a, parser_avoids e0 (f a)) -> parser_avoids e0 (p ≫= f).
Proof.
  intros Hp Hf r. unfold mbind, parser_bind. specialize (Hp r). destruct (p r) as [[a r']|e]; [apply Hf|].
  intros [= ->]. by apply Hp.
Qed.

Lemma missing_read_bytes n : parser_avoids hello_missing (read_bytes "DER" n).
Proof. intros r. unfold read_bytes, avoids. destruct (checked_add _ _ _); [|done]. by destruct (slice _ _ _). Qed.

Lemma missing_read_byte : parser_avoids hello_missing (read_byte "DER").
Proof. unfold read_byte. apply parser_avoids_bind; [apply missing_read_bytes|]. by intros [|x b] r. Qed.

Lemma missing_der_length n b : avoids hello_missing (der_length n b).
Proof.
  revert n; induction b as [|x b IH]; intros n; cbn [der_length]; [done|].
  apply avoids_bind; [by destruct (checked_add _ _ _)|]. intros m. apply IH.
Qed.

Lemma missing_read_length : parser_avoids hello_missing read_length.
Proof.
  apply parser_avoids_bind; [apply missing_read_byte|]. intros first. destruct (_ =? 0); [done|].
  apply parser_avoids_bind; [apply missing_read_bytes|]. intros b r. unfold parse_lift.
  pose proof (missing_der_length 0 b) as Hm. destruct (der_length 0 b); [done|]. intros [= ->]. by apply Hm.
Qed.

Lemma missing_guard b e : e <> hello_missing -> parser_avoids hello_missing (parse_guard b e).
Proof. intros He r. destruct b; [|done]. intros [= ->]. by apply He. Qed.

Lemma missing_read_integer : parser_avoids hello_missing read_integer.
Proof.
  apply parser_avoids_bind; [apply missing_read_byte|]. intros first.
  apply parser_avoids_bind; [by apply missing_guard|]. intros _.
  apply parser_avoids_bind; [apply missing_read_length|]. intros n.
  apply parser_avoids_bind; [apply missing_read_bytes|]. by intros b r.
Qed.

Lemma missing_left_pad b : avoids hello_missing (left_pad_32 b).
Proof. unfold left_pad_32. apply avoids_bind; [by destruct (32 <? len b)|done]. Qed.

Lemma missing_signature :
  parser_avoids hello_missing (_ ← expect_tag 48; r ← read_integer; s ← read_integer; mret (r, s)).
Proof.
  apply parser_avoids_bind.
  - apply parser_avoids_bind; [apply missing_read_byte|]. intros first.
    apply parser_avoids_bind; [by apply missing_guard|]. intros _.
    apply parser_avoids_bind; [apply missing_read_length|]. by intros n r.
  - intros _. apply parser_avoids_bind; [apply missing_read_integer|]. intros r.
    apply parser_avoids_bind; [apply missing_read_integer|]. by intros s r'.
Qed.

Lemma missing_der der : avoids hello_missing (der_ecdsa_signature_to_raw der).
Proof.
  unfold der_ecdsa_signature_to_raw. apply avoids_bind; [apply missing_signature|]. intros [[r s] rest]. cbn [fst].
  apply avoids_bind; [apply missing_left_pad|]. intros r'. apply avoids_bind; [apply missing_left_pad|done].
Qed.

Lemma missing_context `{SH : Sha256} d : avoids hello_missing (validate_authenticator_context d).
Proof.
  unfold validate_authenticator_context. apply avoids_bind; [by destruct (_ <? 37)|]. intros _.
  apply avoids_bind; [by destruct (bool_decide _)|]. intros _.
  apply avoids_bind; [by destruct (_ =? 0)|]. intros _. by destruct (_ =? 0).
Qed.

Lemma missing_shape p : avoids hello_missing (validate_shape p).
Proof.
  unfold validate_shape. apply avoids_bind; [by destruct (uuid_is_nil _)|]. intros _.
  apply avoids_bind; [by destruct (_ =? 0)|]. intros _. by destruct (forallb _ _).
Qed.

Section SignLaws.
Context `{WA : WebAuthn, WL : !WebAuthnLaws, BC : BCrypt, BL : !BCryptLaws, SH : Sha256, UT : UuidText, JH : Serde HelloRegistry}.

Lemma calm_verify_ecdsa x y d s : calm (verify_ecdsa_p256 x y d s).
Proof using BL.
  unfold verify_ecdsa_p256. apply calm_bind; [apply sys_call_calm, bcrypt_open_call|]. intros opened.
  apply calm_bind; [apply calm_lift|]. intros _. apply calm_bind; [apply sys_call_calm, bcrypt_import_call|]. intros imported.
  destruct (check_ntstatus _ _).
  - repeat (apply calm_bind; [apply sys_call_calm; first [apply bcrypt_verify_call|apply bcrypt_destroy_call|apply bcrypt_close_call]|intros ?]).
    apply calm_lift.
  - apply calm_bind; [apply sys_call_calm, bcrypt_close_call|]. intros _. apply calm_throw.
Qed.

Lemma calm_hello_verify self c : calm (hello_verify_signature self c).
Proof using BL. unfold hello_verify_signature. calm_tac. apply calm_verify_ecdsa. Qed.

Lemma calm_sign_assertion self payload : calm (sign_assertion self payload).
Proof using WL BL.
  unfold sign_assertion. apply calm_bind; [apply calm_lift|]. intros _.
  apply calm_bind; [apply sys_call_calm, get_assertion_call|]. intros r. apply calm_bind; [apply calm_lift|]. intros [data der].
  apply calm_bind; [apply calm_lift|]. intros s. apply calm_bind; [apply calm_hello_verify|]. intros _. apply calm_ret.
Qed.

(** The system's check of a signature succeeded for the stored key: the three calls
    that decide, one after the other from [w] on. *)
Definition system_accepts (x y digest signature : bytes) (w w' : World) : Prop :=
  exists opened provider imported key verified w1 w2 w3,
    bcrypt_open_provider tt w = Done (opened, provider) tt w1 /\ (0 <= opened)%Z /\
    bcrypt_import_key provider (public_blob x y) tt w1 = Done (imported, key) tt w2 /\ (0 <= imported)%Z /\
    bcrypt_verify key digest signature tt w2 = Done verified tt w3 /\ (0 <= verified)%Z /\ later w3 w'.

Lemma check_ntstatus_ok status context : check_ntstatus status context = Ok tt -> (0 <= status)%Z.
Proof using Type. unfold check_ntstatus. by destruct (Z.leb_spec 0 status). Qed.

Lemma wp_verify_ecdsa x y d s w :
  wp (verify_ecdsa_p256 x y d s) (fun _ _ w' => system_accepts x y d s w w') (fun e _ _ => e <> hello_missing)
    (fun _ => True) tt w.
Proof using BL.
  assert (Hst : forall status context c u, check_ntstatus status (String c context) = Err u -> c <> Ascii.Ascii false false false true false true true false -> u <> hello_missing).
  { intros status context c u. unfold check_ntstatus. destruct (0 <=? status)%Z; [done|]. intros [= <-] Hc [= Hh _]. done. }
  unfold verify_ecdsa_p256. apply wp_bind, wp_sys_call; [apply bcrypt_open_call| |done]. intros [st h] w1 Ho _. cbn [fst snd].
  apply wp_bind, wp_lift. destruct (check_ntstatus st _) as [[]|] eqn:H0; [|by eapply Hst].
  apply wp_bind, wp_sys_call; [apply bcrypt_import_call| |done]. intros [st2 key] w2 Hi _. cbn [fst snd].
  destruct (check_ntstatus st2 _) as [[]|] eqn:H1.
  - apply wp_bind, wp_sys_call; [apply bcrypt_verify_call| |done]. intros st3 w3 Hv _.
    apply wp_bind, wp_sys_call; [apply bcrypt_destroy_call| |done]. intros _ w4 _ [_ H4].
    apply wp_bind, wp_sys_call; [apply bcrypt_close_call| |done]. intros _ w5 _ [_ H5].
    apply wp_lift. destruct (check_ntstatus st3 _) as [[]|] eqn:H2; [|by eapply Hst].
    apply check_ntstatus_ok in H0, H1, H2. exists st, h, st2, key, st3, w1, w2, w3.
    split_and!; [done..|by eapply later_trans].
  - apply wp_bind, wp_sys_call; [apply bcrypt_close_call| |done]. intros _ w3 _ _. apply wp_throw. by eapply Hst.
Qed.

(** A capability the host accepts as proof that the user was verified. *)
Definition acceptable (self : HelloAuthorizer) (c : SignedCapability) (w w' : World) : Prop :=
  validate_shape (sc_payload c) = Ok tt /\ user_verified (sc_proof_context c) /\
  length (sc_signature c) = 64%nat /\
  system_accepts (ha_public_key_x self) (ha_public_key_y self)
    (sha256 (sc_proof_context c ++ sha256 (client_data_json (canonical_bytes (sc_payload c)) "webauthn.get")))
    (sc_signature c) w w'.

(** A capability made from the answer of the system, in a run from [w] to [w'], to
    the request for an assertion of the stored credential over this payload. *)
Definition proven (self : HelloAuthorizer) (c : SignedCapability) (w w' : World) : Prop :=
  exists der w1,
    get_assertion RP_ID (ha_credential_id self) (client_data_json (canonical_bytes (sc_payload c)) "webauthn.get") tt w
      = Done (Ok (sc_proof_context c, der)) tt w1 /\
    der_ecdsa_signature_to_raw der = Ok (sc_signature c) /\ acceptable self c w1 w'.

Lemma wp_hello_verify self c w :
  wp (hello_verify_signature self c) (fun _ _ w' => acceptable self c w w') (fun e _ _ => e <> hello_missing) (fun _ => True) tt w.
Proof using BL.
  unfold hello_verify_signature. apply wp_bind, wp_lift. destruct (validate_shape _) as [[]|e] eqn:H1.
  2: { intros ->. by apply missing_shape in H1. }
  apply wp_bind, wp_lift. destruct (validate_authenticator_context _) as [[]|e] eqn:H2.
  2: { intros ->. by apply missing_context in H2. }
  apply context_exact in H2. apply wp_bind, wp_guard_not. destruct (Nat.eqb_spec (length (sc_signature c)) 64) as [H3|]; cbn [negb]; [|done].
  eapply wp_mono; [apply wp_verify_ecdsa|cbn beta..]; [|done|done]. by intros ? [] w' H4.
Qed.

Lemma wp_sign_assertion self payload w :
  wp (sign_assertion self payload)
     (fun signed _ w' => sc_payload signed = payload /\ proven self signed w w')
     (fun e _ w' => e = hello_missing -> exists code,
        get_assertion RP_ID (ha_credential_id self) (client_data_json (canonical_bytes payload) "webauthn.get") tt w
          = Done (Err code) tt w' /\ (code = 0x80090011 \/ code = 0x80070490))
     (fun _ => True) tt w.
Proof using WL BL.
  unfold sign_assertion. apply wp_bind, wp_lift. destruct (validate_shape payload) as [[]|e] eqn:Hs.
  2: { intros ->. by apply missing_shape in Hs. }
  apply wp_bind, wp_sys_call; [apply get_assertion_call| |done]. intros r w1 Hrun _.
  apply wp_bind, wp_lift. destruct r as [[data der]|code]; cbn [map_err].
  2: { unfold assertion_error. destruct (N.eqb_spec code 0x80090011) as [->|]; cbn [orb]; [intros _; eauto 10|].
       destruct (N.eqb_spec code 0x80070490) as [->|]; [intros _; eauto 10|done]. }
  apply wp_bind, wp_lift. destruct (der_ecdsa_signature_to_raw der) as [s|e] eqn:Hd.
  2: { intros ->. by apply missing_der in Hd. }
  apply wp_bind. eapply wp_mono; [apply wp_hello_verify|cbn beta..]; [|by intros e [] w' He ->|done].
  intros ? [] w2 Hp. apply wp_ret. split; [done|]. by exists der, w1.
Qed.
End SignLaws.

(** C9: A capability signed under Windows carries the proof that a person approved
    it: [sign] returns only the payload it was given, with the assertion that the
    system gave in this very call for the stored credential and this payload; the
    assertion names the host and has the user-verification bit, and the signature,
    of 64 bytes, was then accepted by the system for the stored key, over the
    assertion and the client data of the payload. It changes no file; and it fails
    with the error for which the credential is replaced only when the system
    answers this request that it has no such credential, never because the user
    cancelled. *)
Theorem hello_signature_proves_user `{WA : WebAuthn, WL : !WebAuthnLaws, BC : BCrypt, BL : !BCryptLaws, SH : Sha256}
    self payload w :
  wp (sign_assertion self payload)
     (fun signed _ w' => untouched w w' /\ sc_payload signed = payload /\ proven self signed w w')
     (fun e _ w' => untouched w w' /\ (e = hello_missing -> exists code,
        get_assertion RP_ID (ha_credential_id self) (client_data_json (canonical_bytes payload) "webauthn.get") tt w
          = Done (Err code) tt w' /\ (code = 0x80090011 \/ code = 0x80070490)))
     (untouched w) tt w.
Proof.
  eapply wp_mono; [eapply wp_and; [apply calm_sign_assertion|apply wp_sign_assertion]|..]; cbn beta; tauto.
Qed.

(** ** The registry *)

Lemma webauthn_to_array b x : Webauthn.to_array_32 b = Ok x -> length x = 32%nat.
Proof.
  unfold Webauthn.to_array_32. intros H. res_inv H. bool_to_prop. injection H as ->. unfold len in *. lia.
Qed.

Lemma parse_attested_lengths d i x y :
  parse_attested_credential d = Ok (i, x, y) -> length x = 32%nat /\ length y = 32%nat.
Proof.
  unfold parse_attested_credential. intros H. res_inv H.
  match goal with c : (bytes * bytes)%type |- _ => destruct c end. injection H as <- -> ->.
  match goal with H : parse_cose_ec2_public_key _ = Ok _ |- _ => unfold parse_cose_ec2_public_key in H; res_inv H; injection H as -> -> end.
  split; by eapply webauthn_to_array.
Qed.

Section RegistryLaws.
Context `{WA : WebAuthn, WL : !WebAuthnLaws, BC : BCrypt, BL : !BCryptLaws, SH : Sha256, UT : UuidText, JH : Serde HelloRegistry}.

Lemma calm_windows_call {A} (m : IO (Result N A)) : sys_call m -> calm (windows_call m).
Proof using Type. intros Hm. apply calm_bind; [by apply sys_call_calm|]. intros r. apply calm_lift. Qed.

Lemma calm_create_credential id : calm (create_credential id).
Proof using WL.
  unfold create_credential. apply calm_bind; [apply calm_windows_call, hello_available_call|]. intros a.
  apply calm_bind; [apply calm_guard|]. intros _. apply calm_bind; [apply calm_random|]. intros n.
  apply calm_bind; [apply sys_call_calm, make_credential_call|]. intros r. apply calm_bind; [apply calm_lift|]. intros d. apply calm_lift.
Qed.

Lemma framed_create_authorizer p : framed (writer_files p) (create_authorizer p).
Proof using WL.
  unfold create_authorizer. apply framed_bind; [apply calm_framed, calm_lift|]. intros id.
  apply framed_bind; [apply calm_framed, calm_create_credential|]. intros [[c x] y].
  apply framed_bind; [apply calm_framed, calm_lift|]. intros b.
  apply framed_bind; [by apply framed_write_verified|]. intros _. apply calm_framed, calm_ret.
Qed.

(** The registry of [self], for the profile with the identity [id], is stored at [p]. *)
Definition hello_stored (p : Path) (id : bytes) (self : HelloAuthorizer) (w : World) : Prop :=
  exists content registry, file_at w p = Some content /\ from_slice content = Ok registry /\
    hr_version registry = 2 /\ hr_profile_user_id_hex registry = hex_encode id /\
    hr_credential_id_hex registry = hex_encode (ha_credential_id self) /\
    hr_public_key_x_hex registry = hex_encode (ha_public_key_x self) /\
    hr_public_key_y_hex registry = hex_encode (ha_public_key_y self) /\
    length (ha_public_key_x self) = 32%nat /\ length (ha_public_key_y self) = 32%nat.

Lemma wp_create_authorizer `{JL : !SerdeLaws HelloRegistry} p w :
  wp (create_authorizer p)
     (fun self _ w' => exists id, hello_user_id p = Ok id /\ hello_stored p id self w')
     (fun _ _ _ => True) (fun _ => True) tt w.
Proof using WL.
  unfold create_authorizer. apply wp_bind, wp_lift. destruct (hello_user_id p) as [id|]; [|done].
  unfold create_credential, windows_call. apply wp_bind, wp_bind, wp_bind, wp_sys_call; [apply hello_available_call| |done].
  intros [available|] w1 _ _; apply wp_lift; cbn [map_err]; [|done].
  apply wp_bind, wp_guard_not. destruct (negb available); [done|]. apply wp_bind.
  eapply wp_mono; [apply calm_random|cbn beta..]; [|done|done]. intros nonce [] w2 _.
  apply wp_bind, wp_sys_call; [apply make_credential_call| |done]. intros [data|] w3 _ _; apply wp_bind, wp_lift; cbn [map_err]; [|done].
  apply wp_lift. destruct (parse_attested_credential data) as [[[c x] y]|] eqn:Hp; [|done].
  apply parse_attested_lengths in Hp as [Hx Hy]. apply wp_bind, wp_lift. destruct (to_vec _) as [b|] eqn:Hb; [|done].
  apply from_slice_to_vec in Hb. apply wp_bind, wp_write_verified_pure; [|done..]. intros w4 _ Hf _.
  apply wp_ret. exists id. split; [done|]. eexists b, _. split_and!; [exact Hf|exact Hb|done..].
Qed.

Lemma wp_hello_load p id self q w :
  hello_stored p id self w -> file_at w q = file_at w p ->
  wp (hello_load_registry q)
     (fun self' _ _ => self' = self /\ hello_user_id q = Ok id)
     (fun e _ _ => (exists k, e = Io k) \/ hello_user_id q <> Ok id) (fun _ => True) tt w.
Proof using Type.
  intros (content & registry & Hf & Hr & Hv & Hid & Hc & Hx & Hy & Lx & Ly) Hq. unfold hello_load_registry.
  apply wp_bind, wp_fs_read; [|intros; left; by eexists|left; by eexists|done].
  intros b Hb. rewrite Hq, Hf in Hb. injection Hb as <-. rewrite Hr. apply wp_bind, wp_lift, wp_bind, wp_guard_not.
  rewrite Hv. cbn [N.eqb negb Pos.eqb]. apply wp_bind, wp_lift. destruct (hello_user_id q) as [id'|] eqn:Hid'; [|by right].
  apply wp_bind, wp_guard_not. rewrite Hid. destruct (String.eqb_spec (hex_encode id) (hex_encode id')) as [He|He]; cbn [negb].
  2: { right. intros [= ->]. by apply He. }
  apply hex_encode_inj in He as <-. rewrite Hc, Hx, Hy, !hex_round_trip.
  assert (Hx32 : hello_to_array_32 (ha_public_key_x self) = Ok (ha_public_key_x self)) by (unfold hello_to_array_32; by rewrite Lx).
  assert (Hy32 : hello_to_array_32 (ha_public_key_y self) = Ok (ha_public_key_y self)) by (unfold hello_to_array_32; by rewrite Ly).
  apply wp_bind, wp_lift, wp_bind, wp_lift, wp_bind, wp_lift. rewrite Hx32.
  apply wp_bind, wp_lift, wp_bind, wp_lift. rewrite Hy32. apply wp_ret. by destruct self.
Qed.

Lemma framed_hello_quarantine path parent :
  path_parent path = Some parent ->
  framed (fun q => path `prefix_of` q \/ exists id, hello_retired_path parent id `prefix_of` q) (hello_quarantine_registry path).
Proof using Type.
  intros Hp. unfold hello_quarantine_registry. rewrite Hp.
  change (framed (fun q => path `prefix_of` q \/ exists id, hello_retired_path parent id `prefix_of` q)
    (id ← new_v4; fs_rename_any path (hello_retired_path parent id))).
  apply framed_bind; [apply calm_framed, calm_uuid|]. intros id. apply framed_rename_any. intros q [|]; eauto.
Qed.
End RegistryLaws.

(** The files of a credential. *)
Definition hello_files `{UuidText} (path q : Path) : Prop :=
  path `prefix_of` q \/ writer_files path q \/
  exists parent id, path_parent path = Some parent /\ hello_retired_path parent id `prefix_of` q.

(** C31: A Hello credential stays with its profile: after a credential was created
    for a profile, opening the registry, or a copy of it elsewhere, gives back
    this very credential when the directory has the same profile identity; and a
    copy in the directory of another profile is refused, so that no profile signs
    with the key of another. *)
Theorem hello_credential_bound_to_profile `{WA : WebAuthn, WL : !WebAuthnLaws, UT : UuidText,
    JH : Serde HelloRegistry, JL : !SerdeLaws HelloRegistry} p w :
  wp (create_authorizer p)
     (fun self _ w' => agree_off (writer_files p) w w' /\
        forall q w2, file_at w2 q = file_at w' p -> file_at w2 p = file_at w' p ->
          wp (hello_load_registry q)
             (fun self' _ _ => self' = self /\ hello_user_id q = hello_user_id p)
             (fun e _ _ => (exists k, e = Io k) \/ hello_user_id q <> hello_user_id p)
             (fun _ => True) tt w2)
     (fun _ _ w' => agree_off (writer_files p) w w') (agree_off (writer_files p) w) tt w.
Proof.
  eapply wp_mono; [eapply wp_and; [apply framed_create_authorizer|apply wp_create_authorizer]|cbn beta..]; [|tauto..].
  intros self [] w' (Ha & id & Hid & Hs). split; [done|]. intros q w2 Hq Hp.
  rewrite Hid. eapply wp_hello_load; [|by rewrite Hq, Hp].
  destruct Hs as (content & registry & Hf & Hrest). exists content, registry. by rewrite Hp.
Qed.

(** The Windows authorizer keeps the promise the host relies on: over system
    services that touch no file of the host, signing, verifying and opening an
    existing credential change no file, and creating or replacing one changes only
    the registry, its temporary file and the retired registries. *)
Theorem hello_implements_authorizer `{WA : WebAuthn, WL : !WebAuthnLaws, BC : BCrypt, BL : !BCryptLaws, SH : Sha256,
    UT : UuidText, JH : Serde HelloRegistry} :
  @PlatformAuthorizerLaws HelloAuthorizer hello_authorizer hello_files.
Proof.
  assert (Hc : forall p, framed (hello_files p) (create_authorizer p)).
  { intros p. eapply framed_weaken; [apply framed_create_authorizer|]. intros q Hq. right. by left. }
  assert (Hl : forall p, calm (hello_load_registry p)) by (intros p; unfold hello_load_registry; calm_tac).
  assert (Hcom : calm (windows_call com_initialize)) by apply calm_windows_call, com_initialize_call.
  assert (Hq : forall p, framed (hello_files p) (hello_quarantine_registry p)).
  { intros p. destruct (path_parent p) as [parent|] eqn:Hp; [|unfold hello_quarantine_registry; rewrite Hp; by intros [] w].
    eapply framed_weaken; [by apply framed_hello_quarantine|]. intros q [?|[id ?]]; [by left|]. right. right. by exists parent, id. }
  split; cbn.
  - intros. apply framed_frame, calm_framed, calm_sign_assertion.
  - intros. apply framed_frame, calm_framed, calm_hello_verify.
  - intros p. apply framed_frame. apply framed_bind; [by apply calm_framed|]. intros _.
    apply framed_bind; [apply calm_framed, calm_exists|]. intros []; [|apply Hc].
    apply framed_bind; [by apply calm_framed, calm_try|]. intros [self|e]; [apply calm_framed, calm_ret|].
    apply framed_bind; [apply Hq|]. intros _. apply Hc.
  - intros p. apply framed_frame, calm_framed, calm_bind; [done|]. intros _. apply Hl.
  - intros a e p. apply framed_frame. unfold hello_recover. destruct (negb _); [apply calm_framed, calm_ret|].
    apply framed_bind; [|intros r; apply calm_framed, calm_ret]. unfold recreate.
    apply framed_bind; [by apply calm_framed|]. intros _. apply framed_bind; [apply calm_framed, calm_exists|]. intros present.
    apply framed_bind; [destruct present; [apply Hq|apply calm_framed, calm_ret]|]. intros _. apply Hc.
Qed.

(** The proof of the user's presence. *)
Definition hello_approved `{WA : WebAuthn, BC : BCrypt, SH : Sha256}
    (self : HelloAuthorizer) (payload : CapabilityPayload) (w w' : World) : Prop :=
  exists signed, sc_payload signed = payload /\ proven self signed w w'.

#[export] Instance hello_user_verification `{WA : WebAuthn, WL : !WebAuthnLaws, BC : BCrypt, BL : !BCryptLaws, SH : Sha256,
    UT : UuidText, JH : Serde HelloRegistry} :
  @UserVerification HelloAuthorizer hello_authorizer hello_approved.
Proof.
  intros self payload w c w' Hrun. pose proof (wp_sign_assertion self payload w) as Hwp. unfold wp in Hwp.
  cbn [sign hello_authorizer] in Hrun. rewrite Hrun in Hwp. destruct Hwp as [Hp Hg]. split; [done|]. by exists c.
Qed.

(** ** Examples *)

Definition codec_hello_registry : Codec HelloRegistry.
Proof.
  refine (codec_iso
    (fun r => (hr_version r, (hr_profile_user_id_hex r, (hr_credential_id_hex r, (hr_public_key_x_hex r, hr_public_key_y_hex r)))))
    (fun '(a, (b, (c, (d, e)))) => mkHelloRegistry a b c d e) _
    (codec_pair codec_N (codec_pair codec_string (codec_pair codec_string (codec_pair codec_string codec_string))))).
  by intros [].
Defined.

(** A system that always approves: one credential, an assertion with both bits,
    and a check that accepts everything. *)
Definition toy_rp_hash : bytes := @sha256 toy_sha256 (list_byte_of_string RP_ID).

Definition toy_webauthn : WebAuthn := {|
  com_initialize := mret (Ok tt);
  hello_available := mret (Ok true);
  make_credential _ _ _ _ _ := mret (Ok (toy_rp_hash ++ [Byte.x45] ++ replicate 20 Byte.x00 ++ [Byte.x00; Byte.x01; Byte.x07]
    ++ cose_key (replicate 32 Byte.x0a) (replicate 32 Byte.x0b)));
  get_assertion _ _ _ := mret (Ok (toy_rp_hash ++ [Byte.x05] ++ replicate 4 Byte.x00,
    der_signature (replicate 32 Byte.x11) (replicate 32 Byte.x12)));
  system_error_text _ := "error"%string;
|}.

Lemma toy_webauthn_laws : @WebAuthnLaws toy_webauthn.
Proof. by split; intros; intros w. Qed.

Definition toy_bcrypt : BCrypt := {|
  bcrypt_open_provider := mret (0%Z, 1);
  bcrypt_import_key _ _ := mret (0%Z, 2);
  bcrypt_verify _ _ _ := mret 0%Z;
  bcrypt_destroy_key _ := mret tt;
  bcrypt_close_provider _ := mret tt;
|}.

Lemma toy_bcrypt_laws : @BCryptLaws toy_bcrypt.
Proof. by split; intros; intros w. Qed.

Section HelloExample.
#[local] Existing Instances toy_webauthn toy_webauthn_laws toy_bcrypt toy_bcrypt_laws toy_sha256 toy_uuid_text.
#[local] Instance toy_hello_registry : Serde HelloRegistry := codec_json codec_hello_registry.
#[local] Instance toy_hello_registry_laws : SerdeLaws HelloRegistry := codec_json_laws codec_hello_registry.

Definition hello_path : Path := ["d"; uuid_to_string 77; "hello-credential.json"].
Definition hello_world : World :=
  mkWorld {[ [] := Dir; ["d"] := Dir; ["d"; uuid_to_string 77] := Dir ]} 0
    (mkEnv (fun _ => NoFault) (fun n => N.of_nat n) (fun _ => 1700000000000)).
Definition hello_example : HelloAuthorizer := mkHello [Byte.x07] (replicate 32 Byte.x0a) (replicate 32 Byte.x0b).
Definition hello_payload : CapabilityPayload := mkCapabilityPayload 77 CapOp.Inject 1700000060000 1 (be_bytes 32 9).

(** Both ceremonies run to their end. *)
Lemma hello_example_creates :
  match create_authorizer hello_path tt hello_world with Done a _ _ => a = hello_example | _ => False end.
Proof. vm_compute. reflexivity. Qed.

Lemma hello_example_signs :
  match sign_assertion hello_example hello_payload tt hello_world with Done c _ _ => length (sc_signature c) = 64%nat | _ => False end.
Proof. vm_compute. reflexivity. Qed.

Lemma hello_signature_proves_user_witness :
  wp (sign_assertion hello_example hello_payload)
     (fun signed _ w' => untouched hello_world w' /\ sc_payload signed = hello_payload /\ proven hello_example signed hello_world w')
     (fun e _ w' => untouched hello_world w' /\ (e = hello_missing -> exists code,
        get_assertion RP_ID (ha_credential_id hello_example) (client_data_json (canonical_bytes hello_payload) "webauthn.get") tt hello_world
          = Done (Err code) tt w' /\ (code = 0x80090011 \/ code = 0x80070490)))
     (untouched hello_world) tt hello_world.
Proof. exact (hello_signature_proves_user hello_example hello_payload hello_world). Defined.

Lemma hello_credential_bound_to_profile_witness :
  wp (create_authorizer hello_path)
     (fun self _ w' => agree_off (writer_files hello_path) hello_world w' /\
        forall q w2, file_at w2 q = file_at w' hello_path -> file_at w2 hello_path = file_at w' hello_path ->
          wp (hello_load_registry q)
             (fun self' _ _ => self' = self /\ hello_user_id q = hello_user_id hello_path)
             (fun e _ _ => (exists k, e = Io k) \/ hello_user_id q <> hello_user_id hello_path)
             (fun _ => True) tt w2)
     (fun _ _ w' => agree_off (writer_files hello_path) hello_world w') (agree_off (writer_files hello_path) hello_world)
     tt hello_world.
Proof. exact (hello_credential_bound_to_profile hello_path hello_world). Defined.

Lemma hello_implements_authorizer_witness : @PlatformAuthorizerLaws HelloAuthorizer hello_authorizer hello_files.
Proof. exact hello_implements_authorizer. Defined.
End HelloExample.
