(* ===== verification/WindowsKeys.v ===== *)
(** * crypto/platform_kek/windows.rs and local_secret/windows.rs

    The key-encryption key that the Platform Crypto Provider owns under a name, and
    small secrets under DPAPI. Every operation opens the provider and the key and
    drops both at its end; the provider must be a TPM 2.0 and the key a
    non-exportable RSA-2048 key before it is used. *)

From S2P Require Import Prelude World External Examples AtomicFile Nodes Frames Config Messages VaultFormat KekTpm HelloAuthorizer.

Definition KEK_NAME : string := "FURSOY.Vault.KEK.v1".
Definition NTE_BAD_KEYSET : N := 0x80090016.
Definition NCRYPT_IMPL_HARDWARE_FLAG : N := 1.
Definition NCRYPT_IMPL_SOFTWARE_FLAG : N := 2.

Inductive CngProperty := ImplType | TpmVersion | Algorithm | KeyLength | ExportPolicy.

(** NCrypt: a call answers a value or the code of a system error. A property and a
    ciphertext are read in two calls, the first for the size; the second answers
    the buffer and the length it used. OAEP with SHA-256 is the padding. *)
Class NCrypt := {
  nc_open_provider : IO (Result N N);
  nc_open_key : N -> string -> IO (Result N N);
  nc_create_key : N -> string -> IO (Result N N);
  nc_get_size : N -> CngProperty -> IO (Result N N);
  nc_get : N -> CngProperty -> N -> IO (Result N (bytes * N));
  nc_set : N -> CngProperty -> bytes -> IO (Result N unit);
  nc_finalize : N -> IO (Result N unit);
  nc_encrypt_size : N -> bytes -> IO (Result N N);
  nc_encrypt : N -> bytes -> N -> IO (Result N (bytes * N));
  nc_decrypt : N -> bytes -> N -> IO (Result N (bytes * N));
  nc_invalid : N -> bool;
  nc_free : N -> IO unit;
}.

(** ** UTF-16 *)

(** The UTF-8 encoding of a code point. *)
Definition utf8_encode (c : N) : bytes :=
  if c <? 0x80 then [u8_of_N c]
  else if c <? 0x800 then [u8_of_N (0xC0 + c / 64); u8_of_N (0x80 + c mod 64)]
  else if c <? 0x10000 then [u8_of_N (0xE0 + c / 4096); u8_of_N (0x80 + c / 64 mod 64); u8_of_N (0x80 + c mod 64)]
  else [u8_of_N (0xF0 + c / 262144); u8_of_N (0x80 + c / 4096 mod 64); u8_of_N (0x80 + c / 64 mod 64); u8_of_N (0x80 + c mod 64)].

(** [String::from_utf16]: a lone surrogate is an error. *)
Fixpoint from_utf16 (units : list N) : option bytes :=
  match units with
  | [] => Some []
  | u :: rest =>
      if (0xD800 <=? u) && (u <=? 0xDBFF) then
        match rest with
        | v :: rest' =>
            if (0xDC00 <=? v) && (v <=? 0xDFFF)
            then tail ← from_utf16 rest'; Some (utf8_encode (0x10000 + (u - 0xD800) * 1024 + (v - 0xDC00)) ++ tail)
            else None
        | [] => None
        end
      else if (0xDC00 <=? u) && (u <=? 0xDFFF) then None
      else tail ← from_utf16 rest; Some (utf8_encode u ++ tail)
  end.

(** [as_chunks::<2>], [from_ne_bytes] and [take_while(|u| *u != 0)]. *)
Fixpoint utf16_units (b : bytes) : list N :=
  match b with
  | x :: y :: rest =>
      let u := Byte.to_N x + 256 * Byte.to_N y in
      if u =? 0 then [] else u :: utf16_units rest
  | _ => []
  end.

Section Cng.
Context `{NC : NCrypt}.

(** [Drop] of a provider or a key. *)
Definition drop_handle (handle : N) : IO unit := if nc_invalid handle then mret tt else nc_free handle.

(** The life of a handle: it is dropped at the end of the block, also when the
    block fails. *)
Definition with_handle {A} (handle : N) (body : IO A) : IO A :=
  r ← try_ body;
  _ ← drop_handle handle;
  lift r.

(** [get_property], [get_u32], [get_utf16], [set_u32]. *)
Definition get_property (handle : N) (property : CngProperty) : IO bytes :=
  length ← windows_call (nc_get_size handle property);
  answer ← windows_call (nc_get handle property length);
  mret (take (N.to_nat (snd (answer : bytes * N))) (fst answer)).

Definition get_u32 (handle : N) (property : CngProperty) : IO N :=
  b ← get_property handle property;
  _ ← guard_not (negb (length b =? 4)%nat) (Crypto "CNG u32 property has invalid length");
  mret (le_value b).

Definition get_utf16 (handle : N) (property : CngProperty) : IO string :=
  b ← get_property handle property;
  text ← ok_or_throw (from_utf16 (utf16_units b)) (Crypto "CNG UTF-16 property is invalid");
  mret (string_of_list_byte text).

Definition set_u32 (handle : N) (property : CngProperty) (value : N) : IO unit :=
  windows_call (nc_set handle property (le_bytes 4 value)).

(** [Provider::open], [require_hardware_only]. *)
Definition with_provider {A} (body : N -> IO A) : IO A :=
  handle ← windows_call nc_open_provider;
  with_handle handle (body handle).

Definition require_hardware_only (provider : N) : IO unit :=
  implementation ← get_u32 provider ImplType;
  _ ← guard_not ((N.land implementation NCRYPT_IMPL_HARDWARE_FLAG =? 0)
                 || negb (N.land implementation NCRYPT_IMPL_SOFTWARE_FLAG =? 0))
        (Crypto "Microsoft Platform Crypto Provider is not hardware-only");
  tpm_version ← get_u32 provider TpmVersion;
  guard_not (negb (tpm_version =? 0x00020000)) (Crypto "Microsoft Platform Crypto Provider is not TPM 2.0").

(** [Key::open], [Key::create], [Key::validate]. *)
Definition open_key (provider : N) : IO N := windows_call (nc_open_key provider KEK_NAME).

Definition with_created_key {A} (provider : N) (body : N -> IO A) : IO A :=
  key ← windows_call (nc_create_key provider KEK_NAME);
  with_handle key (
    _ ← set_u32 key KeyLength RSA_BITS;
    _ ← set_u32 key ExportPolicy 0;
    _ ← windows_call (nc_finalize key);
    body key).

Definition validate_key (key : N) : IO unit :=
  algorithm ← get_utf16 key Algorithm;
  bits ← get_u32 key KeyLength;
  export_policy ← get_u32 key ExportPolicy;
  guard_not (negb (String.eqb algorithm "RSA") || negb (bits =? RSA_BITS) || negb (export_policy =? 0))
    (Crypto "persisted KEK is not non-exportable RSA-2048").

(** [ensure_exists]. *)
Definition cng_ensure_exists (key_path : Path) : IO unit :=
  with_provider (fun provider =>
    _ ← require_hardware_only provider;
    opened ← try_ (open_key provider);
    match opened with
    | Ok key => with_handle key (validate_key key)
    | Err (Windows code) =>
        if code =? NTE_BAD_KEYSET then with_created_key provider validate_key else throw (Windows code)
    | Err e => throw e
    end).

(** The opening that [wrap_dek] and [unwrap_dek] share. *)
Definition with_valid_key {A} (body : N -> IO A) : IO A :=
  with_provider (fun provider =>
    _ ← require_hardware_only provider;
    key ← open_key provider;
    with_handle key (_ ← validate_key key; body key)).

(** [wrap_dek]. *)
Definition cng_wrap_dek (key_path : Path) (dek : bytes) : IO bytes :=
  with_valid_key (fun key =>
    wrapped_length ← windows_call (nc_encrypt_size key dek);
    _ ← guard_not (negb (wrapped_length =? WRAPPED_DEK_BYTES)) (Crypto "RSA-2048 wrapped DEK length is not 256");
    wrapped ← windows_call (nc_encrypt key dek wrapped_length);
    mret (take (N.to_nat (snd (wrapped : bytes * N))) (fst wrapped))).

(** [unwrap_dek]. *)
Definition cng_unwrap_dek (key_path : Path) (wrapped : bytes) : IO bytes :=
  _ ← guard_not (negb (len wrapped =? WRAPPED_DEK_BYTES)) (Format "wrapped DEK must be 256 bytes");
  with_valid_key (fun key =>
    recovered ← windows_call (nc_decrypt key wrapped DEK_BYTES);
    _ ← guard_not (negb (snd (recovered : bytes * N) =? DEK_BYTES)) (Crypto "unwrapped DEK length is not 32");
    mret (fst recovered)).

Definition cng_kek : KekBackend := {|
  kek_ensure_exists := cng_ensure_exists;
  kek_wrap_dek := cng_wrap_dek;
  kek_unwrap_dek := cng_unwrap_dek;
|}.
End Cng.

(** ** DPAPI *)

Definition AUDIT_ENTROPY : bytes := list_byte_of_string "FURSOY.Vault.Audit.v2".

(** [CryptProtectData] and [CryptUnprotectData] with the entropy, without a
    dialog: the pointer of the output blob, or null, and its length. *)
Class Dpapi := {
  crypt_protect : forall (input entropy : bytes), IO (Result N (option bytes * N));
  crypt_unprotect : forall (input entropy : bytes), IO (Result N (option bytes * N));
}.

Section DpapiBackend.
Context `{DP : Dpapi}.

(** [transform]. *)
Definition dpapi_transform (input : bytes) (encrypt : bool) : IO bytes :=
  _ ← guard_not (u32_max <? len input) (Format "DPAPI input exceeds u32");
  output ← windows_call (if encrypt then crypt_protect input AUDIT_ENTROPY else crypt_unprotect input AUDIT_ENTROPY);
  let '(data, length) := (output : option bytes * N) in
  match data with
  | None =>
      _ ← guard_not (negb (length =? 0)) (Crypto "DPAPI returned an invalid output blob");
      mret []
  | Some b => mret (take (N.to_nat length) b)
  end.

Definition dpapi_local_secret : LocalSecret := {|
  protect plaintext := dpapi_transform plaintext true;
  unprotect ciphertext := dpapi_transform ciphertext false;
|}.
End DpapiBackend.

(** ** What the host relies on

    [cng_property] is the value of a property of an object, [key_name] the name a
    key handle was opened by, and [cng_plaintext] what a ciphertext decrypts to
    under the key of a name. The provider changes no file of the host. *)
Class NCryptLaws `{NCrypt} := {
  cng_property : N -> CngProperty -> bytes;
  key_name : N -> string;
  cng_plaintext : string -> bytes -> option bytes;
  nc_open_provider_call : sys_call nc_open_provider;
  nc_open_key_call p name : sys_answer (nc_open_key p name) (fun r => forall k, r = Ok k -> key_name k = name);
  nc_create_key_call p name : sys_answer (nc_create_key p name) (fun r => forall k, r = Ok k -> key_name k = name);
  nc_get_size_call h q : sys_call (nc_get_size h q);
  nc_get_call h q n : sys_answer (nc_get h q n) (fun r => forall b k, r = Ok (b, k) -> take (N.to_nat k) b = cng_property h q);
  nc_set_call h q b : sys_call (nc_set h q b);
  nc_finalize_call h : sys_call (nc_finalize h);
  nc_encrypt_size_call h m : sys_call (nc_encrypt_size h m);
  nc_encrypt_call h m n : sys_answer (nc_encrypt h m n) (fun r => forall ct k, r = Ok (ct, k) ->
    k = n /\ len ct = n /\ cng_plaintext (key_name h) ct = Some m);
  nc_decrypt_call h ct n : sys_answer (nc_decrypt h ct n) (fun r => forall m k, r = Ok (m, k) ->
    k = n -> cng_plaintext (key_name h) ct = Some m);
  nc_free_call h : sys_call (nc_free h);
}.

Section CngLaws.
Context `{NC : NCrypt, NL : !NCryptLaws}.

(** The errors of a use of the key: a system error or a failed check. *)
Definition key_error (e : FcpError) : Prop := (exists code, e = Windows code) \/ exists m, e = Crypto m.

(** A computation over the provider: no file changes, its result satisfies [P] and
    its error is one of the key's. *)
Definition cng_run {A} (P : A -> Prop) (m : IO A) : Prop := forall w,
  wp m (fun a _ w' => untouched w w' /\ P a) (fun e _ w' => untouched w w' /\ key_error e) (untouched w) tt w.

Lemma cng_ret {A} (P : A -> Prop) a : P a -> cng_run P (mret a).
Proof using Type. intros HP w. by split. Qed.

Lemma cng_bind {A B} (P : A -> Prop) (Q : B -> Prop) (m : IO A) (f : A -> IO B) :
  cng_run P m -> (forall a, P a -> cng_run Q (f a)) -> cng_run Q (m ≫= f).
Proof using Type.
  intros Hm Hf w. apply wp_bind. eapply wp_mono; [apply Hm|cbn beta..]; [|done|done].
  intros a [] w1 [H1 Ha]. eapply wp_mono; [by apply Hf|..]; cbn beta.
  - intros b _ w2 [H2 Hb]. split; [by eapply untouched_trans|done].
  - intros e _ w2 [H2 He]. split; [by eapply untouched_trans|done].
  - intros w2 H2. by eapply untouched_trans.
Qed.

Lemma cng_guard b m : cng_run (fun _ => b = false) (guard_not b (Crypto m)).
Proof using Type. intros w. destruct b; (split; [done|]); [right; by eexists|done]. Qed.

Lemma cng_guard_bind {B} (Q : B -> Prop) b m (f : unit -> IO B) :
  (b = false -> cng_run Q (f tt)) -> cng_run Q (guard_not b (Crypto m) ≫= f).
Proof using Type. intros Hf. eapply cng_bind; [apply cng_guard|]. cbn beta. intros [] Hb. by apply Hf. Qed.

Lemma cng_call {A} (P : A -> Prop) (m : IO (Result N A)) :
  sys_answer m (fun r => forall a, r = Ok a -> P a) -> cng_run P (windows_call m).
Proof using Type.
  intros Hm w. unfold windows_call. apply wp_bind. eapply wp_mono; [apply Hm|cbn beta..]; [|by intros e [] w' []|done].
  intros [a|code] [] w' [Hu HP]; apply wp_lift; cbn [map_err]; (split; [done|]); [by apply HP|left; by eexists].
Qed.

Lemma cng_sys_call {A} (m : IO (Result N A)) : sys_call m -> cng_run (fun _ => True) (windows_call m).
Proof using Type. intros Hm. apply cng_call. intros w. eapply wp_mono; [apply Hm|..]; cbn beta; auto. Qed.

Lemma cng_drop h : cng_run (fun _ => True) (drop_handle h).
Proof using NL.
  intros w. unfold drop_handle. destruct (nc_invalid h); [by split|].
  eapply wp_mono; [apply nc_free_call|..]; cbn beta; [by split|done|done].
Qed.

Lemma cng_with_handle {A} (P : A -> Prop) h (body : IO A) : cng_run P body -> cng_run P (with_handle h body).
Proof using NL.
  intros Hb w. unfold with_handle. apply wp_bind, wp_try. eapply wp_mono; [apply Hb|cbn beta..]; [| |done].
  - intros a [] w1 [H1 Ha]. apply wp_bind. eapply wp_mono; [apply cng_drop|cbn beta..].
    + intros ? [] w2 [H2 _]. apply wp_lift. split; [by eapply untouched_trans|done].
    + intros e [] w2 [H2 He]. split; [by eapply untouched_trans|done].
    + intros w2 H2. by eapply untouched_trans.
  - intros e [] w1 [H1 He]. apply wp_bind. eapply wp_mono; [apply cng_drop|cbn beta..].
    + intros ? [] w2 [H2 _]. apply wp_lift. split; [by eapply untouched_trans|done].
    + intros e' [] w2 [H2 He']. split; [by eapply untouched_trans|done].
    + intros w2 H2. by eapply untouched_trans.
Qed.

Lemma cng_get_property h q : cng_run (fun b => b = cng_property h q) (get_property h q).
Proof using NL.
  unfold get_property. eapply cng_bind; [apply cng_sys_call, nc_get_size_call|]. intros n _.
  eapply (cng_bind (fun r : bytes * N => take (N.to_nat r.2) r.1 = cng_property h q)).
  - apply cng_call. intros w. eapply wp_mono; [apply nc_get_call|..]; cbn beta; [|done|done].
    intros r [] w' [Hu HP]. split; [done|]. intros [b k] ->. by apply HP.
  - intros [b k] Hb. by apply cng_ret.
Qed.

Lemma cng_get_u32 h q : cng_run (fun v => v = le_value (cng_property h q)) (get_u32 h q).
Proof using NL.
  unfold get_u32. eapply cng_bind; [apply cng_get_property|]. intros b ->.
  apply cng_guard_bind. intros ?. by apply cng_ret.
Qed.

(** The provider is a TPM 2.0 and no software. *)
Definition hardware_tpm (provider : N) : Prop :=
  N.land (le_value (cng_property provider ImplType)) NCRYPT_IMPL_HARDWARE_FLAG <> 0 /\
  N.land (le_value (cng_property provider ImplType)) NCRYPT_IMPL_SOFTWARE_FLAG = 0 /\
  le_value (cng_property provider TpmVersion) = 0x00020000.

(** The key is a non-exportable RSA-2048 key of the host's name. *)
Definition protected_key (key : N) : Prop :=
  key_name key = KEK_NAME /\ from_utf16 (utf16_units (cng_property key Algorithm)) = Some (list_byte_of_string "RSA") /\
  le_value (cng_property key KeyLength) = RSA_BITS /\ le_value (cng_property key ExportPolicy) = 0.

Lemma cng_require_hardware h : cng_run (fun _ => hardware_tpm h) (require_hardware_only h).
Proof using NL.
  unfold require_hardware_only. eapply cng_bind; [apply cng_get_u32|]. intros i ->.
  apply cng_guard_bind. intros Hg. eapply cng_bind; [apply cng_get_u32|]. intros v ->.
  intros w. eapply wp_mono; [apply cng_guard|cbn beta..]; [|done|done]. intros ? [] w' [Hu Hv]. split; [done|].
  bool_to_prop. by split_and!.
Qed.

Lemma cng_validate_key k : key_name k = KEK_NAME -> cng_run (fun _ => protected_key k) (validate_key k).
Proof using NL.
  intros Hk. unfold validate_key.
  eapply (cng_bind (fun s => exists t, from_utf16 (utf16_units (cng_property k Algorithm)) = Some t /\ s = string_of_list_byte t)).
  { unfold get_utf16. eapply cng_bind; [apply cng_get_property|]. intros b ->.
    destruct (from_utf16 _) as [t|] eqn:Ht.
    - apply cng_ret. eauto.
    - intros w. apply wp_bind, wp_throw. split; [done|]. right. by eexists. }
  intros algorithm (t & Ht & ->). eapply cng_bind; [apply cng_get_u32|]. intros bits ->.
  eapply cng_bind; [apply cng_get_u32|]. intros policy ->.
  intros w. eapply wp_mono; [apply cng_guard|cbn beta..]; [|done|done]. intros ? [] w' [Hu Hg]. split; [done|].
  bool_to_prop. match goal with H : String.eqb _ _ = true |- _ => apply String.eqb_eq in H; rename H into He end.
  split_and!; [done| |done|done]. rewrite Ht. f_equal. rewrite <- He. symmetry. apply list_byte_of_string_of_list_byte.
Qed.

Lemma cng_with_provider {A} (P : A -> Prop) (body : N -> IO A) :
  (forall provider, cng_run P (body provider)) -> cng_run P (with_provider body).
Proof using NL.
  intros Hb. eapply cng_bind; [apply cng_sys_call, nc_open_provider_call|]. intros h _. by apply cng_with_handle.
Qed.

Lemma cng_open_key p : cng_run (fun k => key_name k = KEK_NAME) (open_key p).
Proof using NL. apply cng_call, nc_open_key_call. Qed.

Lemma cng_with_valid_key {A} (P : A -> Prop) (body : N -> IO A) :
  (forall provider key, hardware_tpm provider -> protected_key key -> cng_run P (body key)) ->
  cng_run P (with_valid_key body).
Proof using NL.
  intros Hb. apply cng_with_provider. intros provider. eapply cng_bind; [apply cng_require_hardware|]. cbn beta; intros ? Hh.
  eapply cng_bind; [apply cng_open_key|]. cbn beta; intros key Hk. apply cng_with_handle.
  eapply cng_bind; [by apply cng_validate_key|]. cbn beta; intros ? Hp. by eapply Hb.
Qed.

Definition sealed_by_hardware : Prop := exists provider key, hardware_tpm provider /\ protected_key key.

Lemma cng_wrap p dek :
  cng_run (fun ct => len ct = WRAPPED_DEK_BYTES /\ cng_plaintext KEK_NAME ct = Some dek /\ sealed_by_hardware) (cng_wrap_dek p dek).
Proof using NL.
  unfold cng_wrap_dek. apply cng_with_valid_key. intros provider key Hh Hk.
  eapply cng_bind; [apply cng_sys_call, nc_encrypt_size_call|]. intros n _.
  apply cng_guard_bind. intros Hn. bool_to_prop. subst n.
  eapply (cng_bind (fun r : bytes * N => r.2 = WRAPPED_DEK_BYTES /\ len r.1 = WRAPPED_DEK_BYTES /\ cng_plaintext (key_name key) r.1 = Some dek)).
  - apply cng_call. intros w. eapply wp_mono; [apply nc_encrypt_call|..]; cbn beta; [|done|done].
    intros r [] w' [Hu HP]. split; [done|]. intros [ct k] ->. by apply HP.
  - intros [ct k] (Hk1 & Hl & Hpt). cbn [fst snd] in *. apply cng_ret. rewrite firstn_all2 by (unfold len in Hl; lia).
    destruct Hk as [Hname Hrest]. rewrite Hname in Hpt. split_and!; [done|done|]. by exists provider, key.
Qed.

Lemma cng_unwrap p dek ct :
  len ct = WRAPPED_DEK_BYTES -> cng_plaintext KEK_NAME ct = Some dek ->
  cng_run (fun d => d = dek /\ sealed_by_hardware) (cng_unwrap_dek p ct).
Proof using NL.
  intros Hl Hpt. unfold cng_unwrap_dek. rewrite Hl, N.eqb_refl. cbn [negb].
  change (cng_run (fun d => d = dek /\ sealed_by_hardware) (with_valid_key (fun key =>
    recovered ← windows_call (nc_decrypt key ct DEK_BYTES);
    _ ← guard_not (negb (snd (recovered : bytes * N) =? DEK_BYTES)) (Crypto "unwrapped DEK length is not 32");
    mret (fst recovered)))).
  apply cng_with_valid_key. intros provider key Hh Hk.
  eapply (cng_bind (fun r : bytes * N => r.2 = DEK_BYTES -> cng_plaintext (key_name key) ct = Some r.1)).
  - apply cng_call. intros w. eapply wp_mono; [apply nc_decrypt_call|..]; cbn beta; [|done|done].
    intros r [] w' [Hu HP]. split; [done|]. intros [m k] ->. intros Hk1. by eapply HP.
  - intros [m k] Hm. apply cng_guard_bind. intros Hg. bool_to_prop. apply cng_ret. cbn beta in *. cbn [fst snd] in *.
    specialize (Hm Hg). destruct Hk as [Hname Hrest]. rewrite Hname, Hpt in Hm. split; [congruence|]. by exists provider, key.
Qed.

Lemma cng_ensure p : cng_run (fun _ => sealed_by_hardware) (cng_ensure_exists p).
Proof using NL.
  unfold cng_ensure_exists. apply cng_with_provider. intros provider.
  eapply cng_bind; [apply cng_require_hardware|]. cbn beta; intros ? Hh.
  assert (Hv : forall key, key_name key = KEK_NAME -> cng_run (fun _ => sealed_by_hardware) (validate_key key)).
  { intros key Hk w. eapply wp_mono; [by apply cng_validate_key|cbn beta..]; [|done|done].
    intros ? [] w' [Hu Hp]. split; [done|]. by exists provider, key. }
  intros w. apply wp_bind, wp_try. eapply wp_mono; [apply cng_open_key|cbn beta..]; [| |done].
  - intros key [] w1 [H1 Hk]. eapply wp_mono; [apply cng_with_handle, Hv, Hk|..]; cbn beta.
    + intros ? [] w2 [H2 Hs]. split; [by eapply untouched_trans|done].
    + intros e [] w2 [H2 He]. split; [by eapply untouched_trans|done].
    + intros w2 H2. by eapply untouched_trans.
  - intros e [] w1 [H1 He].
    assert (Hthrow : forall e', key_error e' -> cng_run (fun _ : unit => sealed_by_hardware) (throw e')).
    { intros e' He' w2. by split. }
    assert (Hrest : cng_run (fun _ => sealed_by_hardware) (match e with
      | Windows code => if code =? NTE_BAD_KEYSET then with_created_key provider validate_key else throw (Windows code)
      | _ => throw e end)).
    { destruct e; try (by apply Hthrow). destruct (_ =? NTE_BAD_KEYSET); [|by apply Hthrow].
      eapply cng_bind; [apply cng_call, nc_create_key_call|]. cbn beta; intros key Hk. apply cng_with_handle.
      eapply cng_bind; [apply cng_sys_call, nc_set_call|]. intros ? ?.
      eapply cng_bind; [apply cng_sys_call, nc_set_call|]. intros ? ?.
      eapply cng_bind; [apply cng_sys_call, nc_finalize_call|]. intros ? ?. by apply Hv. }
    eapply wp_mono; [destruct e; apply Hrest|..]; cbn beta.
    + intros ? [] w2 [H2 Hs]. split; [by eapply untouched_trans|done].
    + intros e' [] w2 [H2 He']. split; [by eapply untouched_trans|done].
    + intros w2 H2. by eapply untouched_trans.
Qed.
End CngLaws.

(** The Windows key-encryption key is used only as a TPM key: every successful
    wrap or unwrap went through a provider that is hardware only and a TPM 2.0 and
    through a non-exportable RSA-2048 key of the host's name; what is unwrapped is
    the key that was wrapped. A failure is a system error or one of these checks,
    and no file of the host changes in any case. *)
Theorem cng_kek_round_trip `{NC : NCrypt, NL : !NCryptLaws} p dek w :
  wp (cng_wrap_dek p dek)
     (fun wrapped _ w1 => untouched w w1 /\ len wrapped = WRAPPED_DEK_BYTES /\ sealed_by_hardware /\
        forall w2, wp (cng_unwrap_dek p wrapped)
          (fun d _ w3 => untouched w2 w3 /\ d = dek /\ sealed_by_hardware)
          (fun e _ w3 => untouched w2 w3 /\ key_error e) (untouched w2) tt w2)
     (fun e _ w1 => untouched w w1 /\ key_error e) (untouched w) tt w.
Proof.
  eapply wp_mono; [apply cng_wrap|cbn beta..]; [|done|done].
  intros ct [] w1 (Hu & Hl & Hp & Hs). split_and!; [done..|]. intros w2. by apply cng_unwrap.
Qed.

(** Making sure of the key succeeds only with such a key: after
    [ensure_exists], the provider is a TPM and holds a non-exportable RSA-2048 key
    of the host's name, created now if there was none. The Windows backend
    implements [KekBackend] without a file. *)
Theorem cng_kek_ensured `{NC : NCrypt, NL : !NCryptLaws} :
  (forall p w, wp (cng_ensure_exists p) (fun _ _ w' => untouched w w' /\ sealed_by_hardware)
     (fun e _ w' => untouched w w' /\ key_error e) (untouched w) tt w) /\
  @KekLaws cng_kek.
Proof.
  split; [apply cng_ensure|]. split; cbn; intros.
  - intros w. eapply wp_mono; [apply cng_ensure|..]; cbn beta; intros; apply untouched_frame; tauto.
  - intros w. eapply wp_mono; [apply cng_wrap|..]; cbn beta; intros; apply untouched_frame; tauto.
  - apply framed_frame, calm_framed. unfold cng_unwrap_dek. calm_tac.
    intros [] w. eapply wp_mono; [apply (cng_with_valid_key (fun _ => True))|..]; cbn beta; [|tauto..].
    intros provider key _ _. eapply cng_bind; [apply cng_sys_call; eapply sys_answer_call, nc_decrypt_call|]. intros r _.
    apply cng_guard_bind. intros _. by apply cng_ret.
Qed.

(** ** DPAPI *)

Definition output_blob (output : option bytes * N) : bytes :=
  match output.1 with Some b => take (N.to_nat output.2) b | None => [] end.

Class DpapiLaws `{Dpapi} := {
  dpapi_opens : bytes -> bytes -> option bytes;
  crypt_protect_call input entropy : sys_answer (crypt_protect input entropy) (fun r => forall o,
    r = Ok o -> dpapi_opens entropy (output_blob o) = Some input /\ len (output_blob o) <= u32_max);
  crypt_unprotect_call input entropy : sys_answer (crypt_unprotect input entropy) (fun r => forall o plain,
    r = Ok o -> dpapi_opens entropy input = Some plain -> output_blob o = plain);
}.

Section DpapiRuns.
Context `{DP : Dpapi, DL : !DpapiLaws}.

Lemma calm_dpapi b encrypt : calm (dpapi_transform b encrypt).
Proof using DL.
  unfold dpapi_transform. apply calm_bind; [apply calm_guard|]. intros _.
  apply calm_bind; [apply calm_windows_call; destruct encrypt; eapply sys_answer_call;
    first [apply crypt_protect_call|apply crypt_unprotect_call]|]. intros [[b'|] n]; calm_tac.
Qed.

Lemma dpapi_local_secret_laws : @LocalSecretLaws dpapi_local_secret.
Proof using DL. split; cbn; intros; apply calm_untouched, calm_dpapi. Qed.

Lemma wp_dpapi_protect plaintext w :
  wp (dpapi_transform plaintext true)
     (fun blob _ _ => dpapi_opens AUDIT_ENTROPY blob = Some plaintext /\ len blob <= u32_max) (fun _ _ _ => True) (fun _ => True) tt w.
Proof using DL.
  unfold dpapi_transform. apply wp_bind, wp_guard_not. destruct (u32_max <? len plaintext); [done|].
  unfold windows_call. apply wp_bind, wp_bind. eapply wp_mono; [apply crypt_protect_call|cbn beta..]; [|done|done].
  intros [[data n]|code] [] w1 [_ Ho]; apply wp_lift; cbn [map_err]; [|done]. specialize (Ho _ eq_refl).
  destruct data as [b|]; [exact Ho|]. apply wp_bind, wp_guard_not. destruct (negb _); [done|exact Ho].
Qed.

Lemma wp_dpapi_unprotect plaintext blob w :
  dpapi_opens AUDIT_ENTROPY blob = Some plaintext -> len blob <= u32_max ->
  wp (dpapi_transform blob false) (fun b _ _ => b = plaintext)
     (fun e _ _ => key_error e) (fun _ => True) tt w.
Proof using DL.
  intros Ho Hl. unfold dpapi_transform. apply wp_bind, wp_guard_not. destruct (N.ltb_spec u32_max (len blob)); [lia|].
  unfold windows_call. apply wp_bind, wp_bind. eapply wp_mono; [apply crypt_unprotect_call|cbn beta..]; [|by intros e [] w' []|done].
  intros [[data n]|code] [] w1 [_ Hr]; apply wp_lift; cbn [map_err]; [|left; by eexists]. specialize (Hr _ _ eq_refl Ho).
  destruct data as [b|]; [exact Hr|]. apply wp_bind, wp_guard_not. destruct (negb _); [right; by eexists|exact Hr].
Qed.
End DpapiRuns.

(** What DPAPI protected comes back: a blob that [protect] returned is
    unprotected to the same secret at any later time, or the call fails with an
    error of the system; neither call changes a file of the host, so the Windows
    build has its [LocalSecret] too. *)
Theorem dpapi_round_trip `{DP : Dpapi, DL : !DpapiLaws} :
  @LocalSecretLaws dpapi_local_secret /\
  forall plaintext blob w w1 w2, @protect dpapi_local_secret plaintext tt w = Done blob tt w1 ->
    wp (@unprotect dpapi_local_secret blob) (fun b _ w3 => b = plaintext /\ untouched w2 w3)
      (fun e _ w3 => key_error e /\ untouched w2 w3) (untouched w2) tt w2.
Proof.
  split; [apply dpapi_local_secret_laws|]. intros plaintext blob w w1 w2 Hrun. cbn in Hrun |- *.
  pose proof (wp_dpapi_protect plaintext w) as Hp. unfold wp in Hp. rewrite Hrun in Hp. destruct Hp as [Ho Hl].
  eapply wp_mono; [eapply wp_and; [by apply wp_dpapi_unprotect|apply calm_dpapi]|..]; cbn beta; tauto.
Qed.

(** ** Examples *)

Definition toy_property (q : CngProperty) : bytes :=
  match q with
  | ImplType => le_bytes 4 1
  | TpmVersion => le_bytes 4 0x00020000
  | Algorithm => [Byte.x52; Byte.x00; Byte.x53; Byte.x00; Byte.x41; Byte.x00; Byte.x00; Byte.x00]
  | KeyLength => le_bytes 4 2048
  | ExportPolicy => le_bytes 4 0
  end.

(** A provider with one key; a ciphertext is the message, padded. *)
Definition toy_ncrypt : NCrypt := {|
  nc_open_provider := mret (Ok 1);
  nc_open_key _ name := mret (if String.eqb name KEK_NAME then Ok 2 else Err NTE_BAD_KEYSET);
  nc_create_key _ name := mret (if String.eqb name KEK_NAME then Ok 2 else Err 1);
  nc_get_size _ q := mret (Ok (len (toy_property q)));
  nc_get _ q _ := mret (Ok (toy_property q, len (toy_property q)));
  nc_set _ _ _ := mret (Ok tt);
  nc_finalize _ := mret (Ok tt);
  nc_encrypt_size _ _ := mret (Ok 256);
  nc_encrypt _ m n := mret (if (length m =? 32)%nat && (n =? 256) then Ok (m ++ replicate 224 Byte.x00, 256) else Err 1);
  nc_decrypt _ ct n := mret (if n =? 32 then Ok (take 32 ct, 32) else Err 1);
  nc_invalid h := h =? 0;
  nc_free _ := mret tt;
|}.

Definition toy_ncrypt_laws : @NCryptLaws toy_ncrypt.
Proof.
  refine (@Build_NCryptLaws toy_ncrypt (fun _ => toy_property) (fun _ => KEK_NAME) (fun _ ct => Some (take 32 ct))
    _ _ _ _ _ _ _ _ _ _ _); intros; intros w; try (by split); try done; split; try done; cbn beta.
  - intros k. destruct (String.eqb_spec name KEK_NAME); [done|]. intros [=].
  - intros k. destruct (String.eqb_spec name KEK_NAME); [done|]. intros [=].
  - intros b k [= <- <-]. by destruct q.
  - intros ct k. destruct (Nat.eqb_spec (length m) 32) as [Hm|]; [|intros [=]].
    destruct (N.eqb_spec n 256) as [->|]; [|intros [=]]. cbn [andb]. intros [= <- <-]. split_and!; [done| |].
    + unfold len. rewrite length_app, Hm. reflexivity.
    + by rewrite take_app_length'.
  - intros m k. destruct (n =? 32); intros [=]. subst. done.
Qed.

(** The blob is the secret behind its length. *)
Definition toy_dpapi : Dpapi := {|
  crypt_protect input _ := mret (if len input <? u32_max then Ok (Some (Byte.x01 :: input), 1 + len input) else Err 1);
  crypt_unprotect input _ := mret (match input with _ :: b => Ok (Some b, len b) | [] => Err 1 end);
|}.

Definition toy_dpapi_laws : @DpapiLaws toy_dpapi.
Proof.
  refine (@Build_DpapiLaws toy_dpapi (fun _ b => match b with _ :: b' => Some b' | [] => None end) _ _);
    intros input entropy w; split; try done; cbn beta.
  - intros o. destruct (N.ltb_spec (len input) u32_max); intros [=]. subst. unfold output_blob. cbn [fst snd].
    rewrite firstn_all2 by (unfold len; cbn [length]; lia). split; [done|]. unfold len in *. cbn [length]. lia.
  - intros o plain. destruct input as [|x b]; intros [=]. subst. intros [=]. subst. unfold output_blob. cbn [fst snd].
    apply firstn_all2. unfold len. lia.
Qed.

Lemma cng_kek_round_trip_witness :
  wp (@cng_wrap_dek toy_ncrypt [] (replicate 32 Byte.x07))
     (fun wrapped _ w1 => untouched kek_world w1 /\ len wrapped = WRAPPED_DEK_BYTES /\ @sealed_by_hardware toy_ncrypt toy_ncrypt_laws /\
        forall w2, wp (@cng_unwrap_dek toy_ncrypt [] wrapped)
          (fun d _ w3 => untouched w2 w3 /\ d = replicate 32 Byte.x07 /\ @sealed_by_hardware toy_ncrypt toy_ncrypt_laws)
          (fun e _ w3 => untouched w2 w3 /\ key_error e) (untouched w2) tt w2)
     (fun e _ w1 => untouched kek_world w1 /\ key_error e) (untouched kek_world) tt kek_world /\
  exists ct w', @cng_wrap_dek toy_ncrypt [] (replicate 32 Byte.x07) tt kek_world = Done ct tt w'.
Proof.
  split; [exact (@cng_kek_round_trip toy_ncrypt toy_ncrypt_laws [] (replicate 32 Byte.x07) kek_world)|].
  eexists _, _. vm_compute. reflexivity.
Defined.

Lemma cng_kek_ensured_witness :
  (forall p w, wp (@cng_ensure_exists toy_ncrypt p) (fun _ _ w' => untouched w w' /\ @sealed_by_hardware toy_ncrypt toy_ncrypt_laws)
     (fun e _ w' => untouched w w' /\ key_error e) (untouched w) tt w) /\
  @KekLaws (@cng_kek toy_ncrypt).
Proof. exact (@cng_kek_ensured toy_ncrypt toy_ncrypt_laws). Defined.

Lemma dpapi_round_trip_witness :
  @LocalSecretLaws (@dpapi_local_secret toy_dpapi) /\
  forall plaintext blob w w1 w2, @protect (@dpapi_local_secret toy_dpapi) plaintext tt w = Done blob tt w1 ->
    wp (@unprotect (@dpapi_local_secret toy_dpapi) blob) (fun b _ w3 => b = plaintext /\ untouched w2 w3)
      (fun e _ w3 => key_error e /\ untouched w2 w3) (untouched w2) tt w2.
Proof. exact (@dpapi_round_trip toy_dpapi toy_dpapi_laws). Defined.
