(* ===== verification/WindowsFiles.v ===== *)
(** * paths.rs, atomic_file.rs and instance_lock.rs of the Windows build

    The text that these files have for Windows only: the root of the data with its
    migration from the old name, the two calls of the atomic writer, and the lock of
    the profile. Paths reach the system as they are. *)

From S2P Require Import Prelude World External Examples AtomicFile Frames Handles Paths Protocol HostLoop HelloAuthorizer AuthorizerTpm.

(** ** paths.rs *)

(** [platform_root], [discover_root]; [local_app_data] is the environment variable. *)
Definition windows_platform_root (local_app_data : option Path) : IO Path :=
  local_app_data ← ok_or_throw local_app_data (Io NotFound);
  let root := path_join local_app_data "FursoyVault" in
  _ ← migrate_one (path_join local_app_data "FursoyCookieProtector") root;
  mret root.

Definition windows_discover_root (fcp_data_dir local_app_data : option Path) : IO Path :=
  match fcp_data_dir with
  | Some override_path => mret override_path
  | None => windows_platform_root local_app_data
  end.

(** ** The calls of the system *)

(** Calls that hand out handles have a state; the argument of the creation stands for
    its other arguments: the directory with all sharing, and the file of the lock
    with none, which is deleted when it is closed. *)
Class WindowsFiles := {
  wf_state : Type;
  move_file_ex : Path -> Path -> IO (Result N unit);
  open_directory : Path -> M wf_state (Result N N);
  create_unshared : Path -> M wf_state (Result N N);
  flush_file_buffers : N -> M wf_state (Result N unit);
  close_handle : N -> M wf_state (Result N unit);
}.

Section Windows.
Context `{WF : WindowsFiles}.

Definition handle_call {A} (m : M wf_state (Result N A)) : M wf_state A := r ← m; lift (map_err Windows r).

(** [atomic_replace], with [MOVEFILE_REPLACE_EXISTING] and [MOVEFILE_WRITE_THROUGH]. *)
Definition windows_atomic_replace (source target : Path) : IO unit := windows_call (move_file_ex source target).

(** [sync_directory]: both results are awaited before the first error is returned. *)
Definition windows_sync_directory (directory : Path) : M wf_state unit :=
  handle ← handle_call (open_directory directory);
  flush_result ← try_ (handle_call (flush_file_buffers handle));
  close_result ← try_ (handle_call (close_handle handle));
  _ ← lift flush_result;
  lift close_result.

(** [InstanceLock::acquire] and its [Drop]. *)
Definition windows_acquire_lock (root : Path) : M wf_state N :=
  path ← io (lock_path root);
  created ← create_unshared path;
  match created with Ok handle => mret handle | Err _ => throw busy end.

Definition drop_lock (handle : N) : M wf_state unit := _ ← close_handle handle; mret tt.
End Windows.

(** The same services, with a record of the handles. *)
Definition noted_files (WF : WindowsFiles) : WindowsFiles := {|
  wf_state := wf_state * list HandleEvent;
  move_file_ex := move_file_ex;
  open_directory p := noting (acquired (fun _ => true)) [] (open_directory p);
  create_unshared p := noting (acquired (fun _ => true)) [] (create_unshared p);
  flush_file_buffers h := silent (flush_file_buffers h);
  close_handle h := noting (fun _ => [Released h]) [Released h] (close_handle h);
|}.

(** ** The migration of the old directory *)

(** A directory that is moved onto a free name keeps what is in it. *)
Lemma move_tree_moved src dst fs rest :
  (forall r, fs !! (dst ++ r) = None) -> move_tree src dst fs !! (dst ++ rest) = fs !! (src ++ rest).
Proof.
  intros Hfree. unfold move_tree. set (f := fun '(p, n) => _).
  assert (Hstrip : forall r, strip_path_prefix src (src ++ r) = Some r).
  { intros r. clear. induction src as [|a src IH]; cbn; [done|]. by rewrite String.eqb_refl. }
  assert (Hin : forall n, (dst ++ rest, n) ∈ f <$> map_to_list fs <-> fs !! (src ++ rest) = Some n).
  { intros n. rewrite list_elem_of_fmap. split.
    - intros ([p n'] & Heq & Hp). apply elem_of_map_to_list in Hp. unfold f in Heq. injection Heq as Hq ->.
      destruct (strip_path_prefix src p) as [r|] eqn:E.
      + apply app_inv_head in Hq as ->. by apply strip_path_prefix_Some in E as ->.
      + rewrite <- Hq, Hfree in Hp. done.
    - intros Hq. exists (src ++ rest, n). split; [|by apply elem_of_map_to_list]. unfold f. by rewrite Hstrip. }
  destruct (fs !! (src ++ rest)) as [n|] eqn:Hq.
  - apply elem_of_list_to_map_1'; [|by apply Hin]. intros y Hy. apply Hin in Hy. congruence.
  - apply not_elem_of_list_to_map_1. intros ([p n] & Hp & Hi)%list_elem_of_fmap. cbn in Hp. subst p.
    apply Hin in Hi. congruence.
Qed.

Lemma run_exists p w : no_faults w -> fs_exists p tt w = Done (bool_decide (is_Some (w_fs w !! p))) tt (tick w).
Proof. intros Hw. unfold fs_exists, io_step, get_fs, mbind, M_bind. by rewrite Hw. Qed.

(** The directories are there already. *)
Lemma run_dirs_exist p w :
  no_faults w -> Forall (fun q => w_fs w !! q = Some Dir) (path_prefixes p) -> fs_create_dir_all p tt w = Done tt tt (tick w).
Proof.
  intros Hw Hdirs. unfold fs_create_dir_all. rewrite run_with_fault by done. unfold get_fs, put_fs, mbind, M_bind.
  assert (Hfiles : existsb (fun q => is_file (w_fs w !! q)) (path_prefixes p) = false).
  { induction Hdirs as [|q l Hq Hl IH]; [done|]. cbn. by rewrite Hq, IH. }
  assert (Hmake : foldl make_dir (w_fs w) (path_prefixes p) = w_fs w).
  { clear Hfiles. induction Hdirs as [|q l Hq Hl IH]; [done|]. cbn. unfold make_dir at 2. by rewrite Hq. }
  cbn [w_fs tick]. rewrite Hfiles, Hmake. by destruct w.
Qed.

Section Migration.
Context (base : Path) (w : World).
Abbreviation old := (path_join base "FursoyCookieProtector").
Abbreviation new := (path_join base "FursoyVault").

Lemma new_parent : path_parent new = Some base.
Proof. unfold path_parent, path_join. rewrite removelast_last. by destruct base. Qed.

Lemma run_rename_free src dst w0 :
  no_faults w0 -> w_fs w0 !! src = Some Dir -> w_fs w0 !! dst = None -> path_parent dst = Some base -> w_fs w0 !! base = Some Dir ->
  exists w', fs_rename_any src dst tt w0 = Done tt tt w' /\ w_fs w' = move_tree src dst (w_fs w0).
Proof.
  intros Hw Hs Hd Hp Hb. eexists. unfold fs_rename_any. rewrite Hs, run_with_fault by done. unfold get_fs, put_fs, mbind, M_bind.
  cbn [w_fs tick]. rewrite Hd, Hp, Hb. done.
Qed.

(** The old directory is moved, with all it holds, when there is no new one yet. *)
Theorem windows_root_migrated :
  no_faults w -> Forall (fun p => w_fs w !! p = Some Dir) (path_prefixes base) -> w_fs w !! base = Some Dir ->
  w_fs w !! old = Some Dir -> (forall r, w_fs w !! (new ++ r) = None) ->
  exists w', windows_platform_root (Some base) tt w = Done new tt w' /\
    forall rest, w_fs w' !! (new ++ rest) = w_fs w !! (old ++ rest).
Proof using Type.
  intros Hw Hdirs Hbase Hold Hfree.
  assert (Hnew : w_fs w !! new = None) by (rewrite <- (app_nil_r new); apply Hfree).
  assert (Hn : forall n, no_faults (Nat.iter n tick w)) by (intros n; induction n; [done|exact IHn]).
  destruct (run_rename_free old new (Nat.iter 3 tick w) (Hn 3%nat) Hold Hnew new_parent Hbase) as (w' & Hrun & Hfs).
  exists w'. split; [|intros rest; rewrite Hfs; by apply move_tree_moved].
  unfold windows_platform_root. erewrite run_bind; [|reflexivity]. cbv zeta. erewrite run_bind; [reflexivity|].
  unfold migrate_one. erewrite run_bind; [|by apply run_exists]. rewrite Hold. cbn [negb bool_decide].
  erewrite run_bind; [|by apply (run_exists new _ (Hn 1%nat))]. rewrite bool_decide_false.
  2: { change (~ is_Some (w_fs w !! new)). rewrite Hnew. by intros []. }
  rewrite new_parent. erewrite run_bind; [|by apply (run_dirs_exist base _ (Hn 2%nat))]. exact Hrun.
Qed.

(** One failing metadata call makes the old directory look absent: the host starts
    with an empty profile, and once it has created its root the old data are never
    moved. *)
Theorem windows_root_forgotten n :
  env_fault (w_env w) (w_step w) = IoFault n -> windows_platform_root (Some base) tt w = Done new tt (tick w).
Proof using Type.
  intros Hf. unfold windows_platform_root, migrate_one, fs_exists, io_step, mbind, M_bind. cbn. by rewrite Hf.
Qed.

Theorem windows_root_settled :
  no_faults w -> is_Some (w_fs w !! new) -> exists w', windows_platform_root (Some base) tt w = Done new tt w' /\ w_fs w' = w_fs w.
Proof using Type.
  intros Hw Hnew. unfold windows_platform_root. erewrite run_bind; [|reflexivity]. cbv zeta.
  destruct (w_fs w !! old) as [node|] eqn:Hold.
  - exists (tick (tick w)). split; [|done]. erewrite run_bind; [reflexivity|]. unfold migrate_one.
    erewrite run_bind; [|by apply run_exists]. rewrite Hold. cbn [negb bool_decide].
    erewrite run_bind; [|by apply (run_exists new (tick w))]. by rewrite (bool_decide_true (is_Some (w_fs (tick w) !! new))).
  - exists (tick w). split; [|done]. erewrite run_bind; [reflexivity|]. unfold migrate_one.
    erewrite run_bind; [|by apply run_exists]. by rewrite Hold.
Qed.
End Migration.

(** ** Handles *)

Section WindowsHandles.
Context (WF : WindowsFiles).
Abbreviation state := (@wf_state (noted_files WF)).
#[local] Instance noted_files_trace : Trace state := snd.

(** A record that ends as it began, or with one handle taken and given back. *)
Lemma extends_pair (s s' : state) h : s'.2 = s.2 ++ [Acquired h; Released h] -> extends 1 s s'.
Proof using Type.
  intros Hs. exists [Acquired h; Released h]. split; [exact Hs|]. intros held. cbn [brackets].
  destruct (Nat.ltb_spec (length held) (length held + 1)); [|lia]. by rewrite N.eqb_refl.
Qed.

(** Flushing a directory closes it, whatever the flush and the closing answer. *)
Theorem windows_sync_directory_balanced directory : balanced 1 (windows_sync_directory (WF := noted_files WF) directory).
Proof using Type.
  intros s w. unfold windows_sync_directory, handle_call, mbind, M_bind, try_, lift. cbn [open_directory flush_file_buffers close_handle noted_files].
  unfold silent, noting, acquired, acquisition.
  destruct (open_directory directory s.1 w) as [[h|e] x w1|e x w1|w1|w1]; cbn; [|apply extends_same, app_nil_r..|done|done].
  destruct (flush_file_buffers h x w1) as [[f|e] x2 w2|e x2 w2|w2|w2]; cbn; [| | |done|done];
    (destruct (close_handle h x2 w2) as [[c|e'] x3 w3|e' x3 w3|w3|w3]; cbn;
     [by apply (extends_pair _ _ h); cbn; rewrite !app_nil_r, <- app_assoc..|done|done]).
Qed.

(** The lock of a profile is one handle, given back when the lock is dropped. *)
Theorem windows_lock_balanced root :
  balanced 1 (h ← windows_acquire_lock (WF := noted_files WF) root; drop_lock (WF := noted_files WF) h).
Proof using Type.
  intros s w. unfold windows_acquire_lock, drop_lock, mbind, M_bind, io. cbn [create_unshared close_handle noted_files].
  unfold noting, acquired, acquisition. destruct (lock_path root tt w) as [path [] w1|e [] w1|w1|w1]; cbn; [|by apply extends_same|done|done].
  destruct (create_unshared path s.1 w1) as [[h|e] x w2|e x w2|w2|w2]; cbn; [|apply extends_same, app_nil_r..|done|done].
  destruct (close_handle h x w2) as [r x3 w3|e x3 w3|w3|w3]; cbn; [|  |done|done]; apply (extends_pair _ _ h); cbn; by rewrite <- app_assoc.
Qed.
End WindowsHandles.

(** ** One host per profile *)

Section Exclusion.
Context `{WF : WindowsFiles} (holds : wf_state -> N -> Path -> Prop).

(** A file created without sharing cannot be created again while its handle lives. *)
Hypothesis unshared : forall p s w h s' w', create_unshared p s w = Done (Ok h) s' w' ->
  (forall h', ~ holds s h' p) /\ holds s' h p.

(** While one host has the lock of a profile, no other gets it; who gets it has it. *)
Theorem windows_lock_exclusive root s w :
  match windows_acquire_lock root s w with
  | Done h s' _ => (forall h', ~ holds s h' (path_join root "host.lock")) /\ holds s' h (path_join root "host.lock")
  | _ => True
  end.
Proof using unshared.
  unfold windows_acquire_lock, mbind, M_bind, io. destruct (lock_path root tt w) as [path [] w1| | |] eqn:Hpath; [|done..].
  unfold lock_path in Hpath. apply run_bind_inv in Hpath as (u & [] & w2 & _ & Hpath). injection Hpath as <- <-.
  destruct (create_unshared _ s w2) as [[h|e] s' w3| | |] eqn:Hc; [|done..]. by apply unshared in Hc.
Qed.
End Exclusion.
