(* ===== verification/ProcessObserver.v ===== *)
(** * monitor/process.rs: Chrome processes with remote debugging (Windows)

    A thread that asks WMI for the Chrome processes, first all of them and then
    each one that starts, and queues a monitor event for every switch that opens
    the browser to a debugger. It shares the queue of Monitor with the thread of
    the host: [other_thread] is what that thread did to the queue before each time
    the observer takes the lock. COM objects are handles; their release has no
    effect on the host and is not modelled. *)

From S2P Require Import Prelude World External Frames Messages HelloAuthorizer Group Delivery Monitor.

(** Text as the Unicode scalar values of a [String] or of a Windows path. *)
Abbreviation Text := (list N).
Definition text (s : string) : Text := Ascii.N_of_ascii <$> list_ascii_of_string s.

#[export] Instance monitor_signal_countable : Countable MonitorSignal.
Proof.
  refine (inj_countable'
    (fun s => match s with
      | Signal.RemoteDebuggingPort => 0 | Signal.RemoteDebuggingPipe => 1
      | Signal.ProcessInspectionWmiConnectAccessDenied => 2 | Signal.ProcessInspectionWmiConnectFailed => 3
      | Signal.ProcessInspectionWmiPollAccessDenied => 4 | Signal.ProcessInspectionWmiPollFailed => 5
      | Signal.ProcessInspectionCommandLineAccessDenied => 6 | Signal.ProcessInspectionCommandLineUnavailable => 7
      | Signal.HostDisconnect => 8 | Signal.HostDisconnectActiveLease => 9 | Signal.ReconnectSuccess => 10
      | Signal.ReconciliationFailed => 11 | Signal.AuditIntegrityRecovered => 12
      | Signal.LeaseOutsideCookieCreated => 13 | Signal.SelectorChanged => 14 | Signal.MonitorQueueOverflow => 15 end)
    (fun n => match n with
      | 0 => Signal.RemoteDebuggingPort | 1 => Signal.RemoteDebuggingPipe
      | 2 => Signal.ProcessInspectionWmiConnectAccessDenied | 3 => Signal.ProcessInspectionWmiConnectFailed
      | 4 => Signal.ProcessInspectionWmiPollAccessDenied | 5 => Signal.ProcessInspectionWmiPollFailed
      | 6 => Signal.ProcessInspectionCommandLineAccessDenied | 7 => Signal.ProcessInspectionCommandLineUnavailable
      | 8 => Signal.HostDisconnect | 9 => Signal.HostDisconnectActiveLease | 10 => Signal.ReconnectSuccess
      | 11 => Signal.ReconciliationFailed | 12 => Signal.AuditIntegrityRecovered
      | 13 => Signal.LeaseOutsideCookieCreated | 14 => Signal.SelectorChanged | _ => Signal.MonitorQueueOverflow end) _).
  by intros [].
Defined.

(** ** The command line *)

(** [char::is_whitespace], [str::to_ascii_lowercase], [str::eq_ignore_ascii_case]. *)
Definition is_whitespace (c : N) : bool :=
  ((9 <=? c) && (c <=? 13)) || (c =? 0x20) || (c =? 0x85) || (c =? 0xA0) || (c =? 0x1680)
  || ((0x2000 <=? c) && (c <=? 0x200A)) || (c =? 0x2028) || (c =? 0x2029) || (c =? 0x202F)
  || (c =? 0x205F) || (c =? 0x3000).
Definition ascii_lowercase (c : N) : N := if (65 <=? c) && (c <=? 90) then c + 32 else c.
Definition text_lowercase (t : Text) : Text := ascii_lowercase <$> t.
Definition eq_ignore_case (a b : Text) : bool := bool_decide (text_lowercase a = text_lowercase b).

Definition QUOTE : N := 34.

(** [split_windows_arguments]: the loop with its [result], [current] and
    [quoted], then what is left of [current]. *)
Fixpoint split_chars (command_line : Text) (result : list Text) (current : Text) (quoted : bool) : list Text * Text :=
  match command_line with
  | [] => (result, current)
  | character :: rest =>
      if character =? QUOTE then split_chars rest result current (negb quoted)
      else if is_whitespace character && negb quoted then
        match current with
        | [] => split_chars rest result [] quoted
        | _ => split_chars rest (result ++ [current]) [] quoted
        end
      else split_chars rest result (current ++ [character]) quoted
  end.

Definition split_windows_arguments (command_line : Text) : list Text :=
  let '(result, current) := split_chars command_line [] [] false in
  match current with [] => result | _ => result ++ [current] end.

(** [has_switch]. *)
Fixpoint text_starts_with (prefix t : Text) : bool :=
  match prefix, t with
  | [], _ => true
  | a :: prefix', b :: t' => (a =? b) && text_starts_with prefix' t'
  | _ :: _, [] => false
  end.

Definition has_switch (arguments : list Text) (expected : Text) : bool :=
  existsb (fun argument =>
    let normalized := text_lowercase argument in
    bool_decide (normalized = expected) || text_starts_with (expected ++ text "=") normalized) arguments.

(** [detect_remote_debugging]. *)
Definition PORT_SWITCH : Text := text "--remote-debugging-port".
Definition PIPE_SWITCH : Text := text "--remote-debugging-pipe".

Definition detect_remote_debugging (command_line : Text) : list MonitorSignal :=
  let arguments := split_windows_arguments command_line in
  (if has_switch arguments PORT_SWITCH then [Signal.RemoteDebuggingPort] else [])
  ++ (if has_switch arguments PIPE_SWITCH then [Signal.RemoteDebuggingPipe] else []).

(** [is_wbem_access_denied], [connect_failure_signal], [poll_failure_signal],
    [command_line_failure_signal]. *)
Definition WBEM_E_ACCESS_DENIED : N := 0x80041003.
Definition is_wbem_access_denied (error : FcpError) : bool :=
  match error with Windows code => code =? WBEM_E_ACCESS_DENIED | _ => false end.

Definition connect_failure_signal (error : FcpError) : MonitorSignal :=
  if is_wbem_access_denied error then Signal.ProcessInspectionWmiConnectAccessDenied
  else Signal.ProcessInspectionWmiConnectFailed.
Definition poll_failure_signal (error : FcpError) : MonitorSignal :=
  if is_wbem_access_denied error then Signal.ProcessInspectionWmiPollAccessDenied
  else Signal.ProcessInspectionWmiPollFailed.
Definition command_line_failure_signal (error : FcpError) : MonitorSignal :=
  if is_wbem_access_denied error then Signal.ProcessInspectionCommandLineAccessDenied
  else Signal.ProcessInspectionCommandLineUnavailable.

(** ** The system's services *)

Inductive WmiQuery :=
  | ChromeProcesses
  | ChromeStarts
  | ProcessById (process_id : N).

(** [WQL] text of the queries. *)
Definition wql (q : WmiQuery) : string :=
  match q with
  | ChromeProcesses => "SELECT ProcessId, ExecutablePath, CommandLine FROM Win32_Process WHERE Name = 'chrome.exe'"
  | ChromeStarts => "SELECT ProcessID, ProcessName FROM Win32_ProcessStartTrace WHERE ProcessName = 'chrome.exe'"
  | ProcessById process_id =>
      "SELECT ExecutablePath, CommandLine FROM Win32_Process WHERE ProcessId = " +:+ pretty process_id
  end.

(** COM and WMI: [wmi_next] answers the object and the number of objects
    returned; a property is read into a variant and converted. *)
Class Wmi := {
  com_initialize_ex : IO (Result N unit);
  com_uninitialize : IO unit;
  wmi_create_locator : IO (Result N N);
  wmi_connect_server : N -> string -> IO (Result N N);
  wmi_set_proxy_blanket : N -> IO (Result N unit);
  wmi_exec_query : N -> string -> IO (Result N N);
  wmi_exec_notification_query : N -> string -> IO (Result N N);
  wmi_next : N -> N -> IO (Result N (option N * N));
  wmi_get : N -> string -> IO (Result N N);
  variant_u32 : N -> Result N N;
  variant_text : N -> Result N Text;
}.

(** What the check of an executable asks the system: the canonical form of a path
    as its components, a variable of the environment, the verdict of Authenticode
    on a file, with the action (verify or close). *)
Inductive TrustAction := StateVerify | StateClose.

Class TrustHost := {
  os_canonicalize : Text -> IO (option (list Text));
  os_env_var : string -> IO (option Text);
  win_verify_trust : Text -> TrustAction -> IO Z;
}.

(** [Path::file_name] of a Windows path: the last component, after the drive,
    unless it is [..]. *)
Definition is_separator (c : N) : bool := (c =? 47) || (c =? 92).
Fixpoint path_segments (t current : Text) : list Text :=
  match t with
  | [] => [current]
  | c :: t' => if is_separator c then current :: path_segments t' [] else path_segments t' (current ++ [c])
  end.
Definition is_letter (c : N) : bool := ((65 <=? c) && (c <=? 90)) || ((97 <=? c) && (c <=? 122)).
Definition strip_drive (t : Text) : Text :=
  match t with c :: 58 :: rest => if is_letter c then rest else t | _ => t end.
Definition normal_segments (t : Text) : list Text :=
  List.filter (fun s => negb (bool_decide (s = [])) && negb (bool_decide (s = text "."))) (path_segments (strip_drive t) []).
Definition windows_file_name (t : Text) : option Text :=
  match list.last (normal_segments t) with
  | Some s => if bool_decide (s = text "..") then None else Some s
  | None => None
  end.

(** [Path::join] of a Windows path with a plain name. *)
Definition join_name (t : Text) (name : string) : Text :=
  match list.last t with
  | None => text name
  | Some c => if is_separator c || bool_decide (strip_drive t = []) then t ++ text name else t ++ 92 :: text name
  end.

(** [Path::starts_with] on components. *)
Fixpoint components_start_with (prefix p : list Text) : bool :=
  match prefix, p with
  | [], _ => true
  | a :: prefix', b :: p' => bool_decide (a = b) && components_start_with prefix' p'
  | _ :: _, [] => false
  end.

Section Observer.
Context `{WM : Wmi, TH : TrustHost}.

(** ** Trust in an executable *)

(** [verify_authenticode]: the state of the verification is closed in any case. *)
Definition verify_authenticode (path : Text) : IO bool :=
  status ← win_verify_trust path StateVerify;
  _ ← win_verify_trust path StateClose;
  mret (status =? 0)%Z.

(** [is_known_chrome_install_path]: the iterator stops at the first root that
    matches. *)
Definition chrome_root (variable : string) : IO (option (list Text)) :=
  root ← os_env_var variable;
  match root with
  | None => mret None
  | Some root => os_canonicalize (join_name (join_name (join_name root "Google") "Chrome") "Application")
  end.

Fixpoint any_chrome_root (candidate : list Text) (variables : list string) : IO bool :=
  match variables with
  | [] => mret false
  | variable :: rest =>
      root ← chrome_root variable;
      match root with
      | Some root => if components_start_with root candidate then mret true else any_chrome_root candidate rest
      | None => any_chrome_root candidate rest
      end
  end.

Definition is_known_chrome_install_path (path : Text) : IO bool :=
  candidate ← os_canonicalize path;
  match candidate with
  | None => mret false
  | Some candidate => any_chrome_root candidate ["ProgramFiles"; "ProgramFiles(x86)"; "LOCALAPPDATA"]%string
  end.

(** [is_trusted_chrome]. *)
Definition is_trusted_chrome (path : Text) : IO bool :=
  let is_chrome := match windows_file_name path with Some name => eq_ignore_case name (text "chrome.exe") | None => false end in
  if is_chrome then
    known ← is_known_chrome_install_path path;
    if (known : bool) then verify_authenticode path else mret false
  else mret false.

(** ** WMI *)

(** [next_object]: [None] on a timeout and at the end. *)
Definition next_object (enumerator timeout_ms : N) : IO (option N) :=
  answer ← windows_call (wmi_next enumerator timeout_ms);
  let '(value, returned) := (answer : option N * N) in
  mret (if returned =? 1 then value else None).

(** [get_u32], [get_string]. *)
Definition wmi_u32 (object : N) (name : string) : IO N :=
  value ← windows_call (wmi_get object name);
  lift (map_err Windows (variant_u32 value)).
Definition wmi_text (object : N) (name : string) : IO Text :=
  value ← windows_call (wmi_get object name);
  lift (map_err Windows (variant_text value)).

(** [connect_wmi], [subscribe_process_starts]. *)
Definition connect_wmi : IO N :=
  locator ← windows_call wmi_create_locator;
  services ← windows_call (wmi_connect_server locator "ROOT\CIMV2");
  _ ← windows_call (wmi_set_proxy_blanket services);
  mret services.
Definition subscribe_process_starts (services : N) : IO N :=
  windows_call (wmi_exec_notification_query services (wql ChromeStarts)).

(** [poll_processes]: the objects are read until the enumeration ends; [None]
    when the fuel is spent first. *)
Fixpoint poll_objects (fuel : nat) (objects : N) (snapshot : list (N * Text)) : IO (option (list (N * Text))) :=
  match fuel with
  | O => mret None
  | S fuel' =>
      next ← next_object objects 2000;
      match next with
      | None => mret (Some snapshot)
      | Some object =>
          process_id ← wmi_u32 object "ProcessId";
          executable_path ← wmi_text object "ExecutablePath";
          trusted ← is_trusted_chrome executable_path;
          if (trusted : bool)
          then command_line ← wmi_text object "CommandLine"; poll_objects fuel' objects (snapshot ++ [(process_id, command_line)])
          else poll_objects fuel' objects snapshot
      end
  end.

Definition poll_processes (fuel : nat) (services : N) : IO (option (list (N * Text))) :=
  objects ← windows_call (wmi_exec_query services (wql ChromeProcesses));
  poll_objects fuel objects [].

(** [inspect_process]. *)
Definition inspect_process (services process_id : N) : IO (option Text) :=
  objects ← windows_call (wmi_exec_query services (wql (ProcessById process_id)));
  next ← next_object objects 2000;
  match next with
  | None => mret None
  | Some object =>
      executable_path ← wmi_text object "ExecutablePath";
      trusted ← is_trusted_chrome executable_path;
      if (trusted : bool) then command_line ← wmi_text object "CommandLine"; mret (Some command_line) else mret None
  end.

(** ** The queue *)

(** The observer's part of the state: the queue it shares, in its engine, and its
    own set of what it has seen. *)
Record Observer := mkObserver {
  ob_monitor : MonitorEngine;
  ob_seen : gset (N * MonitorSignal);
}.
Definition set_ob_monitor v (o : Observer) := mkObserver v (ob_seen o).
Definition set_ob_seen v (o : Observer) := mkObserver (ob_monitor o) v.

(** What the thread of the host did to the queue since the observer last held the
    lock, and the flag that its [Drop] raises. *)
Context (other_thread : M MonitorEngine unit) (stop_requested : IO bool).

(** [enqueue_signal]. *)
Definition enqueue_signal (signal : MonitorSignal) : M Observer unit :=
  event_id ← io new_v4;
  observed_at ← io unix_ms;
  zoom ob_monitor set_ob_monitor (
    _ ← other_thread;
    enqueue_bounded (mkMonitorEvent event_id observed_at Source.NativeHost signal (severity signal) None 1)).

(** [let _ = enqueue_signal(..)]. *)
Definition try_enqueue_signal (signal : MonitorSignal) : M Observer unit := _ ← try_ (enqueue_signal signal); mret tt.

(** [enqueue_matches]. *)
Definition enqueue_match (process_id : N) (signal : MonitorSignal) : M Observer unit :=
  self ← get;
  if bool_decide ((process_id, signal) ∈ ob_seen self) then mret tt
  else
    _ ← put (set_ob_seen ({[(process_id, signal)]} ∪ ob_seen self) self);
    try_enqueue_signal signal.

Definition enqueue_matches (process_id : N) (command_line : Text) : M Observer unit :=
  for_each (detect_remote_debugging command_line) (enqueue_match process_id).

(** [observe_processes], from its end: the loop over the start events, one turn of
    it, and the blocks before it. [None] when the fuel is spent. *)
Definition observe_event (services events : N) : M Observer unit :=
  next ← try_ (io (next_object events 1000));
  match next with
  | Ok (Some event) =>
      process_id ← try_ (io (wmi_u32 event "ProcessID"));
      match process_id with
      | Ok process_id =>
          inspected ← try_ (io (inspect_process services process_id));
          match inspected with
          | Ok (Some command_line) => enqueue_matches process_id command_line
          | Ok None => mret tt
          | Err error => try_enqueue_signal (command_line_failure_signal error)
          end
      | Err _ => mret tt
      end
  | Ok None => mret tt
  | Err error => try_enqueue_signal (poll_failure_signal error)
  end.

Fixpoint observe_loop (fuel : nat) (services events : N) : M Observer (option unit) :=
  match fuel with
  | O => mret None
  | S fuel' =>
      stop ← io stop_requested;
      if (stop : bool) then mret (Some tt)
      else _ ← observe_event services events; observe_loop fuel' services events
  end.

Definition observe_baseline (fuel : nat) (services : N) : M Observer (option unit) :=
  polled ← try_ (io (poll_processes fuel services));
  match polled with
  | Ok (Some snapshot) =>
      _ ← for_each snapshot (fun '(process_id, command_line) => enqueue_matches process_id command_line);
      mret (Some tt)
  | Ok None => mret None
  | Err error => _ ← try_enqueue_signal (poll_failure_signal error); mret (Some tt)
  end.

Definition observe_connected (fuel : nat) : M Observer (option unit) :=
  connected ← try_ (io connect_wmi);
  match connected with
  | Err error => _ ← try_enqueue_signal (connect_failure_signal error); mret (Some tt)
  | Ok services =>
      polled ← observe_baseline fuel services;
      match polled with
      | None => mret None
      | Some _ =>
          subscribed ← try_ (io (subscribe_process_starts services));
          match subscribed with
          | Err error => _ ← try_enqueue_signal (poll_failure_signal error); mret (Some tt)
          | Ok events => observe_loop fuel services events
          end
      end
  end.

Definition observe_processes (fuel : nat) : M Observer (option unit) :=
  apartment ← try_ (io (windows_call com_initialize_ex));
  match apartment with
  | Err error => _ ← try_enqueue_signal (connect_failure_signal error); mret (Some tt)
  | Ok _ =>
      ended ← observe_connected fuel;
      _ ← io com_uninitialize;
      mret ended
  end.
End Observer.

(** ** What counts as an argument

    A word is written as pieces, each bare or in quotation marks; words are
    separated by white space; a quotation mark that is never closed quotes the
    rest of the line; a word without characters is dropped. *)
Inductive spells : Text -> Text -> Prop :=
  | spells_nil : spells [] []
  | spells_bare c w t : c <> QUOTE -> is_whitespace c = false -> spells w t -> spells (c :: w) (c :: t)
  | spells_quoted q w t : QUOTE ∉ q -> spells w t -> spells (q ++ w) (QUOTE :: q ++ QUOTE :: t).

Definition keep (w : Text) (ws : list Text) : list Text := match w with [] => ws | _ => w :: ws end.

Inductive spells_line : list Text -> Text -> Prop :=
  | line_end w t : spells w t -> spells_line (keep w []) t
  | line_open w t q : spells w t -> QUOTE ∉ q -> spells_line (keep (w ++ q) []) (t ++ QUOTE :: q)
  | line_word w t c ws l : spells w t -> is_whitespace c = true -> spells_line ws l ->
      spells_line (keep w ws) (t ++ c :: l).

Lemma split_quoted q l result current :
  QUOTE ∉ q -> split_chars (q ++ l) result current true = split_chars l result (current ++ q) true.
Proof.
  revert current. induction q as [|c q IH]; intros current Hq; [by rewrite app_nil_r|].
  apply not_elem_of_cons in Hq as [Hc Hq]. cbn [app split_chars].
  rewrite (proj2 (N.eqb_neq _ _) (not_eq_sym Hc)), andb_false_r, IH by done. by rewrite <- app_assoc.
Qed.

Lemma split_spells w t l result current :
  spells w t -> split_chars (t ++ l) result current false = split_chars l result (current ++ w) false.
Proof.
  intros Hs. revert current. induction Hs as [|c w t Hc Hw Hs IH|q w t Hq Hs IH]; intros current.
  - by rewrite app_nil_r.
  - cbn [app split_chars]. rewrite (proj2 (N.eqb_neq _ _) Hc), Hw. cbn [andb]. rewrite IH. by rewrite <- app_assoc.
  - cbn [app split_chars]. rewrite N.eqb_refl, <- app_assoc, split_quoted by done. cbn [app split_chars negb].
    rewrite N.eqb_refl. cbn [negb]. rewrite IH. by rewrite <- app_assoc.
Qed.

Definition finish (r : list Text * Text) : list Text := let '(result, current) := r in match current with [] => result | _ => result ++ [current] end.

Lemma finish_keep result w : finish (result, w) = result ++ keep w [].
Proof. destruct w; cbn; [by rewrite app_nil_r|done]. Qed.

Lemma split_line ws l result : spells_line ws l -> finish (split_chars l result [] false) = result ++ ws.
Proof.
  intros Hs. revert result. induction Hs as [w t Hw|w t q Hw Hq|w t c ws l Hw Hc Hs IH]; intros result.
  - rewrite <- (app_nil_r t), (split_spells w) by done. cbn [app split_chars]. apply finish_keep.
  - rewrite (split_spells w) by done. cbn [app split_chars]. rewrite N.eqb_refl. cbn [negb].
    rewrite <- (app_nil_r q) at 1. rewrite split_quoted by done. cbn [split_chars]. apply finish_keep.
  - rewrite (split_spells w) by done. cbn [app split_chars].
    destruct (N.eqb_spec c QUOTE) as [->|]; [done|]. rewrite Hc. cbn [andb negb].
    destruct w; cbn [keep]; rewrite IH; [done|]. by rewrite <- app_assoc.
Qed.

Lemma line_bare ws c t : c <> QUOTE -> is_whitespace c = false -> spells_line ws t -> exists ws', spells_line ws' (c :: t).
Proof.
  intros Hc Hw Hs. destruct Hs as [w t Hs|w t q Hs Hq|w t d ws l Hs Hd Hl]; eexists.
  - by apply line_end, spells_bare.
  - apply (line_open (c :: w) (c :: t)); [by apply spells_bare|done].
  - apply (line_word (c :: w) (c :: t)); [by apply spells_bare|done..].
Qed.

Lemma line_quoted ws q t : QUOTE ∉ q -> spells_line ws t -> exists ws', spells_line ws' (QUOTE :: q ++ QUOTE :: t).
Proof.
  intros Hq Hs. destruct Hs as [w t Hs|w t q' Hs Hq'|w t d ws l Hs Hd Hl]; eexists.
  - by apply line_end, spells_quoted.
  - change (QUOTE :: q ++ QUOTE :: t ++ QUOTE :: q') with ((QUOTE :: q) ++ (QUOTE :: t) ++ QUOTE :: q').
    rewrite app_assoc. apply (line_open (q ++ w)); [by apply spells_quoted|done].
  - change (QUOTE :: q ++ QUOTE :: t ++ d :: l) with ((QUOTE :: q) ++ (QUOTE :: t) ++ d :: l).
    rewrite app_assoc. apply (line_word (q ++ w)); [by apply spells_quoted|done..].
Qed.

Lemma quote_split (l : Text) : QUOTE ∉ l \/ exists q t, l = q ++ QUOTE :: t /\ QUOTE ∉ q.
Proof.
  induction l as [|c l IH]; [left; apply not_elem_of_nil|].
  destruct (decide (c = QUOTE)) as [->|Hc]; [right; exists [], l; split; [done|apply not_elem_of_nil]|].
  destruct IH as [Hl|(q & t & -> & Hq)]; [left|right; exists (c :: q), t; split; [done|]];
    apply not_elem_of_cons; done.
Qed.

Lemma every_line_spells l : exists ws, spells_line ws l.
Proof.
  induction l as [l IH] using (well_founded_induction (well_founded_ltof _ (@length N))). unfold ltof in IH.
  destruct l as [|c l]; [eexists; by apply line_end, spells_nil|].
  destruct (decide (c = QUOTE)) as [->|Hc].
  - destruct (quote_split l) as [Hl|(q & t & -> & Hq)].
    + eexists. apply (line_open [] []); [constructor|done].
    + destruct (IH t) as [ws Hs]; [cbn; rewrite length_app; cbn; lia|]. by eapply line_quoted.
  - destruct (IH l) as [ws Hs]; [cbn; lia|]. destruct (is_whitespace c) eqn:Hw.
    + eexists. apply (line_word [] []); [constructor|done..].
    + by eapply line_bare.
Qed.

Lemma split_exact l ws : split_windows_arguments l = ws <-> spells_line ws l.
Proof.
  change (split_windows_arguments l) with (finish (split_chars l [] [] false)). split.
  - intros <-. destruct (every_line_spells l) as [ws Hs]. rewrite (split_line ws) by done. done.
  - intros Hs. by rewrite (split_line ws).
Qed.

Lemma text_starts_with_spec p t : text_starts_with p t = true <-> exists v, t = p ++ v.
Proof.
  revert t. induction p as [|a p IH]; intros t; cbn; [split; [by exists t|done]|].
  destruct t as [|b t]; [by split; [|intros [v [=]]]|]. rewrite andb_true_iff, N.eqb_eq, IH. split.
  - intros [-> [v ->]]. by exists v.
  - intros [v [= -> ->]]. eauto.
Qed.

(** An argument that gives the switch, without or with a value. *)
Definition gives_switch (switch argument : Text) : Prop :=
  text_lowercase argument = switch \/ exists value, text_lowercase argument = switch ++ text "=" ++ value.

Lemma has_switch_spec arguments switch : has_switch arguments switch = true <-> exists a, a ∈ arguments /\ gives_switch switch a.
Proof.
  unfold has_switch. rewrite existsb_exists. split; intros (a & Ha & Hs); exists a; (split; [by apply list_elem_of_In|]).
  - apply orb_true_iff in Hs as [Hs|Hs]; [left; by apply bool_decide_eq_true in Hs|right].
    apply text_starts_with_spec in Hs as [v ->]. exists v. by rewrite app_assoc.
  - apply orb_true_iff. destruct Hs as [Hs|[v Hs]]; [left; by apply bool_decide_eq_true|right].
    apply text_starts_with_spec. exists v. by rewrite <- app_assoc.
Qed.

Definition switch_of (signal : MonitorSignal) : option Text :=
  match signal with
  | Signal.RemoteDebuggingPort => Some PORT_SWITCH
  | Signal.RemoteDebuggingPipe => Some PIPE_SWITCH
  | _ => None
  end.

(** C35: A command line is taken for remote debugging exactly when one of its
    arguments, read by the grammar of words and quotation marks, is one of the two
    switches in any case, alone or followed by [=] and a value; a switch inside a
    longer argument or as a value of another switch does not count. *)
Theorem remote_debugging_exact signal command_line :
  signal ∈ detect_remote_debugging command_line <->
  exists switch arguments argument, switch_of signal = Some switch /\ spells_line arguments command_line /\
    argument ∈ arguments /\ gives_switch switch argument.
Proof.
  unfold detect_remote_debugging. split.
  - intros Hin. apply elem_of_app in Hin as [Hin|Hin];
      (match type of Hin with context [if has_switch ?l ?s then _ else _] =>
         destruct (has_switch l s) eqn:Hs; [|by apply elem_of_nil in Hin]; apply has_switch_spec in Hs as (a & Ha & Hg);
         apply list_elem_of_singleton in Hin as ->; exists s, l, a end); (split; [done|]);
      (split; [by apply split_exact|done]).
  - intros (switch & arguments & a & Hsw & Hl & Ha & Hg). apply split_exact in Hl. rewrite Hl.
    assert (Hs : has_switch arguments switch = true) by (apply has_switch_spec; eauto).
    apply elem_of_app. destruct signal; try discriminate Hsw; injection Hsw as <-; rewrite Hs; [left|right]; by apply list_elem_of_singleton.
Qed.

(** ** What the host relies on

    [property_text] is the text of a property of a WMI object, [canonical] the
    canonical form of a path, [env_value] the value of a variable and [signed] that
    a file carries a valid Authenticode signature. *)
Class WmiLaws `{Wmi} := {
  property_text : N -> string -> option Text;
  com_initialize_ex_call : sys_call com_initialize_ex;
  com_uninitialize_call : sys_call com_uninitialize;
  wmi_create_locator_call : sys_call wmi_create_locator;
  wmi_connect_server_call l n : sys_call (wmi_connect_server l n);
  wmi_set_proxy_blanket_call s : sys_call (wmi_set_proxy_blanket s);
  wmi_exec_query_call s q : sys_call (wmi_exec_query s q);
  wmi_exec_notification_query_call s q : sys_call (wmi_exec_notification_query s q);
  wmi_next_call e t : sys_call (wmi_next e t);
  wmi_get_call o n : sys_answer (wmi_get o n) (fun r => forall v t, r = Ok v -> variant_text v = Ok t -> property_text o n = Some t);
}.

Class TrustHostLaws `{TrustHost} := {
  canonical : Text -> option (list Text);
  env_value : string -> option Text;
  signed : Text -> Prop;
  os_canonicalize_call p : sys_answer (os_canonicalize p) (fun r => forall c, r = Some c -> canonical p = Some c);
  os_env_var_call v : sys_answer (os_env_var v) (fun r => r = env_value v);
  win_verify_trust_call p a : sys_answer (win_verify_trust p a) (fun status => a = StateVerify -> status = 0%Z -> signed p);
}.

Section ObserverLaws.
Context `{WM : Wmi, TH : TrustHost, WL : !WmiLaws, TL : !TrustHostLaws}.

(** An executable named chrome.exe, below an installation of Chrome, with a valid
    signature. *)
Definition trusted_chrome (path : Text) : Prop :=
  (exists name, windows_file_name path = Some name /\ text_lowercase name = text "chrome.exe") /\
  (exists candidate variable root installation,
     canonical path = Some candidate /\ variable ∈ ["ProgramFiles"; "ProgramFiles(x86)"; "LOCALAPPDATA"]%string /\
     env_value variable = Some root /\
     canonical (join_name (join_name (join_name root "Google") "Chrome") "Application") = Some installation /\
     components_start_with installation candidate = true) /\
  signed path.

(** A call of the services that may fail with a system error. *)
Definition os_run {A} (P : A -> Prop) (m : IO A) : Prop := forall w,
  wp m (fun a _ _ => P a) (fun _ _ _ => True) (fun _ => True) tt w.

Lemma os_ret {A} (P : A -> Prop) a : P a -> os_run P (mret a).
Proof using Type. by intros HP w. Qed.
Lemma os_lift {A} (P : A -> Prop) (r : FcpResult A) : (forall a, r = Ok a -> P a) -> os_run P (lift r).
Proof using Type. intros HP w. apply wp_lift. destruct r; auto. Qed.
Lemma os_bind {A B} (P : A -> Prop) (Q : B -> Prop) (m : IO A) (f : A -> IO B) :
  os_run P m -> (forall a, P a -> os_run Q (f a)) -> os_run Q (m ≫= f).
Proof using Type.
  intros Hm Hf w. apply wp_bind. eapply wp_mono; [apply Hm|cbn beta..]; [|done|done].
  intros a [] w' Ha. by apply Hf.
Qed.
Lemma os_answer {A} (P : A -> Prop) (m : IO A) : sys_answer m P -> os_run P m.
Proof using Type. intros Hm w. eapply wp_mono; [apply Hm|..]; cbn beta; [by intros ? [] ? []|done|done]. Qed.
Lemma os_call {A} (m : IO A) : sys_call m -> os_run (fun _ => True) m.
Proof using Type. intros Hm w. eapply wp_mono; [apply Hm|..]; done. Qed.
Lemma os_windows {A} (P : A -> Prop) (m : IO (Result N A)) :
  os_run (fun r => forall a, r = Ok a -> P a) m -> os_run P (windows_call m).
Proof using Type.
  intros Hm. eapply os_bind; [exact Hm|]. intros r Hr. apply os_lift. intros a Ha. apply Hr. by destruct r; cbn in Ha; inversion Ha.
Qed.
Lemma os_windows_call {A} (m : IO (Result N A)) : sys_call m -> os_run (fun _ => True) (windows_call m).
Proof using Type. intros Hm. apply os_windows. intros w. eapply wp_mono; [by apply Hm|..]; done. Qed.

Lemma os_known_chrome candidate variables :
  os_run (fun known => known = true -> exists variable root installation, variable ∈ variables /\ env_value variable = Some root /\
    canonical (join_name (join_name (join_name root "Google") "Chrome") "Application") = Some installation /\
    components_start_with installation candidate = true) (any_chrome_root candidate variables).
Proof using TL.
  induction variables as [|variable variables IH]; cbn [any_chrome_root]; [by apply os_ret|].
  assert (Hrest : os_run (fun known => known = true -> exists v root installation, v ∈ variable :: variables /\ env_value v = Some root /\
    canonical (join_name (join_name (join_name root "Google") "Chrome") "Application") = Some installation /\
    components_start_with installation candidate = true) (any_chrome_root candidate variables)).
  { intros w. eapply wp_mono; [apply IH|..]; cbn beta; [|done|done]. intros known [] w' Hk Ht.
    destruct (Hk Ht) as (v & root & inst & Hv & Hrest). exists v, root, inst. split; [by apply elem_of_cons; right|done]. }
  eapply (os_bind (fun r => forall inst, r = Some inst -> exists root, env_value variable = Some root /\
    canonical (join_name (join_name (join_name root "Google") "Chrome") "Application") = Some inst)).
  { unfold chrome_root. eapply os_bind; [apply os_answer, os_env_var_call|]. cbn beta. intros [root|] Hroot; [|by apply os_ret].
    intros w. eapply wp_mono; [apply os_answer, os_canonicalize_call|..]; cbn beta; [|done|done].
    intros r [] w' Hr inst ->. exists root. auto. }
  intros [root|] Hroot; [|exact Hrest]. destruct (components_start_with root candidate) eqn:Hs; [|exact Hrest].
  apply os_ret. intros _. destruct (Hroot root eq_refl) as (r & Hr & Hc). exists variable, r, root.
  split; [apply elem_of_cons; by left|done].
Qed.

Lemma os_trusted_chrome path : os_run (fun trusted => trusted = true -> trusted_chrome path) (is_trusted_chrome path).
Proof using TL.
  unfold is_trusted_chrome. destruct (windows_file_name path) as [name|] eqn:Hn; [|by apply os_ret].
  unfold eq_ignore_case. case_bool_decide as He; [|by apply os_ret].
  eapply (os_bind (fun known => known = true -> exists candidate variable root installation,
     canonical path = Some candidate /\ variable ∈ ["ProgramFiles"; "ProgramFiles(x86)"; "LOCALAPPDATA"]%string /\
     env_value variable = Some root /\
     canonical (join_name (join_name (join_name root "Google") "Chrome") "Application") = Some installation /\
     components_start_with installation candidate = true)).
  { unfold is_known_chrome_install_path. eapply os_bind; [apply os_answer, os_canonicalize_call|]. cbn beta.
    intros [candidate|] Hc; [|by apply os_ret]. intros w. eapply wp_mono; [apply os_known_chrome|..]; cbn beta; [|done|done].
    intros known [] w' Hk Ht. destruct (Hk Ht) as (v & root & inst & ? & ? & ? & ?). exists candidate, v, root, inst. auto. }
  intros [] Hknown; [|by apply os_ret]. unfold verify_authenticode.
  eapply os_bind; [apply os_answer, win_verify_trust_call|]. cbn beta. intros status Hsigned.
  eapply os_bind; [eapply os_call, sys_answer_call, win_verify_trust_call|]. intros _ _. apply os_ret.
  intros Hst%Z.eqb_eq. split; [eauto|]. split; [by apply Hknown|by apply Hsigned].
Qed.

(** A trusted Chrome process with a command line that WMI reported. *)
Definition chrome_command (command_line : Text) : Prop := exists object executable,
  property_text object "ExecutablePath" = Some executable /\ trusted_chrome executable /\
  property_text object "CommandLine" = Some command_line.

Lemma os_wmi_text object name : os_run (fun t => property_text object name = Some t) (wmi_text object name).
Proof using WL.
  unfold wmi_text. eapply (os_bind (fun v => forall t, variant_text v = Ok t -> property_text object name = Some t)).
  - apply os_windows. intros w. eapply wp_mono; [apply os_answer, wmi_get_call|..]; cbn beta; [|done|done].
    intros r [] w' Hr v -> t Ht. by eapply Hr.
  - intros v Hv. apply os_lift. intros t Ht. apply Hv. by destruct (variant_text v); inversion Ht.
Qed.

Lemma os_wmi_u32 object name : os_run (fun _ => True) (wmi_u32 object name).
Proof using WL.
  unfold wmi_u32. eapply os_bind; [eapply os_windows_call, sys_answer_call, wmi_get_call|]. intros v _. by apply os_lift.
Qed.

Lemma os_next_object enumerator timeout : os_run (fun _ => True) (next_object enumerator timeout).
Proof using WL.
  unfold next_object. eapply os_bind; [apply os_windows_call, wmi_next_call|]. intros [value returned] _. by apply os_ret.
Qed.

(** The end that [poll_processes] and [inspect_process] share. *)
Lemma os_inspect_object {A} (P : A -> Prop) object (f : Text -> IO A) (other : IO A) :
  (forall cmd, chrome_command cmd -> os_run P (f cmd)) -> os_run P other ->
  os_run P (executable_path ← wmi_text object "ExecutablePath";
    trusted ← is_trusted_chrome executable_path;
    if (trusted : bool) then command_line ← wmi_text object "CommandLine"; f command_line else other).
Proof using WL TL.
  intros Hf Ho. eapply os_bind; [apply os_wmi_text|]. cbn beta. intros exe Hexe.
  eapply os_bind; [apply os_trusted_chrome|]. cbn beta. intros [] Ht; [|done].
  eapply os_bind; [apply os_wmi_text|]. cbn beta. intros cmd Hcmd. apply Hf. exists object, exe. auto.
Qed.

Lemma os_poll_objects fuel objects snapshot :
  Forall (fun e => chrome_command e.2) snapshot ->
  os_run (fun r => forall l, r = Some l -> Forall (fun e => chrome_command e.2) l) (poll_objects fuel objects snapshot).
Proof using WL TL.
  revert snapshot. induction fuel as [|fuel IH]; intros snapshot Hs; cbn [poll_objects]; [by apply os_ret|].
  eapply os_bind; [apply os_next_object|]. intros [object|] _; [|by apply os_ret; intros l [= <-]].
  eapply os_bind; [apply os_wmi_u32|]. intros process_id _. apply os_inspect_object; [|by apply IH].
  intros cmd Hcmd. apply IH. apply Forall_app. split; [done|]. by constructor.
Qed.

Lemma os_poll_processes fuel services :
  os_run (fun r => forall l, r = Some l -> Forall (fun e => chrome_command e.2) l) (poll_processes fuel services).
Proof using WL TL.
  unfold poll_processes. eapply os_bind; [apply os_windows_call, wmi_exec_query_call|]. intros objects _.
  apply os_poll_objects. constructor.
Qed.

Lemma os_inspect_process services process_id :
  os_run (fun r => forall cmd, r = Some cmd -> chrome_command cmd) (inspect_process services process_id).
Proof using WL TL.
  unfold inspect_process. eapply os_bind; [apply os_windows_call, wmi_exec_query_call|]. intros objects _.
  eapply os_bind; [apply os_next_object|]. intros [object|] _; [|by apply os_ret].
  apply (os_inspect_object _ _ (fun cmd => mret (Some cmd))); [|by apply os_ret].
  intros cmd Hcmd. apply os_ret. by intros ? [= <-].
Qed.

Lemma os_connect_wmi : os_run (fun _ => True) connect_wmi.
Proof using WL.
  unfold connect_wmi. eapply os_bind; [apply os_windows_call, wmi_create_locator_call|]. intros locator _.
  eapply os_bind; [apply os_windows_call, wmi_connect_server_call|]. intros services _.
  eapply os_bind; [apply os_windows_call, wmi_set_proxy_blanket_call|]. intros _ _. by apply os_ret.
Qed.

(** ** The queue under the observer *)

(** An alert about remote debugging is about a trusted Chrome process whose command
    line has the switch. *)
Definition justified (event : MonitorEvent) : Prop :=
  is_Some (switch_of (me_signal event)) ->
  exists command_line, chrome_command command_line /\ me_signal event ∈ detect_remote_debugging command_line.

Record queue_ok (m : MonitorEngine) : Prop := {
  qo_bounded : (length (mon_pending m) <= MAX_PENDING_EVENTS)%nat;
  qo_justified : Forall justified (mon_pending m);
}.

Lemma Forall_tail {A} (P : A -> Prop) l : Forall P l -> Forall P (tail l).
Proof using Type. by destruct 1. Qed.

Lemma queue_ok_enqueued event m queue :
  queue_ok m -> justified event -> enqueued event (mon_pending m) queue -> (length queue <= MAX_PENDING_EVENTS)%nat ->
  queue_ok (set_mon_pending queue m).
Proof using Type.
  intros [Hb Hj] He Hq Hl. split; [done|]. cbn. unfold enqueued in Hq. repeat case_bool_decide.
  - subst queue. apply Forall_app. split; [by apply Forall_tail|by constructor].
  - destruct Hq as (id & now & ->). apply Forall_app. split; [by do 2 apply Forall_tail|].
    constructor; [by intros [? [=]]|by constructor].
  - subst queue. apply Forall_app. split; [done|by constructor].
Qed.

Context (other_thread : M MonitorEngine unit) (stop_requested : IO bool).

(** What the other threads keep: the queue, and that the flag can be read. *)
Definition other_thread_ok : Prop := forall m w, queue_ok m ->
  wp other_thread (fun _ m' _ => queue_ok m') (fun _ _ _ => False) (fun _ => True) m w.

Context (OT : other_thread_ok) (ST : sys_call stop_requested).

(** A program of the observer that keeps the queue and reports no error. *)
Definition keeps_queue {A} (m : M Observer A) : Prop := forall o w, queue_ok (ob_monitor o) ->
  wp m (fun _ o' _ => queue_ok (ob_monitor o')) (fun _ _ _ => False) (fun _ => True) o w.

Lemma keeps_ret {A} (a : A) : keeps_queue (mret a).
Proof using Type. by intros o w Ho. Qed.
Lemma keeps_bind {A B} (m : M Observer A) (f : A -> M Observer B) :
  keeps_queue m -> (forall a, keeps_queue (f a)) -> keeps_queue (m ≫= f).
Proof using Type.
  intros Hm Hf o w Ho. apply wp_bind. eapply wp_mono; [by apply Hm|cbn beta..]; [|done|done].
  intros a o' w' Ho'. by apply Hf.
Qed.
Lemma keeps_try {A B} (P : A -> Prop) (m : IO A) (f : FcpResult A -> M Observer B) :
  os_run P m -> (forall a, P a -> keeps_queue (f (Ok a))) -> (forall e, keeps_queue (f (Err e))) ->
  keeps_queue (try_ (io m) ≫= f).
Proof using Type.
  intros Hm Hok Herr o w Ho. apply wp_bind, wp_try, wp_io. eapply wp_mono; [apply Hm|cbn beta..]; [| |done].
  - intros a [] w' Ha. by apply Hok.
  - intros e [] w' _. by apply Herr.
Qed.
Lemma keeps_io {A B} (m : IO A) (f : A -> M Observer B) :
  sys_call m -> (forall a, keeps_queue (f a)) -> keeps_queue (io m ≫= f).
Proof using Type.
  intros Hm Hf o w Ho. apply wp_bind, wp_io. eapply wp_mono; [apply Hm|cbn beta..]; [|done|done].
  intros a [] w' _. by apply Hf.
Qed.
Lemma keeps_for_each {X} (P : X -> Prop) (l : list X) (body : X -> M Observer unit) :
  Forall P l -> (forall x, P x -> keeps_queue (body x)) -> keeps_queue (for_each l body).
Proof using Type.
  intros Hl Hb. induction Hl as [|x l Hx Hl IH]; cbn [for_each]; [by apply keeps_ret|].
  apply keeps_bind; [by apply Hb|]. by intros _.
Qed.

Lemma wp_try_enqueue_signal signal (o : Observer) w :
  (is_Some (switch_of signal) -> exists cmd, chrome_command cmd /\ signal ∈ detect_remote_debugging cmd) ->
  queue_ok (ob_monitor o) ->
  wp (try_enqueue_signal other_thread signal)
    (fun _ o' _ => queue_ok (ob_monitor o') /\ ob_seen o' = ob_seen o) (fun _ _ _ => False) (fun _ => True) o w.
Proof using OT.
  intros Hsig Ho. unfold try_enqueue_signal, enqueue_signal. apply wp_bind, wp_try, wp_bind, wp_io.
  unfold wp at 1, new_v4. cbn [outcome_sat]. apply wp_bind, wp_io, wp_unix_ms; [|by intros e; apply wp_ret; split|done].
  intros now. apply wp_zoom, wp_bind. eapply wp_mono; [by apply OT|cbn beta..]; [|by intros e ? ? []|done].
  intros [] m w' Hm. apply wp_enqueue_bounded; [apply Hm| | |done].
  - intros queue w2 Hq Hl. apply wp_ret. split; [|done]. cbn. eapply queue_ok_enqueued; [exact Hm| |exact Hq|exact Hl]; exact Hsig.
  - intros e w2. apply wp_ret. split; [|done]. cbn. destruct Hm as [Hb Hj]. split; cbn; [|by apply Forall_tail].
    destruct (mon_pending m); cbn in *; lia.
Qed.

Lemma keeps_try_enqueue signal : switch_of signal = None -> keeps_queue (try_enqueue_signal other_thread signal).
Proof using OT.
  intros Hs o w Ho. eapply wp_mono; [apply wp_try_enqueue_signal; [|done]|..]; cbn beta; [|tauto|done..].
  rewrite Hs. by intros [? ?].
Qed.

Lemma wp_enqueue_match process_id signal (o : Observer) w :
  (is_Some (switch_of signal) -> exists cmd, chrome_command cmd /\ signal ∈ detect_remote_debugging cmd) ->
  queue_ok (ob_monitor o) ->
  wp (enqueue_match other_thread process_id signal)
    (fun _ o' _ => queue_ok (ob_monitor o') /\ ob_seen o' = {[(process_id, signal)]} ∪ ob_seen o)
    (fun _ _ _ => False) (fun _ => True) o w.
Proof using OT.
  intros Hsig Ho. unfold enqueue_match. apply wp_bind, wp_get. case_bool_decide as Hin.
  - apply wp_ret. split; [done|]. clear -Hin. set_solver.
  - apply wp_bind, wp_put. by apply wp_try_enqueue_signal.
Qed.

Lemma wp_enqueue_signals process_id cmd signals (o : Observer) w :
  chrome_command cmd -> Forall (fun s => s ∈ detect_remote_debugging cmd) signals -> queue_ok (ob_monitor o) ->
  wp (for_each signals (enqueue_match other_thread process_id))
    (fun _ o' _ => queue_ok (ob_monitor o') /\ ob_seen o' = list_to_set (pair process_id <$> signals) ∪ ob_seen o)
    (fun _ _ _ => False) (fun _ => True) o w.
Proof using OT.
  intros Hcmd Hs. revert o w. induction Hs as [|signal signals Hx Hs IH]; intros o w Ho; cbn [for_each].
  - apply wp_ret. split; [done|]. clear. set_solver.
  - apply wp_bind. eapply wp_mono; [apply wp_enqueue_match; [intros _; by exists cmd|done]|cbn beta..]; [|done|done].
    intros _ o1 w1 [Ho1 Hseen]. eapply wp_mono; [by apply IH|cbn beta..]; [|done|done].
    intros _ o2 w2 [Ho2 Hseen2]. split; [done|]. rewrite Hseen2, Hseen. cbn. clear. set_solver.
Qed.

Lemma wp_enqueue_matches process_id cmd (o : Observer) w :
  chrome_command cmd -> queue_ok (ob_monitor o) ->
  wp (enqueue_matches other_thread process_id cmd)
    (fun _ o' _ => queue_ok (ob_monitor o') /\
       ob_seen o' = list_to_set (pair process_id <$> detect_remote_debugging cmd) ∪ ob_seen o)
    (fun _ _ _ => False) (fun _ => True) o w.
Proof using OT. intros Hcmd Ho. apply (wp_enqueue_signals _ cmd); [done|by apply list.Forall_forall|done]. Qed.

Lemma keeps_matches process_id cmd : chrome_command cmd -> keeps_queue (enqueue_matches other_thread process_id cmd).
Proof using OT. intros Hcmd o w Ho. eapply wp_mono; [by apply wp_enqueue_matches|..]; cbn beta; tauto. Qed.

Lemma failure_no_switch e :
  switch_of (connect_failure_signal e) = None /\ switch_of (poll_failure_signal e) = None /\ switch_of (command_line_failure_signal e) = None.
Proof using Type.
  unfold connect_failure_signal, poll_failure_signal, command_line_failure_signal. by destruct (is_wbem_access_denied e).
Qed.

Lemma keeps_observe_event services events : keeps_queue (observe_event other_thread services events).
Proof using OT WL TL.
  unfold observe_event. eapply keeps_try; [apply os_next_object| |intros e; apply keeps_try_enqueue, failure_no_switch].
  intros [event|] _; [|by apply keeps_ret]. eapply keeps_try; [apply os_wmi_u32| |intros e; by apply keeps_ret].
  intros process_id _. eapply keeps_try; [apply os_inspect_process| |intros e; apply keeps_try_enqueue, failure_no_switch].
  cbn beta. intros [cmd|] Hcmd; [|by apply keeps_ret]. by apply keeps_matches, Hcmd.
Qed.

Lemma keeps_observe_loop fuel services events : keeps_queue (observe_loop other_thread stop_requested fuel services events).
Proof using OT ST WL TL.
  induction fuel as [|fuel IH]; cbn [observe_loop]; [by apply keeps_ret|].
  apply keeps_io; [done|]. intros []; [by apply keeps_ret|]. apply keeps_bind; [apply keeps_observe_event|done].
Qed.

Lemma keeps_observe_baseline fuel services : keeps_queue (observe_baseline other_thread fuel services).
Proof using OT WL TL.
  unfold observe_baseline. eapply keeps_try; [apply os_poll_processes| |].
  - cbn beta. intros [snapshot|] Hs; [|by apply keeps_ret]. apply keeps_bind; [|intros _; by apply keeps_ret].
    apply (keeps_for_each (fun e => chrome_command e.2)); [by apply Hs|]. intros [pid cmd] Hc. by apply keeps_matches.
  - intros e. apply keeps_bind; [apply keeps_try_enqueue, failure_no_switch|intros _; by apply keeps_ret].
Qed.

Lemma keeps_observe_connected fuel : keeps_queue (observe_connected other_thread stop_requested fuel).
Proof using OT ST WL TL.
  assert (Hfail : forall s, switch_of s = None -> keeps_queue (_ ← try_enqueue_signal other_thread s; mret (Some tt))).
  { intros s Hs. apply keeps_bind; [by apply keeps_try_enqueue|intros _; by apply keeps_ret]. }
  unfold observe_connected. eapply keeps_try; [apply os_connect_wmi| |intros e; apply Hfail, failure_no_switch].
  intros services _. apply keeps_bind; [apply keeps_observe_baseline|]. intros [[]|]; [|by apply keeps_ret].
  eapply keeps_try; [apply os_windows_call, wmi_exec_notification_query_call| |intros e; apply Hfail, failure_no_switch].
  intros events _. apply keeps_observe_loop.
Qed.
End ObserverLaws.

(** The thread of the host may be in [poll] (Monitor): with its audit log, and
    whatever becomes of the answer. *)
Definition host_poll {L} `{AS : AuditSink L} (log : L) (request : MonitorPoll) : M MonitorEngine unit := fun m w =>
  match poll request (m, log) w with
  | Done _ (m', _) w' | Failed _ (m', _) w' => Done tt m' w'
  | Panicked w' => Panicked w'
  | Crashed w' => Crashed w'
  end.

Lemma host_poll_ok {L} `{AS : AuditSink L, ASL : !AuditSinkLaws L} `{WM : Wmi, TH : TrustHost, WL : !WmiLaws, TL : !TrustHostLaws} (log : L) request :
  other_thread_ok (host_poll log request).
Proof.
  intros m w [Hb Hj].
  assert (Hdrop : forall k, queue_ok (set_mon_pending (drop k (mon_pending m)) m)).
  { intros k. split; cbn; [rewrite length_drop; etrans; [apply Nat.le_sub_l|done]|by apply Forall_drop]. }
  assert (Hp : wp (poll request) (fun _ s' _ => queue_ok (fst s')) (fun _ s' _ => queue_ok (fst s')) (fun _ => True) (m, log) w).
  { unfold poll. apply wp_bind, wp_guard_not. destruct (_ || _); [by split|].
    apply wp_poll_events; [| |done]; intros; apply Hdrop. }
  unfold wp, host_poll in *. by destruct (poll request (m, log) w) as [? [] ?|? [] ?| |].
Qed.

(** C25: Every alert about remote debugging is justified, at any moment and under
    any interleaving with the thread of the host: it stems from the command line
    of a process whose executable is named chrome.exe, lies below an installation
    of Chrome and carries a valid signature, and that command line has the switch.
    The observer never panics and never fails; the queue it shares stays bounded. *)
Theorem debugging_alerts_justified `{WM : Wmi, TH : TrustHost, WL : !WmiLaws, TL : !TrustHostLaws}
    other_thread stop_requested fuel (o : Observer) w :
  other_thread_ok other_thread -> sys_call stop_requested -> queue_ok (ob_monitor o) ->
  wp (observe_processes other_thread stop_requested fuel)
    (fun _ o' _ => queue_ok (ob_monitor o')) (fun _ _ _ => False) (fun _ => True) o w.
Proof.
  intros OT ST. revert o w. change (keeps_queue (observe_processes other_thread stop_requested fuel)).
  unfold observe_processes. eapply keeps_try; [apply os_windows_call, com_initialize_ex_call| |].
  - intros _ _. apply keeps_bind; [by apply keeps_observe_connected|]. intros ended.
    apply keeps_io; [apply com_uninitialize_call|]. intros _. apply keeps_ret.
  - intros e. apply keeps_bind; [apply keeps_try_enqueue; [done|apply failure_no_switch]|]. intros _. apply keeps_ret.
Qed.

(** A switch of a process is reported at most once: after a command line of a
    process was handled, every later one of the same process id with no further
    switch changes nothing. This includes the cases that the event could not be
    queued and that the id now belongs to another process. *)
Theorem switch_reported_once `{WM : Wmi, TH : TrustHost, WL : !WmiLaws, TL : !TrustHostLaws}
    other_thread process_id cmd (o : Observer) w :
  other_thread_ok other_thread -> queue_ok (ob_monitor o) -> chrome_command cmd ->
  wp (enqueue_matches other_thread process_id cmd)
    (fun _ o' _ => ob_seen o' = list_to_set (pair process_id <$> detect_remote_debugging cmd) ∪ ob_seen o /\
       forall later w', (forall s, s ∈ detect_remote_debugging later -> s ∈ detect_remote_debugging cmd) ->
         enqueue_matches other_thread process_id later o' w' = Done tt o' w')
    (fun _ _ _ => False) (fun _ => True) o w.
Proof.
  intros OT Ho Hcmd. eapply wp_mono; [by apply wp_enqueue_matches|cbn beta..]; [|done|done].
  intros _ o' w1 [_ Hseen]. split; [done|]. intros later w'. unfold enqueue_matches.
  induction (detect_remote_debugging later) as [|s rest IH]; intros Hl; [done|]. cbn [for_each].
  unfold mbind at 1, M_bind at 1, enqueue_match at 1, mbind at 1, M_bind at 1, get at 1.
  rewrite bool_decide_true; [apply IH; intros s' Hs'; apply Hl; by apply elem_of_cons; right|].
  rewrite Hseen. apply elem_of_union. left. apply elem_of_list_to_set, list_elem_of_fmap_2, Hl. apply elem_of_cons. by left.
Qed.

(** ** Examples *)

(** Windows reads [\] and a quotation mark as a plain quotation mark: the second
    argument of this line is [--x=] and a quotation mark, the third the switch.
    The observer takes the mark for a closing one and the rest of the line for one
    argument. *)
Definition escaped_line : Text :=
  text "chrome.exe " ++ [QUOTE] ++ text "--x=\" ++ [QUOTE; QUOTE] ++ text " --remote-debugging-port=1".

Lemma escaped_quote_hides_switch : detect_remote_debugging escaped_line = [].
Proof. vm_compute. reflexivity. Qed.

Section ObserverExample.
(** One Chrome process, started for debugging; every second read of an enumeration
    ends it, and the flag is raised at the 12th step. *)
Definition chrome_exe : Text := text "C:\Program Files\Google\Chrome\Application\chrome.exe".
Definition debug_command : Text :=
  [QUOTE] ++ chrome_exe ++ [QUOTE] ++ text " --Remote-Debugging-Port=0 --user-data-dir=" ++ [QUOTE] ++ text "C:\Temp\FCP Test" ++ [QUOTE].

Definition toy_property_text (name : string) : Text :=
  if String.eqb name "CommandLine" then debug_command else chrome_exe.
Definition toy_wmi : Wmi := {|
  com_initialize_ex := mret (Ok tt);
  com_uninitialize := mret tt;
  wmi_create_locator := mret (Ok 1);
  wmi_connect_server _ _ := mret (Ok 2);
  wmi_set_proxy_blanket _ := mret (Ok tt);
  wmi_exec_query _ _ := mret (Ok 3);
  wmi_exec_notification_query _ _ := mret (Ok 4);
  wmi_next _ _ := fun s w => Done (Ok (if Nat.even (w_step w) then (Some 5, 1) else (None, 0))) s (tick w);
  wmi_get _ name := mret (Ok (if String.eqb name "CommandLine" then 1 else if String.eqb name "ExecutablePath" then 0 else 7));
  variant_u32 v := Ok v;
  variant_text v := Ok (if v =? 1 then debug_command else chrome_exe);
|}.

Definition toy_canonical (t : Text) : option (list Text) := Some (path_segments t []).
Definition toy_env (v : string) : option Text := if String.eqb v "ProgramFiles" then Some (text "C:\Program Files") else None.
Definition toy_trust : TrustHost := {|
  os_canonicalize t := mret (toy_canonical t);
  os_env_var v := mret (toy_env v);
  win_verify_trust t _ := mret (if bool_decide (t = chrome_exe) then 0 else 1)%Z;
|}.

Definition toy_wmi_laws : @WmiLaws toy_wmi.
Proof.
  refine (@Build_WmiLaws toy_wmi (fun _ name => Some (toy_property_text name)) _ _ _ _ _ _ _ _ _);
    intros; intros w; try done; split; try done.
  cbn beta. intros v t [= <-] [= <-]. unfold toy_property_text.
  destruct (String.eqb n "CommandLine"); [done|]. by destruct (String.eqb n "ExecutablePath").
Defined.

Definition toy_trust_laws : @TrustHostLaws toy_trust.
Proof.
  refine (@Build_TrustHostLaws toy_trust toy_canonical toy_env (fun t => t = chrome_exe) _ _ _);
    intros; intros w; (split; [done|]); cbn beta; try done.
  intros _. by case_bool_decide.
Defined.

(** The thread of the host polls one event between the locks. *)
#[local] Existing Instances silent_sink silent_sink_laws.
Definition toy_other_thread : M MonitorEngine unit := host_poll ["audit"%string] (mkMonitorPoll 1).
Definition toy_stop : IO bool := fun s w => Done (12 <=? w_step w)%nat s w.
Definition observer_world : World :=
  mkWorld ∅ 0 (mkEnv (fun _ => NoFault) (fun n => N.of_nat n) (fun _ => 1700000000000)).
Definition idle_observer : Observer := mkObserver new_monitor ∅.
Definition observer_after : Observer :=
  outcome_state idle_observer (@observe_processes toy_wmi toy_trust (mret tt) toy_stop 20 idle_observer observer_world).

Lemma toy_other_thread_ok : @other_thread_ok toy_wmi toy_trust toy_wmi_laws toy_trust_laws toy_other_thread.
Proof. apply (host_poll_ok (WL := toy_wmi_laws) (TL := toy_trust_laws)). Qed.

Lemma idle_queue_ok : @queue_ok toy_wmi toy_trust toy_wmi_laws toy_trust_laws new_monitor.
Proof. split; cbn; [unfold MAX_PENDING_EVENTS; lia|constructor]. Qed.

Lemma toy_chrome_command : @chrome_command toy_wmi toy_trust toy_wmi_laws toy_trust_laws debug_command.
Proof.
  exists 5, chrome_exe. split; [done|]. split; [|done]. split; [by exists (text "chrome.exe")|]. split; [|done].
  exists (path_segments chrome_exe []), "ProgramFiles"%string, (text "C:\Program Files"),
    (path_segments (text "C:\Program Files\Google\Chrome\Application") []).
  split; [done|]. split; [apply elem_of_cons; by left|]. by split_and!.
Qed.

Lemma debugging_alerts_justified_witness :
  wp (@observe_processes toy_wmi toy_trust toy_other_thread toy_stop 20)
    (fun _ o' _ => @queue_ok toy_wmi toy_trust toy_wmi_laws toy_trust_laws (ob_monitor o')) (fun _ _ _ => False) (fun _ => True)
    idle_observer observer_world /\
  (me_signal <$> mon_pending (ob_monitor observer_after)) = [Signal.RemoteDebuggingPort].
Proof.
  split; [|vm_compute; reflexivity].
  exact (@debugging_alerts_justified toy_wmi toy_trust toy_wmi_laws toy_trust_laws toy_other_thread toy_stop 20 idle_observer
    observer_world toy_other_thread_ok ltac:(intros w; done) idle_queue_ok).
Defined.

Lemma switch_reported_once_witness :
  wp (@enqueue_matches toy_other_thread 7 debug_command)
    (fun _ o' _ => ob_seen o' = list_to_set (pair 7 <$> detect_remote_debugging debug_command) ∪ ob_seen idle_observer /\
       forall later w', (forall s, s ∈ detect_remote_debugging later -> s ∈ detect_remote_debugging debug_command) ->
         @enqueue_matches toy_other_thread 7 later o' w' = Done tt o' w')
    (fun _ _ _ => False) (fun _ => True) idle_observer observer_world.
Proof.
  exact (@switch_reported_once toy_wmi toy_trust toy_wmi_laws toy_trust_laws toy_other_thread 7 debug_command idle_observer
    observer_world toy_other_thread_ok idle_queue_ok toy_chrome_command).
Defined.
End ObserverExample.
