(* ===== verification/Update.v ===== *)
(** * update.rs: self update (Windows)

    The installed copy checks for updates, downloads them, and applies one only
    when no profile has an exposed lease or an operation in progress; the host that
    the browser started only starts that copy, at most every six hours. The updater
    library and the start of a process are parameters; the environment variables
    are arguments, and paths are lists of components. *)

From Stdlib Require Import Strings.Ascii.
From S2P Require Import Prelude World External Examples AtomicFile Frames Config Messages LeaseMeta Paths OpModel OpJournal VaultFormat Capability VaultStore Transaction OpRecovery Coordinator CommitProtocol AuditLog Protocol Group Handlers Confirm Chunks Delivery.

Definition UPDATE_CHECK_INTERVAL : N := 6 * 60 * 60.
Definition UPDATER_PATH_FILE : string := "updater-path.txt".
Definition LAST_TRIGGER_FILE : string := "update-last-trigger".

(** ** Is a profile safe? *)

(** [value.get(key)], [as_str], [as_array]. *)
Definition value_get (key : string) (v : JsonValue) : option JsonValue :=
  match v with JObject fields => obj_get key fields | _ => None end.
Definition as_str (v : JsonValue) : option string := match v with JString s => Some s | _ => None end.
Definition as_array (v : JsonValue) : option (list JsonValue) := match v with JArray l => Some l | _ => None end.
Definition get_str (key : string) (v : JsonValue) : option string := x ← value_get key v; as_str x.

Definition lease_is_safe (value : JsonValue) : bool :=
  match get_str "state" value with
  | Some state => negb (existsb (String.eqb state) ["leased"; "evicting"; "injecting"]%string)
  | None => true
  end.

Definition record_is_terminal (record : JsonValue) : bool :=
  match get_str "phase" record with
  | Some phase => existsb (String.eqb phase) ["completed"; "aborted"; "reconciliation_required"]%string
  | None => false
  end.

Definition operations_are_safe (value : JsonValue) : bool :=
  match x ← value_get "operations" value; as_array x with
  | Some records => negb (existsb (fun record => negb (record_is_terminal record)) records)
  | None => false
  end.

Definition is_json_path (p : Path) : bool :=
  match path_file_name p with Some name => has_json_extension name | None => false end.

Section Safety.
Context `{SV : Serde JsonValue}.

(** The loop over a directory of JSON files, with its early [return Ok(false)]. *)
Fixpoint entries_are_safe (check : JsonValue -> bool) (entries : list Path) : IO bool :=
  match entries with
  | [] => mret true
  | p :: rest =>
      _ ← fs_dir_entry p;
      if negb (is_json_path p) then entries_are_safe check rest
      else
        b ← fs_read p;
        value ← lift (from_slice b);
        if negb (check value) then mret false else entries_are_safe check rest
  end.

Definition directory_is_safe (check : JsonValue -> bool) (directory : Path) : IO bool :=
  present ← fs_exists directory;
  if negb present then mret true
  else entries ← fs_read_dir directory; entries_are_safe check entries.

(** [profile_is_safe_for_update]. *)
Definition profile_is_safe_for_update (data_root : Path) : IO bool :=
  leases ← directory_is_safe lease_is_safe (path_join (path_join data_root "leases") "groups");
  if negb leases then mret false
  else directory_is_safe operations_are_safe (path_join (path_join data_root "operations") "groups").

(** [production_data_root], [all_profiles_are_safe_for_update]; [local_app_data] is
    the variable [LOCALAPPDATA]. *)
Definition production_data_root (local_app_data : option Path) : option Path :=
  root ← local_app_data; Some (path_join root "FursoyVault").

Fixpoint profiles_are_safe (entries : list Path) : IO bool :=
  match entries with
  | [] => mret true
  | p :: rest =>
      _ ← fs_dir_entry p;
      is_dir ← fs_is_dir p;
      safe ← (if (is_dir : bool) then profile_is_safe_for_update p else mret true);
      if negb safe then mret false else profiles_are_safe rest
  end.

Definition all_profiles_are_safe_for_update (local_app_data : option Path) : IO bool :=
  match production_data_root local_app_data with
  | None => mret false
  | Some root =>
      safe ← profile_is_safe_for_update root;
      if negb safe then mret false
      else
        let profiles := path_join root "profiles" in
        present ← fs_exists profiles;
        if negb present then mret true
        else entries ← fs_read_dir profiles; profiles_are_safe entries
  end.
End Safety.

(** ** The updater library *)

Inductive UpdateCheck :=
  | UpdateAvailable (update : N)
  | RemoteIsEmpty
  | NoUpdateAvailable.

(** Velopack's [UpdateManager] on the source of the releases; an error of the
    library carries nothing that the host uses. *)
Class Velopack := {
  update_manager : IO (option N);
  get_update_pending_restart : N -> IO (option N);
  check_for_updates : N -> IO (option UpdateCheck);
  download_updates : N -> N -> IO bool;
  target_full_release : N -> N;
  apply_updates_and_restart : N -> N -> IO bool;
}.

Section Apply.
Context `{SV : Serde JsonValue, VP : Velopack}.

(** [redacted_update_error]. *)
Definition update_failed : FcpError := Protocol "companion update failed".

(** [check_and_apply]. *)
Definition apply_if_safe (local_app_data : option Path) (manager release : N) : IO unit :=
  safe ← all_profiles_are_safe_for_update local_app_data;
  if (safe : bool) then
    applied ← apply_updates_and_restart manager release;
    guard_not (negb applied) update_failed
  else mret tt.

Definition check_and_apply (local_app_data : option Path) : IO unit :=
  manager ← update_manager;
  manager ← ok_or_throw manager (Protocol "companion updater is not installed");
  pending ← get_update_pending_restart manager;
  match pending with
  | Some pending => apply_if_safe local_app_data manager pending
  | None =>
      checked ← check_for_updates manager;
      checked ← ok_or_throw checked update_failed;
      match checked with
      | UpdateAvailable update =>
          downloaded ← download_updates manager update;
          _ ← guard_not (negb downloaded) update_failed;
          apply_if_safe local_app_data manager (target_full_release update)
      | RemoteIsEmpty | NoUpdateAvailable => mret tt
      end
  end.
End Apply.

(** ** Starting the check in the background *)

(** [should_trigger]. *)
Definition should_trigger (previous : option N) (now interval : N) : bool :=
  match previous with Some value => interval <=? saturating_sub now value | None => true end.

(** [fs::read_to_string]. *)
Definition fs_read_to_string (p : Path) : IO string :=
  b ← fs_read p;
  _ ← guard_not (negb (is_utf8 b)) (Io InvalidData);
  mret (string_of_list_byte b).

(** [Path::is_file]: an error while reading the metadata counts as absence. *)
Definition fs_is_file (p : Path) : IO bool :=
  faulty ← io_step;
  if (faulty : bool) then mret false else fs ← get_fs; mret (is_file (fs !! p)).

(** [unix_seconds(SystemTime::now())]: a time before the epoch counts as 0. *)
Definition unix_seconds_now : IO N :=
  now ← try_ unix_ms;
  mret (match now with Ok ms => ms / 1000 | Err _ => 0 end).

(** The components of a Windows path and [Path::is_absolute]: the drive is the
    first component; [.] and empty components are dropped. *)
Definition is_path_separator (c : Ascii.ascii) : bool := Ascii.eqb c "/"%char || Ascii.eqb c "\"%char.
Fixpoint split_path (s : string) : list string :=
  match s with
  | EmptyString => [EmptyString]
  | String c rest =>
      if is_path_separator c then EmptyString :: split_path rest
      else match split_path rest with
           | first :: others => String c first :: others
           | [] => [String c EmptyString]
           end
  end.
Definition windows_path (s : string) : Path :=
  List.filter (fun c => negb (String.eqb c "") && negb (String.eqb c ".")) (split_path s).
Definition is_absolute_windows (s : string) : bool :=
  match s with
  | String _ (String ":"%char (String c _)) => is_path_separator c
  | String c (String d _) => is_path_separator c && is_path_separator d
  | _ => false
  end.
Definition named_file (p : Path) : option string :=
  match path_file_name p with Some name => if String.eqb name ".." then None else Some name | None => None end.

(** The start of a detached process without a window and without streams: whether
    it started. *)
Class Spawn := spawn_detached : Path -> list string -> IO bool.

Section Trigger.
Context `{SW : Spawn}.

(** What the process sees: whether [FCP_DATA_DIR] is set, [LOCALAPPDATA] and
    [current_exe]. *)
Record ProcessEnv := mkProcessEnv {
  pe_data_dir_set : bool;
  pe_local_app_data : option Path;
  pe_current_exe : option Path;
}.

(** [read_valid_updater_path]. *)
Definition read_valid_updater_path (pe : ProcessEnv) (data_root : Path) : IO (option Path) :=
  raw ← try_ (fs_read_to_string (path_join (path_join data_root "native-host") UPDATER_PATH_FILE));
  match raw with
  | Err _ => mret None
  | Ok raw =>
      let text := trim raw in
      let candidate := windows_path text in
      match pe_local_app_data pe, (exe ← pe_current_exe pe; named_file exe) with
      | Some local_app_data, Some expected_name =>
          if negb (is_absolute_windows text)
             || negb (bool_decide (is_Some (strip_path_prefix local_app_data candidate)))
             || negb (bool_decide (named_file candidate = Some expected_name))
          then mret None
          else
            present ← fs_is_file candidate;
            mret (if (present : bool) then Some candidate else None)
      | _, _ => mret None
      end
  end.

(** [trigger_background_check]. *)
Definition read_previous_trigger (trigger_path : Path) : IO (option N) :=
  read ← try_ (fs_read_to_string trigger_path);
  mret (match read with Ok value => parse_u64 (trim value) | Err _ => None end).

Definition trigger_background_check (pe : ProcessEnv) : IO unit :=
  match pe_data_dir_set pe, production_data_root (pe_local_app_data pe) with
  | false, Some data_root =>
      now ← unix_seconds_now;
      let trigger_path := path_join data_root LAST_TRIGGER_FILE in
      previous ← read_previous_trigger trigger_path;
      if negb (should_trigger previous now UPDATE_CHECK_INTERVAL) then mret tt
      else
        updater ← read_valid_updater_path pe data_root;
        match updater with
        | None => mret tt
        | Some updater =>
            written ← try_ (_ ← fs_create_dir_all data_root;
                            fs_write trigger_path (str_bytes (pretty now +:+ newline)));
            match written with
            | Err _ => mret tt
            | Ok _ =>
                started ← spawn_detached updater ["--check-update"%string];
                if (started : bool) then mret tt
                else _ ← try_ (fs_remove_file trigger_path); mret tt
            end
        end
  | _, _ => mret tt
  end.
End Trigger.

(** ** The lifecycle of an installation *)

(** [Command::new("powershell.exe")] with its arguments: whether it could be run,
    and whether it succeeded. [VelopackApp::run]: the library looks at the
    arguments and calls back at most one of the three, without the automatic apply
    at the start. *)
Class ReleaseScripts := run_powershell : list string -> IO (option bool).

Record LifecycleHooks := mkLifecycle {
  on_after_install : IO unit;
  on_after_update : IO unit;
  on_before_uninstall : IO unit;
}.
Class VelopackApp := velopack_app_run : list string -> LifecycleHooks -> IO unit.

Section Lifecycle.
Context `{RS : ReleaseScripts, VA : VelopackApp} (path_text : Path -> string).

(** [std::process::exit(1)]. *)
Definition exit_process : IO unit := fun _ w => Crashed w.

(** [run_required_release_script]. *)
Definition script_arguments (executable : Path) (name : string) (install : bool) : option (list string) :=
  parent ← path_parent executable;
  Some (["-NoProfile"; "-NonInteractive"; "-ExecutionPolicy"; "Bypass"; "-File"; path_text (path_join parent name)]%string
        ++ if install then ["-UpdaterPath"%string; path_text executable] else []).

Definition run_required_release_script (executable : option Path) (name : string) (install : bool) : IO unit :=
  match executable ← executable; script_arguments executable name install with
  | None => exit_process
  | Some arguments =>
      status ← run_powershell arguments;
      match status with Some true => mret tt | _ => exit_process end
  end.

(** [run_startup_hooks]; [executable] is the answer of [current_exe]. *)
Definition run_startup_hooks_with_args (executable : option Path) (args : list string) : IO unit :=
  velopack_app_run args {|
    on_after_install := run_required_release_script executable "install.ps1" true;
    on_after_update := run_required_release_script executable "install.ps1" true;
    on_before_uninstall := run_required_release_script executable "uninstall.ps1" false;
  |}.
End Lifecycle.

(** ** What a safe profile is *)

(** The names of the states and phases in JSON ([rename_all = "snake_case"]). *)
Definition state_name (s : GroupState) : string :=
  match s with
  | GState.Uninitialized => "uninitialized"
  | GState.Sealed => "sealed"
  | GState.Unlocking => "unlocking"
  | GState.Leased => "leased"
  | GState.Evicting => "evicting"
  | GState.Degraded => "degraded"
  end.

Definition phase_name (p : OperationPhase) : string :=
  match p with
  | Phase.NotCommitted => "not_committed"
  | Phase.DurabilityUnknown => "durability_unknown"
  | Phase.Committed => "committed"
  | Phase.BrowserRemovalPending => "browser_removal_pending"
  | Phase.Completed => "completed"
  | Phase.Aborted => "aborted"
  | Phase.ReconciliationRequired => "reconciliation_required"
  end.

(** The JSON text of a record, read as a value, has the record's fields. *)
Class UpdateJsonLaws `{SV : Serde JsonValue, SM : Serde LeaseMetadata, JJ : Serde OperationJournal} : Prop := {
  lease_as_value lease b : to_vec lease = Ok b ->
    exists v, from_slice b = Ok v /\ get_str "state" v = Some (state_name (lm_state lease));
  journal_as_value journal b : to_vec journal = Ok b ->
    exists v field records, from_slice b = Ok v /\ value_get "operations" v = Some field /\ as_array field = Some records /\
      Forall2 (fun o r => get_str "phase" r = Some (phase_name (phase o))) (operations journal) records;
}.

(** Directories contain their files. *)
Definition tree (w : World) : Prop := forall p n q, w_fs w !! p = Some n -> path_parent p = Some q -> w_fs w !! q = Some Dir.

(** The call that is made in [w] fails. [Path::exists] does not report it. *)
Definition unanswered (w : World) : Prop := exists k, env_fault (w_env w) (w_step w) = IoFault k.

Lemma wp_exists_answered p (Q : bool -> unit -> World -> Prop) (E : FcpError -> unit -> World -> Prop) (C : World -> Prop) w :
  (forall b, (b = false -> w_fs w !! p = None \/ unanswered w) -> Q b tt (tick w)) -> C w ->
  wp (fs_exists p) Q E C tt w.
Proof.
  intros HQ HC. unfold wp, fs_exists, mbind, M_bind, io_step. destruct (env_fault _ _) eqn:Hf; cbn; [| |done].
  - apply HQ. intros Hb%bool_decide_eq_false. left. by apply eq_None_not_Some.
  - apply HQ. intros _. right. by eexists.
Qed.

(** The turn of the loop over the profiles. *)
Definition entry_is_safe `{SV : Serde JsonValue} (p : Path) : IO bool :=
  _ ← fs_dir_entry p;
  is_dir ← fs_is_dir p;
  if (is_dir : bool) then profile_is_safe_for_update p else mret true.

Lemma profiles_are_safe_cons `{SV : Serde JsonValue} p rest s w :
  profiles_are_safe (p :: rest) s w =
  (safe ← entry_is_safe p; if negb safe then mret false else profiles_are_safe rest) s w.
Proof.
  unfold entry_is_safe. cbn [profiles_are_safe]. unfold mbind, M_bind.
  destruct (fs_dir_entry p s w) as [[] s1 w1| | |]; [|done..]. by destruct (fs_is_dir p s1 w1).
Qed.

(** The three places where the check asks whether a directory exists: that call, and
    no other one, fails unnoticed. The worlds are those that the check passes. *)
Section Unseen.
Context `{SV : Serde JsonValue}.

Definition profile_unseen (root : Path) (w : World) : Prop :=
  unanswered w \/
  exists w1, directory_is_safe lease_is_safe (path_join (path_join root "leases") "groups") tt w = Done true tt w1 /\
    unanswered w1.

Fixpoint profiles_unseen (entries : list Path) (w : World) : Prop :=
  match entries with
  | [] => False
  | p :: rest => (w_fs w !! p = Some Dir /\ profile_unseen p (tick (tick w))) \/
      exists w1, entry_is_safe p tt w = Done true tt w1 /\ profiles_unseen rest w1
  end.

Definition directory_unseen (local_app_data : option Path) (w : World) : Prop :=
  exists root, production_data_root local_app_data = Some root /\
    (profile_unseen root w \/
     exists w1, profile_is_safe_for_update root tt w = Done true tt w1 /\
       (unanswered w1 \/
        exists entries w2, fs_read_dir (path_join root "profiles") tt (tick w1) = Done entries tt w2 /\
          profiles_unseen entries w2)).
End Unseen.

(** A lease that protects no exposed cookie and a journal without an operation in
    progress. *)
Section Settled.
Context `{SV : Serde JsonValue, SM : Serde LeaseMetadata, JJ : Serde OperationJournal, UL : !UpdateJsonLaws}.

Definition profile_settled (root : Path) (w : World) : Prop :=
  (forall name lease b, name <> EmptyString -> file_at w (path_join (dp_lease_groups (from_root root)) (name +:+ ".json")) = Some b ->
     to_vec lease = Ok b -> lm_state lease <> GState.Leased /\ lm_state lease <> GState.Evicting) /\
  (forall name journal b, name <> EmptyString ->
     file_at w (path_join (dp_operation_journals (from_root root)) (name +:+ ".json")) = Some b ->
     to_vec journal = Ok b -> Forall (fun o => is_terminal (phase o) = true) (operations journal)).

Lemma later_settled root w w' : untouched w w' -> profile_settled root w -> profile_settled root w'.
Proof using Type. intros Hl [H1 H2]. split; intros name x b Hn; rewrite (untouched_file w w' _ Hl); eauto. Qed.

(** What a scan that found nothing says about a directory. *)
Definition clean (check : JsonValue -> bool) (directory : Path) (w : World) : Prop := forall p b,
  path_parent p = Some directory -> is_json_path p = true -> file_at w p = Some b ->
  exists v, from_slice b = Ok v /\ check v = true.

Lemma wp_entries_safe check entries w :
  wp (entries_are_safe check entries)
    (fun r _ w' => untouched w w' /\ (r = true -> forall p b, p ∈ entries -> is_json_path p = true -> file_at w p = Some b ->
       exists v, from_slice b = Ok v /\ check v = true))
    (fun _ _ w' => untouched w w') (untouched w) tt w.
Proof using Type.
  revert w. induction entries as [|p entries IH]; intros w; cbn [entries_are_safe].
  - apply wp_ret. split; [apply untouched_refl|]. intros _ p b Hp. by apply elem_of_nil in Hp.
  - apply wp_bind, wp_fs_dir_entry; [|apply untouched_tick|apply untouched_refl].
    assert (Hrest : forall w1, untouched w w1 -> (is_json_path p = true -> forall b, file_at w p = Some b ->
        exists v, from_slice b = Ok v /\ check v = true) ->
      wp (entries_are_safe check entries)
        (fun r _ w' => untouched w w' /\ (r = true -> forall q b, q ∈ p :: entries -> is_json_path q = true -> file_at w q = Some b ->
           exists v, from_slice b = Ok v /\ check v = true))
        (fun _ _ w' => untouched w w') (untouched w) tt w1).
    { intros w1 H1 Hp. eapply wp_mono; [apply IH|..]; cbn beta.
      - intros r _ w2 [H2 Hr]. split; [by eapply untouched_trans|]. intros Ht q b Hq Hj Hf.
        apply elem_of_cons in Hq as [->|Hq]; [by apply Hp|]. rewrite <- (untouched_file w w1 q H1) in Hf. by eapply Hr.
      - intros e _ w2 H2. by eapply untouched_trans.
      - intros w2 H2. by eapply untouched_trans. }
    destruct (is_json_path p) eqn:Hj; cbn [negb]; [|apply Hrest; [apply untouched_tick|done]].
    apply wp_bind, wp_fs_read; try (intros; by repeat first [apply untouched_tick|apply untouched_refl|eapply untouched_trans]).
    intros content Hc. apply wp_bind, wp_lift. destruct (from_slice content) as [v|] eqn:Hv;
      [|by eapply untouched_trans; apply untouched_tick].
    destruct (check v) eqn:Hs; cbn [negb].
    + apply Hrest; [eapply untouched_trans; apply untouched_tick|]. intros _ b Hf.
      rewrite <- (untouched_file w (tick w) p (untouched_tick w)), Hc in Hf. injection Hf as <-. eauto.
    + apply wp_ret. split; [eapply untouched_trans; apply untouched_tick|done].
Qed.

Lemma wp_directory_safe check directory w :
  wp (directory_is_safe check directory)
    (fun r _ w' => untouched w w' /\ (r = true -> tree w -> clean check directory w \/ unanswered w))
    (fun _ _ w' => untouched w w') (untouched w) tt w.
Proof using Type.
  unfold directory_is_safe. apply wp_bind, wp_exists_answered; [|apply untouched_refl]. intros present Hp.
  destruct present; cbn [negb].
  - apply wp_bind, wp_fs_read_dir; [|eapply untouched_trans; apply untouched_tick|apply untouched_tick].
    intros entries He. eapply wp_mono; [apply wp_entries_safe|..]; cbn beta.
    + intros r _ w' [Hl Hr]. split; [do 2 (eapply untouched_trans; [apply untouched_tick|]); done|].
      intros Ht _. left. intros p b Hpar Hj Hf. apply (Hr Ht p b); [|done|done].
      apply He. split; [done|]. exists (File b). by apply file_at_lookup.
    + intros e _ w' Hl. do 2 (eapply untouched_trans; [apply untouched_tick|]). done.
    + intros w' Hl. do 2 (eapply untouched_trans; [apply untouched_tick|]). done.
  - apply wp_ret. split; [apply untouched_tick|]. intros _ Ht. destruct (Hp eq_refl) as [Hn|Hf]; [left|by right].
    intros p b Hpar _ Hf. apply file_at_lookup in Hf. apply (Ht _ _ _ Hf) in Hpar. congruence.
Qed.

Lemma lease_check_sound lease b v :
  to_vec lease = Ok b -> from_slice b = Ok v -> lease_is_safe v = true ->
  lm_state lease <> GState.Leased /\ lm_state lease <> GState.Evicting.
Proof using UL.
  intros Hb Hv Hs. destruct (lease_as_value lease b Hb) as (v' & Hv' & Hstate). rewrite Hv in Hv'. injection Hv' as <-.
  unfold lease_is_safe in Hs. rewrite Hstate in Hs. by destruct (lm_state lease).
Qed.

Lemma journal_check_sound journal b v :
  to_vec journal = Ok b -> from_slice b = Ok v -> operations_are_safe v = true ->
  Forall (fun o => is_terminal (phase o) = true) (operations journal).
Proof using UL.
  intros Hb Hv Hs. destruct (journal_as_value journal b Hb) as (v' & field & records & Hv' & Hg & Ha & Hrec).
  rewrite Hv in Hv'. injection Hv' as <-. unfold operations_are_safe, mbind, option_bind in Hs. rewrite Hg, Ha in Hs.
  apply negb_true_iff in Hs. clear -Hrec Hs. induction Hrec as [|o r os rs Ho Hrec IH]; [done|]. cbn [existsb] in Hs.
  apply orb_false_iff in Hs as [Hr Hs]. constructor; [|by apply IH]. unfold record_is_terminal in Hr. rewrite Ho in Hr.
  by destruct (phase o).
Qed.

Lemma json_entry directory name :
  name <> EmptyString -> path_parent (path_join directory (name +:+ ".json")) = Some directory /\
  is_json_path (path_join directory (name +:+ ".json")) = true.
Proof using Type.
  intros Hn. unfold path_join, is_json_path, path_file_name. rewrite last_snoc. split.
  - unfold path_parent. rewrite removelast_last. by destruct directory.
  - unfold has_json_extension. apply andb_true_iff. split; [apply ends_with_spec; by exists name|].
    apply negb_true_iff, String.eqb_neq. intros He. apply (f_equal String.length) in He.
    rewrite string_app_length in He. destruct name; [done|cbn in He; lia].
Qed.

Lemma tree_later w w' : untouched w w' -> tree w -> tree w'.
Proof using Type. intros [Hf _] Ht p n q. rewrite Hf. apply Ht. Qed.

Lemma wp_profile_safe root w :
  wp (profile_is_safe_for_update root)
    (fun r _ w' => untouched w w' /\ (r = true -> tree w -> profile_settled root w' \/ profile_unseen root w))
    (fun _ _ w' => untouched w w') (untouched w) tt w.
Proof using UL.
  unfold profile_is_safe_for_update. apply wp_bind, wp_known_run. eapply wp_mono; [apply wp_directory_safe|cbn beta..]; [|done|done].
  intros leases [] w1 [H1 Hl] Hrun. destruct leases; cbn [negb]; [|by apply wp_ret].
  eapply wp_mono; [apply wp_directory_safe|cbn beta..].
  - intros ops [] w2 [H2 Ho]. split; [by eapply untouched_trans|]. intros Ht Htree.
    destruct (Hl eq_refl Htree) as [Hcl|Hf]; [|right; by left].
    destruct (Ho Ht (tree_later _ _ H1 Htree)) as [Hco|Hf]; [left|right; right; by eauto].
    split; intros name x b Hn; rewrite ?(untouched_file w1 w2 _ H2), ?(untouched_file w w1 _ H1); intros Hfile Hx.
    + destruct (json_entry (dp_lease_groups (from_root root)) name Hn) as [Hpar Hj].
      destruct (Hcl _ b Hpar Hj Hfile) as (v & Hv & Hc). by eapply lease_check_sound.
    + destruct (json_entry (dp_operation_journals (from_root root)) name Hn) as [Hpar Hj].
      destruct (Hco _ b Hpar Hj) as (v & Hv & Hc); [by rewrite (untouched_file w w1 _ H1)|]. by eapply journal_check_sound.
  - intros e _ w2 H2. by eapply untouched_trans.
  - intros w2 H2. by eapply untouched_trans.
Qed.

(** The profile of the data root and every profile below it are settled. *)
Definition profiles_settled (local_app_data : option Path) (w : World) : Prop :=
  exists root, production_data_root local_app_data = Some root /\ profile_settled root w /\
    forall p, path_parent p = Some (path_join root "profiles") -> w_fs w !! p = Some Dir -> profile_settled p w.

Lemma wp_is_dir_exact p (Q : bool -> unit -> World -> Prop) (E : FcpError -> unit -> World -> Prop) (C : World -> Prop) w :
  Q (match w_fs w !! p with Some Dir => true | _ => false end) tt (tick w) -> E (Io OtherIo) tt (tick w) -> C w ->
  wp (fs_is_dir p) Q E C tt w.
Proof using Type. intros. unfold fs_is_dir. by run_io. Qed.

Lemma wp_entry_safe p w :
  wp (entry_is_safe p)
    (fun r _ w' => untouched w w' /\ (r = true -> tree w ->
       (w_fs w !! p = Some Dir -> profile_settled p w') \/ (w_fs w !! p = Some Dir /\ profile_unseen p (tick (tick w)))))
    (fun _ _ w' => untouched w w') (untouched w) tt w.
Proof using UL.
  unfold entry_is_safe. apply wp_bind, wp_fs_dir_entry; [|apply untouched_tick|apply untouched_refl].
  apply wp_bind, wp_is_dir_exact; [|eapply untouched_trans; apply untouched_tick|apply untouched_tick].
  assert (H0 : untouched w (tick (tick w))) by (eapply untouched_trans; apply untouched_tick).
  change (w_fs (tick w)) with (w_fs w).
  destruct (w_fs w !! p) as [[]|] eqn:Hp; try (apply wp_ret; split; [done|]; intros; left; intros [=]).
  eapply wp_mono; [apply wp_profile_safe|cbn beta..]; [|intros; by eapply untouched_trans|intros; by eapply untouched_trans].
  intros r [] w1 [H1 Hr]. split; [by eapply untouched_trans|]. intros Ht Htree.
  destruct (Hr Ht (tree_later _ _ H0 Htree)); [by left|by right].
Qed.

Lemma wp_profiles_safe entries w :
  wp (profiles_are_safe entries)
    (fun r _ w' => untouched w w' /\ (r = true -> tree w ->
       (forall p, p ∈ entries -> w_fs w !! p = Some Dir -> profile_settled p w') \/ profiles_unseen entries w))
    (fun _ _ w' => untouched w w') (untouched w) tt w.
Proof using UL.
  revert w. induction entries as [|p entries IH]; intros w.
  { apply wp_ret. split; [apply untouched_refl|]. intros _ _. left. intros p Hp. by apply elem_of_nil in Hp. }
  unfold wp at 1. rewrite profiles_are_safe_cons.
  match goal with |- outcome_sat ?Q ?E ?C (?m tt w) => change (wp m Q E C tt w) end.
  apply wp_bind, wp_known_run. eapply wp_mono; [apply wp_entry_safe|cbn beta..]; [|done|done].
  intros safe [] w1 [H1 Hsafe] Hrun. destruct safe; cbn [negb]; [|by apply wp_ret].
  eapply wp_mono; [apply IH|cbn beta..]; [|intros; by eapply untouched_trans|intros; by eapply untouched_trans].
  intros r [] w2 [H2 Hr]. split; [by eapply untouched_trans|]. intros Ht Htree.
  destruct (Hsafe eq_refl Htree) as [Hp|Hf]; [|right; by left].
  destruct (Hr Ht (tree_later _ _ H1 Htree)) as [Hps|Hf]; [left|right; right; by eauto].
  intros q Hq Hd. apply elem_of_cons in Hq as [->|Hq]; [eapply later_settled; [exact H2|by apply Hp]|].
  apply Hps; [done|]. by destruct H1 as [-> _].
Qed.

Lemma wp_all_profiles_safe local_app_data w :
  wp (all_profiles_are_safe_for_update local_app_data)
    (fun r _ w' => untouched w w' /\
       (r = true -> tree w -> profiles_settled local_app_data w' \/ directory_unseen local_app_data w))
    (fun _ _ w' => untouched w w') (untouched w) tt w.
Proof using UL.
  unfold all_profiles_are_safe_for_update. destruct (production_data_root local_app_data) as [root|] eqn:Hroot;
    [|apply wp_ret; split; [apply untouched_refl|done]].
  apply wp_bind, wp_known_run. eapply wp_mono; [apply wp_profile_safe|cbn beta..]; [|done|done].
  intros safe [] w1 [H1 Hsafe] Hrun. destruct safe; cbn [negb]; [|by apply wp_ret].
  assert (H2 : untouched w (tick w1)) by (eapply untouched_trans; [exact H1|apply untouched_tick]).
  set (unseen w0 := exists entries w2, fs_read_dir (path_join root "profiles") tt (tick w0) = Done entries tt w2 /\
    profiles_unseen entries w2).
  assert (Hend : forall w' , untouched (tick w1) w' ->
    ((forall p, path_parent p = Some (path_join root "profiles") -> w_fs w' !! p = Some Dir -> profile_settled p w') \/
     unanswered w1 \/ unseen w1) ->
    tree w -> profiles_settled local_app_data w' \/ directory_unseen local_app_data w).
  { intros w' Hw' Hcase Htree. assert (H1' : untouched w1 w') by (eapply untouched_trans; [apply untouched_tick|exact Hw']).
    destruct (Hsafe eq_refl Htree) as [Hs|Hf]; [|right; exists root; split; [done|by left]].
    destruct Hcase as [Hall|Hf]; [left|right]; exists root; [split_and!; [done|by eapply later_settled|done]|].
    split; [done|right]. by exists w1. }
  apply wp_bind, wp_exists_answered; [|done]. intros present Hp. destruct present; cbn [negb].
  - apply wp_bind, wp_known_run, wp_fs_read_dir; [|intros _; eapply untouched_trans; [exact H2|apply untouched_tick]|exact H2].
    intros entries He Hread. assert (H3 : untouched w (tick (tick w1))) by (eapply untouched_trans; [exact H2|apply untouched_tick]).
    eapply wp_mono; [apply wp_profiles_safe|cbn beta..]; [|intros; by eapply untouched_trans|intros; by eapply untouched_trans].
    intros r [] w' [Hw' Hr]. split; [by eapply untouched_trans|]. intros Ht Htree.
    apply Hend; [eapply untouched_trans; [apply untouched_tick|exact Hw']| |done].
    destruct (Hr Ht (tree_later _ _ H3 Htree)) as [Hps|Hf]; [left|right; right; by exists entries, (tick (tick w1))].
    intros p Hpar Hd. destruct Hw' as [Hfs _]. rewrite Hfs in Hd. apply Hps; [|done]. apply He. split; [done|by eexists].
  - apply wp_ret. split; [done|]. intros _ Htree. apply Hend; [apply untouched_refl| |done].
    destruct (Hp eq_refl) as [Hn|Hf]; [left|right; by left].
    intros p Hpar Hd. pose proof (tree_later _ _ H1 Htree _ _ _ Hd Hpar) as Hdir. congruence.
Qed.
End Settled.

(** The calls of the updater library: none changes a file of the host, and
    [apply_updates_and_restart], which ends the process, may only be called when the
    check has just succeeded, with every profile settled, but for a directory that was
    not seen. *)
Class VelopackUse `{VP : Velopack, SV : Serde JsonValue, SM : Serde LeaseMetadata, JJ : Serde OperationJournal}
    (local_app_data : option Path) (start : World) : Prop := {
  use_manager : sys_call update_manager;
  use_pending m : sys_call (get_update_pending_restart m);
  use_check m : sys_call (check_for_updates m);
  use_download m u : sys_call (download_updates m u);
  use_apply m release w0 w : untouched start w0 -> all_profiles_are_safe_for_update local_app_data tt w0 = Done true tt w ->
    profiles_settled local_app_data w \/ directory_unseen local_app_data w0 ->
    wp (apply_updates_and_restart m release) (fun _ _ w' => untouched w w') (fun _ _ _ => False) (untouched w) tt w;
}.


(** ** The background check *)

Section Triggered.
Context (pe : ProcessEnv).

(** The stamp of the last check, and the time it is compared with. *)
Definition stamp_of (w : World) (p : Path) : option N :=
  b ← file_at w p; if is_utf8 b then parse_u64 (trim (string_of_list_byte b)) else None.
Definition seconds_at (w : World) : N :=
  match env_fault (w_env w) (w_step w) with NoFault => env_clock_ms (w_env w) (w_step w) `mod` 2 ^ 64 / 1000 | _ => 0 end.
Definition stamp_path (root : Path) : Path := path_join root LAST_TRIGGER_FILE.

(** A path the host accepts for the updater: a file below [LOCALAPPDATA] with the
    name of its own executable. *)
Definition valid_updater (w : World) (p : Path) : Prop :=
  exists local_app_data exe name, pe_local_app_data pe = Some local_app_data /\ pe_current_exe pe = Some exe /\
    named_file exe = Some name /\ named_file p = Some name /\
    is_Some (strip_path_prefix local_app_data p) /\ is_file (w_fs w !! p) = true.

(** A check may start: there is no stamp of the last six hours, or reading it, the
    second step, fails. *)
Definition check_due (w : World) : Prop := exists root, production_data_root (pe_local_app_data pe) = Some root /\
  (should_trigger (stamp_of w (stamp_path root)) (seconds_at w) UPDATE_CHECK_INTERVAL = true \/
   exists k, env_fault (w_env w) (S (w_step w)) = IoFault k).

Definition spawn_use `{SW : Spawn} (start : World) : Prop := forall p w,
  later start w -> pe_data_dir_set pe = false -> valid_updater start p -> check_due start ->
  wp (spawn_detached p ["--check-update"%string]) (fun _ _ w' => untouched w w') (fun _ _ _ => False) (untouched w) tt w.

Lemma wp_seconds_now (Q : N -> unit -> World -> Prop) (E : FcpError -> unit -> World -> Prop) (C : World -> Prop) w :
  Q (seconds_at w) tt (tick w) -> C w -> wp unix_seconds_now Q E C tt w.
Proof using Type.
  intros HQ HC. unfold unix_seconds_now. apply wp_bind, wp_try. unfold seconds_at in HQ. unfold wp, unix_ms.
  destruct (env_fault _ _); cbn; done.
Qed.

Lemma wp_read_string p (Q : string -> unit -> World -> Prop) (E : FcpError -> unit -> World -> Prop) (C : World -> Prop) w :
  (forall b, file_at w p = Some b -> is_utf8 b = true -> Q (string_of_list_byte b) tt (tick w)) ->
  (forall e, (forall b, file_at w p = Some b -> is_utf8 b = true -> unanswered w) -> E e tt (tick w)) ->
  C w -> wp (fs_read_to_string p) Q E C tt w.
Proof using Type.
  intros HQ HE HC. unfold fs_read_to_string. apply wp_bind.
  unfold fs_read, wp, with_fault, io_step, get_fs, mbind, M_bind. unfold file_at in *.
  destruct (env_fault _ _) eqn:Hf; cbn; [| |done].
  - destruct (w_fs w !! p) as [[b|]|]; cbn; [|by apply HE|by apply HE].
    destruct (is_utf8 b) eqn:Hu; cbn; [by apply HQ|]. apply HE. intros b' [= <-]. congruence.
  - apply HE. intros _ _ _. by eexists.
Qed.

Lemma wp_previous_trigger p (Q : option N -> unit -> World -> Prop) (E : FcpError -> unit -> World -> Prop) (C : World -> Prop) w :
  (forall r, r = stamp_of w p \/ (r = None /\ unanswered w) -> Q r tt (tick w)) -> C w ->
  wp (read_previous_trigger p) Q E C tt w.
Proof using Type.
  intros HQ HC. unfold read_previous_trigger. apply wp_bind, wp_try, wp_read_string; [| |done]; unfold stamp_of in HQ.
  - intros b Hb Hu. apply wp_ret, HQ. left. unfold mbind, option_bind. by rewrite Hb, Hu.
  - intros e He. apply wp_ret, HQ. unfold mbind, option_bind. destruct (file_at w p) as [b|]; [|by left].
    destruct (is_utf8 b) eqn:Hu; [right; split; [done|by eapply He]|by left].
Qed.

Lemma wp_valid_updater root (Q : option Path -> unit -> World -> Prop) (E : FcpError -> unit -> World -> Prop) (C : World -> Prop) w :
  (forall r w', untouched w w' -> (forall p, r = Some p -> valid_updater w p) -> Q r tt w') -> (forall w', untouched w w' -> C w') ->
  wp (read_valid_updater_path pe root) Q E C tt w.
Proof using Type.
  intros HQ HC. unfold read_valid_updater_path. apply wp_bind, wp_try, wp_read_string; [| |apply HC, untouched_refl].
  2: { intros e _. apply wp_ret, HQ; [apply untouched_tick|done]. }
  intros b _ _. cbn beta iota zeta. destruct (pe_local_app_data pe) as [lad|] eqn:Hlad;
    [|apply wp_ret, HQ; [apply untouched_tick|done]].
  destruct (pe_current_exe pe) as [exe|] eqn:Hexe; cbn [mbind option_bind]; [|apply wp_ret, HQ; [apply untouched_tick|done]].
  destruct (named_file exe) as [name|] eqn:Hname; [|apply wp_ret, HQ; [apply untouched_tick|done]].
  set (candidate := windows_path _). destruct (_ || _) eqn:Hg; [apply wp_ret, HQ; [apply untouched_tick|done]|].
  apply orb_false_iff in Hg as [Hg Hn%negb_false_iff%bool_decide_eq_true].
  apply orb_false_iff in Hg as [_ Hp%negb_false_iff%bool_decide_eq_true].
  apply wp_bind. unfold fs_is_file. run_io; [| |apply HC, untouched_tick]; apply HQ; try (by eapply untouched_trans; apply untouched_tick).
  - intros p. destruct (is_file _) eqn:Hf; intros [= <-]. exists lad, exe, name. by split_and!.
  - done.
Qed.
End Triggered.

(** The background check of the host is limited and bounded: it starts nothing
    but a file below [LOCALAPPDATA] that is named as the host itself, with the one
    argument, and only when no stamp of the last six hours (or of a later time,
    after the clock was set back) was found, unless reading it failed; it changes
    no file but the stamp, and no failure of it reaches the connection. *)
Theorem background_check_limited `{SW : Spawn} pe w :
  spawn_use pe w ->
  wp (trigger_background_check pe)
    (fun _ _ w' => agree_off (fun p => exists root, production_data_root (pe_local_app_data pe) = Some root /\ p = stamp_path root) w w')
    (fun _ _ _ => False)
    (agree_off (fun p => exists root, production_data_root (pe_local_app_data pe) = Some root /\ p = stamp_path root) w) tt w.
Proof.
  intros HS. unfold trigger_background_check. destruct (pe_data_dir_set pe) eqn:Hd; [by apply wp_ret|].
  destruct (production_data_root (pe_local_app_data pe)) as [root|] eqn:Hroot; [|by apply wp_ret].
  set (own := fun p => exists root0, Some root = Some root0 /\ p = stamp_path root0).
  assert (Hown : forall w1 w2, agree_off (eq (stamp_path root)) w1 w2 -> agree_off own w1 w2).
  { intros w1 w2 H. eapply agree_off_weaken; [exact H|]. intros p <-. by exists root. }
  assert (Hlater : forall w1, untouched w w1 -> agree_off own w w1) by (intros w1 H; by apply untouched_frame).
  apply wp_bind, wp_seconds_now; [|done]. apply wp_bind, wp_previous_trigger; [|apply Hlater, untouched_tick].
  intros previous Hprev. destruct (should_trigger previous _ _) eqn:Hdue; cbn [negb];
    [|apply wp_ret, Hlater; eapply untouched_trans; apply untouched_tick].
  assert (H2 : untouched w (tick (tick w))) by (eapply untouched_trans; apply untouched_tick).
  assert (Hcheck : check_due pe w).
  { exists root. split; [done|]. destruct Hprev as [->|[_ [k Hf]]]; [by left|right]. by exists k. }
  apply wp_bind, wp_valid_updater; [|intros w1 H1; apply Hlater; by eapply untouched_trans].
  intros updater w3 H3 Hvalid. assert (H3' : agree_off own w w3) by (apply Hlater; by eapply untouched_trans).
  destruct updater as [updater|]; [|by apply wp_ret].
  assert (Hval : valid_updater pe w updater) by (by apply Hvalid).
  assert (Hnext : forall w4 w5, agree_off own w w4 -> agree_off (eq (stamp_path root)) w4 w5 -> agree_off own w w5).
  { intros w4 w5 H4 H5. eapply agree_off_trans; [exact H4|by apply Hown]. }
  assert (Hfiles : forall w4 w5, agree_off own w w4 -> same_files w4 w5 -> agree_off own w w5).
  { intros w4 w5 H4 H5. eapply Hnext; [exact H4|]. by eapply agree_off_weaken. }
  apply wp_bind, wp_try, wp_bind, wp_fs_create_dir_all; [| |done].
  2: { intros w4 H4. apply wp_ret. by eapply Hfiles. }
  intros w4 H4. apply wp_fs_write; [| |].
  2: { intros e w5 H5. apply wp_ret. eapply Hnext; [|exact H5]. by eapply Hfiles. }
  2: { intros w5 H5. eapply Hnext; [|exact H5]. by eapply Hfiles. }
  intros w5 H5 _. assert (H5' : agree_off own w w5) by (eapply Hnext; [by eapply Hfiles|exact H5]).
  apply wp_bind. eapply wp_mono; [by apply HS; [by eapply agree_off_later|..]|cbn beta..]; [|by intros e [] w6 []|].
  2: { intros w6 H6. eapply Hfiles; [exact H5'|by apply untouched_frame]. }
  intros started [] w6 H6. assert (H6' : agree_off own w w6) by (eapply Hfiles; [exact H5'|by apply untouched_frame]).
  destruct started; [by apply wp_ret|].
  apply wp_bind, wp_try, wp_fs_remove_file; [| | |done].
  - intros w7 _ _ H7. apply wp_ret. by eapply Hnext.
  - intros _. apply wp_ret. by eapply Hnext.
  - apply wp_ret. by eapply Hnext.
Qed.

(** ** Examples *)

Section UpdateExample.
(** Records behind a byte that says which one it is; the value has the field that
    the host asks for. *)
Definition marked {A} (mark : byte) (c : Codec A) : Serde A := {|
  to_vec a := Ok (mark :: enc c a);
  from_slice b := match b with
    | m :: rest => if Byte.eqb m mark then match dec c rest with Some (a, []) => Ok a | _ => Err Json end else Err Json
    | [] => Err Json
    end;
|}.
Definition marked_lease : Serde LeaseMetadata := marked Byte.x01 codec_lease.
Definition marked_journal : Serde OperationJournal := marked Byte.x02 codec_journal.
Definition lease_value (lease : LeaseMetadata) : JsonValue := JObject [("state"%string, JString (state_name (lm_state lease)))].
Definition operation_value (o : JournalOperation) : JsonValue := JObject [("phase"%string, JString (phase_name (phase o)))].
Definition journal_value (j : OperationJournal) : JsonValue :=
  JObject [("operations"%string, JArray (operation_value <$> operations j))].
Definition update_json : Serde JsonValue := {|
  to_vec _ := Err Json;
  from_slice b :=
    match @from_slice _ marked_lease b with
    | Ok lease => Ok (lease_value lease)
    | Err _ => match @from_slice _ marked_journal b with Ok j => Ok (journal_value j) | Err e => Err e end
    end;
|}.

Lemma marked_same {A} mark (c : Codec A) a : @from_slice _ (marked mark c) (mark :: enc c a) = Ok a.
Proof.
  cbn. assert (He : Byte.eqb mark mark = true) by (by apply Byte.byte_dec_bl || by destruct mark). rewrite He.
  rewrite <- (app_nil_r (enc c a)). by rewrite dec_enc.
Qed.

Lemma marked_to_vec {A} mark (c : Codec A) a b : @to_vec _ (marked mark c) a = Ok b -> b = mark :: enc c a.
Proof. unfold to_vec, marked. congruence. Qed.

Lemma update_json_from b : @from_slice _ update_json b =
  match @from_slice _ marked_lease b with
  | Ok lease => Ok (lease_value lease)
  | Err _ => match @from_slice _ marked_journal b with Ok j => Ok (journal_value j) | Err e => Err e end
  end.
Proof. reflexivity. Qed.

Lemma update_json_laws : @UpdateJsonLaws update_json marked_lease marked_journal.
Proof.
  split.
  - intros lease b ->%marked_to_vec. exists (lease_value lease). split; [|done].
    unfold marked_lease. rewrite update_json_from. unfold marked_lease. by rewrite (marked_same Byte.x01 codec_lease lease).
  - intros j b ->%marked_to_vec. exists (journal_value j). eexists _, _. split; [|split; [done|split; [done|]]].
    + rewrite update_json_from. assert (@from_slice _ marked_lease (Byte.x02 :: enc codec_journal j) = Err Json) as -> by done.
      unfold marked_journal. by rewrite (marked_same Byte.x02 codec_journal j).
    + induction (operations j); constructor; done.
Qed.

(** A profile with one lease. *)
Definition app_data : Path := ["C:"; "AppData"]%string.
Definition example_lease (state : GroupState) : LeaseMetadata := set_lm_state state (initial_lease 1 true).
Definition lease_bytes (state : GroupState) : bytes := Byte.x01 :: enc codec_lease (example_lease state).
Definition profile_fs (state : GroupState) : gmap Path FsNode :=
  <[ app_data ++ ["FursoyVault"; "leases"; "groups"; "a.json"]%string := File (lease_bytes state) ]>
  (foldl make_dir ∅ (path_prefixes (app_data ++ ["FursoyVault"; "leases"; "groups"]%string))).
Definition update_world (state : GroupState) (fault : nat -> Fault) : World :=
  mkWorld (profile_fs state) 0 (mkEnv fault (fun _ => 0) (fun _ => 1700000000000)).

(** An updater that may be applied only while the lease of the example is sealed. *)
Definition toy_velopack : Velopack := {|
  update_manager := mret (Some 1);
  get_update_pending_restart _ := mret None;
  check_for_updates _ := mret (Some (UpdateAvailable 2));
  download_updates _ _ := mret true;
  target_full_release u := u;
  apply_updates_and_restart _ _ := fun s w =>
    if bool_decide (file_at w (app_data ++ ["FursoyVault"; "leases"; "groups"; "a.json"]%string) = Some (lease_bytes GState.Sealed))
    then Done true s (tick w) else Panicked w;
|}.
End UpdateExample.

(** The check trusts [Path::exists]: when the one call that asks whether the
    directory of the leases exists fails, a profile with a lease that exposes its
    cookies counts as safe, and the update is applied. *)
Theorem metadata_error_allows_update :
  let run fault := @all_profiles_are_safe_for_update update_json (Some app_data) tt (update_world GState.Leased fault) in
  outcome_value true (run (fun _ => NoFault)) = false /\
  outcome_value false (run (fun n => if (n =? 0)%nat then IoFault 0 else NoFault)) = true.
Proof. vm_compute. split; reflexivity. Qed.

Section UpdateWitness.
Lemma sealed_tree : tree (update_world GState.Sealed (fun _ => NoFault)).
Proof.
  intros p n q Hp Hq. apply elem_of_map_to_list in Hp. revert Hp Hq.
  cut (Forall (fun e : Path * FsNode => forall q, path_parent e.1 = Some q -> w_fs (update_world GState.Sealed (fun _ => NoFault)) !! q = Some Dir)
    (map_to_list (w_fs (update_world GState.Sealed (fun _ => NoFault))))).
  { intros Hall Hp Hq. rewrite list.Forall_forall in Hall. by apply (Hall _ Hp). }
  assert (Hl : exists l, map_to_list (w_fs (update_world GState.Sealed (fun _ => NoFault))) = l) by eauto.
  destruct Hl as [l Hl]. rewrite Hl. vm_compute in Hl. subst l.
  repeat constructor; intros r [= <-]; vm_compute; reflexivity.
Qed.

Lemma toy_velopack_use : @VelopackUse toy_velopack update_json marked_lease marked_journal (Some app_data)
  (update_world GState.Sealed (fun _ => NoFault)).
Proof.
  split; try (intros; intros w; done). intros m release w0 w [Hfs _] Hrun _.
  pose proof (@wp_all_profiles_safe update_json marked_lease marked_journal update_json_laws (Some app_data) w0) as H.
  unfold wp in H. rewrite Hrun in H. destruct H as [[Hfs' _] _].
  unfold wp. cbn [apply_updates_and_restart toy_velopack]. rewrite bool_decide_true; [done|].
  unfold file_at. rewrite Hfs', Hfs. vm_compute. reflexivity.
Qed.


(** A host whose updater is installed, and a start that works only for it. *)
Definition host_env : ProcessEnv :=
  mkProcessEnv false (Some app_data) (Some (app_data ++ ["FursoyVault"; "host.exe"]%string)).
Definition installed : Path := app_data ++ ["Fursoy"; "host.exe"]%string.
Definition toy_spawn : Spawn := fun p args s w => if bool_decide (p = installed) then Done true s (tick w) else Done false s (tick w).
Definition installed_fs : gmap Path FsNode :=
  <[ installed := File [] ]>
  (<[ app_data ++ ["FursoyVault"; "native-host"; UPDATER_PATH_FILE]%string := File (str_bytes "C:\AppData\Fursoy\host.exe") ]>
  (foldl make_dir ∅ (path_prefixes (app_data ++ ["FursoyVault"; "native-host"]%string) ++ path_prefixes (app_data ++ ["Fursoy"]%string)))).
Definition installed_world : World := mkWorld installed_fs 0 (mkEnv (fun _ => NoFault) (fun _ => 0) (fun _ => 1700000000000)).

Lemma background_check_limited_witness :
  wp (@trigger_background_check toy_spawn host_env)
    (fun _ _ w' => agree_off (fun p => exists root, production_data_root (Some app_data) = Some root /\ p = stamp_path root) installed_world w')
    (fun _ _ _ => False)
    (agree_off (fun p => exists root, production_data_root (Some app_data) = Some root /\ p = stamp_path root) installed_world) tt installed_world /\
  file_at (outcome_world (@trigger_background_check toy_spawn host_env tt installed_world))
    (stamp_path (path_join app_data "FursoyVault")) = Some (str_bytes ("1700000000" +:+ newline)).
Proof.
  split; [|vm_compute; reflexivity]. apply (@background_check_limited toy_spawn host_env installed_world).
  intros p w _ _ _. unfold spawn_detached, toy_spawn, wp. by case_bool_decide.
Defined.
End UpdateWitness.
