(* ===== verification/EntryPoint.v ===== *)
(** * bin/fursoy-vault-host.rs: the program

    What the arguments select: the check for updates, the export of the audit log,
    or a connection on the standard streams; and the text of an error. The browser
    reads the standard output, so nothing but frames may be written there on a
    connection. The build for Unix is the one without [hooks]; in the Windows build
    they are the entry points of Update. *)

From Stdlib Require Import Strings.Ascii.
From S2P Require Import Prelude World External Examples AtomicFile Config Messages VaultFormat Capability LeaseMeta VaultStore Transaction Paths OpModel OpJournal OpRecovery Coordinator CommitProtocol AuditLog Protocol Group Handlers Confirm Chunks Delivery Monitor App Removal AppInvariant HostLoop AuditSinkImpl Tpm LocalSecretTpm KekTpm AuthorizerTpm Update.

(** [impl Display for FcpError]; the texts of foreign errors are parameters. *)
Class ForeignErrors := {
  io_error_text : IoErrorKind -> string;
  json_error_text : string;
  windows_error_text : N -> string;
  tpm_error_text : N -> string;
}.

Definition error_text `{FE : ForeignErrors} (self : FcpError) : string :=
  match self with
  | Io error => "I/O error: " +:+ io_error_text error
  | Json => "JSON error: " +:+ json_error_text
  | Windows error => "Windows API error: " +:+ windows_error_text error
  | Tpm error => "TPM error: " +:+ tpm_error_text error
  | Crypto message => "cryptographic operation failed: " +:+ message
  | Format message => "vault format error: " +:+ message
  | Protocol message => "protocol error: " +:+ message
  | Capability message => "capability rejected: " +:+ message
  | UserActionable code => "user action required: " +:+ code
  | UserVerificationNotConfigured => "no user verification method is set up for this account"
  end.

(** The standard streams: the pipe to the browser and the lines on the error
    stream. *)
Record Console := mkConsole {
  co_pipe : Pipe;
  co_stderr : list string;
}.
Definition set_co_pipe v (c : Console) := mkConsole v (co_stderr c).

(** [eprintln!], [println!]; the latter panics when it cannot write. *)
Definition eprintln (line : string) : M Console unit := modify (fun c => mkConsole (co_pipe c) (co_stderr c ++ [line])).
Definition on_streams {A} (m : M Pipe A) : M Console A := zoom co_pipe set_co_pipe m.
Definition println (line : string) : M Console unit :=
  written ← try_ (on_streams (pipe_write (str_bytes (line +:+ String (ascii_of_N 10) EmptyString))));
  unwrap (match written with Ok _ => Some tt | Err _ => None end).

(** The components of a Unix path given as text, and [Path::is_absolute]. *)
Fixpoint split_slashes (s : string) : list string :=
  match s with
  | EmptyString => [EmptyString]
  | String c rest =>
      if Ascii.eqb c "/"%char then EmptyString :: split_slashes rest
      else match split_slashes rest with
           | first :: others => String c first :: others
           | [] => [String c EmptyString]
           end
  end.
Definition unix_path (s : string) : Path :=
  List.filter (fun c => negb (String.eqb c "") && negb (String.eqb c ".")) (split_slashes s).
Definition is_absolute_unix (s : string) : bool := match s with String c _ => Ascii.eqb c "/"%char | EmptyString => false end.

(** The Windows build's calls of Update. *)
Record Hooks := mkHooks {
  run_startup_hooks : IO unit;
  run_check_and_apply : IO unit;
  run_background_check : IO unit;
}.

Definition windows_hooks `{RS : ReleaseScripts, VA : VelopackApp, SV : Serde JsonValue, VP : Velopack, SW : Spawn}
    (path_text : Path -> string) (pe : ProcessEnv) (args : list string) : Hooks := {|
  run_startup_hooks := run_startup_hooks_with_args path_text (pe_current_exe pe) args;
  run_check_and_apply := check_and_apply (pe_local_app_data pe);
  run_background_check := trigger_background_check pe;
|}.

Definition when_windows (hooks : option Hooks) (call : Hooks -> IO unit) : M Console unit :=
  match hooks with Some h => io (call h) | None => mret tt end.

(** What [args] ask for, in the order of the tests. *)
Inductive Request :=
  | CheckUpdate
  | NoArguments
  | Export (profile_id : option Uuid) (destination : string)
  | BadProfile
  | Connection.

Definition read_args `{UT : UuidText} (args : list string) : Request :=
  if bool_decide (args = ["--check-update"]%string) then CheckUpdate
  else
    match args with
    | [] => NoArguments
    | [flag; destination] => if String.eqb flag "--export-audit" then Export None destination else Connection
    | [flag; profile_flag; profile_id; destination] =>
        if String.eqb flag "--export-audit" && String.eqb profile_flag "--profile" then
          match uuid_parse profile_id with Some id => Export (Some id) destination | None => BadProfile end
        else Connection
    | _ => Connection
    end.

Section Program.
Context `{UT : UuidText, SH : Sha256, AE : Aead, LS : LocalSecret, SP : Serde VaultPayload,
  SL : Serde CapabilityLedger, SM : Serde LeaseMetadata, KB : KekBackend,
  JB : Serde BoundRequest, JJ : Serde OperationJournal, CS : CookieSerde,
  PSL : Psl, SV : Serde JsonValue, JP : JsonPretty, SC : Serde AccountGroupsConfig, CP : ConfigPretty,
  EE : Serde Envelope, FL : FileLock, FE : ForeignErrors,
  JU : Serde UnsignedAuditEntry, JE : Serde AuditEntry, JA : Serde AuditAnchor, JC : Serde AuditCheckpoint,
  JO : Serde (list AuditOutboxEntry)}.
Context (L A : Type) `{AS : AuditSink L} `{PA : PlatformAuthorizer A}.
Context (hooks : option Hooks) (data_root : FcpResult Path) (current_dir : IO Path).

(** [export_audit]. *)
Definition export_audit (profile_id : option Uuid) (destination : string) : IO unit :=
  paths ← discover_for_export data_root profile_id;
  _ ← acquire_lock (dp_root paths);
  destination ← (if is_absolute_unix destination then mret (unix_path destination)
                 else directory ← current_dir; mret (directory ++ unix_path destination));
  export_verified (dp_audit_directory paths) destination.

(** [main]: the exit code. *)
Definition report_failure (what : string) (error : FcpError) : M Console N :=
  _ ← eprintln (what +:+ ": " +:+ error_text error); mret 1.

Definition connect (args : list string) : M Console N :=
  match validate_caller_origin args with
  | Err error => report_failure "native host terminated fail-closed" error
  | Ok _ =>
      _ ← when_windows hooks run_background_check;
      ended ← try_ (on_streams (run_connection L A data_root));
      match ended with
      | Err error => report_failure "native host terminated fail-closed" error
      | Ok _ => mret 0
      end
  end.

Definition main (args : list string) : M Console N :=
  _ ← when_windows hooks run_startup_hooks;
  match read_args args with
  | CheckUpdate =>
      match hooks with
      | Some h =>
          checked ← try_ (io (run_check_and_apply h));
          match checked with
          | Err error => report_failure "companion update check failed" error
          | Ok _ => mret 0
          end
      | None => _ ← eprintln "this build does not self-update; use your package manager"; mret 0
      end
  | NoArguments => mret 0
  | BadProfile => _ ← eprintln "audit export failed: profile id must be a UUID"; mret 1
  | Export profile_id destination =>
      exported ← try_ (io (export_audit profile_id destination));
      match exported with
      | Err error => report_failure "audit export failed" error
      | Ok _ => _ ← println ("Verified audit export written to " +:+ destination); mret 0
      end
  | Connection => connect args
  end.
End Program.

(** ** Lemmas *)

Lemma returns_io {S A} (m : IO A) (Q : A -> S -> World -> Prop) (E : FcpError -> S -> World -> Prop) (s : S) w :
  (forall a w', Q a s w') -> (forall e w', E e s w') -> returns Q E (io m s w).
Proof. intros HQ HE. unfold io. destruct (m tt w) as [a [] w'|e [] w'|w'|w']; cbn; auto. Qed.

Lemma returns_try {S A} (m : M S A) (Q : FcpResult A -> S -> World -> Prop) E s w :
  returns (fun a => Q (Ok a)) (fun e => Q (Err e)) (m s w) -> returns Q E (try_ m s w).
Proof. unfold try_. by destruct (m s w). Qed.

Lemma returns_zoom {S T A} (g : S -> T) (p : T -> S -> S) (m : M T A) (Q : A -> S -> World -> Prop) (E : FcpError -> S -> World -> Prop) s w :
  returns (fun a t w' => Q a (p t s) w') (fun e t w' => E e (p t s) w') (m (g s) w) -> returns Q E (zoom g p m s w).
Proof. unfold zoom. by destruct (m (g s) w). Qed.

Section ProgramProperties.
Context `{UT : UuidText, SH : Sha256, AE : Aead, LS : LocalSecret, SP : Serde VaultPayload,
  SL : Serde CapabilityLedger, SM : Serde LeaseMetadata, KB : KekBackend,
  JB : Serde BoundRequest, JJ : Serde OperationJournal, CS : CookieSerde,
  PSL : Psl, SV : Serde JsonValue, JP : JsonPretty, SC : Serde AccountGroupsConfig, CP : ConfigPretty,
  EE : Serde Envelope, FL : FileLock, FE : ForeignErrors,
  JU : Serde UnsignedAuditEntry, JE : Serde AuditEntry, JA : Serde AuditAnchor, JC : Serde AuditCheckpoint,
  JO : Serde (list AuditOutboxEntry)}.
Context (L A : Type) `{AS : AuditSink L} `{PA : PlatformAuthorizer A}.
Context (hooks : option Hooks) (data_root : FcpResult Path) (current_dir : IO Path).

(** The output of a connection that ended well and of one that failed. *)
Definition complete_output (old output : bytes) : Prop := exists first n, stream first old n output.
Definition broken_output (old output : bytes) : Prop := output = old \/ exists first, stream_prefix first old output.

Lemma run_connection_output (p : Pipe) w :
  returns (fun r p' _ => complete_output (pipe_output p) (pipe_output p'))
    (fun _ p' _ => broken_output (pipe_output p) (pipe_output p')) (run_connection L A data_root p w).
Proof using Type.
  unfold run_connection. apply returns_bind. eapply returns_mono; [apply read_envelope_consumes|cbn beta..].
  2: { intros _ p1 w1 ->. by left. }
  intros r p1 w1 [Hout _]. apply returns_bind. destruct r as [first|]; [|by left]. cbn [ok_or_throw ok_or lift returns mret M_ret].
  apply returns_bind. destruct (validate_first_envelope first); [|by left]. cbn [lift returns mret M_ret].
  destruct (env_message first) eqn:Hm; try exact I.
  apply returns_bind, returns_io; [|by left]. intros paths w2. apply returns_bind, returns_io; [|by left]. intros _ w3.
  apply returns_bind, returns_io; [|by left]. intros app w4. apply returns_bind. cbn [get returns].
  apply returns_bind. unfold with_local.
  pose proof (connection_stream app_handle error_group_id first (app, p1) w4) as Hs. cbn [snd] in Hs. rewrite Hout in Hs.
  destruct (run_connection_with_app _ _ first (app, p1) w4) as [r [t q] w5|e [t q] w5|w5|w5]; cbn [returns] in Hs |- *; try exact I.
  - destruct Hs as [n Hs]. by exists first, n.
  - right. by exists first.
Qed.
End ProgramProperties.

(** C16: The standard output stays the browser's. A connection whose program exits
    with 0 has written one complete stream of numbered frames, a failing one at
    most a stream that breaks off; a caller other than the extension of the product
    gets nothing, and nothing of its input is read. Every other use of the program
    leaves the output alone, but for the one line of a successful export; what
    fails exits with 1. *)
Theorem stdout_is_protocol `{UT : UuidText, SH : Sha256, AE : Aead, LS : LocalSecret, SP : Serde VaultPayload,
    SL : Serde CapabilityLedger, SM : Serde LeaseMetadata, KB : KekBackend,
    JB : Serde BoundRequest, JJ : Serde OperationJournal, CS : CookieSerde,
    PSL : Psl, SV : Serde JsonValue, JP : JsonPretty, SC : Serde AccountGroupsConfig, CP : ConfigPretty,
    EE : Serde Envelope, FL : FileLock, FE : ForeignErrors,
    JU : Serde UnsignedAuditEntry, JE : Serde AuditEntry, JA : Serde AuditAnchor, JC : Serde AuditCheckpoint,
    JO : Serde (list AuditOutboxEntry)} (L A : Type) `{AS : AuditSink L} `{PA : PlatformAuthorizer A}
    hooks data_root current_dir args (c : Console) w :
  returns
    (fun code c' _ => (code = 0 \/ code = 1) /\
       match read_args args with
       | Connection =>
           if is_ok (validate_caller_origin args) then
             if code =? 0 then complete_output (pipe_output (co_pipe c)) (pipe_output (co_pipe c'))
             else broken_output (pipe_output (co_pipe c)) (pipe_output (co_pipe c'))
           else code = 1 /\ co_pipe c' = co_pipe c
       | Export _ destination =>
           co_pipe c' = if code =? 0
             then mkPipe (pipe_input (co_pipe c)) (pipe_output (co_pipe c) ++
                    str_bytes ("Verified audit export written to " +:+ destination +:+ String (ascii_of_N 10) EmptyString))
             else co_pipe c
       | _ => co_pipe c' = co_pipe c
       end)
    (fun _ c' _ => co_pipe c' = co_pipe c)
    (main L A hooks data_root current_dir args c w).
Proof.
  assert (Hreport : forall what error (Q : N -> Console -> World -> Prop) E c0 w0,
    (forall c1, co_pipe c1 = co_pipe c0 -> Q 1 c1 w0) -> returns Q E (report_failure what error c0 w0)).
  { intros what error Q E c0 w0 HQ. by apply HQ. }
  unfold main. apply returns_bind.
  assert (Hwin : forall call (Q : unit -> Console -> World -> Prop) (E : FcpError -> Console -> World -> Prop) c0 w0,
    (forall w1, Q tt c0 w1) -> (forall e w1, E e c0 w1) -> returns Q E (when_windows hooks call c0 w0)).
  { intros call Q E c0 w0 HQ HE. unfold when_windows. destruct hooks; [apply returns_io; [intros []; apply HQ|done]|apply HQ]. }
  apply Hwin; [|done]. intros w1. destruct (read_args args) as [| |profile destination| |].
  - destruct hooks as [h|]; [|by split; [left|]].
    apply returns_bind, returns_try, returns_io; [by intros; split; [left|]|].
    intros e w2. apply Hreport. intros c1 Hc. split; [by right|done].
  - by split; [left|].
  - apply returns_bind, returns_try, returns_io.
    2: { intros e w2. apply Hreport. intros c1 Hc. split; [by right|done]. }
    intros _ w2. apply returns_bind. unfold println. apply returns_bind, returns_try, returns_zoom, returns_pipe_write; [|by intros].
    intros w3. split; [by left|]. cbn. by rewrite string_app_assoc.
  - by split; [right|].
  - unfold connect. destruct (validate_caller_origin args) as [u|e] eqn:Hv; cbn [is_ok].
    2: { apply Hreport. intros c1 Hc. split; [by right|done]. }
    apply returns_bind, Hwin; [|done]. intros w2. apply returns_bind, returns_try, returns_zoom.
    eapply returns_mono; [apply run_connection_output|cbn beta..].
    + intros r p w3 Ho. by split; [left|].
    + intros e p w3 Ho. apply Hreport. intros c1 Hc. split; [by right|]. cbn [N.eqb Pos.eqb]. by rewrite Hc.
Qed.

(** ** The Linux program: the backends the build selects *)

Section LinuxProgram.
Context `{UT : UuidText, SH : Sha256, AE : Aead, SP : Serde VaultPayload,
  SL : Serde CapabilityLedger, SM : Serde LeaseMetadata,
  JB : Serde BoundRequest, JJ : Serde OperationJournal, CS : CookieSerde,
  PSL : Psl, SV : Serde JsonValue, JP : JsonPretty, SC : Serde AccountGroupsConfig, CP : ConfigPretty,
  EE : Serde Envelope, FL : FileLock, FE : ForeignErrors,
  JU : Serde UnsignedAuditEntry, JE : Serde AuditEntry, JA : Serde AuditAnchor, JC : Serde AuditCheckpoint,
  JO : Serde (list AuditOutboxEntry),
  T : Tss, HE : HostEnv, CO : Commands, EC : EcdsaP256, JK : Serde KeyBlobs, JR : Serde CredentialRegistry}.

Definition linux_main (data_root : FcpResult Path) (current_dir : IO Path) (args : list string) : M Console N :=
  main (LS := tpm_local_secret) (KB := tpm_kek) AuditLogger Authorizer (AS := audit_logger_sink) (PA := tpm_authorizer)
    None data_root current_dir args.
End LinuxProgram.
