(* ===== verification/LinuxHost.v ===== *)
(** * The host with the Linux backends

    The statements of Consent and Restore for the program that [linux_main] runs -
    the TPM backends, the audit log of the host, and the whole of [app_handle]: what
    takes the PIN, and that confirmed cookies come back. *)

From S2P Require Import Prelude World External Examples Frames AtomicFile Config Messages VaultFormat Capability LeaseMeta VaultStore Transaction Paths OpModel OpJournal OpRecovery Coordinator CommitProtocol AuditLog AuditChain Protocol Group Handlers Confirm Chunks Delivery AuditSinkImpl Monitor App Removal AppInvariant Identity Consent Restore Webauthn Tpm LocalSecretTpm KekTpm AuthorizerTpm LinuxBackends HelloAuthorizer EntryPoint.

Section LinuxHost.
Context `{UT : UuidText, SH : Sha256, AE : Aead, SP : Serde VaultPayload,
  SL : Serde CapabilityLedger, SM : Serde LeaseMetadata,
  JB : Serde BoundRequest, JJ : Serde OperationJournal, CS : CookieSerde,
  PSL : Psl, SV : Serde JsonValue, JP : JsonPretty, SC : Serde AccountGroupsConfig, CP : ConfigPretty,
  JU : Serde UnsignedAuditEntry, JE : Serde AuditEntry, JA : Serde AuditAnchor, JC : Serde AuditCheckpoint,
  JO : Serde (list AuditOutboxEntry),
  T : Tss, TL : !TssLaws, HE : HostEnv, CO : Commands, CL : !CommandsLaws, EC : EcdsaP256,
  JK : Serde KeyBlobs, JR : Serde CredentialRegistry}.

(** The host of [linux_main]. *)
Abbreviation LinuxApp := (NativeHostApp AuditLogger Authorizer).
Definition linux_handle (message : Message) : M LinuxApp (list Message) :=
  app_handle (LS := tpm_local_secret) (KB := tpm_kek) (AS := audit_logger_sink) (PA := tpm_authorizer) message.

(** The user gave the PIN for [operation] on [group] between [w] and [w']. *)
Definition pin_approves (self : Authorizer) (group : Uuid) (operation : CapabilityOperation) (w w' : World) : Prop :=
  exists payload w1 w2, later w w1 /\ pin_approved self payload w1 w2 /\ later w2 w' /\
    cp_account_group_id payload = group /\ cp_operation payload = operation.

#[local] Instance linux_kek_laws : @KekLaws tpm_kek := tpm_kek_laws.
#[local] Instance linux_secret_laws : @LocalSecretLaws tpm_local_secret := tpm_local_secret_laws.
#[local] Instance linux_sink_laws : @AuditSinkLaws AuditLogger (audit_logger_sink (LS := tpm_local_secret)) :=
  audit_logger_sink_laws.
#[local] Instance linux_authorizer_laws : @PlatformAuthorizerLaws Authorizer tpm_authorizer credential_files :=
  tpm_authorizer_laws.

(** C3: Cookies leave the host only with the PIN: if an answer of the host carries
    cookies, the message was a request for an injection into a group that the host
    serves (each with its own runtime, as always); while it was handled the TPM was not locked out and the user typed a
    PIN that unlocks the credential, for a signature that names this group and this
    operation; and only then was the vault read that the cookies of the answer, all
    of them and in their order, come from, under a key that the TPM unwrapped. *)
Theorem cookies_need_pin message s w messages s' w' c :
  own_runtimes s -> linux_handle message s w = Done messages s' w' -> Msg.CookiesInjectChunk c ∈ messages ->
  exists request runtime self w1, message = Msg.LeaseRequest request /\ lr_purpose request = Purpose.Inject /\
    bt_get (lr_account_group_id request) (app_groups s) = Some runtime /\
    app_hello_authorizer s' = Some self /\
    pin_approves self (lr_account_group_id request) CapOp.Inject w w1 /\ later w1 w' /\
    from_vault (KB := tpm_kek) (rt_transactions runtime) w1 messages.
Proof.
  intros Hown Hrun Hc.
  pose proof (injection_approved credential_files pin_approved _ _ _ _ _ _ _ Hrun Hc) as Happroved.
  destruct Happroved as (request & runtime & self & w1 & Hm & Hp & Hr & Hs & Happ & Hl & _ & Hv).
  destruct (own_runtimes_get _ _ _ Hown Hr) as [_ [Hid _] _ _]. rewrite Hid in Happ. by exists request, runtime, self, w1.
Qed.

(** C6: A profile is handed over only with the PIN of that profile: if the host
    answers that the extension may continue as another profile, it was asked to,
    has no groups of its own, speaks the current protocol, and belongs to a
    connection of a different profile; it then opened the credential of the profile
    asked for, never creating one, and the user typed a PIN that unlocks this very
    credential, for a signature that names the profile and the recovery. Nothing
    was written, apart from the migration of a configuration that was read. *)
Theorem recovery_needs_pin message s w messages s' w' r :
  linux_handle message s w = Done messages s' w' -> Msg.RecoveryAdopted r ∈ messages ->
  message = Msg.RecoveryAdopt (mkRecoveryAdopt (rad_profile_id r)) /\ agree_off config_files w w' /\
  app_negotiated_protocol s = PROTOCOL_VERSION /\ cfg_groups (app_config s) = [] /\
  exists current paths self w1 w2,
    app_connection_profile_id s = Some current /\ current <> rad_profile_id r /\
    sibling_profile (app_paths s) (rad_profile_id r) = Ok paths /\
    later w w1 /\ tpm_open_existing (dp_hello_credential paths) tt w1 = Done self tt w2 /\
    pin_approves self (rad_profile_id r) CapOp.RecoverProfile w2 w'.
Proof.
  intros Hrun Hr. exact (recovery_approved credential_files pin_approved message s w messages s' w' r Hrun Hr).
Qed.

(** The credential of a profile has files of its own. *)
Lemma credential_files_apart root q : credential_files (dp_hello_credential (from_root root)) q ->
  exists name rest, q = root ++ name :: rest /\ name <> "vault"%string /\ name <> "kek-key.json"%string.
Proof using Type.
  assert (Hparent : removelast (dp_hello_credential (from_root root)) = root) by apply removelast_last.
  intros [[rest ->]|[[->|Ht]|(parent & id & Hp & [rest ->])]].
  - exists "hello-credential.json"%string, rest. split; [cbn; unfold path_join; by rewrite <- app_assoc|done].
  - by exists "hello-credential.json"%string, [].
  - unfold temporary_path, path_file_name, with_file_name in Ht. rewrite Hparent in Ht. cbn in Ht. unfold path_join in Ht.
    rewrite list.last_snoc in Ht. injection Ht as <-. by eexists _, [].
  - unfold path_parent in Hp. rewrite Hparent in Hp.
    assert (parent = root) as ->. { destruct (dp_hello_credential (from_root root)); [done|by injection Hp]. }
    eexists _, rest. split; [unfold retired_path, path_join; by rewrite <- app_assoc|done].
Qed.

(** C1: Nothing is lost between an eviction and an injection: if the host confirmed a
    snapshot with cookies to the browser, then any later injection into the group,
    by this process or by another one, sends the collected cookies, all of them, in
    their order and each with every field as it was, save that an expiration date is
    the number serde_json reads of the text it wrote for it ([reread_cookies]; a
    cookie without a date comes back exactly). This holds as long as the files of the
    vault and of the key are what they were when the snapshot was confirmed. Whatever
    fails, in the confirming call or later, or is written elsewhere - the lease, the
    journal, the capabilities, the credential, the log - changes nothing. *)
Theorem confirmed_cookies_come_back `{AL : !AeadLaws, JF : JsonF64, PL : !PayloadLaws}
    root g snapshot (s : LinuxApp) w messages s1 w1 confirmed (s2 : LinuxApp) w2 answers s3 w3 chunk :
  let id := csc_account_group_id snapshot in
  serving (AS := audit_logger_sink (LS := tpm_local_secret)) root id g s w ->
  collected g snapshot <> [] ->
  linux_handle (Msg.CookiesSnapshotChunk snapshot) s w = Done messages s1 w1 -> Msg.EvictConfirmed confirmed ∈ messages ->
  app_paths s2 = from_root root -> own_runtimes s2 ->
  file_at w2 (group_vault root id) = file_at w1 (group_vault root id) ->
  file_at w2 (dp_kek_key (from_root root)) = file_at w1 (dp_kek_key (from_root root)) ->
  linux_handle (Msg.LeaseRequest (mkLeaseRequest id Purpose.Inject)) s2 w2 = Done answers s3 w3 ->
  Msg.CookiesInjectChunk chunk ∈ answers ->
  reread_cookies (collected g snapshot) = Some (injected answers).
Proof.
  exact (confirmed_cookies_restored (KK := tpm_kek_keeps) credential_files pin_approved credential_files_apart root g snapshot
    s w messages s1 w1 confirmed s2 w2 answers s3 w3 chunk).
Qed.
End LinuxHost.

(** ** A session *)

Section LinuxExample.
#[local] Existing Instances toy_tss toy_tss_laws toy_commands toy_commands_laws toy_p256 toy_sha256 toy_uuid_text
  toy_uuid_text_laws toy_aead toy_f64 toy_payload toy_ledger toy_lease toy_bound_request toy_journal toy_cookies toy_psl toy_json
  toy_json_pretty toy_config toy_config_pretty toy_unsigned_entry toy_audit_entry toy_anchor toy_checkpoint toy_outbox
  toy_key_blobs toy_registry authorizer_env.

Definition session_paths : DataPaths := from_root ["d"; "profiles"; uuid_to_string 3]%string.
Definition session_world : World :=
  mkWorld {[ [] := Dir ]} 0 (mkEnv (fun _ => NoFault) (fun n => N.of_nat n) (fun _ => 1700000000000)).

(** A sealed group: its vault holds one cookie, under a key wrapped by the TPM. *)
Definition session_transactions : VaultTransactions :=
  mkTransactions 77 (dp_kek_key session_paths) (dp_vault_groups session_paths) (mkLedger 77 0 0 [] None)
    (capability_path session_paths 77).
Definition seal_session : IO unit :=
  _ ← fs_create_dir_all (dp_vault_groups session_paths);
  prepared ← prepare_after_snapshot (KB := tpm_kek) session_transactions [example_cookie];
  _ ← fs_open_append (vault_path session_transactions);
  fs_write_all (vault_path session_transactions) (pv_bytes prepared).
Definition sealed_world : World := outcome_world (seal_session tt session_world).

Definition session_runtime : GroupRuntime :=
  mkRuntime 77 Policy.Balanced session_transactions (lease_path session_paths 77)
    (set_lm_state GState.Sealed (initial_lease 77 true))
    (mkCoordinator (mkJournalStore (operation_journal_path session_paths 77) 77 (empty_journal 77)) (replicate 32 Byte.x11) (Some 3))
    None.
Definition session_app : NativeHostApp AuditLogger Authorizer :=
  mkApp [(77, session_runtime)] (mkLogger (dp_audit_directory session_paths) (replicate 32 Byte.x11) 0 ZERO_MAC false)
    session_paths protected_config "" true None None new_monitor PROTOCOL_VERSION (Some 3).
Definition inject_request : Message := Msg.LeaseRequest (mkLeaseRequest 77 Purpose.Inject).
Definition injection_run : Outcome (NativeHostApp AuditLogger Authorizer) (list Message) :=
  linux_handle inject_request session_app sealed_world.

Lemma cookies_need_pin_witness :
  let messages := outcome_value [] injection_run in
  let s' := outcome_state session_app injection_run in
  let w' := outcome_world injection_run in
  injected messages = [example_cookie] /\
  exists request runtime self w1, inject_request = Msg.LeaseRequest request /\ lr_purpose request = Purpose.Inject /\
    bt_get (lr_account_group_id request) (app_groups session_app) = Some runtime /\
    app_hello_authorizer s' = Some self /\
    pin_approves self (lr_account_group_id request) CapOp.Inject sealed_world w1 /\ later w1 w' /\
    from_vault (KB := tpm_kek) (rt_transactions runtime) w1 messages.
Proof.
  cbv zeta. split; [vm_compute; reflexivity|].
  apply (cookies_need_pin inject_request session_app sealed_world (outcome_value [] injection_run)
    (outcome_state session_app injection_run) (outcome_world injection_run)
    (mkCookiesInjectChunk 77 48 0 1 1 [example_cookie])).
  - by repeat constructor.
  - apply returned_done. vm_compute. reflexivity.
  - vm_compute. right. left.
Defined.

(** An empty profile, beside the one of the session, in which the user enrolled. *)
Definition empty_app : NativeHostApp AuditLogger Authorizer :=
  mkApp [] (mkLogger ["d"; "audit"]%string (replicate 32 Byte.x11) 0 ZERO_MAC false)
    (from_root ["d"; "profiles"; uuid_to_string 4]%string) (mkConfig 3 3 []) "" true None None new_monitor PROTOCOL_VERSION (Some 4).
Definition prepare_profile : IO unit :=
  _ ← seal_session;
  _ ← fs_create_dir_all ["d"; "profiles"; uuid_to_string 3; "config"]%string;
  _ ← tpm_enroll (dp_hello_credential session_paths);
  _ ← fs_open_append (dp_account_groups_config session_paths);
  fs_write_all (dp_account_groups_config session_paths) (enc codec_config protected_config).
Definition other_world : World := outcome_world (prepare_profile tt session_world).
Definition adopt_request : Message := Msg.RecoveryAdopt (mkRecoveryAdopt 3).
Definition adoption_run : Outcome (NativeHostApp AuditLogger Authorizer) (list Message) :=
  linux_handle adopt_request empty_app other_world.

Lemma recovery_needs_pin_witness :
  let w' := outcome_world adoption_run in
  adopt_request = Msg.RecoveryAdopt (mkRecoveryAdopt 3) /\ agree_off config_files other_world w' /\
  app_negotiated_protocol empty_app = PROTOCOL_VERSION /\ cfg_groups (app_config empty_app) = [] /\
  exists current paths self w1 w2,
    app_connection_profile_id empty_app = Some current /\ current <> 3 /\ sibling_profile (app_paths empty_app) 3 = Ok paths /\
    later other_world w1 /\ tpm_open_existing (dp_hello_credential paths) tt w1 = Done self tt w2 /\
    pin_approves self 3 CapOp.RecoverProfile w2 w'.
Proof.
  cbv zeta. apply (recovery_needs_pin adopt_request empty_app other_world (outcome_value [] adoption_run)
    (outcome_state empty_app adoption_run) (outcome_world adoption_run) (mkRecoveryAdopted 3)).
  - apply returned_done. vm_compute. reflexivity.
  - vm_compute. left.
Defined.

(** The sealed group again, while its cookies are back in the browser: the lease is
    out, and an eviction has been begun (operation 5 of the journal). *)
Definition evicting_runtime : GroupRuntime :=
  mkRuntime 77 Policy.Balanced session_transactions (lease_path session_paths 77)
    (set_lm_pending_operation_id (Some 5) (set_lm_lease_id (Some 3) (set_lm_state GState.Evicting (initial_lease 77 true))))
    (mkCoordinator (mkJournalStore (operation_journal_path session_paths 77) 77 example_j1) (replicate 32 Byte.x11) (Some 3))
    (Some (new_pending PKind.Eviction 5 (Some 3) 1 (Some 9))).
Definition evicting_app : NativeHostApp AuditLogger Authorizer :=
  set_groups [(77, evicting_runtime)] session_app.
Definition evicting_world : World :=
  mkWorld (<[operation_journal_path session_paths 77 := File (enc codec_journal example_j1)]> (w_fs sealed_world))
    (w_step sealed_world) (w_env sealed_world).

(** Another cookie than the one in the vault. *)
Definition collected_cookie : CookieRecord :=
  mkCookieRecord "example.com" None true true "theme" None "/" SameSite.Lax true true "0" "dark".
Definition eviction_chunk (purpose : string) : CookiesSnapshotChunk :=
  mkCookiesSnapshotChunk 77 (Some 3) 5 0 1 2 [example_cookie; collected_cookie] (Some 1) (Some 9) (Some purpose).
Definition confirm_run : Outcome (NativeHostApp AuditLogger Authorizer) (list Message) :=
  linux_handle (Msg.CookiesSnapshotChunk (eviction_chunk "commit")) evicting_app evicting_world.
Definition confirmed_app : NativeHostApp AuditLogger Authorizer := outcome_state evicting_app confirm_run.
Definition confirmed_world : World := outcome_world confirm_run.

(** The browser removes them: prepare, check, result; then the user comes back. *)
Definition removal : list Message :=
  [Msg.EvictRemovePrepare (mkEvictRemovePrepare 77 5 1 (Some 3) 9);
   Msg.CookiesSnapshotChunk (eviction_chunk "removal_precheck");
   Msg.EvictResult (mkEvictResult 77 (Some 3) 5 true 0 (Some 1) (Some 9))].
Definition removal_run : Outcome (NativeHostApp AuditLogger Authorizer) (list (FcpResult (list Message))) :=
  serve_app (LS := tpm_local_secret) (KB := tpm_kek) (AS := audit_logger_sink) (PA := tpm_authorizer) removal confirmed_app confirmed_world.
Definition removed_app : NativeHostApp AuditLogger Authorizer := outcome_state confirmed_app removal_run.
Definition removed_world : World := outcome_world removal_run.
Definition return_run : Outcome (NativeHostApp AuditLogger Authorizer) (list Message) :=
  linux_handle inject_request removed_app removed_world.

Lemma evicting_serving : serving (AS := audit_logger_sink (LS := tpm_local_secret)) ["d"; "profiles"; uuid_to_string 3]%string 77
  evicting_runtime evicting_app evicting_world.
Proof.
  split; [reflexivity| |reflexivity..|].
  - constructor; [|constructor]. by split.
  - split; [eapply jsteps_valid; [apply empty_journal_valid|apply example_j1_reachable]|].
    exists (enc codec_journal example_j1). split_and!; [by vm_compute|done|]. by apply (codec_json_laws codec_journal).
Qed.

Lemma confirm_done : linux_handle (Msg.CookiesSnapshotChunk (eviction_chunk "commit")) evicting_app evicting_world =
  Done (outcome_value [] confirm_run) confirmed_app confirmed_world.
Proof. fold confirm_run. unfold confirmed_app, confirmed_world. apply returned_done. vm_compute. reflexivity. Qed.

Lemma return_done : linux_handle inject_request removed_app removed_world =
  Done (outcome_value [] return_run) (outcome_state removed_app return_run) (outcome_world return_run).
Proof. fold return_run. apply returned_done. vm_compute. reflexivity. Qed.

(** Every runtime is still of its group. *)
Lemma removed_own : own_runtimes removed_app.
Proof.
  apply (own_own_runtimes session_paths).
  refine (kept_outcome (own session_paths) (serve_app (LS := tpm_local_secret) (KB := tpm_kek) (AS := audit_logger_sink)
    (PA := tpm_authorizer) removal) confirmed_app confirmed_world (own_serve session_paths removal) _).
  refine (kept_outcome (own session_paths) (linux_handle (Msg.CookiesSnapshotChunk (eviction_chunk "commit"))) evicting_app evicting_world
    (own_app_handle session_paths _) _).
  split; [done|]. constructor; [|constructor]. by split.
Qed.

Lemma confirmed_cookies_come_back_witness :
  reread_cookies [example_cookie; collected_cookie] = Some (injected (outcome_value [] return_run)).
Proof.
  apply (confirmed_cookies_come_back (AL := toy_aead_laws) (PL := toy_payload_laws)
    ["d"; "profiles"; uuid_to_string 3]%string evicting_runtime (eviction_chunk "commit")
    evicting_app evicting_world (outcome_value [] confirm_run) confirmed_app confirmed_world
    (mkEvictConfirmed 77 (Some 3) 5 2 Disposition.Remove (Some 1) (Some 9))
    removed_app removed_world (outcome_value [] return_run) (outcome_state removed_app return_run) (outcome_world return_run)
    (mkCookiesInjectChunk 77 155 0 1 2 [example_cookie; collected_cookie])).
  - exact evicting_serving.
  - discriminate.
  - exact confirm_done.
  - vm_compute. left.
  - vm_compute. reflexivity.
  - exact removed_own.
  - vm_compute. reflexivity.
  - vm_compute. reflexivity.
  - exact return_done.
  - vm_compute. right. left.
Defined.
End LinuxExample.
