(* ===== verification/TpmProbe.v ===== *)
(** * src/poc/tpm-probe/src/main.rs: the probe of the key providers of Windows

    A program of its own that measures what the host later relies on: whether a
    provider is hardware, whether its keys stay inside, and how long they take. Its
    errors are boxed; they are written with the constructor of [FcpError] that
    carries the same error, and a text is [Format]. The wiping of buffers is not
    modelled. *)

From Stdlib Require Import Strings.Ascii.
From stdpp Require Import sorting.
From S2P Require Import Prelude World External Examples AtomicFile Frames Handles Config AuditLog HelloAuthorizer WindowsKeys App.

Definition PLATFORM_KEY_NAME : string := "FURSOY.CookieProtector.Exp01".
Definition PASSPORT_KEY_NAME : string := "FURSOY.CookieProtector.Exp01.Passport".
Definition HELLO_CREDENTIAL_NAME : string := "FURSOY.CookieProtector.Exp01.Hello".
Definition PROBE_RSA_BITS : N := 2048.
Definition DEFAULT_ITERATIONS : N := 30.
Definition DEFAULT_HELLO_ITERATIONS : N := 10.
(** Durations are in nanoseconds. *)
Definition PROMPT_HEURISTIC : N := 500 * 1000000.
Definition NTE_INVALID_PARAMETER : N := 0x80090027.

Module Kind.
Inductive ProviderKind := Platform | Passport.
#[global] Instance ProviderKind_eq_dec : EqDecision ProviderKind.
Proof. solve_decision. Defined.
End Kind.
Abbreviation ProviderKind := Kind.ProviderKind.

(** [provider_name], [provider_label], [key_name]. *)
Definition provider_name (kind : ProviderKind) : string :=
  match kind with
  | Kind.Platform => "Microsoft Platform Crypto Provider"
  | Kind.Passport => "Microsoft Passport Key Storage Provider"
  end.
Definition provider_label (kind : ProviderKind) : string := provider_name kind.
Definition probe_key_name (kind : ProviderKind) : string :=
  match kind with Kind.Platform => PLATFORM_KEY_NAME | Kind.Passport => PASSPORT_KEY_NAME end.

Module Property.
Inductive ProbeProperty :=
  ImplType | PlatformType | TpmVersion | Algorithm | KeyLength | ExportPolicy | UiPolicy | UniqueName.
End Property.
Abbreviation ProbeProperty := Property.ProbeProperty.

Module Credential.
Inductive KeyCredentialStatus :=
  | Success | UnknownError | NotFound | UserCanceled | UserPrefersPassword | CredentialAlreadyExists
  | SecurityDeviceLocked | Other (code : N).
#[global] Instance KeyCredentialStatus_eq_dec : EqDecision KeyCredentialStatus.
Proof. solve_decision. Defined.
End Credential.
Abbreviation KeyCredentialStatus := Credential.KeyCredentialStatus.

(** ** The system

    NCrypt, BCrypt and WinRT as the probe calls them: each call is a computation on
    the state of the system and answers a value or the code of an error. The clock
    [Instant::now] answers nanoseconds. *)
Class ProbeSystem := {
  System : Type;
  ps_open_provider : string -> M System (Result N N);
  ps_open_key : N -> string -> M System (Result N N);
  ps_create_key : N -> string -> M System (Result N N);
  ps_get_size : N -> ProbeProperty -> M System (Result N N);
  ps_get : N -> ProbeProperty -> N -> M System (Result N (bytes * N));
  ps_set : N -> ProbeProperty -> bytes -> M System (Result N unit);
  ps_finalize : N -> M System (Result N unit);
  ps_delete : N -> M System (Result N unit);
  ps_encrypt_size : N -> bytes -> M System (Result N N);
  ps_encrypt : N -> bytes -> N -> M System (Result N (bytes * N));
  ps_decrypt : N -> bytes -> N -> M System (Result N (bytes * N));
  ps_is_invalid : N -> bool;
  ps_free : N -> M System unit;
  ps_random : N -> M System (Result N bytes);
  ps_now : M System N;
  (** The memory of the [NCRYPT_UI_POLICY] of the platform key. *)
  ui_policy_bytes : bytes;
  (** WinRT: the apartment, [KeyCredentialManager] and the verification. *)
  ro_initialize : M System (Result N unit);
  ro_uninitialize : M System unit;
  kc_is_supported : M System (Result N bool);
  kc_request_create : string -> M System (Result N N);
  kc_open : string -> M System (Result N N);
  kc_status : N -> M System (Result N KeyCredentialStatus);
  kc_status_code : KeyCredentialStatus -> N;
  kc_credential : N -> M System (Result N N);
  kc_create_buffer : bytes -> M System (Result N N);
  kc_request_sign : N -> N -> M System (Result N N);
  kc_sign_status : N -> M System (Result N KeyCredentialStatus);
  kc_sign_result : N -> M System (Result N N);
  kc_public_key : N -> M System (Result N N);
  kc_open_algorithm : M System (Result N N);
  kc_import_key : N -> N -> M System (Result N N);
  kc_verify : N -> N -> N -> M System (Result N bool);
}.

(** [Display] of numbers and errors on the terminal, and the parser of [usize]. *)
Class ProbeText := {
  milliseconds_text : N -> string;
  error_display : FcpError -> string;
}.

(** The terminal and the system. A line of input may be no text. *)
Record Probe (Sys : Type) := mkProbe {
  pr_output : list string;
  pr_input : list (option string);
  pr_system : Sys;
}.
Arguments mkProbe {Sys}.
Arguments pr_output {Sys}.
Arguments pr_input {Sys}.
Arguments pr_system {Sys}.

Definition set_pr_system {Sys} (v : Sys) (s : Probe Sys) : Probe Sys := mkProbe (pr_output s) (pr_input s) v.

Definition failure (text : string) : FcpError := Format text.

(** ** Pure parts *)

Definition bool_text (b : bool) : string := if b then "true" else "false".

(** [{:08x}] of a [u32]. *)
Definition hex_u32 (n : N) : string := encode_hex (be_bytes 4 n).

(** [parse_u32], [parse_utf16]. *)
Definition parse_u32 (b : bytes) : FcpResult N :=
  if (4 <=? length b)%nat then Ok (le_value (take 4 b)) else Err (failure "property value was shorter than four bytes").

Fixpoint utf16_pairs (b : bytes) : list N :=
  match b with
  | x :: y :: rest => Byte.to_N x + 256 * Byte.to_N y :: utf16_pairs rest
  | _ => []
  end.

(** [while units.last() == Some(&0) { units.pop(); }], on the reversed list. *)
Fixpoint drop_zeros (reversed : list N) : list N :=
  match reversed with
  | u :: rest => if u =? 0 then drop_zeros rest else reversed
  | [] => []
  end.

Definition parse_utf16 (b : bytes) : FcpResult bytes :=
  _ ← guard_err (negb (len b mod 2 =? 0)) (failure "UTF-16 property had an odd byte length");
  ok_or (from_utf16 (rev (drop_zeros (rev (utf16_pairs b))))) (failure "invalid utf-16: lone surrogate found").

(** [redact_unique_name]: [rsplit] at either separator, and the first segment that
    is not empty. *)
Definition is_separator (b : byte) : bool := match b with Byte.x5c | Byte.x2f => true | _ => false end.

Fixpoint split_segments (b : bytes) : list bytes :=
  match b with
  | [] => [[]]
  | c :: rest =>
      if is_separator c then [] :: split_segments rest
      else match split_segments rest with
           | first :: others => (c :: first) :: others
           | [] => [[c]]
           end
  end.

Definition redact_unique_name (unique_name : bytes) : bytes :=
  default (list_byte_of_string "<empty>")
    (List.find (fun segment => negb (bool_decide (segment = []))) (rev (split_segments unique_name))).

(** [prompt_likely]; [percentile], which panics on no samples. *)
Definition prompt_likely (duration : N) : bool := PROMPT_HEURISTIC <? duration.

Definition div_ceil (a b : N) : N := if a mod b =? 0 then a / b else a / b + 1.

Definition percentile_index (samples : list N) (percentile : N) : option N :=
  product ← (let p := len samples * percentile in if p <=? u64_max then Some p else None);
  let rank := div_ceil product 100 in
  if 1 <=? rank then Some (rank - 1) else None.

Definition percentile (samples : list N) (p : N) : option N :=
  index ← percentile_index samples p;
  samples !! N.to_nat index.

(** [key_credential_status_name]. *)
Definition key_credential_status_name (status : KeyCredentialStatus) : string :=
  match status with
  | Credential.Success => "success"
  | Credential.UnknownError => "unknown_error"
  | Credential.NotFound => "not_found"
  | Credential.UserCanceled => "user_canceled"
  | Credential.UserPrefersPassword => "user_prefers_password"
  | Credential.CredentialAlreadyExists => "credential_already_exists"
  | Credential.SecurityDeviceLocked => "security_device_locked"
  | Credential.Other _ => "unrecognized_status"
  end.

(** [parse_iterations], [parse_hello_iterations]: the argument after the command. *)
Definition iterations_of (default_iterations : N) (argument : option string) : FcpResult N :=
  match argument with
  | Some value =>
      iterations ← ok_or (parse_u64 value) (failure "invalid digit found in string");
      if iterations =? 0 then Err (failure "iterations must be greater than zero") else Ok iterations
  | None => Ok default_iterations
  end.

(** [is_nte_invalid_parameter], [windows_error_code]. *)
Definition windows_error_code (error : FcpError) : option N :=
  match error with Windows code => Some code | _ => None end.

Definition is_nte_invalid_parameter (error : FcpError) : bool :=
  match windows_error_code error with Some status => status =? NTE_INVALID_PARAMETER | None => false end.

(** ** The commands *)

Section Probe.
Context `{PS : ProbeSystem, PT : ProbeText}.
Abbreviation P := (M (Probe System)).

(** A call followed by [?], and the terminal. *)
Definition on_system {A} (m : M System A) : P A := zoom pr_system set_pr_system m.
Definition win {A} (m : M System (Result N A)) : P A := r ← on_system m; lift (map_err Windows r).

Definition print (text : string) : P unit :=
  modify (fun s => mkProbe (pr_output s ++ [text]) (pr_input s) (pr_system s)).
Definition println (line : string) : P unit := print (line +:+ newline).
Definition read_line : P string :=
  s ← get;
  match pr_input s with
  | [] => mret EmptyString
  | line :: rest =>
      _ ← modify (fun s => mkProbe (pr_output s) rest (pr_system s));
      ok_or_throw line (Io InvalidData)
  end.

(** [Drop] of a provider or a key, at the end of the block that owns it. *)
Definition drop_probe_handle (handle : N) : P unit :=
  on_system (if ps_is_invalid handle then mret tt else ps_free handle).

Definition owning {A} (acquire : P N) (body : N -> P A) : P A :=
  handle ← acquire;
  result ← try_ (body handle);
  _ ← drop_probe_handle handle;
  lift result.

(** [Provider::open], [Key::open]. *)
Definition open_provider (kind : ProviderKind) : P N := win (ps_open_provider (provider_name kind)).
Definition open_probe_key (kind : ProviderKind) (provider : N) : P N := win (ps_open_key provider (probe_key_name kind)).

(** [get_property], [get_u32], [get_utf16], [set_u32], [print_optional_u32]. *)
Definition probe_get_property (handle : N) (property : ProbeProperty) : P bytes :=
  length ← win (ps_get_size handle property);
  answer ← win (ps_get handle property length);
  mret (take (N.to_nat (snd (answer : bytes * N))) (fst answer)).

Definition probe_get_u32 (handle : N) (property : ProbeProperty) : P N :=
  b ← probe_get_property handle property; lift (parse_u32 b).

Definition probe_get_utf16 (handle : N) (property : ProbeProperty) : P bytes :=
  b ← probe_get_property handle property; lift (parse_utf16 b).

Definition probe_set_u32 (handle : N) (property : ProbeProperty) (value : N) : P unit :=
  win (ps_set handle property (le_bytes 4 value)).

Definition print_optional_u32 (handle : N) (property : ProbeProperty) (label : string) : P unit :=
  value ← try_ (probe_get_u32 handle property);
  match value with
  | Ok value => println (label +:+ "=0x" +:+ hex_u32 value)
  | Err error => println (label +:+ "=unavailable (" +:+ error_display error +:+ ")")
  end.

(** [print_provider_status]. *)
Definition print_provider_status (kind : ProviderKind) (provider : N) : P unit :=
  implementation ← probe_get_u32 provider Property.ImplType;
  let hardware := negb (N.land implementation NCRYPT_IMPL_HARDWARE_FLAG =? 0) in
  let software := negb (N.land implementation NCRYPT_IMPL_SOFTWARE_FLAG =? 0) in
  _ ← println ("implementation_flags=0x" +:+ hex_u32 implementation);
  _ ← println ("hardware_provider=" +:+ bool_text hardware);
  _ ← println ("software_provider=" +:+ bool_text software);
  _ ← print_optional_u32 provider Property.PlatformType "pcp_platform_type";
  _ ← print_optional_u32 provider Property.TpmVersion "pcp_tpm_version";
  match kind with
  | Kind.Platform =>
      guard_not (negb hardware || software)
        (failure "platform provider did not report hardware-only implementation")
  | Kind.Passport =>
      _ ← println "key_level_hardware_verification_required=true";
      guard_not (negb hardware) (failure "Passport provider did not report hardware capability")
  end.

(** [inspect_key]. *)
Definition inspect_key (key : N) : P unit :=
  algorithm ← probe_get_utf16 key Property.Algorithm;
  length ← probe_get_u32 key Property.KeyLength;
  export_policy ← probe_get_u32 key Property.ExportPolicy;
  unique_name ← probe_get_utf16 key Property.UniqueName;
  _ ← println ("key_algorithm=" +:+ string_of_list_byte algorithm);
  _ ← println ("key_length_bits=" +:+ pretty length);
  _ ← println ("key_export_policy=0x" +:+ hex_u32 export_policy);
  _ ← println ("key_unique_name_redacted=" +:+ string_of_list_byte (redact_unique_name unique_name));
  _ ← println ("key_non_exportable=" +:+ bool_text (export_policy =? 0));
  guard_not (negb (bool_decide (algorithm = list_byte_of_string "RSA")) || negb (length =? PROBE_RSA_BITS)
             || negb (export_policy =? 0))
    (failure "key properties do not match the experiment's security requirements").

(** [report_passport_direct_cng_unsupported], [open_key_for_experiment]: the body
    runs with the key, unless the Passport provider refuses the call as such. *)
Definition report_unsupported (operation : string) (status : N) : P unit :=
  _ ← println ("operation=" +:+ operation);
  _ ← println "passport_direct_cng_supported=false";
  _ ← println "path_b_result=unsupported";
  println ("nte_status=0x" +:+ hex_u32 status).

Definition open_key_for_experiment (kind : ProviderKind) (provider : N) (operation : string) : P (option N) :=
  opened ← try_ (open_probe_key kind provider);
  match opened with
  | Ok key => mret (Some key)
  | Err error =>
      if bool_decide (kind = Kind.Passport) && is_nte_invalid_parameter error then
        status ← unwrap (windows_error_code error);
        _ ← report_unsupported operation status;
        mret None
      else throw error
  end.

(** A block that owns the key, if there is one. *)
Definition owning_key {A} (found : option N) (absent : P A) (body : N -> P A) : P A :=
  match found with
  | None => absent
  | Some key => owning (mret key) body
  end.

(** [create_key]. *)
Definition probe_create_key (kind : ProviderKind) (provider : N) : P unit :=
  _ ← print_provider_status kind provider;
  created ← on_system (ps_create_key provider (probe_key_name kind));
  match created with
  | Err code =>
      if bool_decide (kind = Kind.Passport) && is_nte_invalid_parameter (Windows code)
      then report_unsupported "create" code
      else throw (Windows code)
  | Ok handle =>
      owning (mret handle) (fun key =>
        _ ← probe_set_u32 key Property.KeyLength PROBE_RSA_BITS;
        _ ← probe_set_u32 key Property.ExportPolicy 0;
        _ ← (match kind with Kind.Platform => win (ps_set key Property.UiPolicy ui_policy_bytes) | Kind.Passport => mret tt end);
        _ ← win (ps_finalize key);
        _ ← println "key_created=true";
        inspect_key key)
  end.

(** [delete_key]: the key that was deleted is not freed any more. *)
Definition delete_key (kind : ProviderKind) (provider : N) : P unit :=
  found ← open_key_for_experiment kind provider "delete";
  match found with
  | None => println "key_deleted=false"
  | Some key =>
      deleted ← try_ (win (ps_delete key));
      match deleted with
      | Ok _ =>
          _ ← println "key_deleted=true";
          drop_probe_handle 0
      | Err error => _ ← drop_probe_handle key; throw error
      end
  end.

(** [prepare_wrapped_dek], [unwrap_once]. *)
Definition prepare_wrapped_dek (key : N) : P (bytes * bytes) :=
  dek ← win (ps_random 32);
  wrapped_length ← win (ps_encrypt_size key dek);
  wrapped ← win (ps_encrypt key dek wrapped_length);
  mret (dek, take (N.to_nat (snd (wrapped : bytes * N))) (fst wrapped)).

Definition unwrap_once (key : N) (wrapped expected : bytes) : P N :=
  started ← on_system ps_now;
  recovered ← win (ps_decrypt key wrapped 32);
  now ← on_system ps_now;
  _ ← guard_not (negb (snd (recovered : bytes * N) =? len expected) || negb (bool_decide (fst recovered = expected)))
        (failure "unwrapped DEK did not match the original");
  mret (saturating_sub now started).

(** [Vec::with_capacity] of durations of 16 bytes. *)
Definition with_capacity (n : N) : P unit := unwrap (if n * 16 <=? 2 ^ 63 - 1 then Some tt else None).

(** [print_timing_summary]. *)
Definition print_timing_summary (samples : list N) : P unit :=
  first ← unwrap (samples !! 0%nat);
  let steady := merge_sort N.le (drop 1 samples) in
  _ ← println ("iterations=" +:+ pretty (len samples));
  _ ← println ("first_op_ms=" +:+ milliseconds_text first);
  _ ← match steady with
      | [] =>
          _ ← println "steady_state_samples=0";
          _ ← println "steady_state_p50_ms=unavailable";
          _ ← println "steady_state_p95_ms=unavailable";
          println "steady_state_max_ms=unavailable"
      | _ =>
          _ ← println ("steady_state_samples=" +:+ pretty (len steady));
          p50 ← unwrap (percentile steady 50);
          _ ← println ("steady_state_p50_ms=" +:+ milliseconds_text p50);
          p95 ← unwrap (percentile steady 95);
          _ ← println ("steady_state_p95_ms=" +:+ milliseconds_text p95);
          maximum ← unwrap (list.last steady);
          println ("steady_state_max_ms=" +:+ milliseconds_text maximum)
      end;
  _ ← println ("sample_size_low=" +:+ bool_text (len samples <? 20));
  _ ← println ("prompt_likely_observed=" +:+ bool_text (prompt_likely first));
  _ ← println "prompt_heuristic_threshold_ms=500";
  println "prompt_detection=latency_heuristic_only".

(** [for index in 0..iterations { .. samples.push(elapsed); .. }]. *)
Fixpoint sample_loop (label : string) (measure : P N) (remaining : nat) (index : N) (samples : list N) : P (list N) :=
  match remaining with
  | O => mret samples
  | Datatypes.S remaining' =>
      elapsed ← measure;
      _ ← println (label +:+ "=" +:+ pretty (index + 1) +:+ " duration_ms=" +:+ milliseconds_text elapsed);
      sample_loop label measure remaining' (index + 1) (samples ++ [elapsed])
  end.

Definition collect_samples (label : string) (measure : P N) (iterations : N) : P (list N) :=
  _ ← with_capacity iterations;
  sample_loop label measure (N.to_nat iterations) 0 [].

(** [roundtrip]. *)
Definition roundtrip (key : N) (iterations : N) : P unit :=
  prepared ← prepare_wrapped_dek key;
  let '(dek, wrapped) := (prepared : bytes * bytes) in
  samples ← collect_samples "unwrap_sample" (unwrap_once key wrapped dek) iterations;
  _ ← print_timing_summary samples;
  println "roundtrip_verified=true".

(** [handle_cycle]: a fresh handle for every operation. *)
Definition handle_cycle (kind : ProviderKind) (provider : N) (iterations : N) : P unit :=
  found ← open_key_for_experiment kind provider "handle_cycle";
  match found with
  | None => mret tt
  | Some initial_key =>
      prepared ← owning (mret initial_key) (fun key => _ ← inspect_key key; prepare_wrapped_dek key);
      let '(dek, wrapped) := (prepared : bytes * bytes) in
      samples ← collect_samples "handle_cycle_sample"
        (owning (open_probe_key kind provider) (fun key => unwrap_once key wrapped dek)) iterations;
      _ ← print_timing_summary samples;
      println "handle_cycle_verified=true"
  end.

Definition lock_prompt : P unit :=
  _ ← print "lock_instruction=Press Win+L, sign back in, then press Enter here: ";
  _ ← read_line;
  mret tt.

(** [lock_probe], [lock_handle_probe]. *)
Definition lock_probe (key : N) : P unit :=
  prepared ← prepare_wrapped_dek key;
  let '(dek, wrapped) := (prepared : bytes * bytes) in
  before ← unwrap_once key wrapped dek;
  _ ← println ("before_lock_ms=" +:+ milliseconds_text before);
  _ ← println ("before_lock_prompt_likely_observed=" +:+ bool_text (prompt_likely before));
  _ ← lock_prompt;
  after ← unwrap_once key wrapped dek;
  _ ← println ("after_lock_ms=" +:+ milliseconds_text after);
  _ ← println ("after_lock_prompt_likely_observed=" +:+ bool_text (prompt_likely after));
  _ ← println "prompt_detection=latency_heuristic_only";
  _ ← println "note=this test reuses the same key handle across the lock boundary; see lock-handle-probe for a fresh-handle comparison";
  println "lock_probe_verified=true".

Definition lock_handle_probe (kind : ProviderKind) (provider : N) : P unit :=
  prepared ← owning (open_probe_key kind provider) (fun key_a =>
    _ ← inspect_key key_a;
    prepared ← prepare_wrapped_dek key_a;
    before ← unwrap_once key_a (snd (prepared : bytes * bytes)) prepared.1;
    _ ← println "before_lock_handle=A";
    _ ← println ("before_lock_ms=" +:+ milliseconds_text before);
    _ ← println ("before_lock_prompt_likely_observed=" +:+ bool_text (prompt_likely before));
    mret prepared);
  _ ← lock_prompt;
  owning (open_probe_key kind provider) (fun key_b =>
    after ← unwrap_once key_b prepared.2 prepared.1;
    _ ← println "after_lock_handle=B";
    _ ← println ("after_lock_ms=" +:+ milliseconds_text after);
    _ ← println ("after_lock_prompt_likely_observed=" +:+ bool_text (prompt_likely after));
    _ ← println "prompt_detection=latency_heuristic_only";
    println "lock_handle_probe_verified=true").

(** *** Windows Hello *)

(** [WinRtApartment]: initialised for the time of a block. *)
Definition in_apartment {A} (body : P A) : P A :=
  _ ← win ro_initialize;
  result ← try_ body;
  _ ← on_system ro_uninitialize;
  lift result.

Definition hello_supported : P bool :=
  supported ← win kc_is_supported;
  _ ← println ("hello_supported=" +:+ bool_text supported);
  mret supported.

(** [hello_status]. *)
Definition hello_status : P unit := in_apartment (_ ← hello_supported; mret tt).

Definition hello_failure (what : string) (status : KeyCredentialStatus) : FcpError :=
  failure (what +:+ " failed with " +:+ key_credential_status_name status +:+ " (" +:+ pretty (kc_status_code status) +:+ ")").

(** [open_hello_credential], [create_or_open_hello_credential]. *)
Definition open_hello_credential : P N :=
  retrieval ← win (kc_open HELLO_CREDENTIAL_NAME);
  status ← win (kc_status retrieval);
  _ ← println ("hello_open_status=" +:+ key_credential_status_name status);
  _ ← guard_not (negb (bool_decide (status = Credential.Success))) (hello_failure "Hello credential open" status);
  win (kc_credential retrieval).

Definition create_or_open_hello_credential : P N :=
  retrieval ← win (kc_request_create HELLO_CREDENTIAL_NAME);
  status ← win (kc_status retrieval);
  _ ← println ("hello_create_status=" +:+ key_credential_status_name status);
  match status with
  | Credential.Success =>
      _ ← println "hello_credential_created=true";
      win (kc_credential retrieval)
  | Credential.CredentialAlreadyExists =>
      _ ← println "hello_credential_created=false";
      open_hello_credential
  | _ => throw (hello_failure "Hello credential creation" status)
  end.

(** [request_sign_and_verify]. *)
Definition request_sign_and_verify (credential : N) (challenge : bytes) : P N :=
  challenge_buffer ← win (kc_create_buffer challenge);
  started ← on_system ps_now;
  operation ← win (kc_request_sign credential challenge_buffer);
  now ← on_system ps_now;
  status ← win (kc_sign_status operation);
  _ ← println ("hello_sign_status=" +:+ key_credential_status_name status);
  _ ← guard_not (negb (bool_decide (status = Credential.Success))) (hello_failure "Hello signing" status);
  public_key ← win (kc_public_key credential);
  algorithm ← win kc_open_algorithm;
  verification_key ← win (kc_import_key algorithm public_key);
  signature ← win (kc_sign_result operation);
  verified ← win (kc_verify verification_key challenge_buffer signature);
  _ ← println ("signature_verified=" +:+ bool_text verified);
  _ ← guard_not (negb verified) (failure "Hello challenge signature verification failed");
  mret (saturating_sub now started).

(** [read_prompt_observation]. *)
Definition prompt_observation (line : string) : FcpResult string :=
  let answer := to_ascii_lowercase (trim_text line) in
  let said (words : list string) := existsb (String.eqb answer) words in
  if said ["face"; "yuz"; "yüz"]%string then Ok "face"%string
  else if said ["fingerprint"; "parmak izi"]%string then Ok "fingerprint"%string
  else if said ["pin"]%string then Ok "pin"%string
  else if said ["password"; "parola"; "sifre"; "şifre"]%string then Ok "password"%string
  else if said ["none"; "yok"]%string then Ok "none"%string
  else if said ["unknown"; "bilinmiyor"; ""]%string then Ok "unknown"%string
  else Err (failure "invalid prompt observation; use face, fingerprint, pin, password, none, or unknown").

Definition read_prompt_observation : P string :=
  _ ← print "prompt_observation=Enter face|fingerprint|pin|password|none|unknown: ";
  line ← read_line;
  lift (prompt_observation line).

(** [sign_and_verify_hello_challenge]. *)
Definition sign_and_verify_hello_challenge (credential : N) : P unit :=
  challenge ← win (ps_random 32);
  elapsed ← request_sign_and_verify credential challenge;
  _ ← println ("hello_sign_ms=" +:+ milliseconds_text elapsed);
  observation ← read_prompt_observation;
  println ("prompt_type_observed=" +:+ observation).

(** The acquisition of the credential, with its time. *)
Definition timed_acquire (acquire : P N) (acquire_started : N) : P N :=
  credential ← acquire;
  now ← on_system ps_now;
  _ ← println ("hello_acquire_ms=" +:+ milliseconds_text (saturating_sub now acquire_started));
  mret credential.

(** [hello_challenge]. *)
Definition hello_challenge (open_only : bool) : P unit :=
  in_apartment (
    supported ← hello_supported;
    _ ← guard_not (negb supported) (failure "KeyCredentialManager is not supported in this process context");
    acquire_started ← on_system ps_now;
    credential ← timed_acquire
      (if open_only
       then _ ← println "credential_access_mode=open_existing"; open_hello_credential
       else _ ← println "credential_access_mode=create_or_open"; create_or_open_hello_credential) acquire_started;
    sign_and_verify_hello_challenge credential).

(** [hello_sign_cycle]: the argument is read first. *)
Definition hello_sign_cycle (argument : option string) : P unit :=
  iterations ← lift (iterations_of DEFAULT_HELLO_ITERATIONS argument);
  in_apartment (
    supported ← hello_supported;
    _ ← guard_not (negb supported) (failure "KeyCredentialManager is not supported in this process context");
    acquire_started ← on_system ps_now;
    credential ← timed_acquire create_or_open_hello_credential acquire_started;
    samples ← collect_samples "hello_sign_sample"
      (challenge ← win (ps_random 32); request_sign_and_verify credential challenge) iterations;
    _ ← print_timing_summary samples;
    println "hello_sign_cycle_verified=true").

(** *** [run] and [main] *)

(** [with_provider], and what the others add to it. *)
Definition with_probe_provider (kind : ProviderKind) (operation : N -> P unit) : P unit :=
  owning (open_provider kind) (fun provider =>
    _ ← println ("provider=" +:+ provider_label kind);
    operation provider).

Definition with_experiment_key (kind : ProviderKind) (provider : N) (operation : string) (body : N -> P unit) : P unit :=
  found ← open_key_for_experiment kind provider operation;
  match found with
  | None => mret tt
  | Some key => owning (mret key) (fun key => _ ← inspect_key key; body key)
  end.

Definition with_open_key (kind : ProviderKind) : P unit :=
  with_probe_provider kind (fun provider => with_experiment_key kind provider "inspect" (fun _ => mret tt)).

Definition with_roundtrip (kind : ProviderKind) (argument : option string) : P unit :=
  iterations ← lift (iterations_of DEFAULT_ITERATIONS argument);
  with_probe_provider kind (fun provider =>
    _ ← print_provider_status kind provider;
    with_experiment_key kind provider "roundtrip" (fun key => roundtrip key iterations)).

Definition with_handle_cycle (kind : ProviderKind) (argument : option string) : P unit :=
  iterations ← lift (iterations_of DEFAULT_ITERATIONS argument);
  with_probe_provider kind (fun provider =>
    _ ← print_provider_status kind provider;
    handle_cycle kind provider iterations).

Definition with_lock_probe (kind : ProviderKind) : P unit :=
  with_probe_provider kind (fun provider =>
    _ ← print_provider_status kind provider;
    with_experiment_key kind provider "lock_probe" lock_probe).

Definition with_lock_handle_probe (kind : ProviderKind) : P unit :=
  with_probe_provider kind (fun provider =>
    _ ← print_provider_status kind provider;
    lock_handle_probe kind provider).

(** The command, and the arguments after the program's name; the usage goes to the
    error stream. *)
Definition run_command (command : string) (argument : option string) : option (P unit) :=
  let with_status kind := with_probe_provider kind (print_provider_status kind) in
  let with_create kind := with_probe_provider kind (probe_create_key kind) in
  let with_delete kind := with_probe_provider kind (delete_key kind) in
  let table : list (string * P unit) :=
    [ ("status", with_status Kind.Platform);
      ("create", with_create Kind.Platform);
      ("inspect", with_open_key Kind.Platform);
      ("roundtrip", with_roundtrip Kind.Platform argument);
      ("handle-cycle", with_handle_cycle Kind.Platform argument);
      ("lock-probe", with_lock_probe Kind.Platform);
      ("lock-handle-probe", with_lock_handle_probe Kind.Platform);
      ("delete", with_delete Kind.Platform);
      ("passport-status", with_status Kind.Passport);
      ("passport-create", with_create Kind.Passport);
      ("passport-inspect", with_open_key Kind.Passport);
      ("passport-roundtrip", with_roundtrip Kind.Passport argument);
      ("passport-handle-cycle", with_handle_cycle Kind.Passport argument);
      ("passport-lock-probe", with_lock_probe Kind.Passport);
      ("passport-delete", with_delete Kind.Passport);
      ("hello-status", hello_status);
      ("hello-challenge", hello_challenge false);
      ("hello-open-challenge", hello_challenge true);
      ("hello-sign-cycle", hello_sign_cycle argument) ]%string in
  snd <$> List.find (fun entry => String.eqb command (fst entry)) table.

Definition probe_run (args : list string) : P unit :=
  let command := default "status"%string (args !! 0%nat) in
  match run_command command (args !! 1%nat) with
  | Some operation => operation
  | None => throw (failure ("unknown command: " +:+ command))
  end.

(** The exit code. *)
Definition probe_main (args : list string) : P N :=
  ended ← try_ (probe_run args);
  mret (if is_ok ended then 0 else 1).
End Probe.

(** ** Percentiles *)

(** [count_le v l]: how many samples are at most [v]; the nearest rank: the smallest
    sample with at least [p] per cent of the samples at or below it. *)
Definition count_le (v : N) (l : list N) : N := len (List.filter (fun x => x <=? v) l).

Definition nearest_rank (p : N) (l : list N) (v : N) : Prop :=
  v ∈ l /\ len l * p <= 100 * count_le v l /\
  forall u, u ∈ l -> len l * p <= 100 * count_le u l -> v <= u.

Lemma div_ceil_spec a b : 0 < b -> a <= b * div_ceil a b /\ (0 < a -> b * (div_ceil a b - 1) < a).
Proof.
  intros Hb. unfold div_ceil. pose proof (N.div_mod a b ltac:(lia)) as Hd. pose proof (N.mod_lt a b ltac:(lia)) as Hm.
  revert Hd Hm. generalize (a / b) (a mod b). intros q r Hd Hm. destruct (N.eqb_spec r 0) as [->|]; (split; [nia|intros]).
  - destruct (N.eq_dec q 0) as [->|]; [lia|]. rewrite N.mul_sub_distr_l. nia.
  - rewrite N.add_sub. nia.
Qed.

Lemma div_ceil_le a b c : 0 < b -> a <= b * c -> div_ceil a b <= c.
Proof. intros Hb Hc. destruct (div_ceil_spec a b Hb) as [_ Hs]. destruct (N.eq_dec a 0) as [->|]; [|nia].
  unfold div_ceil. rewrite N.Div0.mod_0_l, N.Div0.div_0_l. cbn. lia. Qed.

Lemma count_le_app v l1 l2 : count_le v (l1 ++ l2) = count_le v l1 + count_le v l2.
Proof. unfold count_le. by rewrite List.filter_app, len_app. Qed.

Lemma count_le_all v l : Forall (fun x => x <= v) l -> count_le v l = len l.
Proof.
  unfold count_le. induction 1 as [|x l Hx Hl IH]; [done|]. cbn [List.filter]. destruct (N.leb_spec x v); [|lia].
  unfold len in *. cbn [length]. lia.
Qed.

Lemma count_le_none v l : Forall (fun x => v < x) l -> count_le v l = 0.
Proof.
  unfold count_le. induction 1 as [|x l Hx Hl IH]; [done|]. cbn [List.filter]. by destruct (N.leb_spec x v); [lia|].
Qed.

Lemma count_le_len v l : count_le v l <= len l.
Proof. unfold count_le, len. induction l as [|x l IH]; cbn [List.filter length]; [lia|]. destruct (x <=? v); cbn [length]; lia. Qed.

(** In a sorted list the element at [i] splits the others. *)
Lemma sorted_split (l : list N) i v :
  StronglySorted N.le l -> l !! i = Some v ->
  Forall (fun x => x <= v) (take (S i) l) /\ (forall u, u < v -> Forall (fun x => u < x) (drop i l)).
Proof.
  revert i; induction l as [|x l IH]; intros i Hs Hi; [done|]. apply StronglySorted_inv in Hs as [Hs Hx].
  destruct i as [|i]; cbn [lookup list_lookup take drop] in *.
  - injection Hi as ->. split.
    + apply Forall_cons. split; [lia|]. constructor.
    + intros u Hu. constructor; [done|]. eapply List.Forall_impl; [|exact Hx]. cbn. lia.
  - destruct (IH i Hs Hi) as [H1 H2]. split; [|done]. constructor; [|done].
    rewrite List.Forall_forall in Hx. apply Hx. eapply list_elem_of_In, list_elem_of_lookup_2, Hi.
Qed.

Lemma percentile_sorted l p :
  l <> [] -> 1 <= p <= 100 -> len l * p <= u64_max -> StronglySorted N.le l ->
  exists v, percentile l p = Some v /\ nearest_rank p l v.
Proof.
  intros Hl Hp Hmax Hs. unfold percentile, percentile_index.
  destruct (N.leb_spec (len l * p) u64_max); [|lia]. cbn [mbind option_bind].
  assert (Hn : 0 < len l) by (destruct l; [done|unfold len; cbn [length]; lia]).
  set (rank := div_ceil (len l * p) 100).
  destruct (div_ceil_spec (len l * p) 100) as [Hlow Hhigh]; [lia|]. fold rank in Hlow, Hhigh.
  assert (Hrank : 1 <= rank <= len l) by (split; [nia|apply div_ceil_le; nia]).
  destruct (N.leb_spec 1 rank); [|lia]. cbn [mbind option_bind].
  destruct (lookup_lt_is_Some_2 l (N.to_nat (rank - 1))) as [v Hv]; [unfold len in *; lia|].
  exists v. split; [done|]. destruct (sorted_split l _ v Hs Hv) as [Hle Hgt].
  split_and!; [by eapply list_elem_of_lookup_2| |].
  - assert (rank <= count_le v l); [|nia].
    rewrite <- (take_drop (S (N.to_nat (rank - 1))) l), count_le_app, (count_le_all _ _ Hle).
    unfold len in *. rewrite length_take. lia.
  - intros u Hu Hcount. destruct (N.le_gt_cases v u) as [|Hlt]; [done|].
    assert (count_le u l <= rank - 1); [|nia].
    rewrite <- (take_drop (N.to_nat (rank - 1)) l), count_le_app, (count_le_none u (drop _ l)) by (by apply Hgt).
    pose proof (count_le_len u (take (N.to_nat (rank - 1)) l)). unfold len in *. rewrite length_take in *. lia.
Qed.

Lemma sorted_samples (l : list N) : StronglySorted N.le (merge_sort N.le l).
Proof. apply StronglySorted_merge_sort; [intros x y z; apply N.le_trans|intros x y; lia]. Qed.

Lemma nearest_rank_perm p l l' v : l ≡ₚ l' -> nearest_rank p l v -> nearest_rank p l' v.
Proof.
  intros Hl (H1 & H2 & H3). assert (Hlen : len l' = len l) by (unfold len; by rewrite Hl).
  assert (Hc : forall u, count_le u l' = count_le u l).
  { intros u. unfold count_le, len. f_equal. clear -Hl. induction Hl as [|x l1 l2 Hp IH|x y l1|l1 l2 l3 H1 IH1 H2 IH2]; cbn [List.filter]; [done| | |lia].
    - destruct (x <=? u); cbn [length]; lia.
    - by destruct (x <=? u), (y <=? u). }
  split_and!; [by rewrite <- Hl|by rewrite Hlen, Hc|].
  intros u Hu. rewrite Hlen, Hc. apply H3. by rewrite Hl.
Qed.

(** ** The summary *)

Section Summary.
Context `{PS : ProbeSystem, PT : ProbeText}.

(** [m] prints these lines and does nothing else. *)
Definition says (lines : list string) (m : M (Probe System) unit) : Prop := forall s w,
  m s w = Done tt (mkProbe (pr_output s ++ ((fun line => line +:+ newline) <$> lines)) (pr_input s) (pr_system s)) w.

Lemma says_println line : says [line] (println line).
Proof. done. Qed.

Lemma says_bind l1 l2 m m' : says l1 m -> says l2 m' -> says (l1 ++ l2) (_ ← m; m').
Proof. intros H1 H2 s w. unfold mbind at 1, M_bind at 1. by rewrite H1, H2, fmap_app, app_assoc. Qed.

Lemma says_unwrap {A} (o : option A) a l (f : A -> M (Probe System) unit) : o = Some a -> says l (f a) -> says l (unwrap o ≫= f).
Proof. by intros ->. Qed.

Lemma says_next line l m : says l m -> says (line :: l) (_ ← println line; m).
Proof. apply (says_bind [line]), says_println. Qed.

(** The lines about the samples after the first. *)
Definition steady_unavailable : list string :=
  ["steady_state_samples=0"; "steady_state_p50_ms=unavailable"; "steady_state_p95_ms=unavailable";
   "steady_state_max_ms=unavailable"]%string.
Definition steady_lines (count p50 p95 maximum : N) : list string :=
  ["steady_state_samples=" +:+ pretty count; "steady_state_p50_ms=" +:+ milliseconds_text p50;
   "steady_state_p95_ms=" +:+ milliseconds_text p95; "steady_state_max_ms=" +:+ milliseconds_text maximum]%string.

Definition summary_lines (first count : N) (steady : list string) : list string :=
  ["iterations=" +:+ pretty count; "first_op_ms=" +:+ milliseconds_text first]%string ++ steady ++
  ["sample_size_low=" +:+ bool_text (count <? 20)%N; "prompt_likely_observed=" +:+ bool_text (500000000 <? first)%N;
   "prompt_heuristic_threshold_ms=500"; "prompt_detection=latency_heuristic_only"]%string.

Lemma last_sorted (l : list N) v : StronglySorted N.le l -> list.last l = Some v -> v ∈ l /\ Forall (fun x => x <= v) l.
Proof.
  rewrite last_lookup. intros Hs Hv. split; [by eapply list_elem_of_lookup_2|].
  destruct (sorted_split l _ v Hs Hv) as [Hle _]. rewrite take_ge in Hle; [done|]. destruct l; cbn; lia.
Qed.

Definition is_maximum (l : list N) (v : N) : Prop := v ∈ l /\ Forall (fun x => x <= v) l.

Lemma says_summary first rest :
  len rest * 95 <= u64_max ->
  exists steady, says (summary_lines first (1 + len rest) steady) (print_timing_summary (first :: rest)) /\
    match rest with
    | [] => steady = steady_unavailable
    | _ => exists p50 p95 maximum, steady = steady_lines (len rest) p50 p95 maximum /\
             nearest_rank 50 rest p50 /\ nearest_rank 95 rest p95 /\ is_maximum rest maximum
    end.
Proof.
  intros Hmax. assert (Hperm : merge_sort N.le rest ≡ₚ rest) by apply merge_sort_Permutation.
  assert (Hlen : len (merge_sort N.le rest) = len rest) by (unfold len; by rewrite Hperm).
  pose proof (sorted_samples rest) as Hs.
  assert (Hcount : len (first :: rest) = 1 + len rest) by (unfold len; cbn [length]; lia).
  assert (Hframe : forall steady m, says steady m ->
    says (summary_lines first (1 + len rest) steady)
      (_ ← println ("iterations=" +:+ pretty (len (first :: rest)));
       _ ← println ("first_op_ms=" +:+ milliseconds_text first);
       _ ← m;
       _ ← println ("sample_size_low=" +:+ bool_text (len (first :: rest) <? 20));
       _ ← println ("prompt_likely_observed=" +:+ bool_text (prompt_likely first));
       _ ← println "prompt_heuristic_threshold_ms=500";
       println "prompt_detection=latency_heuristic_only")).
  { intros steady m Hm. rewrite Hcount. unfold summary_lines. cbn [app].
    do 2 apply says_next. apply says_bind; [done|]. do 3 apply says_next. apply says_println. }
  unfold print_timing_summary. cbn [lookup list_lookup]. change (drop 1 (first :: rest)) with rest. cbv zeta.
  destruct (merge_sort N.le rest) as [|v steady] eqn:Hsort.
  - assert (rest = []) as -> by (by apply Permutation_nil_l in Hperm). eexists. split; [|done]. apply (says_unwrap _ first); [done|]. apply Hframe.
    do 3 apply says_next. apply says_println.
  - assert (Hne : v :: steady <> []) by done. rewrite <- Hsort in Hne, Hs, Hperm.
    destruct (percentile_sorted (merge_sort N.le rest) 50 Hne) as (p50 & H50 & R50); [lia|rewrite Hsort; lia|done|].
    destruct (percentile_sorted (merge_sort N.le rest) 95 Hne) as (p95 & H95 & R95); [lia|rewrite Hsort; lia|done|].
    destruct (list.last (merge_sort N.le rest)) as [maximum|] eqn:Hlast; [|by apply last_None in Hlast].
    destruct (last_sorted _ _ Hs Hlast) as [Hin Hall]. rewrite Hsort in H50, H95, Hlast.
    exists (steady_lines (len rest) p50 p95 maximum). split.
    + apply (says_unwrap _ first); [done|]. apply Hframe. unfold steady_lines. rewrite <- Hlen.
      apply says_next. apply (says_unwrap _ p50); [done|]. apply says_next. apply (says_unwrap _ p95); [done|].
      apply says_next. apply (says_unwrap _ maximum); [done|]. apply says_println.
    + destruct rest as [|y rest']; [by apply Permutation_nil_r in Hperm|]. exists p50, p95, maximum.
      split_and!; [done|by eapply nearest_rank_perm|by eapply nearest_rank_perm|].
      split; [by rewrite <- Hperm|by rewrite <- Hperm].
Qed.
End Summary.

(** ** Properties *)

(** The report of the probe: for any measurements it does not panic and prints
    exactly these lines, where the percentiles are the nearest-rank percentiles and
    the maximum is the maximum of all measurements but the first, in whatever order
    they were made. *)
Theorem timing_summary_exact `{PS : ProbeSystem, PT : ProbeText} first rest s w :
  len rest * 95 <= u64_max ->
  exists steady,
    print_timing_summary (first :: rest) s w =
      Done tt (mkProbe (pr_output s ++ ((fun line => line +:+ newline) <$> summary_lines first (1 + len rest) steady))
                 (pr_input s) (pr_system s)) w /\
    match rest with
    | [] => steady = steady_unavailable
    | _ => exists p50 p95 maximum, steady = steady_lines (len rest) p50 p95 maximum /\
             nearest_rank 50 rest p50 /\ nearest_rank 95 rest p95 /\ is_maximum rest maximum
    end.
Proof. intros Hmax. destruct (says_summary first rest Hmax) as (steady & Hs & Hrest). exists steady. by split. Qed.

(** A number of iterations that passes the check can be too large for the vector of
    the samples: the program panics instead of reporting an error. *)
Theorem iterations_overflow `{PS : ProbeSystem, PT : ProbeText} label measure s w :
  exists text n, iterations_of DEFAULT_ITERATIONS (Some text) = Ok n /\
    collect_samples label measure n s w = Panicked w.
Proof. exists "576460752303423488"%string, 576460752303423488. split; [by vm_compute|done]. Qed.
