(* ===== verification/ProbeSafety.v ===== *)
(** * The probe gives its handles back

    Whatever the providers of Windows answer to the commands of TpmProbe: no command
    panics, none touches a file, and every provider and key that was opened is freed
    exactly once, by [Drop] or by its deletion. *)

From S2P Require Import Prelude World External Examples Frames Handles Config AuditLog TpmProbe.

(** The calls of the system. *)
Inductive probe_call `{PS : ProbeSystem} : forall {A}, M System A -> Prop :=
  | call_open_provider name : probe_call (ps_open_provider name)
  | call_open_key p name : probe_call (ps_open_key p name)
  | call_create_key p name : probe_call (ps_create_key p name)
  | call_delete h : probe_call (ps_delete h)
  | call_free h : probe_call (ps_free h)
  | call_get_size h q : probe_call (ps_get_size h q)
  | call_get h q n : probe_call (ps_get h q n)
  | call_set h q b : probe_call (ps_set h q b)
  | call_finalize h : probe_call (ps_finalize h)
  | call_encrypt_size h b : probe_call (ps_encrypt_size h b)
  | call_encrypt h b n : probe_call (ps_encrypt h b n)
  | call_decrypt h b n : probe_call (ps_decrypt h b n)
  | call_random n : probe_call (ps_random n)
  | call_now : probe_call ps_now
  | call_initialize : probe_call ro_initialize
  | call_uninitialize : probe_call ro_uninitialize
  | call_is_supported : probe_call kc_is_supported
  | call_request_create name : probe_call (kc_request_create name)
  | call_open name : probe_call (kc_open name)
  | call_status r : probe_call (kc_status r)
  | call_credential r : probe_call (kc_credential r)
  | call_create_buffer b : probe_call (kc_create_buffer b)
  | call_request_sign c b : probe_call (kc_request_sign c b)
  | call_sign_status o : probe_call (kc_sign_status o)
  | call_sign_result o : probe_call (kc_sign_result o)
  | call_public_key c : probe_call (kc_public_key c)
  | call_open_algorithm : probe_call kc_open_algorithm
  | call_import_key a k : probe_call (kc_import_key a k)
  | call_verify k b s : probe_call (kc_verify k b s).
#[export] Hint Constructors probe_call : calm.

(** They touch no file of the host and report failures as codes; the handle that
    [Default] gives is an invalid one. *)
Class ProbeSystemLaws `{PS : ProbeSystem} : Prop := {
  call_calm {A} (m : M System A) : probe_call m -> calm m;
  zero_invalid : ps_is_invalid 0 = true;
}.

(** What [probe_run] may run. *)
Inductive command `{PS : ProbeSystem, PT : ProbeText} (argument : option string) : M (Probe System) unit -> Prop :=
  | c_unknown e : command argument (throw e)
  | c_status kind : command argument (with_probe_provider kind (print_provider_status kind))
  | c_create kind : command argument (with_probe_provider kind (probe_create_key kind))
  | c_delete kind : command argument (with_probe_provider kind (delete_key kind))
  | c_inspect kind : command argument (with_open_key kind)
  | c_roundtrip kind : command argument (with_roundtrip kind argument)
  | c_handle_cycle kind : command argument (with_handle_cycle kind argument)
  | c_lock kind : command argument (with_lock_probe kind)
  | c_lock_handle kind : command argument (with_lock_handle_probe kind)
  | c_hello_status : command argument hello_status
  | c_hello_challenge open_only : command argument (hello_challenge open_only)
  | c_hello_sign_cycle : command argument (hello_sign_cycle argument).

Lemma probe_run_command `{PS : ProbeSystem, PT : ProbeText} args : command (args !! 1%nat) (probe_run args).
Proof.
  unfold probe_run, run_command. cbn [List.find fst snd].
  repeat match goal with |- context [String.eqb ?a ?b] => destruct (String.eqb a b); [cbn; constructor|] end.
  cbn. constructor.
Qed.

(** Fewer iterations than the memory of a machine has room for. *)
Definition modest (argument : option string) : Prop :=
  forall text n, argument = Some text -> parse_u64 text = Some n -> n <= 2 ^ 57.

Lemma iterations_of_modest d argument n :
  1 <= d <= 2 ^ 57 -> modest argument -> iterations_of d argument = Ok n -> 1 <= n <= 2 ^ 57.
Proof.
  intros Hd Hm. unfold iterations_of. destruct argument as [text|]; [|by intros [= <-]].
  destruct (parse_u64 text) as [m|] eqn:Hp; cbn; [|done]. destruct (N.eqb_spec m 0); [done|]. intros [= <-].
  pose proof (Hm _ _ eq_refl Hp). lia.
Qed.

(** ** No panic, and no file *)

Section Calm.
Context `{PS : ProbeSystem, PT : ProbeText, PL : !ProbeSystemLaws}.
Abbreviation P := (M (Probe System)).

Lemma calm_on_system {A} (m : M System A) : probe_call m -> calm (on_system m : P A).
Proof using PL. intros Hm. by apply calm_zoom, call_calm. Qed.
Lemma calm_win {A} (m : M System (Result N A)) : probe_call m -> calm (win m : P A).
Proof using PL. intros Hm. apply calm_bind; [by apply calm_on_system|intros r; apply calm_lift]. Qed.
Lemma calm_print text : calm (print text : P unit).
Proof using Type. apply calm_modify. Qed.
Lemma calm_println text : calm (println text : P unit).
Proof using Type. apply calm_print. Qed.
Hint Resolve calm_on_system calm_win calm_print calm_println : calm.

Lemma calm_drop h : calm (drop_probe_handle h : P unit).
Proof using PL. unfold drop_probe_handle. destruct (ps_is_invalid h); [by apply calm_zoom|apply calm_on_system; constructor]. Qed.
Hint Resolve calm_drop : calm.

Lemma calm_owning {A} acquire (body : N -> P A) : calm acquire -> (forall h, calm (body h)) -> calm (owning acquire body).
Proof using PL. intros Ha Hb. unfold owning. apply calm_bind; [done|]. intros h. calm_tac. Qed.

Lemma calm_in_apartment {A} (body : P A) : calm body -> calm (in_apartment body).
Proof using PL. intros Hb. unfold in_apartment. calm_tac. Qed.

Lemma calm_says lines (m : P unit) : says lines m -> calm m.
Proof using Type. intros Hm s w. unfold wp. by rewrite Hm. Qed.

Lemma calm_summary samples : 1 <= len samples <= 2 ^ 57 -> calm (print_timing_summary samples : P unit).
Proof using Type.
  destruct samples as [|first rest]; [by intros [? ?]|]. intros [_ Hlen].
  destruct (says_summary first rest) as (steady & Hs & _); [unfold len, u64_max in *; cbn [length] in Hlen; lia|]. by eapply calm_says.
Qed.

Lemma wp_sample_loop label (measure : P N) remaining index samples s w :
  calm measure ->
  wp (sample_loop label measure remaining index samples)
     (fun l _ w' => untouched w w' /\ length l = (length samples + remaining)%nat) (fun _ _ w' => untouched w w') (untouched w) s w.
Proof using Type.
  intros Hm. revert index samples s w. induction remaining as [|remaining IH]; intros index samples s w; cbn [sample_loop].
  { apply wp_ret. split; [done|lia]. }
  apply wp_bind. eapply wp_mono; [apply Hm|cbn beta..]; [|done|done]. intros elapsed s1 w1 H1.
  apply wp_bind. eapply wp_mono; [apply calm_println|cbn beta..]; [| |intros w2 H2; by eapply untouched_trans].
  2: { intros e s2 w2 H2. by eapply untouched_trans. }
  intros [] s2 w2 H2. assert (H12 : untouched w w2) by (by eapply untouched_trans).
  eapply wp_mono; [apply IH|cbn beta..].
  - intros l s3 w3 [H3 Hl]. split; [by eapply untouched_trans|]. rewrite Hl, length_app. cbn. lia.
  - intros e s3 w3 H3. by eapply untouched_trans.
  - intros w3 H3. by eapply untouched_trans.
Qed.

(** The measurements of a command, with what it does with them. *)
Lemma calm_samples {A} label (measure : P N) iterations (rest : list N -> P A) :
  1 <= iterations <= 2 ^ 57 -> calm measure -> (forall samples, 1 <= len samples <= 2 ^ 57 -> calm (rest samples)) ->
  calm (samples ← collect_samples label measure iterations; rest samples).
Proof using Type.
  intros Hn Hm Hr s w. apply wp_bind. unfold collect_samples, with_capacity.
  destruct (N.leb_spec (iterations * 16) (2 ^ 63 - 1)); [|lia].
  apply wp_bind. cbn [unwrap]. apply wp_ret. eapply wp_mono; [by apply wp_sample_loop|cbn beta..]; [|done|done].
  intros l s1 w1 [H1 Hl]. assert (Hlen : 1 <= len l <= 2 ^ 57) by (unfold len; rewrite Hl; cbn [length]; lia).
  eapply wp_mono; [by apply Hr|..]; cbn beta; intros; by eapply untouched_trans.
Qed.

Lemma calm_get_property h q : calm (probe_get_property h q : P _).
Proof using PL. unfold probe_get_property. calm_tac. Qed.
Hint Resolve calm_get_property : calm.
Lemma calm_get_u32 h q : calm (probe_get_u32 h q : P _).
Proof using PL. unfold probe_get_u32. calm_tac. Qed.
Lemma calm_get_utf16 h q : calm (probe_get_utf16 h q : P _).
Proof using PL. unfold probe_get_utf16. calm_tac. Qed.
Hint Resolve calm_get_u32 calm_get_utf16 : calm.
Lemma calm_provider_status kind h : calm (print_provider_status kind h : P _).
Proof using PL. unfold print_provider_status, print_optional_u32. calm_tac. Qed.
Lemma calm_inspect h : calm (inspect_key h : P _).
Proof using PL. unfold inspect_key. calm_tac. Qed.
Lemma calm_unsupported op status : calm (report_unsupported op status : P _).
Proof using Type. unfold report_unsupported. calm_tac. Qed.
Hint Resolve calm_provider_status calm_inspect calm_unsupported calm_summary : calm.

Lemma calm_experiment kind h op : calm (open_key_for_experiment kind h op : P _).
Proof using PL.
  unfold open_key_for_experiment, open_probe_key, is_nte_invalid_parameter. apply calm_bind; [apply calm_try, calm_win; constructor|].
  intros [key|e]; [calm_tac|]. destruct (windows_error_code e); [|rewrite andb_false_r; calm_tac]. cbn [unwrap]. calm_tac.
Qed.
Lemma calm_prepare h : calm (prepare_wrapped_dek h : P _).
Proof using PL. unfold prepare_wrapped_dek. calm_tac. Qed.
Lemma calm_unwrap_once h b e : calm (unwrap_once h b e : P _).
Proof using PL. unfold unwrap_once. calm_tac. Qed.
Lemma calm_read_line : calm (read_line : P _).
Proof using Type. unfold read_line. calm_tac. Qed.
Hint Resolve calm_experiment calm_prepare calm_unwrap_once calm_read_line : calm.
Hint Extern 1 (calm (owning _ _)) => apply calm_owning; [|intros ?] : calm.

Lemma calm_create_key kind h : calm (probe_create_key kind h : P _).
Proof using PL. unfold probe_create_key, probe_set_u32. calm_tac. all: apply calm_owning; [calm_tac|intros key; calm_tac]. Qed.
Lemma calm_delete_key kind h : calm (delete_key kind h : P _).
Proof using PL. unfold delete_key. calm_tac. Qed.
Lemma calm_lock_probe h : calm (lock_probe h : P _).
Proof using PL. unfold lock_probe, lock_prompt. calm_tac. Qed.
Hint Resolve calm_create_key calm_delete_key calm_lock_probe : calm.

Lemma calm_roundtrip h n : 1 <= n <= 2 ^ 57 -> calm (roundtrip h n : P _).
Proof using PL.
  intros Hn. unfold roundtrip. apply calm_bind; [calm_tac|]. intros [dek wrapped]. apply calm_samples; [done|calm_tac|].
  intros samples Hs. apply calm_bind; [by apply calm_summary|]. intros _. calm_tac.
Qed.
Lemma calm_open_key kind h : calm (open_probe_key kind h : P _).
Proof using PL. apply calm_win. constructor. Qed.
Hint Resolve calm_open_key : calm.

Lemma calm_handle_cycle kind h n : 1 <= n <= 2 ^ 57 -> calm (handle_cycle kind h n : P _).
Proof using PL.
  intros Hn. unfold handle_cycle. apply calm_bind; [calm_tac|]. intros [key|]; [|calm_tac].
  apply calm_bind; [apply calm_owning; [calm_tac|intros ?; calm_tac]|]. intros [dek wrapped].
  apply calm_samples; [done|apply calm_owning; [calm_tac|intros ?; calm_tac]|].
  intros samples Hs. apply calm_bind; [by apply calm_summary|]. intros _. calm_tac.
Qed.
Lemma calm_lock_handle_probe kind h : calm (lock_handle_probe kind h : P _).
Proof using PL.
  unfold lock_handle_probe, lock_prompt. apply calm_bind; [apply calm_owning; [calm_tac|intros ?; calm_tac]|]. intros prepared.
  apply calm_bind; [calm_tac|]. intros _. apply calm_owning; [calm_tac|intros ?; calm_tac].
Qed.
Hint Resolve calm_handle_cycle calm_lock_handle_probe calm_roundtrip : calm.

Lemma calm_with_provider kind (operation : N -> P unit) : (forall h, calm (operation h)) -> calm (with_probe_provider kind operation).
Proof using PL.
  intros Ho. unfold with_probe_provider, open_provider. apply calm_owning; [calm_tac|]. intros h. calm_tac.
Qed.
Lemma calm_experiment_key kind h op (body : N -> P unit) : (forall key, calm (body key)) -> calm (with_experiment_key kind h op body).
Proof using PL.
  intros Hb. unfold with_experiment_key. apply calm_bind; [calm_tac|]. intros [key|]; [|calm_tac].
  apply calm_owning; [calm_tac|intros ?; calm_tac].
Qed.

Lemma calm_sign_and_verify c b : calm (request_sign_and_verify c b : P _).
Proof using PL. unfold request_sign_and_verify. calm_tac. Qed.
Lemma calm_open_credential : calm (open_hello_credential : P _).
Proof using PL. unfold open_hello_credential. calm_tac. Qed.
Hint Resolve calm_sign_and_verify calm_open_credential : calm.
Lemma calm_probe_credential : calm (create_or_open_hello_credential : P _).
Proof using PL. unfold create_or_open_hello_credential. calm_tac. Qed.
Lemma calm_timed (acquire : P N) started : calm acquire -> calm (timed_acquire acquire started).
Proof using PL. intros Ha. unfold timed_acquire. calm_tac. Qed.
Lemma calm_supported : calm (hello_supported : P _).
Proof using PL. unfold hello_supported. calm_tac. Qed.
Hint Resolve calm_probe_credential calm_timed calm_supported : calm.

Lemma calm_lift_bind {A B} (r : FcpResult A) (f : A -> P B) : (forall a, r = Ok a -> calm (f a)) -> calm (lift r ≫= f).
Proof using Type. intros Hf. destruct r; [by apply Hf|apply calm_throw]. Qed.

Lemma calm_command argument m : modest argument -> command argument m -> calm m.
Proof using PL.
  intros Hm [].
  - apply calm_throw.
  - apply calm_with_provider. intros h. calm_tac.
  - apply calm_with_provider. intros h. calm_tac.
  - apply calm_with_provider. intros h. calm_tac.
  - apply calm_with_provider. intros h. apply calm_experiment_key. intros key. calm_tac.
  - unfold with_roundtrip. apply calm_lift_bind. intros n Hn. apply iterations_of_modest in Hn; [|done|done].
    apply calm_with_provider. intros h. apply calm_bind; [calm_tac|]. intros _. apply calm_experiment_key. intros key. calm_tac.
  - unfold with_handle_cycle. apply calm_lift_bind. intros n Hn. apply iterations_of_modest in Hn; [|done|done].
    apply calm_with_provider. intros h. calm_tac.
  - apply calm_with_provider. intros h. apply calm_bind; [calm_tac|]. intros _. apply calm_experiment_key. intros key. calm_tac.
  - apply calm_with_provider. intros h. calm_tac.
  - apply calm_in_apartment. calm_tac.
  - apply calm_in_apartment. unfold sign_and_verify_hello_challenge, read_prompt_observation.
    apply calm_bind; [calm_tac|]. intros supported. do 2 (apply calm_bind; [calm_tac|intros ?]).
    apply calm_bind; [apply calm_timed; calm_tac|]. intros credential. calm_tac.
  - unfold hello_sign_cycle. apply calm_lift_bind. intros n Hn. apply iterations_of_modest in Hn; [|done|done].
    apply calm_in_apartment. apply calm_bind; [calm_tac|]. intros supported. do 3 (apply calm_bind; [calm_tac|intros ?]).
    apply calm_samples; [done|calm_tac|]. intros samples Hs. apply calm_bind; [by apply calm_summary|]. intros _. calm_tac.
Qed.
End Calm.

(** ** The handles *)

(** The system with a record of the handles it handed out and took back. *)
Section Noted.
Context (PS : ProbeSystem).

Definition valid_handle (h : N) : bool := negb (ps_is_invalid h).

(** The deletion of a key takes its handle back, if it succeeds. *)
Definition deleted (h : N) (r : Result N unit) : list HandleEvent :=
  match r with Ok _ => release valid_handle h | Err _ => [] end.

Definition noted : ProbeSystem := {|
  System := System * list HandleEvent;
  ps_open_provider name := noting (acquired valid_handle) [] (ps_open_provider name);
  ps_open_key p name := noting (acquired valid_handle) [] (ps_open_key p name);
  ps_create_key p name := noting (acquired valid_handle) [] (ps_create_key p name);
  ps_get_size h q := silent (ps_get_size h q);
  ps_get h q n := silent (ps_get h q n);
  ps_set h q b := silent (ps_set h q b);
  ps_finalize h := silent (ps_finalize h);
  ps_delete h := noting (deleted h) [] (ps_delete h);
  ps_encrypt_size h b := silent (ps_encrypt_size h b);
  ps_encrypt h b n := silent (ps_encrypt h b n);
  ps_decrypt h b n := silent (ps_decrypt h b n);
  ps_is_invalid := ps_is_invalid;
  ps_free h := noting (fun _ => [Released h]) [Released h] (ps_free h);
  ps_random n := silent (ps_random n);
  ps_now := silent ps_now;
  ui_policy_bytes := ui_policy_bytes;
  ro_initialize := silent ro_initialize;
  ro_uninitialize := silent ro_uninitialize;
  kc_is_supported := silent kc_is_supported;
  kc_request_create name := silent (kc_request_create name);
  kc_open name := silent (kc_open name);
  kc_status r := silent (kc_status r);
  kc_status_code := kc_status_code;
  kc_credential r := silent (kc_credential r);
  kc_create_buffer b := silent (kc_create_buffer b);
  kc_request_sign c b := silent (kc_request_sign c b);
  kc_sign_status o := silent (kc_sign_status o);
  kc_sign_result o := silent (kc_sign_result o);
  kc_public_key c := silent (kc_public_key c);
  kc_open_algorithm := silent kc_open_algorithm;
  kc_import_key a k := silent (kc_import_key a k);
  kc_verify k b s := silent (kc_verify k b s);
|}.
End Noted.

Lemma calm_noting {X A} note failed (m : M X A) : calm m -> calm (noting note failed m).
Proof. intros Hm s w. specialize (Hm s.1 w). unfold wp, noting in *. by destruct (m s.1 w). Qed.

Lemma noted_laws (PS : ProbeSystem) : ProbeSystemLaws -> @ProbeSystemLaws (noted PS).
Proof.
  intros PL. split; [|exact (@zero_invalid PS PL)]. intros A m Hm.
  destruct Hm; apply calm_noting, (@call_calm PS PL); constructor.
Qed.

#[local] Instance probe_trace {X} : Trace (Probe (X * list HandleEvent)) := fun s => (pr_system s).2.

Section Balanced.
Context (PS : ProbeSystem) `{PT : ProbeText} (Hzero : @ps_is_invalid PS 0 = true).
#[local] Existing Instance noted.
Abbreviation P := (M (Probe (@System PS * list HandleEvent))).
Abbreviation valid := (valid_handle PS).

Lemma balanced_on_system room {A} (m : M (@System PS * list HandleEvent) A) : balanced room m -> balanced room (on_system (PS := noted PS) m).
Proof using Type. by apply balanced_zoom. Qed.
Lemma notes_on_system {A} events failed (m : M (@System PS * list HandleEvent) A) :
  notes events failed m -> notes events failed (on_system (PS := noted PS) m).
Proof using Type. by apply notes_zoom. Qed.
Lemma balanced_print room text : balanced room (print (PS := noted PS) text).
Proof using Type. by apply balanced_modify. Qed.
Lemma balanced_println room text : balanced room (println (PS := noted PS) text).
Proof using Type. apply balanced_print. Qed.
Lemma balanced_read_line room : balanced room (read_line (PS := noted PS)).
Proof using Type.
  unfold read_line. apply balanced_bind; [apply balanced_get|]. intros s. destruct (pr_input s); [apply balanced_ret|].
  apply balanced_bind; [by apply balanced_modify|]. intros _. apply balanced_ok_or.
Qed.
Hint Resolve balanced_print balanced_println balanced_read_line : balanced.

Ltac quiet_call := idtac;
  match goal with
  | |- balanced _ (win _) => unfold win
  | |- balanced _ (on_system _) => apply balanced_on_system, balanced_silent
  | |- balanced _ (drop_probe_handle _) => fail
  | |- balanced _ (let '(_, _) := ?x in _) => destruct x
  end.
Ltac quiet_tac := balanced_with quiet_call.

(** [Drop], and a block that owns a handle. *)
Lemma releases_drop h : releases valid h (drop_probe_handle (PS := noted PS) h).
Proof using Type.
  unfold releases, drop_probe_handle, release, valid_handle. cbn [ps_is_invalid noted]. apply notes_on_system.
  destruct (ps_is_invalid h); [by intros s w; cbn; rewrite app_nil_r|]. apply notes_noting.
Qed.

Lemma win_acquires (m : M (@System PS) (Result N N)) :
  acquires valid (win (PS := noted PS) (noting (acquired valid) [] m)).
Proof using Type.
  intros s w. unfold win, on_system, zoom, mbind, M_bind, noting.
  destruct (m (pr_system s).1 w) as [[h|e] x w'|e x w'|w'|w']; cbn; try done; unfold trace, probe_trace; cbn; by rewrite ?app_nil_r.
Qed.

Lemma balanced_owning room {A} acquire (body : N -> P A) :
  acquires valid acquire -> (forall h, balanced room (body h)) -> balanced (S room) (owning (PS := noted PS) acquire body).
Proof using Type. intros Ha Hb. apply (balanced_held valid); [done|done|]. apply releases_drop. Qed.

(** A block that owns a handle acquired before it. *)
Lemma owning_from room {A} h (body : N -> P A) s0 s w :
  trace s = trace s0 ++ acquisition valid h -> balanced room (body h) ->
  returns (fun _ s' _ => extends (S room) s0 s') (fun _ s' _ => extends (S room) s0 s') (owning (PS := noted PS) (mret h) body s w).
Proof using Type. intros Hs Hb. apply (held_block valid room h (body h)); [done|done|apply releases_drop]. Qed.

(** The opening of a key for an experiment: the key it returns is open. *)
Definition opened (found : option N) : list HandleEvent := match found with Some key => acquisition valid key | None => [] end.

Lemma notes_experiment kind provider operation :
  notes opened [] (open_key_for_experiment (PS := noted PS) kind provider operation).
Proof using Type.
  intros s w. unfold open_key_for_experiment. apply returns_bind. unfold try_.
  pose proof (win_acquires (@ps_open_key PS provider (probe_key_name kind)) s w) as Hopen.
  change (win (PS := noted PS) (noting (acquired valid) [] (@ps_open_key PS provider (probe_key_name kind))))
    with (open_probe_key (PS := noted PS) kind provider) in Hopen.
  destruct (open_probe_key kind provider s w) as [key s1 w1|e s1 w1|w1|w1]; cbn in Hopen |- *; try done.
  destruct (bool_decide _ && _); [|done]. destruct (windows_error_code e) as [status|]; [|done].
  exact Hopen.
Qed.

Lemma balanced_experiment room {A} kind provider operation (absent : P A) (body : N -> P A) :
  balanced (S room) absent -> (forall key, balanced room (body key)) ->
  balanced (S room) (found ← open_key_for_experiment (PS := noted PS) kind provider operation;
                     match found with None => absent | Some key => owning (PS := noted PS) (mret key) body end).
Proof using Type.
  intros Ha Hb. apply (balanced_noted _ opened); [apply notes_experiment|].
  intros [key|] s0 s w Hs; [by apply owning_from|]. apply balanced_from; [done|]. by rewrite Hs, app_nil_r.
Qed.

Lemma balanced_open_key kind provider : acquires valid (open_probe_key (PS := noted PS) kind provider).
Proof using Type. apply win_acquires. Qed.

(** ** The commands *)

Lemma balanced_get_property room h q : balanced room (probe_get_property (PS := noted PS) h q).
Proof using Type. unfold probe_get_property. quiet_tac. Qed.
Lemma balanced_provider_status room kind h : balanced room (print_provider_status (PS := noted PS) kind h).
Proof using Type.
  unfold print_provider_status, print_optional_u32, probe_get_u32. pose proof (balanced_get_property room). quiet_tac.
Qed.
Lemma balanced_inspect room h : balanced room (inspect_key (PS := noted PS) h).
Proof using Type. unfold inspect_key, probe_get_u32, probe_get_utf16. pose proof (balanced_get_property room). quiet_tac. Qed.
Lemma balanced_unsupported room op status : balanced room (report_unsupported (PS := noted PS) op status).
Proof using Type. unfold report_unsupported. quiet_tac. Qed.
Lemma balanced_prepare room h : balanced room (prepare_wrapped_dek (PS := noted PS) h).
Proof using Type. unfold prepare_wrapped_dek. quiet_tac. Qed.
Lemma balanced_unwrap_once room h b e : balanced room (unwrap_once (PS := noted PS) h b e).
Proof using Type. unfold unwrap_once. quiet_tac. Qed.
Lemma balanced_summary room samples : balanced room (print_timing_summary (PS := noted PS) samples).
Proof using Type. unfold print_timing_summary. quiet_tac. Qed.
Hint Resolve balanced_provider_status balanced_inspect balanced_unsupported balanced_prepare balanced_unwrap_once
  balanced_summary : balanced.

Lemma balanced_samples room label (measure : P N) n : balanced room measure -> balanced room (collect_samples (PS := noted PS) label measure n).
Proof using Type.
  intros Hm. unfold collect_samples, with_capacity. apply balanced_bind; [apply balanced_unwrap|]. intros _.
  generalize 0, (@nil N). induction (N.to_nat n) as [|k IH]; intros index samples; cbn [sample_loop]; [apply balanced_ret|].
  apply balanced_bind; [done|]. intros elapsed. apply balanced_bind; [apply balanced_println|]. intros _. apply IH.
Qed.
Hint Resolve balanced_samples : balanced.

Lemma balanced_create_key kind h : balanced 1 (probe_create_key (PS := noted PS) kind h).
Proof using Type.
  unfold probe_create_key, probe_set_u32. apply balanced_bind; [auto with balanced|]. intros _.
  apply (balanced_noted _ (acquired valid)); [apply notes_on_system, notes_noting|].
  intros [key|code] s0 s w Hs.
  - apply owning_from; [done|]. quiet_tac.
  - apply balanced_from; [quiet_tac|]. by rewrite Hs, app_nil_r.
Qed.

(** The one handle that its block does not free: the deletion did. *)
Lemma notes_delete key s w :
  returns (fun (r : FcpResult unit) s' _ => trace s' = trace s ++ (if is_ok r then release valid key else [])) (fun _ _ _ => False)
    (try_ (win (PS := noted PS) (@ps_delete (noted PS) key)) s w).
Proof using Type.
  unfold try_, win, on_system, zoom, mbind, M_bind. cbn [ps_delete noted]. unfold noting.
  destruct (@ps_delete PS key (pr_system s).1 w) as [[[]|code] x w1|e x w1|w1|w1]; done.
Qed.

Lemma balanced_delete_key kind h : balanced 1 (delete_key (PS := noted PS) kind h).
Proof using Hzero.
  unfold delete_key. apply (balanced_noted _ opened); [apply notes_experiment|].
  intros [key|] s0 s w Hs; [|apply balanced_from; [quiet_tac|by rewrite Hs, app_nil_r]].
  assert (Hend : forall s1, trace s1 = trace s ++ release valid key -> extends 1 s0 s1).
  { intros s1 H1. eapply (extends_held 0 valid key s0 s s); [done|by apply extends_same|done]. }
  assert (Hdone : balanced 1 (_ ← println (PS := noted PS) "key_deleted=true"; drop_probe_handle (PS := noted PS) 0)).
  { apply balanced_bind; [apply balanced_println|]. intros _. unfold drop_probe_handle. cbn [ps_is_invalid noted].
    rewrite Hzero. apply balanced_on_system, balanced_ret. }
  apply returns_bind. eapply returns_mono; [apply notes_delete|cbn beta..].
  - intros [[]|code] s1 w1 H1; cbn [is_ok] in H1.
    + eapply returns_mono; [apply Hdone|..]; cbn beta; intros; (eapply extends_trans; [by apply Hend|done]).
    + apply returns_bind. eapply returns_mono; [apply releases_drop|cbn beta..]; intros; apply Hend; by rewrite H1, app_nil_r in *.
  - done.
Qed.

Lemma balanced_lock_probe room h : balanced room (lock_probe (PS := noted PS) h).
Proof using Type. unfold lock_probe, lock_prompt. quiet_tac. Qed.
Lemma balanced_roundtrip room h n : balanced room (roundtrip (PS := noted PS) h n).
Proof using Type. unfold roundtrip. quiet_tac. Qed.
Hint Resolve balanced_lock_probe balanced_roundtrip : balanced.

Lemma balanced_lock_prompt room : balanced room (lock_prompt (PS := noted PS)).
Proof using Type. unfold lock_prompt. quiet_tac. Qed.

Lemma balanced_lock_handle_probe kind h : balanced 1 (lock_handle_probe (PS := noted PS) kind h).
Proof using Type.
  unfold lock_handle_probe. apply balanced_bind; [|intros prepared; apply balanced_bind; [apply balanced_lock_prompt|intros _]].
  all: apply balanced_owning; [apply balanced_open_key|intros key; quiet_tac].
Qed.

Lemma balanced_handle_cycle kind h n : balanced 1 (handle_cycle (PS := noted PS) kind h n).
Proof using Type.
  unfold handle_cycle. apply (balanced_noted _ opened); [apply notes_experiment|].
  intros [key|] s0 s w Hs; [|apply balanced_from; [quiet_tac|by rewrite Hs, app_nil_r]].
  apply returns_bind. eapply returns_mono; [apply owning_from; [exact Hs|quiet_tac]|cbn beta..]; [|done].
  intros [dek wrapped] s1 w1 H1.
  assert (Hrest : balanced 1 (samples ← collect_samples (PS := noted PS) "handle_cycle_sample"
      (owning (open_probe_key (PS := noted PS) kind h) (fun key => unwrap_once key wrapped dek)) n;
    _ ← print_timing_summary samples; println (PS := noted PS) "handle_cycle_verified=true")).
  { apply balanced_bind; [|intros samples; quiet_tac]. apply balanced_samples.
    apply balanced_owning; [apply balanced_open_key|intros k; quiet_tac]. }
  eapply returns_mono; [apply Hrest|..]; cbn beta; intros; by eapply extends_trans.
Qed.

Lemma balanced_with_provider room kind (operation : N -> P unit) :
  (forall h, balanced room (operation h)) -> balanced (S room) (with_probe_provider (PS := noted PS) kind operation).
Proof using Type.
  intros Ho. unfold with_probe_provider. apply balanced_owning; [apply win_acquires|]. intros h.
  apply balanced_bind; [apply balanced_println|]. intros _. apply Ho.
Qed.

Lemma balanced_experiment_key room kind h op (body : N -> P unit) :
  (forall key, balanced room (body key)) -> balanced (S room) (with_experiment_key (PS := noted PS) kind h op body).
Proof using Type.
  intros Hb. unfold with_experiment_key. apply balanced_experiment; [apply balanced_ret|]. intros key.
  apply balanced_bind; [apply balanced_inspect|]. intros _. apply Hb.
Qed.

Lemma balanced_in_apartment room {A} (body : P A) : balanced room body -> balanced room (in_apartment (PS := noted PS) body).
Proof using Type. intros Hb. unfold in_apartment. quiet_tac. Qed.
Lemma balanced_supported room : balanced room (hello_supported (PS := noted PS)).
Proof using Type. unfold hello_supported. quiet_tac. Qed.
Lemma balanced_sign_and_verify room c b : balanced room (request_sign_and_verify (PS := noted PS) c b).
Proof using Type. unfold request_sign_and_verify. quiet_tac. Qed.
Lemma balanced_open_credential room : balanced room (open_hello_credential (PS := noted PS)).
Proof using Type. unfold open_hello_credential. quiet_tac. Qed.
Hint Resolve balanced_supported balanced_sign_and_verify balanced_open_credential : balanced.
Lemma balanced_create_credential room : balanced room (create_or_open_hello_credential (PS := noted PS)).
Proof using Type. unfold create_or_open_hello_credential. quiet_tac. Qed.
Lemma balanced_timed room acquire started : balanced room acquire -> balanced room (timed_acquire (PS := noted PS) acquire started).
Proof using Type. intros Ha. unfold timed_acquire. quiet_tac. Qed.
Hint Resolve balanced_create_credential balanced_timed : balanced.

Lemma balanced_command argument m : command (PS := noted PS) argument m -> balanced 2 m.
Proof using Hzero.
  intros [].
  - apply balanced_throw.
  - apply balanced_with_provider. intros h. apply balanced_provider_status.
  - apply balanced_with_provider. intros h. apply balanced_create_key.
  - apply balanced_with_provider. intros h. apply balanced_delete_key.
  - apply balanced_with_provider. intros h. apply balanced_experiment_key. intros key. apply balanced_ret.
  - unfold with_roundtrip. apply balanced_bind; [apply balanced_lift|]. intros n. apply balanced_with_provider. intros h.
    apply balanced_bind; [apply balanced_provider_status|]. intros _. apply balanced_experiment_key. intros key. apply balanced_roundtrip.
  - unfold with_handle_cycle. apply balanced_bind; [apply balanced_lift|]. intros n. apply balanced_with_provider. intros h.
    apply balanced_bind; [apply balanced_provider_status|]. intros _. apply balanced_handle_cycle.
  - apply balanced_with_provider. intros h. apply balanced_bind; [apply balanced_provider_status|]. intros _.
    apply balanced_experiment_key. intros key. apply balanced_lock_probe.
  - apply balanced_with_provider. intros h. apply balanced_bind; [apply balanced_provider_status|]. intros _.
    apply balanced_lock_handle_probe.
  - apply balanced_in_apartment. quiet_tac.
  - apply balanced_in_apartment. unfold sign_and_verify_hello_challenge, read_prompt_observation.
    apply balanced_bind; [quiet_tac|]. intros supported. do 2 (apply balanced_bind; [quiet_tac|intros ?]).
    apply balanced_bind; [apply balanced_timed; destruct open_only; quiet_tac|]. intros credential. quiet_tac.
  - unfold hello_sign_cycle. apply balanced_bind; [apply balanced_lift|]. intros n. apply balanced_in_apartment.
    apply balanced_bind; [quiet_tac|]. intros supported. do 3 (apply balanced_bind; [quiet_tac|intros ?]).
    apply balanced_bind; [apply balanced_samples; quiet_tac|]. intros samples. quiet_tac.
Qed.
End Balanced.

(** ** Properties *)

(** C34: Whatever the providers answer, and with whichever arguments, as long as the
    number of iterations fits in the memory of a machine: the probe does not panic,
    changes no file, and when it ends every provider and key it was handed has been
    given back exactly once, by [Drop] or by its deletion, in the reverse order and
    never with more than two held. *)
Theorem probe_gives_handles_back `{PS : ProbeSystem, PT : ProbeText, PL : !ProbeSystemLaws} args output input system w :
  modest (args !! 1%nat) ->
  match probe_run (PS := noted PS) args (mkProbe output input (system, [])) w with
  | Done _ s w' | Failed _ s w' => untouched w w' /\ brackets 2 [] (pr_system s).2 = Some []
  | Crashed w' => untouched w w'
  | Panicked _ => False
  end.
Proof.
  intros Hm. pose proof (probe_run_command (PS := noted PS) args) as Hc.
  pose proof (calm_command (PL := noted_laws PS PL) _ _ Hm Hc (mkProbe output input (system, [])) w) as H1.
  pose proof (balanced_command PS zero_invalid _ _ Hc (mkProbe output input (system, [])) w) as H2.
  unfold wp, returns in *. destruct (probe_run args _ w) as [[] s w'|e s w'|w'|w']; cbn in H1; [..|done|done].
  all: split; [done|]; destruct H2 as (events & He & Hb); change ((pr_system s).2) with (trace s); rewrite He; exact (Hb []).
Qed.

(** ** Example *)

(** A system whose keys keep nothing secret: a ciphertext is the message. *)
Definition toy_handle : M N (Result N N) := fun next w => Done (Ok next) (next + 1) w.
Definition toy_property (q : ProbeProperty) : bytes :=
  match q with
  | Property.ImplType => le_bytes 4 1
  | Property.Algorithm => [Byte.x52; Byte.x00; Byte.x53; Byte.x00; Byte.x41; Byte.x00; Byte.x00; Byte.x00]
  | Property.KeyLength => le_bytes 4 2048
  | Property.UniqueName => [Byte.x2f; Byte.x00; Byte.x6b; Byte.x00]
  | _ => le_bytes 4 0
  end.

Definition toy_probe_system : ProbeSystem := {|
  System := N;
  ps_open_provider _ := toy_handle;
  ps_open_key _ _ := toy_handle;
  ps_create_key _ _ := toy_handle;
  ps_get_size _ q := mret (Ok (len (toy_property q)));
  ps_get _ q _ := mret (Ok (toy_property q, len (toy_property q)));
  ps_set _ _ _ := mret (Ok tt);
  ps_finalize _ := mret (Ok tt);
  ps_delete _ := mret (Ok tt);
  ps_encrypt_size _ b := mret (Ok (len b));
  ps_encrypt _ b n := mret (Ok (b, n));
  ps_decrypt _ b n := mret (Ok (b, n));
  ps_is_invalid h := h =? 0;
  ps_free _ := mret tt;
  ps_random n := mret (Ok (replicate (N.to_nat n) Byte.x2a));
  ps_now := fun next w => Done (next * 1000000) next w;
  ui_policy_bytes := [];
  ro_initialize := mret (Ok tt);
  ro_uninitialize := mret tt;
  kc_is_supported := mret (Ok true);
  kc_request_create _ := mret (Ok 1);
  kc_open _ := mret (Ok 1);
  kc_status _ := mret (Ok Credential.Success);
  kc_status_code _ := 0;
  kc_credential r := mret (Ok r);
  kc_create_buffer _ := mret (Ok 2);
  kc_request_sign _ _ := mret (Ok 3);
  kc_sign_status _ := mret (Ok Credential.Success);
  kc_sign_result o := mret (Ok o);
  kc_public_key c := mret (Ok c);
  kc_open_algorithm := mret (Ok 4);
  kc_import_key _ k := mret (Ok k);
  kc_verify _ _ _ := mret (Ok true);
|}.

Lemma toy_probe_laws : @ProbeSystemLaws toy_probe_system.
Proof. split; [|done]. intros A m Hm s w. by destruct Hm. Qed.

Section ProbeExample.
#[local] Existing Instances toy_probe_system toy_probe_laws.
#[local] Instance toy_probe_text : ProbeText := {| milliseconds_text n := pretty n; error_display _ := "error"%string |}.
Definition probe_world : World := mkWorld ∅ 0 (mkEnv (fun _ => NoFault) (fun n => N.of_nat n) (fun _ => 0)).

Example roundtrip_is_verified :
  match probe_run (PS := toy_probe_system) ["roundtrip"; "3"]%string (mkProbe [] [] 1) probe_world with
  | Done _ s _ => list.last (pr_output s) = Some ("roundtrip_verified=true" +:+ newline)%string
  | _ => False
  end.
Proof. vm_compute. reflexivity. Qed.

Lemma probe_gives_handles_back_witness :
  match probe_run (PS := noted toy_probe_system) ["handle-cycle"; "3"]%string (mkProbe [] [] (1, [])) probe_world with
  | Done _ s w' | Failed _ s w' => untouched probe_world w' /\ brackets 2 [] (pr_system s).2 = Some []
  | Crashed w' => untouched probe_world w'
  | Panicked _ => False
  end.
Proof.
  apply (probe_gives_handles_back (PS := toy_probe_system) ["handle-cycle"; "3"]%string [] [] 1 probe_world).
  intros text n [= <-] [= <-]. vm_compute. discriminate.
Defined.
End ProbeExample.
