(* ===== verification/WebauthnProbe.v ===== *)
(** * src/poc/webauthn-probe: the probe of WebAuthn, and its cleanup

    Two programs: one makes a credential for a name that is no web site and asks for
    two assertions with it; the other deletes the credentials that the first left.
    The structures that they fill in are constants; what varies is passed. *)

From Stdlib Require Import Strings.Ascii.
From S2P Require Import Prelude World External Examples Config.

Definition PROBE_RP_ID : string := "fursoy-cookie-protector.local".
Definition PROBE_RP_NAME : string := "FURSOY Cookie Protector (probe)".
Definition PROBE_USER_ID : bytes := list_byte_of_string "webauthn-probe01".
Definition PROBE_USER_NAME : string := "probe-user".
Definition TARGET_USER_NAME : string := "probe-user".

(** A string with single quotes for the quotation marks of JSON. *)
Definition unquote (c : ascii) : ascii := if N_of_ascii c =? 39 then ascii_of_N 34 else c.
Fixpoint with_quotes (s : string) : string :=
  match s with EmptyString => EmptyString | String c rest => String (unquote c) (with_quotes rest) end.

Definition create_client_data : bytes := list_byte_of_string (with_quotes
  "{'type':'webauthn.create','challenge':'cHJvYmUtY2hhbGxlbmdl','origin':'https://fursoy-cookie-protector.local','crossOrigin':false}").
Definition get_client_data : bytes := list_byte_of_string (with_quotes
  "{'type':'webauthn.get','challenge':'cHJvYmUtY2hhbGxlbmdl','origin':'https://fursoy-cookie-protector.local','crossOrigin':false}").

(** [WEBAUTHN_CREDENTIAL_DETAILS]: the user information, if there is any, with the
    name if it is text; and the identifier. *)
Record CredentialDetails := mkDetails {
  cd_user : option (option string);
  cd_id : bytes;
}.

(** The platform and the terminal. A credential, an assertion and a list come with
    the pointer that has to be freed. *)
Class WebAuthnPlatform := {
  Platform : Type;
  wa_window : M Platform N;
  wa_make_credential : N -> string -> string -> string -> bytes -> bytes -> M Platform (Result N (N * bytes));
  wa_free_attestation : N -> M Platform unit;
  wa_get_assertion : N -> string -> bytes -> bytes -> M Platform (Result N N);
  wa_free_assertion : N -> M Platform unit;
  wa_list : string -> M Platform (Result N (N * list CredentialDetails));
  wa_delete : bytes -> M Platform (Result N unit);
  wa_free_list : N -> M Platform unit;
  (** [WebAuthNGetErrorName]: null, or a text that may be malformed. *)
  wa_error_name : N -> option (option string);
  wa_now : M Platform N;
  debug_handle : N -> string;
  debug_hresult : N -> string;
  error_message : N -> string;
  debug_duration : N -> string;
  debug_string : string -> string;
}.

Section Probe.
Context `{WP : WebAuthnPlatform}.
Abbreviation W := (M (list string * Platform)).

Definition platform {A} (m : M Platform A) : W A := zoom snd (fun p s => (fst s, p)) m.
Definition tell (line : string) : W unit := modify (fun s => (s.1 ++ [line], s.2)).

(** [readable_error_name]. *)
Definition readable_error_name (hresult : N) : string :=
  match wa_error_name hresult with Some (Some text) => text | _ => "?" end.

(** [get_assertion]. *)
Definition probe_assertion (credential_id : bytes) (hwnd : N) (attempt : N) : W unit :=
  _ ← tell ("[attempt " +:+ pretty attempt +:+ "] calling WebAuthNAuthenticatorGetAssertion...");
  start ← platform wa_now;
  result ← platform (wa_get_assertion hwnd PROBE_RP_ID credential_id get_client_data);
  now ← platform wa_now;
  let elapsed := saturating_sub now start in
  match result with
  | Ok assertion =>
      _ ← tell ("[attempt " +:+ pretty attempt +:+ "] SUCCESS in " +:+ debug_duration elapsed);
      platform (wa_free_assertion assertion)
  | Err code =>
      tell ("[attempt " +:+ pretty attempt +:+ "] FAILED in " +:+ debug_duration elapsed +:+ ": "
            +:+ readable_error_name code +:+ " — " +:+ error_message code)
  end.

(** [main] of the probe. *)
Definition webauthn_probe_main : W unit :=
  hwnd ← platform wa_window;
  _ ← tell ("probe console hwnd = " +:+ debug_handle hwnd);
  _ ← tell "calling WebAuthNAuthenticatorMakeCredential — watch whether the Hello prompt is owned/foregrounded...";
  result ← platform (wa_make_credential hwnd PROBE_RP_ID PROBE_RP_NAME PROBE_USER_NAME PROBE_USER_ID create_client_data);
  match result with
  | Ok (attestation, credential_id) =>
      _ ← tell "SUCCESS: credential created, synthetic RP id/origin were accepted.";
      _ ← platform (wa_free_attestation attestation);
      _ ← tell (newline +:+ "--- now testing whether a second GetAssertion right after the first skips UI ---");
      _ ← probe_assertion credential_id hwnd 1;
      probe_assertion credential_id hwnd 2
  | Err code =>
      tell ("FAILED: hresult=" +:+ debug_hresult code +:+ " name=" +:+ readable_error_name code +:+ " message=" +:+ error_message code)
  end.

(** [main] of the cleanup: the name of an entry, the loop, the program. *)
Definition user_name (details : CredentialDetails) : string :=
  match cd_user details with Some (Some name) => name | _ => EmptyString end.

Fixpoint cleanup_loop (entries : list CredentialDetails) (deleted : N) : W N :=
  match entries with
  | [] => mret deleted
  | details :: rest =>
      let name := user_name details in
      _ ← tell ("  credential user=" +:+ debug_string name +:+ " id_len=" +:+ pretty (len (cd_id details)));
      if String.eqb name TARGET_USER_NAME then
        result ← platform (wa_delete (cd_id details));
        match result with
        | Ok _ =>
            _ ← tell ("  -> deleted (user=" +:+ debug_string name +:+ ")");
            cleanup_loop rest (deleted + 1)
        | Err error =>
            _ ← tell ("  -> delete FAILED: " +:+ error_message error);
            cleanup_loop rest deleted
        end
      else cleanup_loop rest deleted
  end.

Definition cleanup_main : W unit :=
  listed ← (r ← platform (wa_list PROBE_RP_ID); lift (map_err Windows r));
  let '(pointer, entries) := (listed : N * list CredentialDetails) in
  _ ← tell ("found " +:+ pretty (len entries) +:+ " credential(s) for RP id fursoy-cookie-protector.local");
  deleted ← cleanup_loop entries 0;
  _ ← platform (wa_free_list pointer);
  tell ("done, deleted " +:+ pretty deleted +:+ " credential(s)").
End Probe.

(** ** What the cleanup deletes *)

(** The platform with a record of the deletions that were asked for. *)
Definition recording (WP : WebAuthnPlatform) : WebAuthnPlatform :=
  let on {A} (note : list bytes) (m : M (@Platform WP) A) : M (@Platform WP * list bytes) A := fun s w =>
    match m s.1 w with
    | Done a p w' => Done a (p, s.2 ++ note) w'
    | Failed e p w' => Failed e (p, s.2 ++ note) w'
    | Panicked w' => Panicked w'
    | Crashed w' => Crashed w'
    end in
  {| Platform := @Platform WP * list bytes;
     wa_window := on [] wa_window;
     wa_make_credential h a b c d e := on [] (wa_make_credential h a b c d e);
     wa_free_attestation p := on [] (wa_free_attestation p);
     wa_get_assertion h a b c := on [] (wa_get_assertion h a b c);
     wa_free_assertion p := on [] (wa_free_assertion p);
     wa_list rp := on [] (wa_list rp);
     wa_delete id := on [id] (wa_delete id);
     wa_free_list p := on [] (wa_free_list p);
     wa_error_name := wa_error_name;
     wa_now := on [] wa_now;
     debug_handle := debug_handle;
     debug_hresult := debug_hresult;
     error_message := error_message;
     debug_duration := debug_duration;
     debug_string := debug_string |}.

(** The probe's credentials among the entries. *)
Definition probe_credentials (entries : list CredentialDetails) : list bytes :=
  cd_id <$> List.filter (fun d => String.eqb (user_name d) TARGET_USER_NAME) entries.

Lemma recorded_delete (WP : WebAuthnPlatform) id s w :
  platform (WP := recording WP) (@wa_delete (recording WP) id) s w =
    match @wa_delete WP id s.2.1 w with
    | Done a p w' => Done a (s.1, (p, s.2.2 ++ [id])) w'
    | Failed e p w' => Failed e (s.1, (p, s.2.2 ++ [id])) w'
    | Panicked w' => Panicked w'
    | Crashed w' => Crashed w'
    end.
Proof. unfold platform, zoom. cbn [wa_delete recording]. by destruct (@wa_delete WP id s.2.1 w). Qed.

Lemma recorded_free (WP : WebAuthnPlatform) pointer s w :
  platform (WP := recording WP) (@wa_free_list (recording WP) pointer) s w =
    match @wa_free_list WP pointer s.2.1 w with
    | Done a p w' => Done a (s.1, (p, s.2.2)) w'
    | Failed e p w' => Failed e (s.1, (p, s.2.2)) w'
    | Panicked w' => Panicked w'
    | Crashed w' => Crashed w'
    end.
Proof. unfold platform, zoom. cbn [wa_free_list recording]. by destruct (@wa_free_list WP pointer s.2.1 w); cbn; rewrite ?app_nil_r. Qed.

Lemma cleanup_loop_deletes `{WP : WebAuthnPlatform} entries deleted s w :
  returns (fun count s' _ => s'.2.2 = s.2.2 ++ probe_credentials entries /\ deleted <= count <= deleted + len (probe_credentials entries))
    (fun _ s' _ => exists later, s.2.2 ++ probe_credentials entries = s'.2.2 ++ later)
    (cleanup_loop (WP := recording WP) entries deleted s w).
Proof.
  revert deleted s w. induction entries as [|details entries IH]; intros deleted s w; cbn [cleanup_loop].
  { split; [by rewrite app_nil_r|unfold len; cbn; lia]. }
  unfold probe_credentials. cbn [List.filter]. fold (probe_credentials entries).
  unfold mbind at 1, M_bind at 1, tell at 1, modify at 1.
  destruct (String.eqb (user_name details) TARGET_USER_NAME); [|exact (IH deleted (_, s.2) w)].
  cbn [fmap list_fmap]. apply returns_bind. rewrite recorded_delete. cbn [fst snd].
  assert (Hnext : forall count l p w1, deleted <= count <= deleted + 1 ->
    returns (fun count' s' _ => s'.2.2 = s.2.2 ++ cd_id details :: probe_credentials entries /\
               deleted <= count' <= deleted + len (cd_id details :: probe_credentials entries))
      (fun _ s' _ => exists later, s.2.2 ++ cd_id details :: probe_credentials entries = s'.2.2 ++ later)
      (cleanup_loop (WP := recording WP) entries count (l, (p, s.2.2 ++ [cd_id details])) w1)).
  { intros count l p w1 Hcount. eapply returns_mono; [apply IH|cbn..].
    - intros count' s' _ [-> H2]. rewrite <- app_assoc. split; [done|]. unfold len in *. cbn [length]. lia.
    - intros e s' _ [later Hl]. exists later. by rewrite <- Hl, <- app_assoc. }
  match goal with |- context [@wa_delete WP ?id ?p ?w] => destruct (@wa_delete WP id p w) as [[[]|error] p1 w1|e p1 w1|w1|w1] end;
    cbn [returns]; try done.
  - apply (Hnext (deleted + 1) (_ ++ [_])). lia.
  - apply (Hnext deleted (_ ++ [_])). lia.
  - exists (probe_credentials entries). cbn. by rewrite <- app_assoc.
Qed.

(** ** Properties *)

(** The cleanup deletes the probe's own credentials and no others: whatever the
    platform answers, the deletions it asks for are the entries whose user is the
    probe, each once and in the order of the list, and it stops early only if a call
    itself breaks off. *)
Theorem cleanup_deletes_own_credentials `{WP : WebAuthnPlatform} lines p w pointer entries p' w' :
  wa_list PROBE_RP_ID p w = Done (Ok (pointer, entries)) p' w' ->
  returns (fun _ s _ => s.2.2 = probe_credentials entries)
    (fun _ s _ => exists later, probe_credentials entries = s.2.2 ++ later)
    (cleanup_main (WP := recording WP) (lines, (p, [])) w).
Proof.
  intros Hlist. unfold cleanup_main. apply returns_bind. unfold platform, zoom, mbind, M_bind.
  cbn [wa_list recording fst snd]. rewrite Hlist. cbn [returns map_err lift mret M_ret app].
  change (returns (fun _ s _ => s.2.2 = probe_credentials entries) (fun _ s _ => exists later, probe_credentials entries = s.2.2 ++ later)
    ((deleted ← cleanup_loop (WP := recording WP) entries 0;
      _ ← platform (WP := recording WP) (@wa_free_list (recording WP) pointer);
      tell (WP := recording WP) ("done, deleted " +:+ pretty deleted +:+ " credential(s)"))
     (lines ++ ["found " +:+ pretty (len entries) +:+ " credential(s) for RP id fursoy-cookie-protector.local"]%string, (p', [])) w')).
  apply returns_bind. eapply returns_mono; [apply cleanup_loop_deletes|cbn beta..].
  - intros count s1 w1 [H1 _]. cbn [fst snd app] in H1. apply returns_bind. rewrite recorded_free. cbn [fst snd].
    match goal with |- context [@wa_free_list WP ?q ?p ?w] => destruct (@wa_free_list WP q p w) as [[] p1 w2|e p1 w2|w2|w2] end;
      cbn [returns]; try done.
    exists []. cbn. by rewrite app_nil_r, H1.
  - intros e s1 w1 [l Hl]. by exists l.
Qed.

(** ** Example *)

Definition toy_platform : WebAuthnPlatform := {|
  Platform := list CredentialDetails;
  wa_window := mret 0;
  wa_make_credential _ _ _ _ _ _ := mret (Ok (1, [Byte.x2a]));
  wa_free_attestation _ := mret tt;
  wa_get_assertion _ _ _ _ := mret (Ok 2);
  wa_free_assertion _ := mret tt;
  wa_list _ := fun entries w => Done (Ok (3, entries)) entries w;
  wa_delete id := fun entries w => Done (Ok tt) (List.filter (fun d => negb (bool_decide (cd_id d = id))) entries) w;
  wa_free_list _ := mret tt;
  wa_error_name _ := None;
  wa_now := mret 0;
  debug_handle := pretty;
  debug_hresult := pretty;
  error_message := pretty;
  debug_duration := pretty;
  debug_string s := s;
|}.

Definition cleanup_entries : list CredentialDetails :=
  [mkDetails (Some (Some "probe-user"%string)) [Byte.x01]; mkDetails (Some (Some "somebody"%string)) [Byte.x02];
   mkDetails None [Byte.x03]; mkDetails (Some (Some "probe-user"%string)) [Byte.x04]].
Definition cleanup_world : World := mkWorld ∅ 0 (mkEnv (fun _ => NoFault) (fun n => N.of_nat n) (fun _ => 0)).

Lemma cleanup_deletes_own_credentials_witness :
  probe_credentials cleanup_entries = [[Byte.x01]; [Byte.x04]] /\
  returns (fun _ s _ => s.2.2 = probe_credentials cleanup_entries)
    (fun _ s _ => exists later, probe_credentials cleanup_entries = s.2.2 ++ later)
    (cleanup_main (WP := recording toy_platform) ([], (cleanup_entries, [])) cleanup_world).
Proof.
  split; [reflexivity|].
  apply (cleanup_deletes_own_credentials (WP := toy_platform) [] cleanup_entries cleanup_world 3 cleanup_entries cleanup_entries cleanup_world).
  reflexivity.
Defined.
